(** * Measure competition and financial metrics engine (run_web.py)

    A shallow embedding of the parts of [Engine] that the engine's
    specification talks about: the financial-metrics calculator
    ([metric_update], [payback], the lifetime floor of
    [calc_savings_metrics]), the competition routines
    ([compete_measures], [compete_res_primary], [compete_com_primary],
    [find_added_sbmkt_fracs], [compete_adj]) and the breakout walk of
    [finalize_outputs] ([out_break_walk]).

    Numbers.  The program computes with Python and numpy floats.  The
    financial functions are written once against a small arithmetic
    interface ([PyNum]) that has two instances: exact rationals ([Q]),
    the idealisation in which the arithmetic laws of the specification
    hold, and IEEE binary64 ([PrimFloat.float]), used where a property is
    about non-finite values.  The competition routines only need the exact
    instance and are written over [Q] directly.

    Years.  The program keys its per-year dictionaries by the strings
    "2015", "2016", ...; a year is embedded as the integer it spells.
    Dictionaries that the program fills for every year of the horizon are
    embedded as total functions of the year. *)

From Stdlib Require Import ZArith QArith Qabs Qround Qpower.
From Stdlib Require Import Bool String Ascii List.
From Stdlib Require Import Lia Lqa Sorted OrderedTypeEx.
From Stdlib Require Import PrimFloat.
Import ListNotations.

Set Implicit Arguments.
Set Warnings "-inexact-float,-register-all,-notation-for-abbreviation".

(** ** Python outcomes *)

(** The exceptions the embedded code can raise. *)
Inductive exn : Type :=
| ValueError
| LinAlgError
| ZeroDivisionError
| TypeError
| IndexError
| KeyError
| UnboundLocalError.

(** A call either returns a value or raises. *)
Inductive result (A : Type) : Type :=
| Ok (a : A)
| Raise (e : exn).

Arguments Ok {A} a.
Arguments Raise {A} e.

Definition bind {A B : Type} (r : result A) (k : A -> result B) : result B :=
  match r with
  | Ok a => k a
  | Raise e => Raise e
  end.

Notation "x <- r ;; k" := (bind r (fun x => k))
  (at level 61, r at next level, right associativity).

Definition year : Type := Z.

(** ** The arithmetic interface *)

(** [zero_div_raises] tells the two worlds apart at a division by zero: a
    Python number raises [ZeroDivisionError] (and an exact number has no
    quotient), a numpy float64 yields an infinity or a NaN. *)
Class PyNum (A : Type) : Type := {
  add : A -> A -> A;
  sub : A -> A -> A;
  mul : A -> A -> A;
  div : A -> A -> A;
  opp : A -> A;
  absv : A -> A;
  ltb : A -> A -> bool;
  leb : A -> A -> bool;
  eqb : A -> A -> bool;
  of_Z : Z -> A;
  isfinite : A -> bool;
  zero_div_raises : bool
}.

Definition Qltb (x y : Q) : bool := negb (Qle_bool y x).

#[export] Instance Q_PyNum : PyNum Q := {
  add := Qplus;
  sub := Qminus;
  mul := Qmult;
  div := Qdiv;
  opp := Qopp;
  absv := Qabs;
  ltb := Qltb;
  leb := Qle_bool;
  eqb := Qeq_bool;
  of_Z := inject_Z;
  isfinite := fun _ => true;
  zero_div_raises := true
}.

Fixpoint float_of_pos (p : positive) : float :=
  match p with
  | xH => 1%float
  | xO p' => PrimFloat.mul 2%float (float_of_pos p')
  | xI p' => PrimFloat.add (PrimFloat.mul 2%float (float_of_pos p')) 1%float
  end.

Definition float_of_Z (z : Z) : float :=
  match z with
  | Z0 => 0%float
  | Zpos p => float_of_pos p
  | Zneg p => PrimFloat.opp (float_of_pos p)
  end.

(** [math.isfinite] *)
Definition float_isfinite (x : float) : bool :=
  negb (PrimFloat.is_nan x || PrimFloat.is_infinity x).

#[export] Instance float_PyNum : PyNum float := {
  add := PrimFloat.add;
  sub := PrimFloat.sub;
  mul := PrimFloat.mul;
  div := PrimFloat.div;
  opp := PrimFloat.opp;
  absv := PrimFloat.abs;
  ltb := PrimFloat.ltb;
  leb := PrimFloat.leb;
  eqb := PrimFloat.eqb;
  of_Z := float_of_Z;
  isfinite := float_isfinite;
  zero_div_raises := false
}.

(** ** Financial metrics calculator *)

Module Finance.

Section Generic.

Context {A : Type} `{PyNum A}.

(** Python's [b / c] on the program's scalars. *)
Definition py_div (b c : A) : result A :=
  if zero_div_raises && eqb c (of_Z 0) then Raise ZeroDivisionError
  else Ok (div b c).

(** Python's built-in [sum]: a left fold from the integer 0. *)
Definition py_sum (l : list A) : A := fold_left add l (of_Z 0).

(** [x ** n] for the array [numpy.arange(0, len(values))] of exponents. *)
Fixpoint pow (x : A) (n : nat) : A :=
  match n with
  | O => of_Z 1
  | S n' => mul x (pow x n')
  end.

(** The terms [values[t] / (1 + rate) ** t] of [numpy.npv], from period
    [t] on. *)
Fixpoint npv_terms (rate : A) (t : nat) (values : list A) : list A :=
  match values with
  | [] => []
  | v :: vs => div v (pow (add (of_Z 1) rate) t) :: npv_terms rate (S t) vs
  end.

(** [numpy.npv(rate, values)]:
    [(values / (1 + rate) ** numpy.arange(0, len(values))).sum(axis=0)]. *)
Definition npv (rate : A) (values : list A) : A :=
  py_sum (npv_terms rate 0 values).

(** The [for cashflow in cashflows] loop of [payback]: [total] accumulates
    the flows, [years] counts the iterations in which the running total is
    still below the investment, [cumulative] records every running total. *)
Fixpoint payback_loop (investment : A) (cashflows : list A)
    (total : A) (years : nat) (cumulative : list A) : nat * list A :=
  match cashflows with
  | [] => (years, cumulative)
  | cashflow :: rest =>
      let total := add total cashflow in
      let years := if ltb total investment then S years else years in
      payback_loop investment rest total years (cumulative ++ [total])
  end.

(** The flows [payback] walks: those after the investment, the last entry
    of the input repeated until there are 100 of them
    ([list(cashflows[1:]) + [cashflows[-1]] * (100 - len(cashflows[1:]))]). *)
Definition extend_cashflows (cashflows : list A) : list A :=
  match cashflows with
  | [] => []
  | investment :: tail =>
      tail ++ repeat (last cashflows investment) (100 - length tail)
  end.

(** [Engine.payback] *)
Definition payback (cashflows : list A) : result A :=
  match cashflows with
  | [] => Raise IndexError
  | investment :: _ =>
      let cashflows' := extend_cashflows cashflows in
      if leb (of_Z 0) investment then Ok (of_Z 0)
      else
        let investment := absv investment in
        let '(years, cumulative) :=
          payback_loop investment cashflows' (of_Z 0) 0 [] in
        if (years <? length cashflows')%nat then
          let a := of_Z (Z.of_nat years) in
          let '(b, c) :=
            match years with
            | O => (investment, nth 0 cumulative (of_Z 0))
            | S y =>
                (sub investment (nth y cumulative (of_Z 0)),
                 sub (nth years cumulative (of_Z 0))
                     (nth y cumulative (of_Z 0)))
            end in
          q <- py_div b c ;; Ok (add a q)
        else Ok (of_Z 999)
  end.

(** Vocabulary for stating what the loop computes: the running totals it
    appends to [cumulative], and how many of them are below the
    investment. *)
Fixpoint running_totals (total : A) (cashflows : list A) : list A :=
  match cashflows with
  | [] => []
  | cashflow :: rest =>
      add total cashflow :: running_totals (add total cashflow) rest
  end.

Fixpoint count_below (investment : A) (totals : list A) : nat :=
  match totals with
  | [] => O
  | t :: ts =>
      ((if ltb t investment then 1 else 0) + count_below investment ts)%nat
  end.

(** *** [Engine.metric_update] *)

(** The attributes of a [Measure] that [metric_update] reads. *)
Record measure : Type := {
  end_use_primary : list string;
  measure_type : string;
  technology_type_primary : string;
  bldg_type : list string;
  (** [m.update_results["consumer metrics"]] *)
  update_consumer_metrics : bool
}.

(** The fields of [UsefulVars] that [metric_update] reads: the general
    discount rate (0.07) and [com_timeprefs["rates"]], the seven
    commercial discount-rate tiers. *)
Record handyvars : Type := {
  discount_rate : A;
  com_timeprefs_rates : list A
}.

(** What the numpy library contributes and the program does not define:
    [numpy.irr], which returns a float (possibly NaN) or raises, and whether
    [LinAlgError] is a subclass of [ValueError] in the numpy at hand. *)
Record numpy_lib : Type := {
  irr : list A -> result A;
  linalg_error_is_value_error : bool
}.

(** A commercial unit cost: the dict keyed "rate 1" ... "rate 7" (its
    values in that order), the scalar 999 that replaces it, or [None]. *)
Inductive com_unit_cost : Type :=
| ComRates (rates : list A)
| ComSentinel
| ComNone.

(** The fourteen values [metric_update] returns; [None] is Python's. *)
Record metrics : Type := {
  unit_cost_s_res : option A;
  unit_cost_e_res : option A;
  unit_cost_c_res : option A;
  unit_cost_s_com : com_unit_cost;
  unit_cost_e_com : com_unit_cost;
  unit_cost_c_com : com_unit_cost;
  irr_e : option A;
  irr_ec : option A;
  payback_e : option A;
  payback_ec : option A;
  cce : A;
  cce_bens : A;
  ccc : A;
  ccc_bens : A
}.

Definition sentinel : A := of_Z 999.

(** [range(lo, hi)] *)
Definition py_range (lo hi : Z) : list Z :=
  map (fun k => (lo + Z.of_nat k)%Z) (seq 0 (Z.to_nat (hi - lo))).

Definition Z_in (x : Z) (l : list Z) : bool := existsb (Z.eqb x) l.

Definition str_in (x : string) (l : list string) : bool :=
  existsb (String.eqb x) l.

(** The years in which a longer-lived lighting measure avoids a purchase
    of the baseline technology ([added_stockcost_gain_yrs]).  [i % 0]
    raises as soon as the loop body runs. *)
Definition added_stockcost_gain_yrs (m : measure) (life_base life_meas : Z)
  : result (list Z) :=
  if (life_base <? life_meas)%Z
     && str_in "lighting" (end_use_primary m)
     && String.eqb (measure_type m) "full service"
     && String.eqb (technology_type_primary m) "supply"
  then
    match py_range 1 life_meas with
    | [] => Ok []
    | (_ :: _) as r =>
        if (life_base =? 0)%Z then Raise ZeroDivisionError
        else
          Ok (map (fun i => (i - 1)%Z)
                  (filter (fun i => (i mod life_base =? 0)%Z) r))
    end
  else Ok [].

(** [if life_meas < 1: life_meas = 1] *)
Definition floor_life_meas (life_meas : Z) : Z :=
  if (life_meas <? 1)%Z then 1%Z else life_meas.

(** The capital cash flows: the upfront cost followed, for every year of
    the measure life, by the avoided baseline cost or zero. *)
Definition capital_cashflows (gain_yrs : list Z) (life_meas : Z)
    (scost_base upfront : A) : list A :=
  upfront ::
  map (fun life_yr => if Z_in life_yr gain_yrs then scost_base else of_Z 0)
      (py_range 0 life_meas).

(** [numpy.append(0, [x] * life_meas)] *)
Definition annual_cashflows (life_meas : Z) (x : A) : list A :=
  of_Z 0 :: repeat x (Z.to_nat life_meas).

(** Element-wise [+] of two numpy arrays of one shape. *)
Definition arr_add (x y : list A) : list A :=
  map (fun p => add (fst p) (snd p)) (combine x y).

Definition residential (b : string) : bool :=
  str_in b ["single family home"; "multi family home"; "mobile home"]%string.

(** [not math.isfinite(x)] *)
Definition nonfinite (x : A) : bool := negb (isfinite x).

(** The [try] block that fills the commercial unit costs: a non-finite NPV
    at any tier raises [ValueError], whose handler rebinds the three
    outputs to 999. *)
Definition com_unit_costs (hv : handyvars) (s_tot e_tot c_tot : list A)
  : com_unit_cost * com_unit_cost * com_unit_cost :=
  let tier tps := (npv tps s_tot, npv tps e_tot, npv tps c_tot) in
  let tiers := map tier (com_timeprefs_rates hv) in
  let bad (t : A * A * A) :=
    let '(s, e, c) := t in
    nonfinite s || nonfinite e || nonfinite c in
  if existsb bad tiers then (ComSentinel, ComSentinel, ComSentinel)
  else (ComRates (map (fun t => fst (fst t)) tiers),
        ComRates (map (fun t => snd (fst t)) tiers),
        ComRates (map (fun t => snd t) tiers)).

(** [isinstance(e, ValueError)] for the exceptions of the model. *)
Definition is_value_error (np : numpy_lib) (e : exn) : bool :=
  match e with
  | ValueError => true
  | LinAlgError => linalg_error_is_value_error np
  | _ => false
  end.

(** [try: x = numpy.irr(cf); if not math.isfinite(x): raise ValueError
    except ValueError: x = 999] *)
Definition try_irr (np : numpy_lib) (cf : list A) : result A :=
  match irr np cf with
  | Ok v => if isfinite v then Ok v else Ok sentinel
  | Raise e => if is_value_error np e then Ok sentinel else Raise e
  end.

(** Vocabulary for stating the guard of the IRR: the output [v] is the
    value of [numpy.irr] on [cf] when that is finite, and 999 when it is
    not finite or [numpy.irr] raised a [ValueError]. *)
Definition replaced_irr (np : numpy_lib) (cf : list A) (v : option A)
  : Prop :=
  match irr np cf with
  | Ok x => v = Some (if isfinite x then x else of_Z 999)
  | Raise e => is_value_error np e = true /\ v = Some (of_Z 999)
  end.

(** [try: x = self.payback(cf) except (ValueError, LinAlgError): x = 999] *)
Definition try_payback (cf : list A) : result A :=
  match payback cf with
  | Ok v => Ok v
  | Raise ValueError | Raise LinAlgError => Ok sentinel
  | Raise e => Raise e
  end.

Definition metric_update (hv : handyvars) (np : numpy_lib) (m : measure)
    (life_base life_meas : Z)
    (scost_base scost_meas_delt esave ecostsave csave ccostsave
     scost_meas ecost_meas ccost_meas : A) : result metrics :=
  gain_yrs <- added_stockcost_gain_yrs m life_base life_meas ;;
  let life_meas := floor_life_meas life_meas in
  let cashflows_s_delt :=
    capital_cashflows gain_yrs life_meas scost_base scost_meas_delt in
  let cashflows_s_tot :=
    capital_cashflows gain_yrs life_meas scost_base scost_meas in
  let cashflows_e_delt := annual_cashflows life_meas ecostsave in
  let cashflows_c_delt := annual_cashflows life_meas ccostsave in
  let cashflows_e_tot := annual_cashflows life_meas ecost_meas in
  let cashflows_c_tot := annual_cashflows life_meas ccost_meas in
  let npv_s_delt := npv (discount_rate hv) cashflows_s_delt in
  let npv_e_delt := npv (discount_rate hv) cashflows_e_delt in
  let npv_c_delt := npv (discount_rate hv) cashflows_c_delt in
  let esave_array := annual_cashflows life_meas esave in
  let csave_array := annual_cashflows life_meas csave in
  let npv_esave := npv (discount_rate hv) esave_array in
  let npv_csave := npv (discount_rate hv) csave_array in
  let '(cce, cce_bens) :=
    if ltb (of_Z 0) npv_esave
    then (div (opp npv_s_delt) npv_esave,
          div (opp (add npv_s_delt npv_c_delt)) npv_esave)
    else (sentinel, sentinel) in
  let '(ccc, ccc_bens) :=
    if ltb (of_Z 0) npv_csave
    then (div (opp npv_s_delt) (mul npv_csave (of_Z 1000000)),
          div (opp (add npv_s_delt npv_e_delt))
              (mul npv_csave (of_Z 1000000)))
    else (sentinel, sentinel) in
  if update_consumer_metrics m then
    let '(s_res, e_res, c_res) :=
      if existsb residential (bldg_type m)
      then (Some scost_meas, Some ecost_meas, Some ccost_meas)
      else (None, None, None) in
    let '(s_com, e_com, c_com) :=
      if existsb (fun b => negb (residential b)) (bldg_type m)
      then com_unit_costs hv cashflows_s_tot cashflows_e_tot cashflows_c_tot
      else (ComNone, ComNone, ComNone) in
    irr_e <- try_irr np (arr_add cashflows_s_delt cashflows_e_delt) ;;
    payback_e <- try_payback (arr_add cashflows_s_delt cashflows_e_delt) ;;
    irr_ec <- try_irr np (arr_add (arr_add cashflows_s_delt cashflows_e_delt)
                                  cashflows_c_delt) ;;
    payback_ec <-
      try_payback (arr_add (arr_add cashflows_s_delt cashflows_e_delt)
                           cashflows_c_delt) ;;
    Ok {| unit_cost_s_res := s_res; unit_cost_e_res := e_res;
          unit_cost_c_res := c_res;
          unit_cost_s_com := s_com; unit_cost_e_com := e_com;
          unit_cost_c_com := c_com;
          irr_e := Some irr_e; irr_ec := Some irr_ec;
          payback_e := Some payback_e; payback_ec := Some payback_ec;
          cce := cce; cce_bens := cce_bens; ccc := ccc;
          ccc_bens := ccc_bens |}
  else
    Ok {| unit_cost_s_res := None; unit_cost_e_res := None;
          unit_cost_c_res := None;
          unit_cost_s_com := ComNone; unit_cost_e_com := ComNone;
          unit_cost_c_com := ComNone;
          irr_e := None; irr_ec := None;
          payback_e := None; payback_ec := None;
          cce := cce; cce_bens := cce_bens; ccc := ccc;
          ccc_bens := ccc_bens |}.

End Generic.

End Finance.

(** *** The constants of [UsefulVars] and sample measures *)

Module FinanceData.

Import Finance.

Local Open Scope string_scope.

(** [discount_rate = 0.07] and
    [com_timeprefs["rates"] = [10.0, 1.0, 0.45, 0.25, 0.15, 0.065, 0.0]]. *)
Definition handyvars_exact : handyvars (A := Q) :=
  {| discount_rate := 7 # 100;
     com_timeprefs_rates :=
       [10; 1; 45 # 100; 25 # 100; 15 # 100; 65 # 1000; 0]%Q |}.

Definition handyvars_float : handyvars (A := float) :=
  {| discount_rate := 0.07%float;
     com_timeprefs_rates := [10; 1; 0.45; 0.25; 0.15; 0.065; 0]%float |}.

(** A numpy whose [irr] finds no rate (it returns NaN, as [numpy.irr] does
    when the polynomial has no real root). *)
Definition numpy_no_rate : numpy_lib (A := float) :=
  {| irr := fun _ => Ok PrimFloat.nan;
     linalg_error_is_value_error := false |}.

(** The same for exact numbers, where there is no NaN: [irr] raises. *)
Definition numpy_no_rate_exact : numpy_lib (A := Q) :=
  {| irr := fun _ => Raise ValueError;
     linalg_error_is_value_error := false |}.

(** A residential and commercial full-service lighting measure whose
    consumer-level metrics are still to be computed. *)
Definition lighting_measure : measure :=
  {| end_use_primary := ["lighting"];
     measure_type := "full service";
     technology_type_primary := "supply";
     bldg_type := ["single family home"; "assembly"];
     update_consumer_metrics := true |}.

(** A commercial heating measure whose consumer-level metrics are final. *)
Definition heating_measure : measure :=
  {| end_use_primary := ["heating"];
     measure_type := "full service";
     technology_type_primary := "supply";
     bldg_type := ["assembly"];
     update_consumer_metrics := false |}.

End FinanceData.

(** ** The lifetime floor of [calc_savings_metrics] *)

Module Lifetime.

Local Open Scope Q_scope.

(** A lifetime read from the markets: a point value or a numpy array of
    samples. *)
Inductive value : Type :=
| Scalar (x : Q)
| Array (xs : list Q).

(** Python's built-in [any] over the elements of an array: an element is
    true when it is not zero. *)
Definition py_any (xs : list Q) : bool :=
  existsb (fun x => negb (Qeq_bool x 0)) xs.

(** [b < 1] for a Python bool [b]: [True] is 1 and [False] is 0. *)
Definition bool_lt_1 (b : bool) : bool := negb b.

(** Lines 616-619 (baseline) and 623-626 (measure):
[[
    if type(life) == numpy.ndarray and any(life) < 1:
        life[numpy.where(life) < 1] = 1
    elif type(life) != numpy.ndarray and life < 1:
        life = 1
]]
    In the array branch the test compares the bool [any(life)] with 1, and
    the assignment compares the tuple [numpy.where(life)] with 1, which
    raises [TypeError]. *)
Definition floor_lifetime (life : value) : result value :=
  match life with
  | Array xs =>
      if bool_lt_1 (py_any xs) then Raise TypeError else Ok (Array xs)
  | Scalar x => if Qltb x 1 then Ok (Scalar 1) else Ok (Scalar x)
  end.

(** The element-wise floor the comments of those lines describe. *)
Definition floor_elementwise (life : value) : value :=
  match life with
  | Array xs => Array (map (fun x => if Qltb x 1 then 1 else x) xs)
  | Scalar x => Scalar (if Qltb x 1 then 1 else x)
  end.

(** Python's [round] to an integer: to the nearest, ties to even. *)
Definition py_round (x : Q) : Z :=
  let f := Qfloor x in
  let frac := x - inject_Z f in
  if Qltb frac (1 # 2) then f
  else if Qltb (1 # 2) frac then (f + 1)%Z
  else if Z.even f then f else (f + 1)%Z.

(** The measure lifetime that reaches the cash-flow construction for one
    sample: [int(round(life_meas_tmp[x]))], floored by [metric_update]. *)
Definition life_meas_used (x : Q) : Z :=
  Finance.floor_life_meas (py_round x).

End Lifetime.

(** ** The breakout walk of [finalize_outputs] *)

Module Breakout.

Local Open Scope Q_scope.

(** A breakout structure: nested dicts (climate zone, building class, end
    use) whose innermost dicts map a year to a number. *)
Inductive brk : Type :=
| Leaf (v : Q)
| Dict (items : list (string * brk)).

(** [adjust_vals[k]] *)
Fixpoint lookup (k : string) (d : list (string * Q)) : result Q :=
  match d with
  | [] => Raise KeyError
  | (k', v) :: rest => if String.eqb k k' then Ok v else lookup k rest
  end.

(** What the loop body does to the item [(k, i)].  The loop visits the
    items in sorted key order and replaces each value in place; an
    iteration can only fail with [KeyError], so the outcome does not depend
    on the order and the items are kept in the order of the dict. *)
Fixpoint out_break_item (adjust_vals : list (string * Q)) (divide : bool)
    (k : string) (i : brk) {struct i} : result brk :=
  match i with
  | Dict items =>
      items' <-
        (fix walk (l : list (string * brk)) : result (list (string * brk)) :=
           match l with
           | [] => Ok []
           | (k', i') :: rest =>
               r <- out_break_item adjust_vals divide k' i' ;;
               rs <- walk rest ;;
               Ok ((k', r) :: rs)
           end) items ;;
      Ok (Dict items')
  | Leaf v =>
      d <- lookup k adjust_vals ;;
      if negb divide then Ok (Leaf (v * d))
      else if negb (Qeq_bool d 0) then
        q <- Finance.py_div v d ;; Ok (Leaf q)
      else Ok (Leaf 0)
  end.

(** [Engine.out_break_walk] *)
Fixpoint out_break_walk (adjust_dict : list (string * brk))
    (adjust_vals : list (string * Q)) (divide : bool)
  : result (list (string * brk)) :=
  match adjust_dict with
  | [] => Ok []
  | (k, i) :: rest =>
      r <- out_break_item adjust_vals divide k i ;;
      rs <- out_break_walk rest adjust_vals divide ;;
      Ok ((k, r) :: rs)
  end.

(** The leaves of a breakout structure, each with the path of keys that
    leads to it (outermost first). *)
Fixpoint leaves_item (path : list string) (k : string) (i : brk)
  : list (list string * string * Q) :=
  match i with
  | Leaf v => [(path, k, v)]
  | Dict items =>
      (fix go (l : list (string * brk)) : list (list string * string * Q) :=
         match l with
         | [] => []
         | (k', i') :: rest => leaves_item (path ++ [k]) k' i' ++ go rest
         end) items
  end.

Fixpoint leaves (path : list string) (d : list (string * brk))
  : list (list string * string * Q) :=
  match d with
  | [] => []
  | (k, i) :: rest => leaves_item path k i ++ leaves path rest
  end.

(** The normalisation total of a year, 0 where the dict has none. *)
Definition denominator (k : string) (adjust_vals : list (string * Q)) : Q :=
  match lookup k adjust_vals with
  | Ok d => d
  | Raise _ => 0
  end.

(** The breakout fraction of a leaf under a normalisation total. *)
Definition fraction (v d : Q) : Q :=
  if Qeq_bool d 0 then 0 else v / d.

Definition normalised (adjust_vals : list (string * Q))
    (leaf : list string * string * Q) : list string * string * Q :=
  let '(path, k, v) := leaf in
  (path, k, fraction v (denominator k adjust_vals)).

End Breakout.

(** ** Competition: shares and the adjustment primitive *)

Module Competition.

Local Open Scope Q_scope.

(** [needle in haystack] for two Python strings. *)
Fixpoint contains (needle haystack : string) : bool :=
  String.prefix needle haystack
  || match haystack with
     | EmptyString => false
     | String _ rest => contains needle rest
     end.

(** [d[yr] = v] on a per-year dict. *)
Definition upd (d : year -> Q) (yr : year) (v : Q) : year -> Q :=
  fun y => if (y =? yr)%Z then v else d y.

(** Built-in [sum] and [min]. *)
Definition Qsum (l : list Q) : Q := fold_left Qplus l 0.

Definition py_min (l : list Z) : result Z :=
  match l with
  | [] => Raise ValueError
  | x :: xs => Ok (fold_left Z.min xs x)
  end.

(** *** The data of one microsegment *)

(** The per-year dicts of a master or contributing microsegment that
    competition adjusts, as the program indexes them:
    [m["cost"]["stock"][status][case]], [m["cost"]["energy"][status][case]],
    [m["cost"]["carbon"][status][case]], [m["energy"][status][case]],
    [m["carbon"][status][case]] and [m["stock"][status]["measure"]]. *)
Inductive resource : Type :=
| CostStock | CostEnergy | CostCarbon | Energy | Carbon.

Inductive status : Type := Total | Competed.

Inductive case : Type := Baseline | Efficient.

Record mseg : Type := {
  stock_measure : status -> year -> Q;
  vals : resource -> status -> case -> year -> Q
}.

Definition resource_eqb (a b : resource) : bool :=
  match a, b with
  | CostStock, CostStock | CostEnergy, CostEnergy | CostCarbon, CostCarbon
  | Energy, Energy | Carbon, Carbon => true
  | _, _ => false
  end.

Definition status_eqb (a b : status) : bool :=
  match a, b with
  | Total, Total | Competed, Competed => true
  | _, _ => false
  end.

Definition case_eqb (a b : case) : bool :=
  match a, b with
  | Baseline, Baseline | Efficient, Efficient => true
  | _, _ => false
  end.

(** The order in which [compete_adj_dicts] lists the dicts of one case:
    the five totals, then the five competed ones. *)
Definition resources : list resource :=
  [CostStock; CostEnergy; CostCarbon; Energy; Carbon].

Definition mseg_list (m : mseg) (x : case) : list (year -> Q) :=
  map (fun r => vals m r Total x) resources
  ++ map (fun r => vals m r Competed x) resources.

Definition resource_index (r : resource) : nat :=
  match r with
  | CostStock => 0 | CostEnergy => 1 | CostCarbon => 2
  | Energy => 3 | Carbon => 4
  end.

(** The tuple assignment
    [(m["cost"]["stock"][st][x][yr], ..., m["carbon"][st][x][yr]) = new]. *)
Definition set_vals (m : mseg) (st : status) (x : case) (yr : year)
    (new : list Q) : mseg :=
  {| stock_measure := stock_measure m;
     vals := fun r st' x' =>
       if status_eqb st' st && case_eqb x' x
       then upd (vals m r st' x') yr
                (nth (resource_index r) new (vals m r st' x' yr))
       else vals m r st' x' |}.

(** [m["stock"][st]["measure"][yr] = v] *)
Definition set_stock (m : mseg) (st : status) (yr : year) (v : Q) : mseg :=
  {| stock_measure := fun st' =>
       if status_eqb st' st then upd (stock_measure m st') yr v
       else stock_measure m st';
     vals := vals m |}.

(** [mseg_adjust["secondary mseg adjustments"]["market share"]]: four
    dicts keyed by the (climate, building, structure) string, then by
    year. *)
Record secnd_shares : Type := {
  original_total : list (string * (year -> Q));
  original_competed : list (string * (year -> Q));
  adjusted_total : list (string * (year -> Q));
  adjusted_competed : list (string * (year -> Q))
}.

Fixpoint has_key (k : string) (d : list (string * (year -> Q))) : bool :=
  match d with
  | [] => false
  | (k', _) :: rest => String.eqb k k' || has_key k rest
  end.

(** [d[k][yr] += v] *)
Fixpoint add_at (d : list (string * (year -> Q))) (k : string) (yr : year)
    (v : Q) : result (list (string * (year -> Q))) :=
  match d with
  | [] => Raise KeyError
  | (k', f) :: rest =>
      if String.eqb k k' then Ok ((k', upd f yr (f yr + v)) :: rest)
      else rest' <- add_at rest k yr v ;; Ok ((k', f) :: rest')
  end.

(** The four dicts carry the same keys, as the upstream stage builds
    them. *)
Definition same_keys (s : secnd_shares) : Prop :=
  map fst (original_competed s) = map fst (original_total s) /\
  map fst (adjusted_total s) = map fst (original_total s) /\
  map fst (adjusted_competed s) = map fst (original_total s).

(** What [compete_adj] reads and writes of one measure: its master
    microsegment, the three breakout dicts of the microsegment's category,
    the contributing microsegment, and the secondary-adjustment record. *)
Record adj_state : Type := {
  mast : mseg;
  mast_brk_base : year -> Q;
  mast_brk_eff : year -> Q;
  mast_brk_save : year -> Q;
  adj : mseg;
  secnd_adj_mktshr : secnd_shares
}.

(** *** [Engine.compete_adj] *)

(** The loop over [weighting_yrs] after its first iteration: the moving
    average of the share, with the captured and remaining stock fractions
    of the existing-stock case. *)
Fixpoint weighting_loop (technical_potential new_segment : bool)
    (adj_fracs added_sbmkt_fracs base_turnover_rt eff_turnover_rt : year -> Q)
    (weighting_yrs : list year)
    (adj_frac_tot eff_frac_map base_frac_map : Q) : Q :=
  match weighting_yrs with
  | [] => adj_frac_tot
  | wyr :: rest =>
      if technical_potential then
        weighting_loop technical_potential new_segment adj_fracs
          added_sbmkt_fracs base_turnover_rt eff_turnover_rt rest
          (adj_fracs wyr + added_sbmkt_fracs wyr) eff_frac_map base_frac_map
      else
        let '(base_turnover_wt, eff_turnover_wt, eff_frac_map',
              base_frac_map') :=
          if new_segment then
            (base_turnover_rt wyr, eff_turnover_rt wyr,
             eff_frac_map, base_frac_map)
          else
            let base_turnover_wt :=
              if Qltb (base_turnover_rt wyr) base_frac_map
              then base_turnover_rt wyr else base_frac_map in
            let eff_turnover_wt := eff_turnover_rt wyr * eff_frac_map in
            if Qltb (eff_frac_map + base_turnover_rt wyr) 1
            then
              (base_turnover_wt, eff_turnover_wt,
               eff_frac_map + base_turnover_rt wyr,
               1 - (eff_frac_map + base_turnover_rt wyr))
            else (base_turnover_wt, eff_turnover_wt, 1, 0) in
        let wt_comp := base_turnover_wt + eff_turnover_wt in
        weighting_loop technical_potential new_segment adj_fracs
          added_sbmkt_fracs base_turnover_rt eff_turnover_rt rest
          ((1 - wt_comp) * adj_frac_tot
           + wt_comp * (adj_fracs wyr + added_sbmkt_fracs wyr))
          eff_frac_map' base_frac_map'
  end.

(** Insertion into a sorted list of years, for [sorted(...)]. *)
Fixpoint insert_year (y : year) (l : list year) : list year :=
  match l with
  | [] => [y]
  | x :: rest => if (y <=? x)%Z then y :: l else x :: insert_year y rest
  end.

Definition sorted_years (l : list year) : list year :=
  fold_right insert_year [] l.

(** The total weighted market share [adj_frac_tot] of [compete_adj], capped
    at 1.  [years] are the keys of [adj_fracs]. *)
Definition weighted_share (years : list year)
    (adj_fracs added_sbmkt_fracs : year -> Q) (yr : year)
    (mseg_key adopt_scheme : string) (mkt_entry_yrs : list Z)
    (base_turnover_rt eff_turnover_rt : year -> Q) : result Q :=
  entry <- py_min mkt_entry_yrs ;;
  adj_frac_tot <-
    (if (yr <? entry)%Z then Ok (adj_fracs yr + added_sbmkt_fracs yr)
     else
       let weighting_yrs :=
         sorted_years
           (filter (fun x => (x <=? yr)%Z && (entry <=? x)%Z) years) in
       match weighting_yrs with
       | [] => Raise UnboundLocalError
       | wyr :: rest =>
           Ok (weighting_loop
                 (String.eqb adopt_scheme "Technical potential")
                 (contains "new" mseg_key)
                 adj_fracs added_sbmkt_fracs base_turnover_rt eff_turnover_rt
                 rest (adj_fracs wyr + added_sbmkt_fracs wyr) 0 1)
       end) ;;
  Ok (if Qltb 1 adj_frac_tot then 1 else adj_frac_tot).

(** The record of the shares of a primary microsegment that its secondary
    microsegments are later adjusted by. *)
Definition record_secondary (s : secnd_shares) (secnd_mseg_adjkey : string)
    (yr : year) (a : mseg) (adj_frac_tot adj_frac_comp : Q)
  : result secnd_shares :=
  match original_total s with
  | [] => Ok s
  | _ :: _ =>
      if has_key secnd_mseg_adjkey (original_total s) then
        ot <- add_at (original_total s) secnd_mseg_adjkey yr
                (vals a Energy Total Efficient yr) ;;
        oc <- add_at (original_competed s) secnd_mseg_adjkey yr
                (vals a Energy Competed Efficient yr) ;;
        at' <- add_at (adjusted_total s) secnd_mseg_adjkey yr
                 (vals a Energy Total Efficient yr * adj_frac_tot) ;;
        ac <- add_at (adjusted_competed s) secnd_mseg_adjkey yr
                (vals a Energy Competed Efficient yr * adj_frac_comp) ;;
        Ok {| original_total := ot; original_competed := oc;
              adjusted_total := at'; adjusted_competed := ac |}
      else Ok s
  end.

(** The body of [for x in ["baseline", "efficient"]].  The lists of
    [compete_adj_dicts] alias the live dicts, so every statement reads the
    state the previous one left. *)
Definition adjust_case (yr : year) (adj_frac_tot adj_frac_comp : Q)
    (x : case) (ma : mseg * mseg) : mseg * mseg :=
  let '(mast, adj) := ma in
  let mast :=
    set_vals mast Total x yr
      (map (fun p => fst p yr - snd p yr * (1 - adj_frac_tot))
           (combine (firstn 5 (mseg_list mast x))
                    (firstn 5 (mseg_list adj x)))) in
  let mast :=
    set_vals mast Competed x yr
      (map (fun p => fst p yr - snd p yr * (1 - adj_frac_comp))
           (combine (skipn 5 (mseg_list mast x))
                    (skipn 5 (mseg_list adj x)))) in
  let adj :=
    set_vals adj Total x yr
      (map (fun d => d yr * adj_frac_tot) (firstn 5 (mseg_list adj x))) in
  let adj :=
    set_vals adj Competed x yr
      (map (fun d => d yr * adj_frac_comp) (skipn 5 (mseg_list adj x))) in
  (mast, adj).

(** [compete_adj] for a primary microsegment.  Its first statement reads
    [adj_fracs[yr]], which raises [KeyError] when the year is not among
    the keys [years] of the shares. *)
Definition compete_adj (years : list year)
    (adj_fracs added_sbmkt_fracs : year -> Q) (st : adj_state) (yr : year)
    (mseg_key secnd_mseg_adjkey adopt_scheme : string)
    (mkt_entry_yrs : list Z) (base_turnover_rt eff_turnover_rt : year -> Q)
  : result adj_state :=
  adj_frac_comp <-
    (if Finance.Z_in yr years
     then Ok (adj_fracs yr + added_sbmkt_fracs yr)
     else Raise KeyError) ;;
  adj_frac_tot <-
    weighted_share years adj_fracs added_sbmkt_fracs yr mseg_key
      adopt_scheme mkt_entry_yrs base_turnover_rt eff_turnover_rt ;;
  secnd <-
    record_secondary (secnd_adj_mktshr st) secnd_mseg_adjkey yr (adj st)
      adj_frac_tot adj_frac_comp ;;
  let a := adj st in
  let brk_base :=
    upd (mast_brk_base st) yr
        (mast_brk_base st yr
         - vals a Energy Total Baseline yr * (1 - adj_frac_tot)) in
  let brk_eff :=
    upd (mast_brk_eff st) yr
        (mast_brk_eff st yr
         - vals a Energy Total Efficient yr * (1 - adj_frac_tot)) in
  let brk_save :=
    upd (mast_brk_save st) yr
        (mast_brk_save st yr
         - (vals a Energy Total Baseline yr
            - vals a Energy Total Efficient yr) * (1 - adj_frac_tot)) in
  let m := mast st in
  let m :=
    set_stock m Total yr
      (stock_measure m Total yr
       - stock_measure a Total yr * (1 - adj_frac_tot)) in
  let m :=
    set_stock m Competed yr
      (stock_measure m Competed yr
       - stock_measure a Competed yr * (1 - adj_frac_comp)) in
  let a := set_stock a Total yr (stock_measure a Total yr * adj_frac_tot) in
  let a :=
    set_stock a Competed yr (stock_measure a Competed yr * adj_frac_comp) in
  let '(m, a) :=
    fold_left (fun ma x => adjust_case yr adj_frac_tot adj_frac_comp x ma)
              [Baseline; Efficient] (m, a) in
  Ok {| mast := m; mast_brk_base := brk_base; mast_brk_eff := brk_eff;
        mast_brk_save := brk_save; adj := a; secnd_adj_mktshr := secnd |}.

(** *** The market shares of [compete_res_primary] *)

(** [numpy.unique]: sorted, without repetitions. *)
Fixpoint insert_unique (y : year) (l : list year) : list year :=
  match l with
  | [] => [y]
  | x :: rest =>
      if (y <? x)%Z then y :: l
      else if (y =? x)%Z then l
      else x :: insert_unique y rest
  end.

Definition unique_years (l : list year) : list year :=
  fold_right insert_unique [] l.

Section Residential.

(** The numbers of the share computation: exact rationals, or the floats
    of the program. *)
Context {A : Type} `{PyNum A}.

(** What the share computation reads of a competing residential measure:
    the years it is on the market, its residential unit capital and
    operating costs, and the choice parameters [b1] and [b2] of the
    competed microsegment. *)
Record res_measure : Type := {
  yrs_on_mkt : list year;
  unit_cost_s_res : year -> A;
  unit_cost_e_res : year -> A;
  b1 : year -> A;
  b2 : year -> A
}.

(** [yr in m.yrs_on_mkt] *)
Definition on_mkt (yr : year) (m : res_measure) : bool :=
  Finance.Z_in yr (yrs_on_mkt m).

(** The years in which at least one competing measure is on the market. *)
Definition years_on_mkt_all (measures_adj : list res_measure) : list year :=
  unique_years (flat_map yrs_on_mkt measures_adj).

(** [numpy.exp]. *)
Variable exp : A -> A.

(** The weighted sum of capital and operating cost. *)
Definition sum_wt (m : res_measure) (yr : year) : A :=
  add (mul (unit_cost_s_res m yr) (b1 m yr))
      (mul (unit_cost_e_res m yr) (b2 m yr)).

(** [if sum_wt < -500: sum_wt = -500] *)
Definition guard_sum_wt (x : A) : A :=
  if ltb x (of_Z (-500)) then of_Z (-500) else x.

(** The first loop: the un-normalised fraction of a measure in a year it
    is on the market. *)
Definition exp_frac (m : res_measure) (yr : year) : A :=
  exp (guard_sum_wt (sum_wt m yr)).

(** [mkt_fracs_tot[yr]] after the first loop. *)
Definition mkt_fracs_tot (measures_adj : list res_measure) (yr : year) : A :=
  fold_left
    (fun tot m => if on_mkt yr m then add tot (exp_frac m yr) else tot)
    measures_adj (of_Z 0).

(** The second loop: [mkt_fracs[ind][yr]] for the measure [m].  The
    fractions are numpy floats, whose division does not raise, and the
    list of measures is not empty inside its own loop. *)
Definition res_mkt_frac (measures_adj : list res_measure) (m : res_measure)
    (yr : year) : A :=
  if on_mkt yr m then div (exp_frac m yr) (mkt_fracs_tot measures_adj yr)
  else if negb (Finance.Z_in yr (years_on_mkt_all measures_adj))
       then div (of_Z 1) (of_Z (Z.of_nat (length measures_adj)))
       else of_Z 0.

Definition res_mkt_fracs (measures_adj : list res_measure)
  : list (year -> A) :=
  map (res_mkt_frac measures_adj) measures_adj.

End Residential.

(** The weighted cost and its clamp in the words of the specification:
    capital cost times [b1] plus operating cost times [b2], and nothing
    below -500. *)
Definition weighted_cost (m : res_measure (A := Q)) (yr : year) : Q :=
  unit_cost_s_res m yr * b1 m yr + unit_cost_e_res m yr * b2 m yr.

Definition clamped (x : Q) : Q := if Qle_bool (-500) x then x else -500.

(** *** [Engine.find_added_sbmkt_fracs] (point-value shares) *)

(** What the function reads of a competing measure: the sub-market scaling
    of the competed microsegment and the measure's market share by year
    ([mkt_fracs[ind]]).  The shares are point values; the branches that
    test [type(...) == numpy.ndarray] are not embedded. *)
Record sbmkt_measure : Type := {
  sub_market_scaling : Q;
  mkt_frac : year -> Q
}.

(** The fraction of the competed market each measure does not apply to. *)
Definition noapply_sbmkt_fracs (measures_adj : list sbmkt_measure) : list Q :=
  map (fun m => 1 - sub_market_scaling m) measures_adj.

(** [[1 if noapply_sbmkt_fracs[mc] == 0 else 0 for mc in ...]] *)
Definition distrib_inds (noapply : list Q) : list nat :=
  map (fun x => if Qeq_bool x 0 then 1%nat else 0%nat) noapply.

(** [sum(distrib_inds)] *)
Definition sum_inds (inds : list nat) : nat := fold_left Nat.add inds 0%nat.

(** Every measure that applies to the full segment has a zero share. *)
Definition eligible_all_zero (inds : list nat) (shares : list Q) : bool :=
  forallb (fun p => Qeq_bool (snd p) 0)
          (filter (fun p => (fst p =? 1)%nat) (combine inds shares)).

(** The weights by which an inapplicable portion is spread over the
    competing measures in one year ([sbmkt_distrib_fracs_yr]); [shares]
    are the shares of that year, in measure order. *)
Definition sbmkt_distrib_fracs_yr (noapply shares : list Q) : list Q :=
  let inds := distrib_inds noapply in
  if eligible_all_zero inds shares then
    if (sum_inds inds =? 0)%nat then map (fun _ => 0) noapply
    else
      let even_frac := 1 / inject_Z (Z.of_nat (sum_inds inds)) in
      map (fun ind => if (ind =? 1)%nat then even_frac else 0) inds
  else
    let weights :=
      map (fun p => if (fst p =? 1)%nat then snd p else 0)
          (combine inds shares) in
    if negb (Qeq_bool (Qsum weights) 0)
    then map (fun x => x / Qsum weights) weights
    else map (fun _ => 0) weights.

(** [added_sbmkt_fracs[mn][yr]] for every [mn], for one year: the zeros
    of the initialisation, to which the loop over the measures [m] adds
    [seg_redist * sbmkt_distrib_fracs_yr[mn]]. *)
Definition added_sbmkt_fracs_yr (noapply shares : list Q) : list Q :=
  let seg_redists := map (fun p => fst p * snd p) (combine noapply shares) in
  let weights := sbmkt_distrib_fracs_yr noapply shares in
  map (fun w => fold_left (fun added seg_redist => added + seg_redist * w)
                          seg_redists 0)
      weights.

Definition find_added_sbmkt_fracs (measures_adj : list sbmkt_measure)
  : list (year -> Q) :=
  let noapply := noapply_sbmkt_fracs measures_adj in
  if forallb (fun x => Qeq_bool x 0) noapply
  then map (fun _ => fun _ : year => 0) measures_adj
  else
    map (fun mn => fun yr : year =>
           nth mn
             (added_sbmkt_fracs_yr noapply
                (map (fun m => mkt_frac m yr) measures_adj))
             0)
        (seq 0 (length measures_adj)).

(** The measures that apply to the full segment, with their shares of a
    year. *)
Definition full_segment (m : sbmkt_measure) : bool :=
  Qeq_bool (1 - sub_market_scaling m) 0.

(** The total portion left unserved by the measures with a sub-market,
    [sum of (1 - scaling) * share]. *)
Definition uncaptured (measures_adj : list sbmkt_measure) (yr : year) : Q :=
  Qsum (map (fun m => (1 - sub_market_scaling m) * mkt_frac m yr)
            measures_adj).

(** The weight a measure receives in a year, read off the measures
    themselves rather than off the index lists. *)
Definition distrib_weight (measures_adj : list sbmkt_measure) (yr : year)
    (m : sbmkt_measure) : Q :=
  let eligible := filter full_segment measures_adj in
  if forallb (fun e => Qeq_bool (mkt_frac e yr) 0) eligible then
    if (length eligible =? 0)%nat then 0
    else if full_segment m
         then 1 / inject_Z (Z.of_nat (length eligible)) else 0
  else
    let total :=
      Qsum (map (fun e => if full_segment e then mkt_frac e yr else 0)
                measures_adj) in
    if negb (Qeq_bool total 0)
    then (if full_segment m then mkt_frac m yr else 0) / total
    else 0.

(** *** The market shares of [compete_com_primary] (point-value costs) *)

(** What the share computation reads of a competing commercial measure:
    the years it is on the market, its commercial unit capital and
    operating costs (the values of the dicts keyed "rate 1" ... "rate 7",
    in key order) and the distribution of adopters over the discount-rate
    bins for the competed microsegment. *)
Record com_measure : Type := {
  com_yrs_on_mkt : list year;
  unit_cost_s_com : year -> list Q;
  unit_cost_e_com : year -> list Q;
  rate_distribution : year -> list Q
}.

Definition com_on_mkt (yr : year) (m : com_measure) : bool :=
  Finance.Z_in yr (com_yrs_on_mkt m).

(** [tot_cost[ind][yr]]: capital plus operating cost per bin (the two
    dicts carry the same keys). *)
Definition tot_cost (m : com_measure) (yr : year) : list Q :=
  map (fun p => fst p + snd p)
      (combine (unit_cost_s_com m yr) (unit_cost_e_com m yr)).

(** [l[i]] *)
Definition index {X : Type} (l : list X) (i : nat) : result X :=
  match nth_error l i with
  | Some x => Ok x
  | None => Raise IndexError
  end.

(** Evaluating a list comprehension whose elements can raise. *)
Fixpoint collect {X Y : Type} (f : X -> result Y) (l : list X)
  : result (list Y) :=
  match l with
  | [] => Ok []
  | x :: rest => y <- f x ;; ys <- collect f rest ;; Ok (y :: ys)
  end.

(** Built-in [min] on numbers. *)
Definition Qmin_py (l : list Q) : result Q :=
  match l with
  | [] => Raise ValueError
  | x :: xs => Ok (fold_left (fun a b => if Qltb b a then b else a) xs x)
  end.

(** The body of [for ind2, dr in enumerate(tot_cost[ind][yr])]: what the
    measure wins of bin [ind2], where its own cost is [dr]. *)
Definition bin_share (measures_adj : list com_measure) (m : com_measure)
    (yr : year) (ind2 : nat) (dr : Q) : result Q :=
  costs <- collect (fun x => index (tot_cost x yr) ind2)
             (filter (com_on_mkt yr) measures_adj) ;;
  min_val <- Qmin_py costs ;;
  let min_val_ecms := filter (fun c => Qeq_bool c min_val) costs in
  if Qeq_bool dr min_val then
    d <- index (rate_distribution m yr) ind2 ;;
    Ok (d / inject_Z (Z.of_nat (length min_val_ecms)))
  else Ok 0.

Fixpoint enumerate {X : Type} (start : nat) (l : list X) : list (nat * X) :=
  match l with
  | [] => []
  | x :: rest => (start, x) :: enumerate (S start) rest
  end.

(** [mkt_fracs[ind][yr]] for the measure [m]. *)
Definition com_mkt_frac (measures_adj : list com_measure) (m : com_measure)
    (yr : year) : result Q :=
  if com_on_mkt yr m then
    shares <- collect (fun p => bin_share measures_adj m yr (fst p) (snd p))
                (enumerate 0 (tot_cost m yr)) ;;
    Ok (Qsum shares)
  else if negb (Finance.Z_in yr
                    (unique_years (flat_map com_yrs_on_mkt measures_adj)))
       then Ok (1 / inject_Z (Z.of_nat (length measures_adj)))
       else Ok 0.

(** Vocabulary for the claim: a cost is the lowest of a bin; the number of
    measures tied at a cost. *)
Definition lowest (costs : list Q) (c : Q) : bool :=
  forallb (fun c' => Qle_bool c c') costs.

Definition tied (costs : list Q) (c : Q) : nat :=
  length (filter (fun c' => Qeq_bool c' c) costs).

End Competition.

(** ** The order of competition: [Engine.compete_measures] *)

Module Order.

Import Competition.

Local Open Scope string_scope.

(** A contributing microsegment key is the [str] of a tuple of fields, such
    as ["('primary', 'AIA_CZ1', 'assembly', 'electricity', 'lighting',
    'F28T8 HE', 'new')"]; Python compares strings by code point. *)

(** [numpy.unique]: the sorted keys, each once. *)
Fixpoint insert_unique_key (k : string) (l : list string) : list string :=
  match l with
  | [] => [k]
  | x :: rest =>
      if String.ltb k x then k :: l
      else if String.eqb k x then l
      else x :: insert_unique_key k rest
  end.

Definition np_unique (l : list string) : list string :=
  fold_right insert_unique_key [] l.

(** [a < b] on keys. *)
Definition key_lt (a b : string) : Prop := String.ltb a b = true.

(** [sorted]. *)
Fixpoint insert_key (k : string) (l : list string) : list string :=
  match l with
  | [] => [k]
  | x :: rest => if String.leb k x then k :: l else x :: insert_key k rest
  end.

Definition py_sorted (l : list string) : list string :=
  fold_right insert_key [] l.

(** [msegs = sorted(numpy.unique(mseg_keys))], where [mseg_keys] collects
    the contributing keys of every measure. *)
Definition msegs (keys : list (list string)) : list string :=
  py_sorted (np_unique (List.concat keys)).

Definition str_in (k : string) (l : list string) : bool :=
  existsb (String.eqb k) l.

(** The indices of the measures that have the key ([measures_adj]). *)
Definition measures_adj (keys : list (list string)) (msu : string)
  : list nat :=
  filter (fun x => str_in msu (nth x keys [])) (seq 0 (length keys)).

(** [any(x in msu for x in ("single family home", "multi family home",
    "mobile home"))] *)
Definition residential_key (msu : string) : bool :=
  existsb (fun x => contains x msu)
          ["single family home"; "multi family home"; "mobile home"].

(** The first field of a key says whether it is primary or secondary. *)
Definition primary_key (k : string) : bool := String.prefix "('primary'" k.

Definition secondary_key (k : string) : bool :=
  String.prefix "('secondary'" k.

(** A well-formed key: its first field is [primary] or [secondary], and
    the word "primary" occurs in no field of a secondary key. *)
Definition key_ok (k : string) : Prop :=
  primary_key k = true \/
  (secondary_key k = true /\ contains "primary" k = false).

Section Engine.

(** The engine state the routines update in place (the measures' markets
    and the heating and cooling overlap ledger), and the routines that
    [compete_measures] calls, each given the indices of the measures it is
    passed. *)
Variable state : Type.
Variable compete_res_primary : list nat -> string -> state -> result state.
Variable compete_com_primary : list nat -> string -> state -> result state.
Variable secondary_adj :
  list nat -> string -> string -> state -> result state.
Variable htcl_adj_rec : string -> list nat -> state -> result state.
Variable htcl_adj : state -> result state.

(** [str((cz_bldg_struct[1], cz_bldg_struct[2], cz_bldg_struct[-1]))] of
    [literal_eval(msu)]. *)
Variable secnd_mseg_adjkey : string -> string.

(** Whether a recorded value of the measure's
    ["original energy (total captured)"] for that key is positive; it is
    read from the state the primary competition has written. *)
Variable original_energy_positive : state -> nat -> string -> result bool.

(** The measures among [l] that need a secondary adjustment
    ([measures_adj_scnd]). *)
Fixpoint select_secondary (s : state) (adjkey : string) (l : list nat)
  : result (list nat) :=
  match l with
  | [] => Ok []
  | x :: rest =>
      b <- original_energy_positive s x adjkey ;;
      bs <- select_secondary s adjkey rest ;;
      Ok (if b then x :: bs else bs)
  end.

(** The branch taken for a primary key. *)
Definition primary_step (adj : list nat) (msu : string) (s : state)
  : result state :=
  if (1 <? length adj)%nat && residential_key msu
  then compete_res_primary adj msu s
  else if (1 <? length adj)%nat && negb (residential_key msu)
       then compete_com_primary adj msu s
       else Ok s.

(** The branch taken for a secondary key. *)
Definition secondary_step (adj : list nat) (msu : string) (s : state)
  : result state :=
  let adjkey := secnd_mseg_adjkey msu in
  scnd <- select_secondary s adjkey adj ;;
  if (0 <? length scnd)%nat then secondary_adj scnd msu adjkey s else Ok s.

(** The recording of heating and cooling overlaps for a key. *)
Definition overlap_step (htcl : bool) (adj : list nat) (msu : string)
    (s : state) : result state :=
  if contains "primary" msu
     && (contains "supply" msu || contains "demand" msu) && htcl
  then htcl_adj_rec msu adj s
  else Ok s.

(** The body of [for msu in msegs]. *)
Definition process_key (keys : list (list string)) (htcl : bool)
    (msu : string) (s : state) : result state :=
  let adj := measures_adj keys msu in
  s' <- (if contains "primary" msu then primary_step adj msu s
         else if contains "secondary" msu then secondary_step adj msu s
         else Ok s) ;;
  overlap_step htcl adj msu s'.

Fixpoint process_keys (keys : list (list string)) (htcl : bool)
    (l : list string) (s : state) : result state :=
  match l with
  | [] => Ok s
  | msu :: rest =>
      s' <- process_key keys htcl msu s ;; process_keys keys htcl rest s'
  end.

(** [htcl_adj_data is not None]: both supply-side and demand-side keys
    are present. *)
Definition overlap_ledger (l : list string) : bool :=
  existsb (contains "supply") l && existsb (contains "demand") l.

Definition compete_measures (keys : list (list string)) (s : state)
  : result state :=
  let l := msegs keys in
  let htcl := overlap_ledger l in
  s' <- process_keys keys htcl l s ;;
  if htcl then htcl_adj s' else Ok s'.

(** What the loop does to a key known to be primary, and to one known to
    be secondary. *)
Definition process_primary (keys : list (list string)) (htcl : bool)
    (msu : string) (s : state) : result state :=
  s' <- primary_step (measures_adj keys msu) msu s ;;
  overlap_step htcl (measures_adj keys msu) msu s'.

Definition process_secondary (keys : list (list string))
    (msu : string) (s : state) : result state :=
  secondary_step (measures_adj keys msu) msu s.

Fixpoint run (step : string -> state -> result state) (l : list string)
    (s : state) : result state :=
  match l with
  | [] => Ok s
  | msu :: rest => s' <- step msu s ;; run step rest s'
  end.

End Engine.

End Order.

(** ** Secondary microsegments: [Engine.secondary_adj] *)

Module Secondary.

Import Competition.

Local Open Scope Q_scope.

(** [d[k]] on a dict keyed by the (climate, building, structure) string. *)
Fixpoint get_at (d : list (string * (year -> Q))) (k : string)
  : result (year -> Q) :=
  match d with
  | [] => Raise KeyError
  | (k', f) :: rest => if String.eqb k k' then Ok f else get_at rest k
  end.

(** The market share adjustment of a secondary microsegment: the adjusted
    energy recorded for the associated primary microsegments over the
    original one, and 0 where the original is 0. *)
Definition share_ratio (original adjusted : list (string * (year -> Q)))
    (secnd_mseg_adjkey : string) (yr : year) : result Q :=
  o <- get_at original secnd_mseg_adjkey ;;
  if negb (Qeq_bool (o yr) 0) then
    a <- get_at adjusted secnd_mseg_adjkey ;;
    Finance.py_div (a yr) (o yr)
  else Ok 0.

(** The tuple assignment
    [(m["cost"]["energy"][st][x][yr], m["cost"]["carbon"][st][x][yr],
      m["energy"][st][x][yr], m["carbon"][st][x][yr]) = new]: the stock cost
    is no target. *)
Definition set_vals4 (m : mseg) (st : status) (x : case) (yr : year)
    (new : list Q) : mseg :=
  {| stock_measure := stock_measure m;
     vals := fun r st' x' =>
       match r with
       | CostStock => vals m r st' x'
       | _ =>
           if status_eqb st' st && case_eqb x' x
           then upd (vals m r st' x') yr
                    (nth (resource_index r - 1) new (vals m r st' x' yr))
           else vals m r st' x'
       end |}.

(** The body of [for x in ["baseline", "efficient"]]: the slices [1:5] and
    [6:] of the lists of [compete_adj_dicts] leave the stock cost out. *)
Definition secondary_case (yr : year) (adj_frac_tot adj_frac_comp : Q)
    (x : case) (ma : mseg * mseg) : mseg * mseg :=
  let '(mast, adj) := ma in
  let mast :=
    set_vals4 mast Total x yr
      (map (fun p => fst p yr - snd p yr * (1 - adj_frac_tot))
           (combine (firstn 4 (skipn 1 (mseg_list mast x)))
                    (firstn 4 (skipn 1 (mseg_list adj x))))) in
  let mast :=
    set_vals4 mast Competed x yr
      (map (fun p => fst p yr - snd p yr * (1 - adj_frac_comp))
           (combine (skipn 6 (mseg_list mast x))
                    (skipn 6 (mseg_list adj x)))) in
  let adj :=
    set_vals4 adj Total x yr
      (map (fun d => d yr * adj_frac_tot)
           (firstn 4 (skipn 1 (mseg_list adj x)))) in
  let adj :=
    set_vals4 adj Competed x yr
      (map (fun d => d yr * adj_frac_comp) (skipn 6 (mseg_list adj x))) in
  (mast, adj).

(** The body of [for yr in self.handyvars.aeo_years] for one measure. *)
Definition secondary_adj_yr (secnd_mseg_adjkey : string) (st : adj_state)
    (yr : year) : result adj_state :=
  let s := secnd_adj_mktshr st in
  adj_frac_comp <-
    share_ratio (original_competed s) (adjusted_competed s)
      secnd_mseg_adjkey yr ;;
  adj_frac_tot <-
    share_ratio (original_total s) (adjusted_total s) secnd_mseg_adjkey yr ;;
  let a := adj st in
  let brk_base :=
    upd (mast_brk_base st) yr
        (mast_brk_base st yr
         - vals a Energy Total Baseline yr * (1 - adj_frac_tot)) in
  let brk_eff :=
    upd (mast_brk_eff st) yr
        (mast_brk_eff st yr
         - vals a Energy Total Efficient yr * (1 - adj_frac_tot)) in
  let brk_save :=
    upd (mast_brk_save st) yr
        (mast_brk_save st yr
         - (vals a Energy Total Baseline yr
            - vals a Energy Total Efficient yr) * (1 - adj_frac_tot)) in
  let '(m, a) :=
    fold_left (fun ma x => secondary_case yr adj_frac_tot adj_frac_comp x ma)
              [Baseline; Efficient] (mast st, a) in
  Ok {| mast := m; mast_brk_base := brk_base; mast_brk_eff := brk_eff;
        mast_brk_save := brk_save; adj := a; secnd_adj_mktshr := s |}.

(** The loop over the years, for one measure. *)
Fixpoint secondary_adj_years (secnd_mseg_adjkey : string)
    (aeo_years : list year) (st : adj_state) : result adj_state :=
  match aeo_years with
  | [] => Ok st
  | yr :: rest =>
      st' <- secondary_adj_yr secnd_mseg_adjkey st yr ;;
      secondary_adj_years secnd_mseg_adjkey rest st'
  end.

(** [Engine.secondary_adj]: every measure is adjusted in its own
    markets. *)
Definition secondary_adj (aeo_years : list year) (secnd_mseg_adjkey : string)
    (measures_adj : list adj_state) : result (list adj_state) :=
  collect (secondary_adj_years secnd_mseg_adjkey aeo_years) measures_adj.

(** The share by which the values of a status are scaled in a year, 0
    where the record has no entry or the original energy is 0. *)
Definition secondary_share (s : secnd_shares) (secnd_mseg_adjkey : string)
    (st : status) (yr : year) : Q :=
  match
    match st with
    | Total =>
        share_ratio (original_total s) (adjusted_total s)
          secnd_mseg_adjkey yr
    | Competed =>
        share_ratio (original_competed s) (adjusted_competed s)
          secnd_mseg_adjkey yr
    end
  with
  | Ok f => f
  | Raise _ => 0
  end.

(** Vocabulary for stating what the adjustment does to a year: the
    energy, carbon and their cost values of year [y] are scaled by the
    shares; the values of year [y] are kept; the stock cost and the
    captured stock are kept. *)
Definition scaled_in_year (share : status -> Q) (y : year)
    (st st' : adj_state) : Prop :=
  forall r s x, r <> CostStock ->
    vals (mast st') r s x y
    = vals (mast st) r s x y - vals (adj st) r s x y * (1 - share s) /\
    vals (adj st') r s x y = vals (adj st) r s x y * share s.

Definition same_in_year (y : year) (st st' : adj_state) : Prop :=
  forall r s x,
    vals (mast st') r s x y = vals (mast st) r s x y /\
    vals (adj st') r s x y = vals (adj st) r s x y.

Definition stock_kept (st st' : adj_state) : Prop :=
  forall s x y,
    vals (mast st') CostStock s x y = vals (mast st) CostStock s x y /\
    vals (adj st') CostStock s x y = vals (adj st) CostStock s x y /\
    stock_measure (mast st') s y = stock_measure (mast st) s y /\
    stock_measure (adj st') s y = stock_measure (adj st) s y.

End Secondary.

(** ** Heating and cooling overlaps: [htcl_adj_rec] and [htcl_adj] *)

Module Overlap.

Import Competition Secondary.

Local Open Scope Q_scope.

(** A contributing microsegment key after [literal_eval]: the tuple of
    its fields.  The overlap data are keyed by [str(msu_split)], the text
    of a list of five fields; the embedding keys them by that list, which
    its text determines. *)

(** [l[i]] with Python's negative indices. *)
Definition py_index {X : Type} (l : list X) (i : Z) : result X :=
  let n := Z.of_nat (length l) in
  let j := if (i <? 0)%Z then (i + n)%Z else i in
  if (j <? 0)%Z || (n <=? j)%Z then Raise IndexError
  else index l (Z.to_nat j).

Fixpoint fields_eqb (a b : list string) : bool :=
  match a, b with
  | [], [] => true
  | x :: a', y :: b' => String.eqb x y && fields_eqb a' b'
  | _, _ => false
  end.

(** One entry of the overlap data: the total energy that could overlap,
    the energy the recorded microsegments affect, and what they save. *)
Record overlap : Type := {
  total : year -> Q;
  total_affected : year -> Q;
  affected_savings : year -> Q
}.

Inductive side : Type := Supply | Demand.

(** [htcl_adj_data = {"supply": {}, "demand": {}}] *)
Record htcl_data : Type := {
  supply : list (list string * overlap);
  demand : list (list string * overlap)
}.

Definition entries (d : htcl_data) (s : side)
  : list (list string * overlap) :=
  match s with
  | Supply => supply d
  | Demand => demand d
  end.

Definition set_entries (d : htcl_data) (s : side)
    (l : list (list string * overlap)) : htcl_data :=
  match s with
  | Supply => {| supply := l; demand := demand d |}
  | Demand => {| supply := supply d; demand := l |}
  end.

(** [d.get(k)] on the entries of a side. *)
Fixpoint find_entry (k : list string) (l : list (list string * overlap))
  : option overlap :=
  match l with
  | [] => None
  | (k', o) :: rest => if fields_eqb k k' then Some o else find_entry k rest
  end.

(** [d[k] = o] for a key the dict has. *)
Fixpoint replace_entry (k : list string) (o : overlap)
    (l : list (list string * overlap)) : list (list string * overlap) :=
  match l with
  | [] => []
  | (k', o') :: rest =>
      if fields_eqb k k' then (k', o) :: rest
      else (k', o') :: replace_entry k o rest
  end.

(** [htcl_totals[cz][bldg][struct][fuel][eu]], the nested dicts flattened
    to one dict keyed by the five fields. *)
Fixpoint lookup_totals (k : list string)
    (htcl_totals : list (list string * (year -> Q))) : result (year -> Q) :=
  match htcl_totals with
  | [] => Raise KeyError
  | (k', t) :: rest =>
      if fields_eqb k k' then Ok t else lookup_totals k rest
  end.

(** [[keys[1], keys[2], keys[-1], keys[3], keys[4]]]: climate zone,
    building type, structure type, fuel type and end use. *)
Definition msu_split (keys : list string) : result (list string) :=
  cz <- py_index keys 1 ;;
  bldg <- py_index keys 2 ;;
  struct <- py_index keys (-1) ;;
  fuel <- py_index keys 3 ;;
  eu <- py_index keys 4 ;;
  Ok [cz; bldg; struct; fuel; eu].

(** [htcl_adj_data[tech_typ]] for [tech_typ = keys[-3]]. *)
Definition side_of_field (tech_typ : string) : result side :=
  if String.eqb tech_typ "supply" then Ok Supply
  else if String.eqb tech_typ "demand" then Ok Demand
  else Raise KeyError.

(** The sums over the measures that apply to the microsegment. *)
Definition affected (msu_mkts : list mseg) (yr : year) : Q :=
  Qsum (map (fun m => vals m Energy Total Baseline yr) msu_mkts).

Definition savings (msu_mkts : list mseg) (yr : year) : Q :=
  Qsum (map (fun m => vals m Energy Total Baseline yr
                      - vals m Energy Total Efficient yr) msu_mkts).

(** [Engine.htcl_adj_rec] *)
Definition htcl_adj_rec (d : htcl_data) (keys : list string)
    (msu_mkts : list mseg) (htcl_totals : list (list string * (year -> Q)))
  : result htcl_data :=
  split <- msu_split keys ;;
  tech_typ <- py_index keys (-3) ;;
  s <- side_of_field tech_typ ;;
  match find_entry split (entries d s) with
  | None =>
      tot <- lookup_totals split htcl_totals ;;
      Ok (set_entries d s
            (entries d s ++
             [(split, {| total := tot;
                         total_affected := affected msu_mkts;
                         affected_savings := savings msu_mkts |})]))
  | Some o =>
      Ok (set_entries d s
            (replace_entry split
               {| total := total o;
                  total_affected :=
                    fun yr => total_affected o yr + affected msu_mkts yr;
                  affected_savings :=
                    fun yr => affected_savings o yr + savings msu_mkts yr |}
               (entries d s)))
  end.

(** The affected energy recorded for a side and key, 0 where nothing is
    recorded. *)
Definition recorded_affected (d : htcl_data) (s : side) (k : list string)
    (yr : year) : Q :=
  match find_entry k (entries d s) with
  | Some o => total_affected o yr
  | None => 0
  end.

Definition recorded_savings (d : htcl_data) (s : side) (k : list string)
    (yr : year) : Q :=
  match find_entry k (entries d s) with
  | Some o => affected_savings o yr
  | None => 0
  end.

(** *** The adjustment fractions of [htcl_adj]

    Every division below is guarded by a test of its divisor. *)

(** The fraction of the energy that could overlap that the overlapping
    technology type affects. *)
Definition affected_frac (overlp_data : overlap) (yr : year) : Q :=
  if negb (Qeq_bool (total overlp_data yr) 0)
  then total_affected overlp_data yr / total overlp_data yr
  else 0.

(** The relative performance of a technology type. *)
Definition rel_perf (data : overlap) (yr : year) : Q :=
  if negb (Qeq_bool (total_affected data yr) 0)
  then 1 - affected_savings data yr / total_affected data yr
  else 1.

Definition save_ratio (rel_perf_tech rel_perf_tech_overlp : Q) : Q :=
  if negb (Qeq_bool (Qabs (1 - rel_perf_tech)
                     + Qabs (1 - rel_perf_tech_overlp)) 0)
  then Qabs (1 - rel_perf_tech)
       / (Qabs (1 - rel_perf_tech) + Qabs (1 - rel_perf_tech_overlp))
  else 1 # 2.

Definition adj_frac_base (tech_data overlp_data : overlap) (yr : year) : Q :=
  let af := affected_frac overlp_data yr in
  (1 - af)
  + af * save_ratio (rel_perf tech_data yr) (rel_perf overlp_data yr).

Definition adj_frac_eff (tech_data overlp_data : overlap) (yr : year) : Q :=
  let af := affected_frac overlp_data yr in
  (1 - af)
  + af * save_ratio (rel_perf tech_data yr) (rel_perf overlp_data yr)
    * rel_perf overlp_data yr.

(** The body of [for x in ["baseline", "efficient"]]: only the master
    microsegment is written, total and competed values by one fraction. *)
Definition htcl_case (yr : year) (adj_frac : case -> Q) (adj : mseg)
    (mast : mseg) (x : case) : mseg :=
  let mast :=
    set_vals4 mast Total x yr
      (map (fun p => fst p yr - snd p yr * (1 - adj_frac x))
           (combine (firstn 4 (skipn 1 (mseg_list mast x)))
                    (firstn 4 (skipn 1 (mseg_list adj x))))) in
  set_vals4 mast Competed x yr
    (map (fun p => fst p yr - snd p yr * (1 - adj_frac x))
         (combine (skipn 6 (mseg_list mast x))
                  (skipn 6 (mseg_list adj x)))).

(** The body of [for yr in self.handyvars.aeo_years] for one contributing
    microsegment of a measure. *)
Definition htcl_adj_yr (tech_data overlp_data : overlap) (st : adj_state)
    (yr : year) : adj_state :=
  let base := adj_frac_base tech_data overlp_data yr in
  let eff := adj_frac_eff tech_data overlp_data yr in
  let adj_frac (x : case) :=
    match x with Baseline => base | Efficient => eff end in
  let a := adj st in
  let m := fold_left (htcl_case yr adj_frac a) [Baseline; Efficient]
                     (mast st) in
  {| mast := m;
     mast_brk_base :=
       upd (mast_brk_base st) yr
           (mast_brk_base st yr
            - vals a Energy Total Baseline yr * (1 - base));
     mast_brk_eff :=
       upd (mast_brk_eff st) yr
           (mast_brk_eff st yr
            - vals a Energy Total Efficient yr * (1 - eff));
     mast_brk_save :=
       upd (mast_brk_save st) yr
           (mast_brk_save st yr
            - (vals a Energy Total Baseline yr * (1 - base)
               - vals a Energy Total Efficient yr * (1 - eff)));
     adj := a;
     secnd_adj_mktshr := secnd_adj_mktshr st |}.

(** The body of [for mseg in htcl_keys] for a contributing microsegment
    with the text [mseg] and the fields [keys]: the microsegment is skipped
    when either technology type has no entry for its key. *)
Definition htcl_adj_mseg (d : htcl_data) (aeo_years : list year)
    (mseg : string) (keys : list string) (st : adj_state)
  : result adj_state :=
  split <- msu_split keys ;;
  let '(tech_typ, tech_typ_overlp) :=
    if contains "supply" mseg then (Supply, Demand) else (Demand, Supply) in
  match find_entry split (entries d tech_typ) with
  | None => Ok st
  | Some tech_data =>
      match find_entry split (entries d tech_typ_overlp) with
      | None => Ok st
      | Some overlp_data =>
          Ok (fold_left (htcl_adj_yr tech_data overlp_data) aeo_years st)
      end
  end.

End Overlap.

(** ** The stock turnover rates of [compete_res_primary] and
    [compete_com_primary] *)

(** Both functions compute, after the market shares, the turnover rates
    that [compete_adj] weights the shares by; the code is the same in the
    two.  Dicts the code builds over [aeo_years] are total functions of
    the year, read through [at_year]; dicts of input data are partial. *)

Module Turnover.

Import Competition.

Local Open Scope Q_scope.

(** [int(x)]: truncation towards zero. *)
Definition py_int (x : Q) : Z := Z.quot (Qnum x) (Z.pos (Qden x)).

(** A [for] loop whose body can raise. *)
Fixpoint for_each {X S : Type} (body : S -> X -> result S) (l : list X)
    (s : S) : result S :=
  match l with
  | [] => Ok s
  | x :: rest => s' <- body s x ;; for_each body rest s'
  end.

(** [d[yr]] on a dict of input data. *)
Definition get (d : year -> option Q) (yr : year) : result Q :=
  match d yr with
  | Some v => Ok v
  | None => Raise KeyError
  end.

(** [d[yr]] on a dict built with the keys [keys]. *)
Definition at_year (keys : list year) (d : year -> Q) (yr : year)
  : result Q :=
  if Finance.Z_in yr keys then Ok (d yr) else Raise KeyError.

Section Rates.

(** [self.handyvars.retro_rate] and [self.handyvars.aeo_years]. *)
Variable retro_rate : Q.
Variable aeo_years : list year.

(** The body of [for yr in self.handyvars.aeo_years] in the loop over the
    measures: [eff_life[yr] += lifetime * mkt_fracs[ind2][yr]]. *)
Definition eff_life_year (mkt_fracs : list (year -> Q)) (ind2 : nat)
    (lifetime : Q) (eff_life : year -> Q) (yr : year)
  : result (year -> Q) :=
  fracs <- index mkt_fracs ind2 ;;
  Ok (upd eff_life yr (eff_life yr + lifetime * fracs yr)).

(** The lifetime of the competing measures weighted by their market
    shares.  [lifetimes] are the measure lifetimes
    [m.markets[adopt_scheme]["competed"]["master_mseg"]["lifetime"]["measure"]]
    of [measures_adj], in order. *)
Definition eff_life (lifetimes : list Q) (mkt_fracs : list (year -> Q))
  : result (year -> Q) :=
  for_each
    (fun eff_life im =>
       for_each (eff_life_year mkt_fracs (fst im) (snd im))
                aeo_years eff_life)
    (enumerate 0 lifetimes) (fun _ => 0).

(** The body of [for ind1, yr in enumerate(years_on_mkt_all)] for a point
    value: the stock competed in [yr] turns over [int(eff_life[yr])]
    positions later. *)
Definition eff_turnover_year (eff_life : year -> Q)
    (years_on_mkt_all : list year) (eff_turnover_rt : year -> Q)
    (iy : nat * year) : result (year -> Q) :=
  let '(ind1, yr) := iy in
  life <- at_year aeo_years eff_life yr ;;
  let future_eff_turnover_yr := (Z.of_nat ind1 + py_int life)%Z in
  if (future_eff_turnover_yr <? Z.of_nat (length years_on_mkt_all))%Z then
    r <- Finance.py_div 1 life ;;
    y <- Overlap.py_index years_on_mkt_all future_eff_turnover_yr ;;
    Ok (upd eff_turnover_rt y (r + retro_rate))
  else Ok eff_turnover_rt.

(** The overall turnover rate of the competed stock. *)
Definition eff_turnover_rt (eff_life : year -> Q)
    (years_on_mkt_all : list year) : result (year -> Q) :=
  for_each (eff_turnover_year eff_life years_on_mkt_all)
           (enumerate 0 years_on_mkt_all) (fun _ => 0).

(** The body of [for ind, yr in enumerate(self.handyvars.aeo_years)] for a
    new stock segment.  The state is [new_stock_add_frac] and
    [new_stock_base_frac]. *)
Definition new_stock_year (new_stock_tot : year -> option Q)
    (entry : Z) (new_stock_base_endyr : Q)
    (st : (year -> Q) * (year -> Q)) (iy : nat * year)
  : result ((year -> Q) * (year -> Q)) :=
  let '(new_stock_add_frac, new_stock_base_frac) := st in
  let '(ind, yr) := iy in
  if (ind =? 0)%nat then Ok (upd new_stock_add_frac yr 1, new_stock_base_frac)
  else
    tot <- get new_stock_tot yr ;;
    if negb (Qeq_bool tot 0) then
      prev <- get new_stock_tot (yr - 1)%Z ;;
      let new_stock_add_frac :=
        upd new_stock_add_frac yr ((tot - prev) / tot) in
      if Qltb (inject_Z yr) new_stock_base_endyr then
        first <- index aeo_years 0 ;;
        if negb (entry =? first)%Z then
          before <- get new_stock_tot (entry - 1)%Z ;;
          Ok (new_stock_add_frac,
              upd new_stock_base_frac yr (before / tot))
        else Ok (new_stock_add_frac, new_stock_base_frac)
      else Ok (new_stock_add_frac, new_stock_base_frac)
    else Ok (new_stock_add_frac, new_stock_base_frac).

(** The fractions of the new stock added in a year and captured by the
    baseline technology before a measure entered the market.  The total
    new stock and the baseline lifetime are those of the first competing
    measure. *)
Definition new_stock_fracs (new_stock_tot lifetime_baseline : year -> option Q)
    (mkt_entry_yrs : list Z) : result ((year -> Q) * (year -> Q)) :=
  entry <- py_min mkt_entry_yrs ;;
  life <- get lifetime_baseline entry ;;
  let new_stock_base_endyr := inject_Z entry + 2 * life in
  for_each (new_stock_year new_stock_tot entry new_stock_base_endyr)
           (enumerate 0 aeo_years) (fun _ => 0, fun _ => 0).

(** One entry of the dict comprehension for existing stock:
    [yr: (1 / adj["lifetime"]["baseline"][yr]) + retro_rate]. *)
Definition base_turnover_init_year (lifetime_baseline : year -> option Q)
    (d : year -> Q) (yr : year) : result (year -> Q) :=
  life <- get lifetime_baseline yr ;;
  r <- Finance.py_div 1 life ;;
  Ok (upd d yr (r + retro_rate)).

(** [base_turnover_rt] as it is initialised for a measure. *)
Definition base_turnover_init (new_segment : bool)
    (lifetime_baseline : year -> option Q) (new_stock_add_frac : year -> Q)
  : result (year -> Q) :=
  if new_segment then
    Ok (fold_left (fun d yr => upd d yr (new_stock_add_frac yr))
                  aeo_years (fun _ => 0))
  else
    for_each (base_turnover_init_year lifetime_baseline)
             aeo_years (fun _ => 0).

(** The body of [for ind1, yr in enumerate(self.handyvars.aeo_years)]: the
    baseline stock of [yr] turns over [round(lifetime)] positions later.
    An augmented assignment evaluates its target before its right side, a
    plain assignment after. *)
Definition base_turnover_year (new_segment : bool)
    (lifetime_baseline : year -> option Q) (new_stock_base_frac : year -> Q)
    (base_turnover_rt : year -> Q) (iy : nat * year)
  : result (year -> Q) :=
  let '(ind1, yr) := iy in
  life <- get lifetime_baseline yr ;;
  let base_life := Lifetime.py_round life in
  let future_base_turnover_yr := (Z.of_nat ind1 + base_life)%Z in
  if (future_base_turnover_yr <? Z.of_nat (length aeo_years))%Z then
    if new_segment then
      y <- Overlap.py_index aeo_years future_base_turnover_yr ;;
      r <- Finance.py_div 1 (inject_Z base_life) ;;
      Ok (upd base_turnover_rt y
            (base_turnover_rt y
             + (r + retro_rate) * new_stock_base_frac y))
    else
      r <- Finance.py_div 1 (inject_Z base_life) ;;
      y <- Overlap.py_index aeo_years future_base_turnover_yr ;;
      Ok (upd base_turnover_rt y (r + retro_rate))
  else Ok base_turnover_rt.

(** The turnover rate of the baseline stock of a measure's contributing
    microsegment. *)
Definition base_turnover_rt (new_segment : bool)
    (lifetime_baseline : year -> option Q)
    (new_stock_add_frac new_stock_base_frac : year -> Q)
  : result (year -> Q) :=
  rt <- base_turnover_init new_segment lifetime_baseline
          new_stock_add_frac ;;
  for_each
    (base_turnover_year new_segment lifetime_baseline new_stock_base_frac)
    (enumerate 0 aeo_years) rt.

End Rates.

(** The stock of position [i] of [years] turns over in the year [y], when
    [wait] gives the number of positions to wait from a year. *)
Definition turns_over (wait : year -> option Z) (years : list year)
    (i : nat) (y : year) : Prop :=
  exists yr n,
    nth_error years i = Some yr /\ wait yr = Some n /\
    nth_error years (i + Z.to_nat n) = Some y.

(** What a turnover loop has made of the rate [rt0 y] of the year [y]
    after the first [k] positions of [years]: the rate is as it was when
    no stock turns over in [y], and otherwise the rate [rate yr] of the
    last year [yr] whose stock turns over in [y]. *)
Definition turnover_upto (wait : year -> option Z) (years : list year)
    (rate : year -> Q) (k : nat) (rt0 rt : year -> Q) (y : year) : Prop :=
  ((forall i, (i < k)%nat -> ~ turns_over wait years i y) /\ rt y = rt0 y)
  \/
  (exists i yr n,
      (i < k)%nat /\ nth_error years i = Some yr /\ wait yr = Some n /\
      nth_error years (i + Z.to_nat n) = Some y /\ rt y = rate yr /\
      forall j, (i < j < k)%nat -> ~ turns_over wait years j y).

End Turnover.

(** ** The yearly loop of [calc_savings_metrics] (point values) *)

Module Savings.

Import Finance.

Local Open Scope Q_scope.

(** What the loop reads of a master microsegment
    ([m.markets[adopt_scheme][comp_scheme]["master_mseg"]]): the energy,
    carbon and cost dicts and the captured stock (as [Competition.mseg]
    has them), the lifetimes, and the total stock
    ([["stock"]["total"]["all"]]). *)
Record master : Type := {
  mkts : Competition.mseg;
  lifetime_baseline : year -> Q;
  lifetime_measure : Q;
  stock_total_all : year -> Q
}.

(** The fourteen outputs set to 999. *)
Definition all_999 : metrics (A := Q) :=
  {| unit_cost_s_res := Some 999; unit_cost_e_res := Some 999;
     unit_cost_c_res := Some 999;
     unit_cost_s_com := ComSentinel; unit_cost_e_com := ComSentinel;
     unit_cost_c_com := ComSentinel;
     irr_e := Some 999; irr_ec := Some 999;
     payback_e := Some 999; payback_ec := Some 999;
     cce := 999; cce_bens := 999; ccc := 999; ccc_bens := 999 |}.

(** The fourteen per-year dicts, which are always written together: the
    entry of a year is [None] until the loop assigns it. *)
Definition yearly : Type := year -> option (metrics (A := Q)).

Definition set_year (results : yearly) (yr : year)
    (v : option (metrics (A := Q))) : yearly :=
  fun y => if (y =? yr)%Z then v else results y.

(** [if life < 1: life = 1] on a point value. *)
Definition floor_life (life : Q) : Q := if Qltb life 1 then 1 else life.

(** [nunits_tot[yr] == 0 or nunits_meas < 1] *)
Definition no_units (uncomp markets : master) (yr : year) : bool :=
  Qeq_bool (stock_total_all uncomp yr) 0
  || Qltb (Competition.stock_measure (mkts markets) Competition.Total yr) 1.

Section Loop.

Variable hv : handyvars (A := Q).
Variable np : numpy_lib (A := Q).
Variable m : measure.

(** The masters of the uncompeted scheme and of the scheme at hand. *)
Variable uncomp markets : master.

Definition total (r : Competition.resource) (x : Competition.case)
    (yr : year) : Q :=
  Competition.vals (mkts markets) r Competition.Total x yr.

(** The body of [for yr in self.handyvars.aeo_years].  The state is the
    fourteen dicts and the local [scostmeas_delt], which is bound only
    once a year with stock has been seen. *)
Definition calc_year (aeo_years : list year)
    (st : yearly * option Q) (yr : year) : result (yearly * option Q) :=
  let '(results, scostmeas_delt) := st in
  let nunits_tot := stock_total_all uncomp yr in
  let stock_base_cost_tot :=
    Competition.vals (mkts uncomp) Competition.CostStock Competition.Total
      Competition.Baseline yr in
  let stock_meas_cost_tot :=
    Competition.vals (mkts uncomp) Competition.CostStock Competition.Total
      Competition.Efficient yr in
  sc <-
    (if negb (Qeq_bool nunits_tot 0) then
       scostbase <- py_div stock_base_cost_tot nunits_tot ;;
       delt <- py_div (stock_base_cost_tot - stock_meas_cost_tot)
                 nunits_tot ;;
       Ok (scostbase, Some delt)
     else Ok (0, scostmeas_delt)) ;;
  let '(scostbase, scostmeas_delt) := sc in
  let scost_meas_tot :=
    total Competition.CostStock Competition.Efficient yr in
  let ecost_meas_tot :=
    total Competition.CostEnergy Competition.Efficient yr in
  let ccost_meas_tot :=
    total Competition.CostCarbon Competition.Efficient yr in
  let esave_tot :=
    total Competition.Energy Competition.Baseline yr
    - total Competition.Energy Competition.Efficient yr in
  let csave_tot :=
    total Competition.Carbon Competition.Baseline yr
    - total Competition.Carbon Competition.Efficient yr in
  let ecostsave_tot :=
    total Competition.CostEnergy Competition.Baseline yr
    - total Competition.CostEnergy Competition.Efficient yr in
  let ccostsave_tot :=
    total Competition.CostCarbon Competition.Baseline yr
    - total Competition.CostCarbon Competition.Efficient yr in
  let life_base := floor_life (lifetime_baseline markets yr) in
  let life_meas := floor_life (lifetime_measure markets) in
  if no_units uncomp markets yr then
    match aeo_years with
    | [] => Raise IndexError
    | first :: _ =>
        if (yr =? first)%Z
        then Ok (set_year results yr (Some all_999), scostmeas_delt)
        else
          let yr_prev := (yr - 1)%Z in
          if Z_in yr_prev aeo_years
          then Ok (set_year results yr (results yr_prev), scostmeas_delt)
          else Raise KeyError
    end
  else
    delt <- match scostmeas_delt with
            | Some d => Ok d
            | None => Raise UnboundLocalError
            end ;;
    esave <- py_div esave_tot nunits_tot ;;
    ecostsave <- py_div ecostsave_tot nunits_tot ;;
    csave <- py_div csave_tot nunits_tot ;;
    ccostsave <- py_div ccostsave_tot nunits_tot ;;
    scost_meas <- py_div scost_meas_tot nunits_tot ;;
    ecost_meas <- py_div ecost_meas_tot nunits_tot ;;
    ccost_meas <- py_div ccost_meas_tot nunits_tot ;;
    r <- metric_update hv np m
           (Lifetime.py_round life_base) (Lifetime.py_round life_meas)
           scostbase delt esave ecostsave csave ccostsave
           scost_meas ecost_meas ccost_meas ;;
    Ok (set_year results yr (Some r), Some delt).

Fixpoint calc_years (aeo_years todo : list year) (st : yearly * option Q)
  : result (yearly * option Q) :=
  match todo with
  | [] => Ok st
  | yr :: rest =>
      st' <- calc_year aeo_years st yr ;; calc_years aeo_years rest st'
  end.

(** The financial metrics [calc_savings_metrics] computes for one measure
    over the horizon [aeo_years = range(aeo_min, aeo_max + 1)] of
    [UsefulVars]. *)
Definition calc_savings_metrics (aeo_min aeo_max : Z) : result yearly :=
  let aeo_years := py_range aeo_min (aeo_max + 1) in
  st <- calc_years aeo_years aeo_years (fun _ => None, None) ;;
  Ok (fst st).

(** The call of [metric_update] for a year with stock, at its per-unit
    arguments. *)
Definition unit_metrics (yr : year) : result (metrics (A := Q)) :=
  let n := stock_total_all uncomp yr in
  let base :=
    Competition.vals (mkts uncomp) Competition.CostStock Competition.Total
      Competition.Baseline yr in
  let meas :=
    Competition.vals (mkts uncomp) Competition.CostStock Competition.Total
      Competition.Efficient yr in
  metric_update hv np m
    (Lifetime.py_round (floor_life (lifetime_baseline markets yr)))
    (Lifetime.py_round (floor_life (lifetime_measure markets)))
    (base / n) ((base - meas) / n)
    ((total Competition.Energy Competition.Baseline yr
      - total Competition.Energy Competition.Efficient yr) / n)
    ((total Competition.CostEnergy Competition.Baseline yr
      - total Competition.CostEnergy Competition.Efficient yr) / n)
    ((total Competition.Carbon Competition.Baseline yr
      - total Competition.Carbon Competition.Efficient yr) / n)
    ((total Competition.CostCarbon Competition.Baseline yr
      - total Competition.CostCarbon Competition.Efficient yr) / n)
    (total Competition.CostStock Competition.Efficient yr / n)
    (total Competition.CostEnergy Competition.Efficient yr / n)
    (total Competition.CostCarbon Competition.Efficient yr / n).

(** The rule of a year: a year without stock or without a captured unit
    has 999 throughout if it is the first year and repeats the entry of
    the year before otherwise; any other year has what [metric_update]
    returns at the per-unit values of the year. *)
Definition year_rule (aeo_min : Z) (results : yearly) (yr : year) : Prop :=
  if no_units uncomp markets yr
  then results yr
       = (if (yr =? aeo_min)%Z then Some all_999
          else results (yr - 1)%Z)
  else exists r, results yr = Some r /\ unit_metrics yr = Ok r.

End Loop.

End Savings.

(** ** The totals across all measures of [finalize_outputs] (point
    values) *)

Module Summary.

Import Competition.

Local Open Scope Q_scope.

(** The total savings [calc_savings_metrics] records in
    [m.savings[adopt_scheme][comp_scheme]]: ["energy"]["savings (total)"],
    ["energy"]["cost savings (total)"], ["carbon"]["savings (total)"] and
    ["carbon"]["cost savings (total)"]. *)
Record savings : Type := {
  energy_savings_total : year -> Q;
  energy_cost_savings_total : year -> Q;
  carbon_savings_total : year -> Q;
  carbon_cost_savings_total : year -> Q
}.

(** [esave_tot], [ecostsave_tot], [csave_tot] and [ccostsave_tot] of
    [calc_savings_metrics] for the master microsegment [markets]. *)
Definition recorded_savings (markets : mseg) : savings :=
  {| energy_savings_total := fun yr =>
       vals markets Energy Total Baseline yr
       - vals markets Energy Total Efficient yr;
     energy_cost_savings_total := fun yr =>
       vals markets CostEnergy Total Baseline yr
       - vals markets CostEnergy Total Efficient yr;
     carbon_savings_total := fun yr =>
       vals markets Carbon Total Baseline yr
       - vals markets Carbon Total Efficient yr;
     carbon_cost_savings_total := fun yr =>
       vals markets CostCarbon Total Baseline yr
       - vals markets CostCarbon Total Efficient yr |}.

(** What [finalize_outputs] totals of a measure: its competed master
    microsegment and its competed savings. *)
Record ecm : Type := {
  mkts : mseg;
  save : savings
}.

(** A measure as [calc_savings_metrics] leaves it for the competed
    scheme. *)
Definition competed (markets : mseg) : ecm :=
  {| mkts := markets; save := recorded_savings markets |}.

(** The first twelve entries of [summary_vals], the markets and savings;
    the financial metrics that follow them are not totalled. *)
Definition summary_vals (m : ecm) : list (year -> Q) :=
  [ vals (mkts m) Energy Total Baseline;
    vals (mkts m) Carbon Total Baseline;
    vals (mkts m) CostEnergy Total Baseline;
    vals (mkts m) CostCarbon Total Baseline;
    vals (mkts m) Energy Total Efficient;
    vals (mkts m) Carbon Total Efficient;
    vals (mkts m) CostEnergy Total Efficient;
    vals (mkts m) CostCarbon Total Efficient;
    energy_savings_total (save m);
    energy_cost_savings_total (save m);
    carbon_savings_total (save m);
    carbon_cost_savings_total (save m) ].

(** [[{yr: all[v][yr] + vals[v][yr] for yr in aeo_years}
      for v in range(0, 12)]] *)
Definition add_summary (summary_vals_all_ecms summary_vals : list (year -> Q))
  : result (list (year -> Q)) :=
  collect
    (fun v =>
       a <- index summary_vals_all_ecms v ;;
       s <- index summary_vals v ;;
       Ok (fun yr => a yr + s yr))
    (seq 0 12).

(** [summary_vals_all_ecms] after the loop over the measures. *)
Definition summary_vals_all_ecms (measures : list ecm)
  : result (list (year -> Q)) :=
  Turnover.for_each (fun all m => add_summary all (summary_vals m))
    measures (repeat (fun _ => 0) 12).

(** The totals across all measures, by the names [finalize_outputs]
    unpacks them to (the mean of a point value is the value). *)
Record totals : Type := {
  energy_base_all : year -> Q;
  carb_base_all : year -> Q;
  energy_cost_base_all : year -> Q;
  carb_cost_base_all : year -> Q;
  energy_eff_all : year -> Q;
  carb_eff_all : year -> Q;
  energy_cost_eff_all : year -> Q;
  carb_cost_eff_all : year -> Q;
  energy_save_all : year -> Q;
  energy_costsave_all : year -> Q;
  carb_save_all : year -> Q;
  carb_costsave_all : year -> Q
}.

(** The tuple assignment of twelve names. *)
Definition unpack (l : list (year -> Q)) : result totals :=
  match l with
  | [a; b; c; d; e; f; g; h; i; j; k; n] =>
      Ok {| energy_base_all := a; carb_base_all := b;
            energy_cost_base_all := c; carb_cost_base_all := d;
            energy_eff_all := e; carb_eff_all := f;
            energy_cost_eff_all := g; carb_cost_eff_all := h;
            energy_save_all := i; energy_costsave_all := j;
            carb_save_all := k; carb_costsave_all := n |}
  | _ => Raise ValueError
  end.

Definition finalize_totals (measures : list ecm) : result totals :=
  all <- summary_vals_all_ecms measures ;;
  unpack all.

End Summary.

(** ** The active measures and the energy output of [main] *)

Module Setup.

Local Open Scope string_scope.

(** Besides the built-in exceptions of the engine, [main] meets
    [AttributeError], which it turns into [ValueError]. *)
Inductive error : Type :=
| Builtin (e : exn)
| AttributeError.

Inductive outcome (A : Type) : Type :=
| Returns (a : A)
| Raises (e : error).

Arguments Returns {A} a.
Arguments Raises {A} e.

Definition and_then {A B : Type} (r : outcome A) (k : A -> outcome B)
  : outcome B :=
  match r with
  | Returns a => k a
  | Raises e => Raises e
  end.

(** A JSON value as [is True] and [is False] see it. *)
Inductive pyval : Type := PyTrue | PyFalse | PyOther.

Definition is_True (v : pyval) : bool :=
  match v with PyTrue => true | _ => false end.

Definition is_False (v : pyval) : bool :=
  match v with PyFalse => true | _ => false end.

(** What [main] reads of a measure definition: its name, its [remove]
    flag, and the [site_energy] and [captured_energy_ss] entries of its
    [energy_outputs] attribute, which a measure may lack. *)
Record meas : Type := {
  name : string;
  remove : pyval;
  energy_outputs : option (pyval * pyval)
}.

(** [m.energy_outputs["site_energy"]] *)
Definition site_energy (m : meas) : outcome pyval :=
  match energy_outputs m with
  | Some (site, _) => Returns site
  | None => Raises AttributeError
  end.

(** [m.energy_outputs["captured_energy_ss"]] *)
Definition captured_energy_ss (m : meas) : outcome pyval :=
  match energy_outputs m with
  | Some (_, captured) => Returns captured
  | None => Raises AttributeError
  end.

(** A list comprehension whose elements can raise. *)
Fixpoint comprehension {X Y : Type} (f : X -> outcome Y) (l : list X)
  : outcome (list Y) :=
  match l with
  | [] => Returns []
  | x :: rest =>
      and_then (f x) (fun y =>
      and_then (comprehension f rest) (fun ys => Returns (y :: ys)))
  end.

(** [all([attr(m) is want for m in measures_objlist])] *)
Definition all_are (attr : meas -> outcome pyval) (want : pyval -> bool)
    (measures_objlist : list meas) : outcome bool :=
  and_then
    (comprehension (fun m => and_then (attr m) (fun v => Returns (want v)))
                   measures_objlist)
    (fun vs => Returns (forallb (fun b => b) vs)).

(** [if not (all([... is True ...]) or all([... is False ...])):
       raise ValueError] *)
Definition consistent (attr : meas -> outcome pyval)
    (measures_objlist : list meas) : outcome unit :=
  and_then (all_are attr is_True measures_objlist) (fun all_true =>
  and_then (if all_true then Returns true
            else all_are attr is_False measures_objlist) (fun ok =>
  if ok then Returns tt else Raises (Builtin ValueError))).

(** The [try] block with its [except AttributeError]. *)
Definition check_units (measures_objlist : list meas) : outcome unit :=
  match and_then (consistent site_energy measures_objlist)
          (fun _ => consistent captured_energy_ss measures_objlist) with
  | Raises AttributeError => Raises (Builtin ValueError)
  | r => r
  end.

(** The flag for the type of energy output, read off the first measure. *)
Definition energy_output (measures_objlist : list meas) : outcome string :=
  match measures_objlist with
  | [] => Raises (Builtin IndexError)
  | first :: _ =>
      and_then (site_energy first) (fun site =>
      if is_True site then Returns "site"
      else
        and_then (captured_energy_ss first) (fun captured =>
        if is_True captured then Returns "captured"
        else Returns "fossil_equivalent"))
  end.

(** The count of the active measure names that have a definition. *)
Definition count_active (active_meas_all : list string)
    (meas_summary : list meas) : nat :=
  fold_left
    (fun active_ecms_w_jsons mn =>
       if negb (Finance.str_in mn (map name meas_summary))
       then active_ecms_w_jsons
       else S active_ecms_w_jsons)
    active_meas_all 0%nat.

(** From the count of active measures to the energy output: the measure
    objects [main] builds and the energy output it passes to [Engine]. *)
Definition select (active_ecms_w_jsons : nat)
    (active_meas_all : list string) (meas_summary : list meas)
  : outcome (list meas * string) :=
  if (active_ecms_w_jsons =? 0)%nat then Raises (Builtin ValueError)
  else
    let measures_objlist :=
      filter (fun m => Finance.str_in (name m) active_meas_all
                       && is_False (remove m))
             meas_summary in
    and_then (check_units measures_objlist) (fun _ =>
    and_then (energy_output measures_objlist) (fun energy_out =>
    Returns (measures_objlist, energy_out))).

(** [main] without [--web]: the count comes from the list of active
    names. *)
Definition main_select (active_meas_all : list string)
    (meas_summary : list meas) : outcome (list meas * string) :=
  select (count_active active_meas_all meas_summary) active_meas_all
         meas_summary.

End Setup.

(** ** Vocabulary for discounted sums *)

Module Discounting.

Import Finance.

Local Open Scope Q_scope.

(** The value today of an amount [x] paid [t] years from now. *)
Definition discounted (rate : Q) (t : Z) (x : Q) : Q := x / (1 + rate) ^ t.

(** The value today of [x] paid at the end of each of the years
    [1 .. life]. *)
Definition discounted_stream (rate : Q) (life : Z) (x : Q) : Q :=
  Competition.Qsum
    (map (fun t => discounted rate t x) (py_range 1 (life + 1))).

(** The year [y] of the life of a measure, counted from 0, ends with an
    avoided purchase of the baseline technology: the measure is a
    full-service supply-side lighting measure that outlives the baseline,
    and [y + 1] is a multiple of the baseline lifetime below the measure
    lifetime. *)
Definition gain_year (m : measure) (life_base life_meas y : Z) : bool :=
  (life_base <? life_meas)%Z
  && str_in "lighting" (end_use_primary m)
  && String.eqb (measure_type m) "full service"
  && String.eqb (technology_type_primary m) "supply"
  && (0 <=? y)%Z && (y <? life_meas - 1)%Z
  && ((y + 1) mod life_base =? 0)%Z.

(** The value today of the incremental capital cost: the upfront cost,
    and the baseline cost [scost_base] at the end of every gain year of a
    life of at least one year. *)
Definition discounted_capital (rate : Q) (m : measure)
    (life_base life_meas : Z) (scost_base upfront : Q) : Q :=
  upfront
  + Competition.Qsum
      (map (fun y =>
              discounted rate (y + 1)
                (if gain_year m life_base life_meas y
                 then scost_base else 0))
           (py_range 0 (Z.max 1 life_meas))).

End Discounting.

(** ** Vocabulary for the shares of a year *)

Module Shares.

Import Competition.

Local Open Scope Q_scope.

(** The measures on the market in a year. *)
Definition competing (measures_adj : list com_measure) (yr : year)
  : list com_measure :=
  filter (com_on_mkt yr) measures_adj.

(** The costs of discount-rate bin [j] over the measures on the market,
    their minimum, and the number of measures at the minimum. *)
Definition bin_costs (measures_adj : list com_measure) (yr : year) (j : nat)
  : list Q :=
  map (fun x => nth j (tot_cost x yr) 0) (competing measures_adj yr).

Definition lowest_cost (measures_adj : list com_measure) (yr : year)
    (j : nat) : Q :=
  match Qmin_py (bin_costs measures_adj yr j) with
  | Ok r => r
  | Raise _ => 0
  end.

Definition winners (measures_adj : list com_measure) (yr : year) (j : nat)
  : nat :=
  length (filter (fun c => Qeq_bool c (lowest_cost measures_adj yr j))
                 (bin_costs measures_adj yr j)).

(** What a measure wins of bin [j], whose population fraction is
    [nth j dist 0]. *)
Definition bin_won (measures_adj : list com_measure) (yr : year)
    (dist : list Q) (m : com_measure) (j : nat) : Q :=
  if Qeq_bool (nth j (tot_cost m yr) 0) (lowest_cost measures_adj yr j)
  then nth j dist 0 / inject_Z (Z.of_nat (winners measures_adj yr j))
  else 0.

End Shares.

(** ** Vocabulary for the breakouts by category *)

Module Partition.

Import Breakout Competition.

Local Open Scope Q_scope.

(** A leaf multiplied by the value of its year, 0 where the dict has
    none. *)
Definition scaled (adjust_vals : list (string * Q))
    (leaf : list string * string * Q) : list string * string * Q :=
  let '(path, k, v) := leaf in (path, k, v * denominator k adjust_vals).

(** The sum of the leaves of year [y]. *)
Definition year_total (y : string) (ls : list (list string * string * Q))
  : Q :=
  Qsum (map (fun l => snd l)
            (filter (fun l => String.eqb (snd (fst l)) y) ls)).

End Partition.

(** ** Sample inputs *)

Module Samples.

Import Competition Order Breakout.

Local Open Scope Q_scope.

(** A three-year horizon. *)
Definition aeo_years : list year := [2015; 2016; 2017]%Z.

(** A microsegment whose every per-year dict holds the same number. *)
Definition flat_mseg (stock value : Q) : mseg :=
  {| stock_measure := fun _ _ => stock;
     vals := fun _ _ _ _ => value |}.

Definition no_secondary : secnd_shares :=
  {| original_total := []; original_competed := [];
     adjusted_total := []; adjusted_competed := [] |}.

(** A measure with a master microsegment of 100 units and a contributing
    microsegment of 40, without secondary effects. *)
Definition adj_state0 : adj_state :=
  {| mast := flat_mseg 10 100;
     mast_brk_base := fun _ => 100;
     mast_brk_eff := fun _ => 100;
     mast_brk_save := fun _ => 0;
     adj := flat_mseg 4 40;
     secnd_adj_mktshr := no_secondary |}.

Definition existing_key : string :=
  "('primary', 'AIA_CZ1', 'single family home', 'electricity', 'lighting', 'general service (LED)', 'existing')".

(** Two residential measures, the second entering the market in 2016. *)
Definition res_a : res_measure (A := Q) :=
  {| yrs_on_mkt := aeo_years;
     unit_cost_s_res := fun _ => 20;
     unit_cost_e_res := fun _ => 5;
     b1 := fun _ => - (1 # 100);
     b2 := fun _ => - (1 # 10) |}.

Definition res_b : res_measure (A := Q) :=
  {| yrs_on_mkt := [2016; 2017]%Z;
     unit_cost_s_res := fun _ => 30;
     unit_cost_e_res := fun _ => 3;
     b1 := fun _ => - (1 # 100);
     b2 := fun _ => - (1 # 10) |}.

(** A stand-in for the exponential on exact numbers; it is positive
    everywhere. *)
Definition exp_like (x : Q) : Q := 1 + x * x.

(** The exponential on binary64 by scaling and squaring: the Taylor
    polynomial of degree [n] at [x / 1024] in Horner form, squared ten
    times.  It approximates [numpy.exp] on finite arguments (2.71828182845
    at 1), and like [numpy.exp] it is finite at 709 and overflows to [inf]
    from 710 on. *)
Fixpoint horner_exp (n : nat) (k x : float) : float :=
  match n with
  | O => 1%float
  | S n' =>
      PrimFloat.add 1%float
        (PrimFloat.mul (PrimFloat.div x k)
                       (horner_exp n' (PrimFloat.add k 1%float) x))
  end.

Fixpoint square_times (n : nat) (y : float) : float :=
  match n with
  | O => y
  | S n' => square_times n' (PrimFloat.mul y y)
  end.

Definition np_exp (x : float) : float :=
  square_times 10 (horner_exp 16 1%float (PrimFloat.div x 1024%float)).

(** A residential measure whose unit capital cost lies 80000 below that of
    the baseline technology: its weighted cost is 800. *)
Definition res_cheap : res_measure (A := float) :=
  {| yrs_on_mkt := aeo_years;
     unit_cost_s_res := fun _ => (-80000)%float;
     unit_cost_e_res := fun _ => 0%float;
     b1 := fun _ => (-0.01)%float;
     b2 := fun _ => (-0.1)%float |}.

(** A measure that applies to 60% of its segment and one that applies to
    all of it. *)
Definition partial_measure : sbmkt_measure :=
  {| sub_market_scaling := 3 # 5; mkt_frac := fun _ => 1 # 2 |}.

Definition full_measure : sbmkt_measure :=
  {| sub_market_scaling := 1; mkt_frac := fun _ => 1 # 2 |}.

(** Two commercial measures with two discount-rate bins; the first is the
    cheaper in the first bin, and they tie in the second. *)
Definition com_a : com_measure :=
  {| com_yrs_on_mkt := aeo_years;
     unit_cost_s_com := fun _ => [10; 20];
     unit_cost_e_com := fun _ => [1; 2];
     rate_distribution := fun _ => [3 # 5; 2 # 5] |}.

Definition com_b : com_measure :=
  {| com_yrs_on_mkt := aeo_years;
     unit_cost_s_com := fun _ => [12; 20];
     unit_cost_e_com := fun _ => [1; 2];
     rate_distribution := fun _ => [3 # 5; 2 # 5] |}.

Definition secondary_key_sample : string :=
  "('secondary', 'AIA_CZ1', 'single family home', 'electricity', 'heating', 'demand', 'lighting gain', 'existing')".

(** The contributing keys of two measures. *)
Definition sample_keys : list (list string) :=
  [[secondary_key_sample; existing_key]; [existing_key]].

(** An engine whose state is the log of the routines it has run. *)
Definition log_step (what : string) (msu : string) (log : list string)
  : result (list string) :=
  Ok (log ++ [(what ++ msu)%string])%list.

(** A breakout structure with one category and two years, and totals of
    which the second is zero. *)
Definition sample_breakout : list (string * brk) :=
  [("AIA CZ1"%string,
    Dict [("Residential (New)"%string,
           Dict [("Lighting"%string,
                  Dict [("2015"%string, Leaf 30);
                        ("2016"%string, Leaf 0)])])])].

Definition sample_totals : list (string * Q) :=
  [("2015"%string, 60); ("2016"%string, 0)].

End Samples.

(** ** More sample inputs *)

Module Cases.

Import Competition.

Local Open Scope Q_scope.

Definition adjkey : string :=
  "('AIA_CZ1', 'single family home', 'existing')".

(** A record of primary shares in which half of the total energy and two
    fifths of the competed energy were kept. *)
Definition ledger : secnd_shares :=
  {| original_total := [(adjkey, fun _ => 40)];
     original_competed := [(adjkey, fun _ => 10)];
     adjusted_total := [(adjkey, fun _ => 20)];
     adjusted_competed := [(adjkey, fun _ => 4)] |}.

(** A measure with that record. *)
Definition secondary_state : adj_state :=
  {| mast := Samples.flat_mseg 10 100;
     mast_brk_base := fun _ => 100;
     mast_brk_eff := fun _ => 100;
     mast_brk_save := fun _ => 0;
     adj := Samples.flat_mseg 4 40;
     secnd_adj_mktshr := ledger |}.

(** A record with the key and nothing recorded yet. *)
Definition fresh_ledger : secnd_shares :=
  {| original_total := [(adjkey, fun _ => 0)];
     original_competed := [(adjkey, fun _ => 0)];
     adjusted_total := [(adjkey, fun _ => 0)];
     adjusted_competed := [(adjkey, fun _ => 0)] |}.

(** The fields of a supply-side heating microsegment, the total heating
    energy of its climate zone, building and structure type, and overlap
    data in which the demand side affects 400 of 1000 units and saves 100
    of them, and the supply side affects 600 and saves 150. *)
Definition heating_supply_key : list string :=
  ["primary"; "AIA_CZ1"; "single family home"; "electricity"; "heating";
   "supply"; "ASHP"; "existing"]%string.

Definition heating_split : list string :=
  ["AIA_CZ1"; "single family home"; "existing"; "electricity";
   "heating"]%string.

Definition heating_totals : list (list string * (year -> Q)) :=
  [(heating_split, fun _ => 1000)].

Definition no_overlaps : Overlap.htcl_data :=
  {| Overlap.supply := []; Overlap.demand := [] |}.

Definition supply_data : Overlap.overlap :=
  {| Overlap.total := fun _ => 1000;
     Overlap.total_affected := fun _ => 600;
     Overlap.affected_savings := fun _ => 150 |}.

Definition demand_data : Overlap.overlap :=
  {| Overlap.total := fun _ => 1000;
     Overlap.total_affected := fun _ => 400;
     Overlap.affected_savings := fun _ => 100 |}.

Definition overlaps : Overlap.htcl_data :=
  {| Overlap.supply := [(heating_split, supply_data)];
     Overlap.demand := [(heating_split, demand_data)] |}.

Definition heating_supply_text : string :=
  "('primary', 'AIA_CZ1', 'single family home', 'electricity', 'heating', 'supply', 'ASHP', 'existing')".

End Cases.

Unset Implicit Arguments.

(** * Properties *)

(** ** List facts used throughout *)

Lemma existsb_map_eq {X Y : Type} (f : Y -> bool) (g : X -> Y) (l : list X) :
  existsb f (map g l) = existsb (fun x => f (g x)) l.
Proof.
  induction l as [|x l IH]; simpl; [reflexivity | now rewrite IH].
Qed.

Lemma existsb_false_forall {X : Type} (f : X -> bool) (l : list X) :
  existsb f l = false -> forall x, In x l -> f x = false.
Proof.
  intros E x Hin. destruct (f x) eqn:Ef; [|reflexivity].
  rewrite <- E. symmetry. apply existsb_exists. eauto.
Qed.

(** ** Financial metrics calculator *)

Module FinanceFacts.

Import Finance.

Section Loop.

Context {A : Type} `{PyNum A}.

Lemma payback_loop_spec (investment : A) (cashflows : list A) :
  forall total years cumulative,
    payback_loop investment cashflows total years cumulative =
    ((years + count_below investment (running_totals total cashflows))%nat,
     cumulative ++ running_totals total cashflows).
Proof.
  induction cashflows as [|cf rest IH]; intros total years cumulative; simpl.
  - now rewrite Nat.add_0_r, app_nil_r.
  - rewrite IH, <- app_assoc. simpl.
    destruct (ltb (add total cf) investment); f_equal; lia.
Qed.

Lemma running_totals_length (total : A) (cashflows : list A) :
  length (running_totals total cashflows) = length cashflows.
Proof.
  revert total; induction cashflows; intros; simpl; auto.
Qed.

Lemma count_below_le (investment : A) (totals : list A) :
  (count_below investment totals <= length totals)%nat.
Proof.
  induction totals; simpl; [lia|]. destruct (ltb a investment); lia.
Qed.

Lemma count_below_all (investment : A) (totals : list A) :
  (forall t, In t totals -> ltb t investment = true) ->
  count_below investment totals = length totals.
Proof.
  induction totals as [|t ts IH]; intros Hall; simpl; auto.
  rewrite (Hall t (or_introl eq_refl)), IH; auto.
  intros; apply Hall; now right.
Qed.

End Loop.

(** *** [metric_update]: the portfolio-level metrics *)

Section Portfolio.

Context {A : Type} `{PyNum A}.

(** With a baseline lifetime other than zero the modulo of the gain-year
    loop is defined, so the list of gain years is computed. *)
Lemma added_stockcost_gain_yrs_defined (m : measure) (life_base life_meas : Z) :
  life_base <> 0%Z ->
  exists gain_yrs, added_stockcost_gain_yrs m life_base life_meas = Ok gain_yrs.
Proof.
  intros Hbase. unfold added_stockcost_gain_yrs.
  destruct (_ && _); [|eauto].
  destruct (py_range 1 life_meas); [eauto|].
  destruct (Z.eqb_spec life_base 0); [contradiction | eauto].
Qed.

Ltac split_outcomes :=
  repeat match goal with
  | |- context [try_irr ?np ?cf] => destruct (try_irr np cf); simpl
  | |- context [try_payback ?cf] => destruct (try_payback cf); simpl
  end.

(** Whenever [metric_update] returns, its cost of conserved energy is
    the sentinel 999 if the NPV of the energy-savings stream is not
    positive, and otherwise minus the NPV of the incremental capital cash
    flows over the NPV of the energy savings; the variant with carbon
    benefits adds the NPV of the carbon cost savings to the capital NPV
    before negating.  This holds for exact numbers and for floats.  The
    portfolio-level part never raises: with a non-zero baseline lifetime
    an exception can only come from the consumer-level metrics. *)
Lemma metric_update_cce_generic
    (hv : handyvars) (np : numpy_lib) (m : measure) (life_base life_meas : Z)
    (scost_base scost_meas_delt esave ecostsave csave ccostsave
     scost_meas ecost_meas ccost_meas : A) :
  life_base <> 0%Z ->
  exists gain_yrs,
    added_stockcost_gain_yrs m life_base life_meas = Ok gain_yrs /\
    let life := floor_life_meas life_meas in
    let npv_s_delt :=
      npv (discount_rate hv)
          (capital_cashflows gain_yrs life scost_base scost_meas_delt) in
    let npv_c_delt :=
      npv (discount_rate hv) (annual_cashflows life ccostsave) in
    let npv_esave := npv (discount_rate hv) (annual_cashflows life esave) in
    match metric_update hv np m life_base life_meas scost_base
            scost_meas_delt esave ecostsave csave ccostsave
            scost_meas ecost_meas ccost_meas with
    | Ok r =>
        if ltb (of_Z 0) npv_esave
        then cce r = div (opp npv_s_delt) npv_esave /\
             cce_bens r = div (opp (add npv_s_delt npv_c_delt)) npv_esave
        else cce r = of_Z 999 /\ cce_bens r = of_Z 999
    | Raise _ => update_consumer_metrics m = true
    end.
Proof.
  intros Hbase.
  destruct (added_stockcost_gain_yrs_defined m life_base life_meas Hbase)
    as [gain_yrs Hgain].
  exists gain_yrs. split; [exact Hgain|].
  unfold metric_update. rewrite Hgain. simpl bind.
  destruct (ltb (of_Z 0)
              (npv (discount_rate hv)
                 (annual_cashflows (floor_life_meas life_meas) esave)));
    destruct (ltb (of_Z 0)
                (npv (discount_rate hv)
                   (annual_cashflows (floor_life_meas life_meas) csave)));
    cbv zeta;
    destruct (update_consumer_metrics m); simpl; auto;
    destruct (existsb residential (bldg_type m));
    destruct (existsb (fun b => negb (residential b)) (bldg_type m));
    try destruct (com_unit_costs _ _ _ _) as [[? ?] ?];
    split_outcomes; auto.
Qed.

End Portfolio.

(** *** [metric_update]: the guards against non-finite values *)

Section Guards.

(** On numpy floats a division never raises, so [payback] returns on every
    non-empty array. *)
Lemma payback_float_returns (investment : float) (tail : list float) :
  exists v, payback (investment :: tail) = Ok v.
Proof.
  unfold payback.
  destruct (leb (of_Z 0) investment); [eauto|].
  destruct (payback_loop _ _ _ _ _) as [years cumulative].
  destruct (years <? _)%nat; [|eauto].
  destruct years; simpl; eauto.
Qed.

Lemma try_payback_float_returns (x y : list float) (a b : float) :
  exists v, try_payback (arr_add (a :: x) (b :: y)) = Ok v.
Proof.
  unfold try_payback, arr_add. simpl combine. simpl map.
  match goal with
  | |- context [payback (?i :: ?t)] =>
      destruct (payback_float_returns i t) as [v Hv]; rewrite Hv
  end.
  eauto.
Qed.

(** What the [try] block around [numpy.irr] lets through. *)
Lemma try_irr_outcome (np : numpy_lib (A := float)) (cf : list float) :
  match try_irr np cf with
  | Ok v => replaced_irr np cf (Some v) /\ float_isfinite v = true
  | Raise e => irr np cf = Raise e /\ is_value_error np e = false
  end.
Proof.
  unfold try_irr, replaced_irr. destruct (irr np cf) as [v|e].
  - simpl. destruct (float_isfinite v) eqn:E; split; auto.
  - destruct (is_value_error np e) eqn:E; [|auto].
    split; [split|]; reflexivity.
Qed.

(** What the [try] block around the commercial NPVs leaves in the three
    outputs: the scalar 999 in all of them as soon as one NPV of one tier
    is not finite, and otherwise the seven NPVs, all finite. *)
Lemma com_unit_costs_outcome (hv : handyvars (A := float))
    (s_tot e_tot c_tot : list float) :
  let bad tps :=
    nonfinite (npv tps s_tot) || nonfinite (npv tps e_tot)
    || nonfinite (npv tps c_tot) in
  com_unit_costs hv s_tot e_tot c_tot
  = if existsb bad (com_timeprefs_rates hv)
    then (ComSentinel, ComSentinel, ComSentinel)
    else (ComRates (map (fun tps => npv tps s_tot) (com_timeprefs_rates hv)),
          ComRates (map (fun tps => npv tps e_tot) (com_timeprefs_rates hv)),
          ComRates (map (fun tps => npv tps c_tot) (com_timeprefs_rates hv))).
Proof.
  intros bad. unfold com_unit_costs.
  rewrite existsb_map_eq. simpl.
  change (fun x : float =>
            nonfinite (npv x s_tot) || nonfinite (npv x e_tot)
            || nonfinite (npv x c_tot)) with bad.
  destruct (existsb bad (com_timeprefs_rates hv)); [reflexivity|].
  now rewrite !map_map.
Qed.

(** The values that stay in a commercial unit-cost dict are finite. *)
Lemma com_unit_costs_finite (hv : handyvars (A := float))
    (s_tot e_tot c_tot : list float) (l : list float) :
  let '(s, e, c) := com_unit_costs hv s_tot e_tot c_tot in
  s = ComRates l \/ e = ComRates l \/ c = ComRates l ->
  forall x, In x l -> float_isfinite x = true.
Proof.
  unfold com_unit_costs. rewrite existsb_map_eq.
  destruct (existsb _ (com_timeprefs_rates hv)) eqn:E.
  - intros [HF|[HF|HF]]; discriminate.
  - rewrite !map_map. simpl.
    assert (Hall : forall tps, In tps (com_timeprefs_rates hv) ->
              float_isfinite (npv tps s_tot) = true /\
              float_isfinite (npv tps e_tot) = true /\
              float_isfinite (npv tps c_tot) = true).
    { intros tps Hin.
      pose proof (existsb_false_forall _ _ E tps Hin) as Hf.
      unfold nonfinite in Hf. simpl in Hf.
      destruct (float_isfinite (npv tps s_tot));
      destruct (float_isfinite (npv tps e_tot));
      destruct (float_isfinite (npv tps c_tot)); auto; discriminate. }
    intros [HF|[HF|HF]] x Hx; injection HF as <-;
      apply in_map_iff in Hx; destruct Hx as [tps [<- Hin]];
      apply (Hall tps Hin).
Qed.

Lemma floor_life_meas_max (life_meas : Z) :
  floor_life_meas life_meas = Z.max 1 life_meas.
Proof.
  unfold floor_life_meas. destruct (Z.ltb_spec life_meas 1); lia.
Qed.

(** C9 (as amended). Non-finite values and the guards of [metric_update],
    on floats.  The cash flows are written out: the upfront cost followed
    by the avoided baseline cost or zero for every year of the (floored)
    measure life, and zero followed by the annual amount for every year.
    With a non-zero baseline lifetime, [metric_update] either returns or
    propagates an exception of [numpy.irr] that is not a [ValueError].
    When it returns and the consumer metrics are computed: each IRR is the
    value of [numpy.irr] if that is finite, and 999 if it is not finite or
    [numpy.irr] raised [ValueError]; for a commercial measure, if one of
    the NPVs of the total stock, energy or carbon cash flows at one of the
    tiers is not finite each of the three commercial unit-cost outputs is
    the scalar 999, and otherwise they are the lists of the NPVs by tier.
    When they are not computed these outputs are [None].  So a returned
    IRR and every value left in a commercial unit-cost dict is finite.
    Nothing is said of the other outputs, which carry no guard. *)
Theorem metric_update_guards
    (hv : handyvars (A := float)) (np : numpy_lib (A := float)) (m : measure)
    (life_base life_meas : Z)
    (scost_base scost_meas_delt esave ecostsave csave ccostsave
     scost_meas ecost_meas ccost_meas : float) :
  life_base <> 0%Z ->
  exists gain_yrs,
    added_stockcost_gain_yrs m life_base life_meas = Ok gain_yrs /\
    let life := Z.max 1 life_meas in
    let avoided :=
      map (fun y => if Z_in y gain_yrs then scost_base else 0%float)
          (py_range 0 life) in
    let annual x := 0%float :: repeat x (Z.to_nat life) in
    let s_tot := scost_meas :: avoided in
    let e_tot := annual ecost_meas in
    let c_tot := annual ccost_meas in
    let cf_e := arr_add (scost_meas_delt :: avoided) (annual ecostsave) in
    let cf_ec := arr_add cf_e (annual ccostsave) in
    let bad tps :=
      nonfinite (npv tps s_tot) || nonfinite (npv tps e_tot)
      || nonfinite (npv tps c_tot) in
    let commercial := existsb (fun b => negb (residential b)) (bldg_type m) in
    match metric_update hv np m life_base life_meas scost_base
            scost_meas_delt esave ecostsave csave ccostsave
            scost_meas ecost_meas ccost_meas with
    | Ok r =>
        (update_consumer_metrics m = true ->
         replaced_irr np cf_e (irr_e r) /\
         replaced_irr np cf_ec (irr_ec r)) /\
        (update_consumer_metrics m = true -> commercial = true ->
         if existsb bad (com_timeprefs_rates hv)
         then unit_cost_s_com r = ComSentinel /\
              unit_cost_e_com r = ComSentinel /\
              unit_cost_c_com r = ComSentinel
         else unit_cost_s_com r
              = ComRates (map (fun tps => npv tps s_tot)
                              (com_timeprefs_rates hv)) /\
              unit_cost_e_com r
              = ComRates (map (fun tps => npv tps e_tot)
                              (com_timeprefs_rates hv)) /\
              unit_cost_c_com r
              = ComRates (map (fun tps => npv tps c_tot)
                              (com_timeprefs_rates hv))) /\
        (update_consumer_metrics m = false \/ commercial = false ->
         unit_cost_s_com r = ComNone /\ unit_cost_e_com r = ComNone /\
         unit_cost_c_com r = ComNone) /\
        (update_consumer_metrics m = false ->
         irr_e r = None /\ irr_ec r = None) /\
        (forall v, irr_e r = Some v \/ irr_ec r = Some v ->
                   float_isfinite v = true) /\
        (forall l, unit_cost_s_com r = ComRates l \/
                   unit_cost_e_com r = ComRates l \/
                   unit_cost_c_com r = ComRates l ->
                   forall x, In x l -> float_isfinite x = true)
    | Raise e =>
        update_consumer_metrics m = true /\
        (irr np cf_e = Raise e \/ irr np cf_ec = Raise e) /\
        is_value_error np e = false
    end.
Proof.
  intros Hbase.
  destruct (added_stockcost_gain_yrs_defined m life_base life_meas Hbase)
    as [gain_yrs Hgain].
  exists gain_yrs. split; [exact Hgain|].
  unfold metric_update. rewrite Hgain. simpl bind.
  rewrite floor_life_meas_max. cbv zeta.
  do 2 match goal with
       | |- context [if PrimFloat.ltb ?a ?b then _ else _] =>
           destruct (PrimFloat.ltb a b)
       end.
  all: destruct (update_consumer_metrics m) eqn:Hupd;
    [| simpl; repeat split; intros;
       try discriminate; intuition discriminate].
  all: destruct (existsb residential (bldg_type m)).
  all: destruct (existsb (fun b => negb (residential b)) (bldg_type m)) eqn:Hc.
  all: match goal with
       | |- context [com_unit_costs ?h ?s ?e ?c] =>
           pose proof (com_unit_costs_outcome h s e c) as Hout;
           pose proof (fun l => com_unit_costs_finite h s e c l) as Hfin;
           cbv zeta in Hout;
           destruct (com_unit_costs h s e c) as [[cs ce] cc]
       | _ => idtac
       end.
  all: unfold capital_cashflows, annual_cashflows in *.
  all: change (@of_Z float float_PyNum 0) with 0%float in *.
  all: repeat match goal with
       | |- context [try_irr ?n ?cf] =>
           let Hirr := fresh "Hirr" in
           pose proof (try_irr_outcome n cf) as Hirr;
           destruct (try_irr n cf); simpl bind;
           [| split; [reflexivity|]; split; [|exact (proj2 Hirr)];
              first [left; exact (proj1 Hirr) | right; exact (proj1 Hirr)]]
       | |- context [try_payback (arr_add (?a :: ?x) (?b :: ?y))] =>
           let v := fresh "v" in
           let Hv := fresh "Hv" in
           destruct (try_payback_float_returns x y a b) as [v Hv];
           rewrite Hv; simpl bind
       | |- context [try_payback (arr_add (arr_add (?a :: ?x) (?b :: ?y))
                                          (?c :: ?z))] =>
           change (arr_add (a :: x) (b :: y))
             with (add a b :: arr_add x y)
       end.
  all: cbn [irr_e irr_ec unit_cost_s_com unit_cost_e_com unit_cost_c_com].
  all: repeat match goal with
       | |- _ /\ _ => split
       end; intros.
  all: try match goal with
       | Hor : Some _ = Some _ \/ Some _ = Some _ |- _ =>
           destruct Hor as [Heq|Heq]; injection Heq as <-; tauto
       end.
  all: try (intuition discriminate).
  all: try (eapply Hfin; eassumption).
  all: match type of Hout with
       | context [if ?b then _ else _] => destruct b
       end; injection Hout as -> -> ->; repeat split; reflexivity.
Qed.


(** C9, counterexample.  For a measure with a tiny but positive stream of
    energy savings and a large capital cost, all inputs finite,
    [metric_update] returns an infinite cost of conserved energy. *)
Lemma metric_update_returns_infinity :
  exists r,
    metric_update FinanceData.handyvars_float FinanceData.numpy_no_rate
      FinanceData.heating_measure 10 1
      1%float (-1e308)%float 1e-300%float 1%float 1%float 1%float
      1%float 1%float 1%float = Ok r /\
    float_isfinite (cce r) = false.
Proof. eexists. split; vm_compute; reflexivity. Qed.

(** The theorem above for the sample lighting measure and a numpy whose
    [irr] returns NaN. *)
Lemma metric_update_guards_witness :
  (10 <> 0)%Z /\
  exists gain_yrs,
    added_stockcost_gain_yrs FinanceData.lighting_measure 10 30 = Ok gain_yrs /\
    let hv := FinanceData.handyvars_float in
    let np := FinanceData.numpy_no_rate in
    let m := FinanceData.lighting_measure in
    let life := Z.max 1 30 in
    let avoided :=
      map (fun y => if Z_in y gain_yrs then 5%float else 0%float)
          (py_range 0 life) in
    let annual x := 0%float :: repeat x (Z.to_nat life) in
    let s_tot := 25%float :: avoided in
    let e_tot := annual 4%float in
    let c_tot := annual 1%float in
    let cf_e := arr_add ((-20)%float :: avoided) (annual 2%float) in
    let cf_ec := arr_add cf_e (annual 1%float) in
    let bad tps :=
      nonfinite (npv tps s_tot) || nonfinite (npv tps e_tot)
      || nonfinite (npv tps c_tot) in
    let commercial := existsb (fun b => negb (residential b)) (bldg_type m) in
    match metric_update hv np m 10 30 5%float (-20)%float 3%float 2%float
            1%float 1%float 25%float 4%float 1%float with
    | Ok r =>
        (update_consumer_metrics m = true ->
         replaced_irr np cf_e (irr_e r) /\
         replaced_irr np cf_ec (irr_ec r)) /\
        (update_consumer_metrics m = true -> commercial = true ->
         if existsb bad (com_timeprefs_rates hv)
         then unit_cost_s_com r = ComSentinel /\
              unit_cost_e_com r = ComSentinel /\
              unit_cost_c_com r = ComSentinel
         else unit_cost_s_com r
              = ComRates (map (fun tps => npv tps s_tot)
                              (com_timeprefs_rates hv)) /\
              unit_cost_e_com r
              = ComRates (map (fun tps => npv tps e_tot)
                              (com_timeprefs_rates hv)) /\
              unit_cost_c_com r
              = ComRates (map (fun tps => npv tps c_tot)
                              (com_timeprefs_rates hv))) /\
        (update_consumer_metrics m = false \/ commercial = false ->
         unit_cost_s_com r = ComNone /\ unit_cost_e_com r = ComNone /\
         unit_cost_c_com r = ComNone) /\
        (update_consumer_metrics m = false ->
         irr_e r = None /\ irr_ec r = None) /\
        (forall v, irr_e r = Some v \/ irr_ec r = Some v ->
                   float_isfinite v = true) /\
        (forall l, unit_cost_s_com r = ComRates l \/
                   unit_cost_e_com r = ComRates l \/
                   unit_cost_c_com r = ComRates l ->
                   forall x, In x l -> float_isfinite x = true)
    | Raise e =>
        update_consumer_metrics m = true /\
        (irr np cf_e = Raise e \/ irr np cf_ec = Raise e) /\
        is_value_error np e = false
    end.
Proof.
  assert (H1 : (10 <> 0)%Z) by discriminate.
  split; [exact H1|].
  exact (metric_update_guards FinanceData.handyvars_float
           FinanceData.numpy_no_rate FinanceData.lighting_measure 10 30
           5%float (-20)%float 3%float 2%float 1%float 1%float 25%float
           4%float 1%float H1).
Defined.

(** With an infinite capital cost every commercial NPV is infinite, and the
    three commercial unit costs come back as 999. *)
Lemma metric_update_sentinel_example :
  exists r,
    metric_update FinanceData.handyvars_float FinanceData.numpy_no_rate
      FinanceData.lighting_measure 10 30 5%float (-20)%float 3%float 2%float
      1%float 1%float infinity 4%float 1%float = Ok r /\
    unit_cost_s_com r = ComSentinel /\ unit_cost_e_com r = ComSentinel /\
    unit_cost_c_com r = ComSentinel /\ irr_e r = Some 999%float.
Proof.
  eexists. split; [vm_compute; reflexivity|].
  vm_compute. repeat split.
Qed.

End Guards.

(** *** [payback] on exact numbers *)

Section PaybackExact.

Local Open Scope Q_scope.

Lemma Qltb_true (x y : Q) : Qltb x y = true <-> x < y.
Proof.
  unfold Qltb. rewrite negb_true_iff.
  destruct (Qle_bool y x) eqn:E.
  - apply Qle_bool_iff in E. split; [discriminate | intros; exfalso; lra].
  - split; auto. intros _. apply Qnot_le_lt. intro Hle.
    apply Qle_bool_iff in Hle. congruence.
Qed.

Lemma Qltb_false (x y : Q) : Qltb x y = false <-> y <= x.
Proof.
  unfold Qltb. rewrite negb_false_iff. apply Qle_bool_iff.
Qed.

Lemma Qle_bool_false (x y : Q) : Qle_bool x y = false <-> y < x.
Proof.
  destruct (Qle_bool x y) eqn:E.
  - apply Qle_bool_iff in E. split; [discriminate | intros; exfalso; lra].
  - split; auto. intros _. apply Qnot_le_lt. intro Hle.
    apply Qle_bool_iff in Hle. congruence.
Qed.

(** [payback([-100, 50, 50, 50])] is 2: the investment is recovered
    exactly at the end of the second year. *)
Lemma payback_example :
  exists v, payback [-100; 50; 50; 50] = Ok v /\ v == 2.
Proof. eexists; split; [vm_compute; reflexivity | reflexivity]. Qed.

(** A non-negative first entry pays back immediately. *)
Lemma payback_nonneg_investment (investment : Q) (tail : list Q) :
  0 <= investment -> payback (investment :: tail) = Ok 0.
Proof.
  intros Hinv. unfold payback.
  assert (E : leb (of_Z 0) investment = true)
    by (apply Qle_bool_iff; exact Hinv).
  now rewrite E.
Qed.

(** A stream whose running totals all stay below the size of the
    investment, over the flows extended to 100 years, never pays back. *)
Lemma payback_never_recovers (investment : Q) (tail : list Q) :
  investment < 0 ->
  (forall t, In t (running_totals 0 (extend_cashflows (investment :: tail)))
             -> t < Qabs investment) ->
  payback (investment :: tail) = Ok 999.
Proof.
  intros Hinv Hbelow. unfold payback.
  assert (E : leb (of_Z 0) investment = false)
    by (apply Qle_bool_false; exact Hinv).
  rewrite E, payback_loop_spec.
  rewrite count_below_all, running_totals_length.
  - simpl Nat.add. now rewrite Nat.ltb_irrefl.
  - intros t Ht. apply Qltb_true. now apply Hbelow.
Qed.

Lemma py_div_nonzero (v d : Q) :
  Qeq_bool d 0 = false -> Finance.py_div v d = Ok (v / d).
Proof.
  intros E.
  change (Finance.py_div v d)
    with (if true && Qeq_bool d 0 then Raise ZeroDivisionError
          else Ok (v / d)).
  now rewrite E.
Qed.

(** With flows that are not negative the running totals do not
    decrease. *)
Lemma running_totals_ge (total : Q) (cashflows : list Q) :
  (forall c, In c cashflows -> 0 <= c) ->
  forall x, In x (running_totals total cashflows) -> total <= x.
Proof.
  revert total. induction cashflows as [|c rest IH]; intros total Hpos x Hx;
    [contradiction|].
  assert (0 <= c) by (apply Hpos; now left).
  cbn [running_totals] in Hx. change (add total c) with (total + c) in Hx.
  destruct Hx as [<-|Hx].
  - lra.
  - assert (total + c <= x).
    { apply (IH (total + c)); [intros; apply Hpos; now right | exact Hx]. }
    lra.
Qed.

Lemma running_totals_mono (total : Q) (cashflows : list Q) :
  (forall c, In c cashflows -> 0 <= c) ->
  forall i j, (i <= j < length cashflows)%nat ->
    nth i (running_totals total cashflows) 0
    <= nth j (running_totals total cashflows) 0.
Proof.
  revert total. induction cashflows as [|c rest IH]; intros total Hpos i j Hij;
    [simpl in Hij; lia|].
  assert (Hrest : forall c', In c' rest -> 0 <= c')
    by (intros; apply Hpos; now right).
  destruct i as [|i], j as [|j]; cbn [running_totals nth];
    change (add total c) with (total + c).
  - lra.
  - apply (running_totals_ge (total + c) rest Hrest).
    apply nth_In. rewrite running_totals_length. simpl in Hij. lia.
  - lia.
  - apply IH; [exact Hrest | simpl in Hij; lia].
Qed.

Lemma count_below_prefix (investment : Q) (totals : list Q) (k : nat) :
  (k <= length totals)%nat ->
  (forall i, (i < k)%nat -> nth i totals 0 < investment) ->
  (forall i, (k <= i < length totals)%nat -> investment <= nth i totals 0) ->
  count_below investment totals = k.
Proof.
  revert k. induction totals as [|t ts IH]; intros k Hk Hlt Hge.
  - simpl in Hk. simpl. lia.
  - cbn [count_below]. destruct k as [|k].
    + assert (E : ltb t investment = false).
      { apply Qltb_false. apply (Hge 0%nat). simpl. lia. }
      rewrite E. rewrite (IH 0%nat); [reflexivity | lia | intros; lia |].
      intros i Hi. apply (Hge (S i)). simpl. lia.
    + assert (E : ltb t investment = true).
      { apply Qltb_true. apply (Hlt 0%nat). lia. }
      rewrite E. rewrite (IH k); [reflexivity | simpl in Hk; lia | |].
      * intros i Hi. apply (Hlt (S i)). lia.
      * intros i Hi. apply (Hge (S i)). simpl. lia.
Qed.

(** When no flow after the investment is negative and the running totals
    reach the investment in year [k], the payback period interpolates
    linearly within that year. *)
Lemma payback_interpolates (investment : Q) (tail : list Q) (k : nat) :
  investment < 0 ->
  let cashflows := extend_cashflows (investment :: tail) in
  let totals := running_totals 0 cashflows in
  let before := match k with O => 0 | S y => nth y totals 0 end in
  (forall c, In c cashflows -> 0 <= c) ->
  (k < length cashflows)%nat ->
  (forall i, (i < k)%nat -> nth i totals 0 < Qabs investment) ->
  Qabs investment <= nth k totals 0 ->
  exists v,
    payback (investment :: tail) = Ok v /\
    v == inject_Z (Z.of_nat k)
         + (Qabs investment - before) / (nth k totals 0 - before).
Proof.
  intros Hinv cashflows totals before Hpos Hk Hbelow Hreach.
  assert (Hlen : length totals = length cashflows)
    by apply running_totals_length.
  assert (Hcount : count_below (Qabs investment) totals = k).
  { apply count_below_prefix; [lia | exact Hbelow |].
    intros i Hi.
    assert (nth k totals 0 <= nth i totals 0)
      by (apply running_totals_mono; [exact Hpos | lia]).
    lra. }
  unfold payback. fold cashflows.
  assert (E : leb (of_Z 0) investment = false)
    by (apply Qle_bool_false; exact Hinv).
  rewrite E, payback_loop_spec.
  change (absv investment) with (Qabs investment).
  change (running_totals (of_Z 0) cashflows) with totals.
  rewrite Hcount. cbn [Nat.add app].
  assert (E' : (k <? length cashflows)%nat = true)
    by (apply Nat.ltb_lt; exact Hk).
  rewrite E'.
  destruct k as [|y].
  - assert (Habs : 0 < Qabs investment).
    { rewrite Qabs_neg by lra. lra. }
    assert (Hc : Qeq_bool (nth 0 totals 0) 0 = false).
    { destruct (Qeq_bool (nth 0 totals 0) 0) eqn:E0; [|reflexivity].
      apply Qeq_bool_iff in E0. lra. }
    change (nth 0 totals (of_Z 0)) with (nth 0 totals 0).
    rewrite (py_div_nonzero _ _ Hc). cbn [bind].
    eexists. split; [reflexivity|].
    unfold before. change (add (of_Z (Z.of_nat 0))) with (Qplus 0).
    change (inject_Z (Z.of_nat 0)) with 0.
    field. repeat split; intros Hz; lra.
  - assert (Hprev : nth y totals 0 < Qabs investment)
      by (apply Hbelow; lia).
    assert (Hc : Qeq_bool (nth (S y) totals 0 - nth y totals 0) 0 = false).
    { destruct (Qeq_bool _ 0) eqn:E0; [|reflexivity].
      apply Qeq_bool_iff in E0. lra. }
    change (sub (nth (S y) totals (of_Z 0)) (nth y totals (of_Z 0)))
      with (nth (S y) totals 0 - nth y totals 0).
    rewrite (py_div_nonzero _ _ Hc). cbn [bind].
    eexists. split; [reflexivity|].
    unfold before. reflexivity.
Qed.

(** *** When [payback] returns on exact numbers *)

Lemma count_below_none (investment : Q) (totals : list Q) :
  count_below investment totals = 0%nat ->
  forall t, In t totals -> investment <= t.
Proof.
  induction totals as [|x l IH]; intros Hc t Ht; [contradiction|].
  cbn [count_below] in Hc.
  destruct (ltb x investment) eqn:E; [simpl in Hc; lia|].
  destruct Ht as [<-|Ht]; [now apply Qltb_false | apply IH; auto].
Qed.

Lemma count_below_not_below (investment : Q) (totals : list Q) :
  (forall t, In t totals -> investment <= t) ->
  count_below investment totals = 0%nat.
Proof.
  induction totals as [|x l IH]; intros Hall; [reflexivity|].
  cbn [count_below].
  assert (E : ltb x investment = false)
    by (apply Qltb_false, Hall; now left).
  rewrite E. apply IH. intros; apply Hall; now right.
Qed.

(** In a list that does not decrease, the totals below the investment are
    the first ones. *)
Lemma count_below_sorted (investment : Q) (totals : list Q) :
  (forall i j, (i <= j < length totals)%nat ->
               nth i totals 0 <= nth j totals 0) ->
  (forall i, (i < count_below investment totals)%nat ->
             nth i totals 0 < investment) /\
  (forall i, (count_below investment totals <= i < length totals)%nat ->
             investment <= nth i totals 0).
Proof.
  induction totals as [|x l IH]; intros Hmono.
  - split; intros i Hi; simpl in Hi; lia.
  - assert (Hl : forall i j, (i <= j < length l)%nat ->
                             nth i l 0 <= nth j l 0).
    { intros i j Hij. apply (Hmono (S i) (S j)). simpl. lia. }
    cbn [count_below]. destruct (ltb x investment) eqn:E.
    + apply Qltb_true in E. destruct (IH Hl) as [Hlt Hge].
      split; intros [|i] Hi; cbn [nth]; try assumption.
      * apply Hlt. simpl in Hi. lia.
      * simpl in Hi. lia.
      * apply Hge. simpl in Hi. lia.
    + apply Qltb_false in E.
      assert (Hall : forall t, In t l -> investment <= t).
      { intros t Ht. destruct (In_nth l t 0 Ht) as [i [Hi <-]].
        assert (x <= nth i l 0) by (apply (Hmono 0%nat (S i)); simpl; lia).
        lra. }
      rewrite (count_below_not_below investment l Hall).
      split; intros [|i] Hi; cbn [nth]; try (simpl in Hi; lia);
        try assumption.
      apply Hall. apply nth_In. simpl in Hi. lia.
Qed.

(** From one running total to the next: the flow of the year. *)
Lemma running_totals_step (total : Q) (cashflows : list Q) (y : nat) :
  (S y < length cashflows)%nat ->
  nth (S y) (running_totals total cashflows) 0
  - nth y (running_totals total cashflows) 0
  == nth (S y) cashflows 0.
Proof.
  revert total y. induction cashflows as [|c rest IH]; intros total y Hy;
    [simpl in Hy; lia|].
  cbn [running_totals]. change (add total c) with (total + c).
  destruct y as [|y].
  - destruct rest as [|c' rest']; [simpl in Hy; lia|].
    cbn [running_totals nth]. change (add (total + c) c') with (total + c + c').
    ring.
  - change (nth (S (S y)) (total + c :: running_totals (total + c) rest) 0)
      with (nth (S y) (running_totals (total + c) rest) 0).
    change (nth (S y) (total + c :: running_totals (total + c) rest) 0)
      with (nth y (running_totals (total + c) rest) 0).
    change (nth (S (S y)) (c :: rest) 0) with (nth (S y) rest 0).
    apply IH. simpl in Hy. lia.
Qed.

Lemma running_totals_le (total : Q) (cashflows : list Q) :
  (forall c, In c cashflows -> c <= 0) ->
  forall x, In x (running_totals total cashflows) -> x <= total.
Proof.
  revert total. induction cashflows as [|c rest IH]; intros total Hneg x Hx;
    [contradiction|].
  assert (c <= 0) by (apply Hneg; now left).
  cbn [running_totals] in Hx. change (add total c) with (total + c) in Hx.
  destruct Hx as [<-|Hx]; [lra|].
  assert (x <= total + c)
    by (apply (IH (total + c)); [intros; apply Hneg; now right | exact Hx]).
  lra.
Qed.

(** [payback] returns when the flows after the investment are all
    different from zero, or none of them is negative, or none is
    positive. *)
Lemma payback_returns (investment : Q) (tail : list Q) :
  let cashflows := extend_cashflows (investment :: tail) in
  (forall c, In c cashflows -> ~ c == 0) \/
  (forall c, In c cashflows -> 0 <= c) \/
  (forall c, In c cashflows -> c <= 0) ->
  exists v, payback (investment :: tail) = Ok v.
Proof.
  intros cashflows Hflows. unfold payback. fold cashflows.
  destruct (leb (of_Z 0) investment) eqn:E; [eauto|].
  apply Qle_bool_false in E. change (of_Z 0) with 0 in E.
  assert (Habs : 0 < Qabs investment).
  { rewrite Qabs_neg by lra. lra. }
  rewrite payback_loop_spec.
  change (absv investment) with (Qabs investment).
  set (totals := running_totals (of_Z 0) cashflows).
  assert (Hlen : length totals = length cashflows)
    by apply running_totals_length.
  cbn [Nat.add app].
  destruct (Nat.ltb_spec (count_below (Qabs investment) totals)
              (length cashflows)) as [Hlt|Hge]; [|eauto].
  destruct (count_below (Qabs investment) totals) as [|y] eqn:Hcount.
  - (* the first total already reaches the investment *)
    assert (Hfirst : Qabs investment <= nth 0 totals 0).
    { apply (count_below_none _ _ Hcount). apply nth_In. lia. }
    assert (Hc : Qeq_bool (nth 0 totals 0) 0 = false).
    { destruct (Qeq_bool _ 0) eqn:E0; [|reflexivity].
      apply Qeq_bool_iff in E0. lra. }
    change (nth 0 totals (of_Z 0)) with (nth 0 totals 0).
    rewrite (py_div_nonzero _ _ Hc). cbn [bind]. eauto.
  - assert (Hstep : nth (S y) totals 0 - nth y totals 0
                    == nth (S y) cashflows 0)
      by (apply running_totals_step; exact Hlt).
    assert (Hc : Qeq_bool (nth (S y) totals 0 - nth y totals 0) 0 = false).
    { destruct (Qeq_bool _ 0) eqn:E0; [|reflexivity].
      apply Qeq_bool_iff in E0. exfalso.
      destruct Hflows as [Hnz|[Hpos|Hneg]].
      - apply (Hnz (nth (S y) cashflows 0)); [apply nth_In; lia|].
        rewrite <- Hstep. exact E0.
      - destruct (count_below_sorted (Qabs investment) totals) as [Hb Ha].
        { intros i j Hij. apply running_totals_mono; [exact Hpos | lia]. }
        rewrite Hcount in Hb, Ha.
        assert (nth y totals 0 < Qabs investment) by (apply Hb; lia).
        assert (Qabs investment <= nth (S y) totals 0) by (apply Ha; lia).
        lra.
      - assert (Hall : count_below (Qabs investment) totals
                       = length totals).
        { apply count_below_all. intros t Ht. apply Qltb_true.
          assert (t <= 0) by (apply (running_totals_le _ _ Hneg t Ht)).
          lra. }
        lia. }
    change (sub (nth (S y) totals (of_Z 0)) (nth y totals (of_Z 0)))
      with (nth (S y) totals 0 - nth y totals 0).
    rewrite (py_div_nonzero _ _ Hc). cbn [bind]. eauto.
Qed.

Lemma extend_cashflows_In (investment : Q) (tail : list Q) (c : Q) :
  tail <> [] -> In c (extend_cashflows (investment :: tail)) -> In c tail.
Proof.
  intros Hne Hc. unfold extend_cashflows in Hc.
  apply in_app_or in Hc. destruct Hc as [Hc|Hc]; [exact Hc|].
  apply repeat_spec in Hc. subst c.
  destruct tail as [|x tail]; [congruence|].
  change (last (investment :: x :: tail) investment)
    with (last (x :: tail) investment).
  destruct (exists_last (l := x :: tail)) as [l' [z Hz]]; [discriminate|].
  rewrite Hz, last_last. apply in_or_app. right. now left.
Qed.

(** Flows that take at most two values: [payback] returns. *)
Lemma payback_two_valued (investment : Q) (tail : list Q) (a b : Q) :
  tail <> [] -> (forall c, In c tail -> c = a \/ c = b) ->
  exists v, payback (investment :: tail) = Ok v.
Proof.
  intros Hne Hab. apply payback_returns.
  assert (Hflows : forall c,
             In c (extend_cashflows (investment :: tail)) ->
             c = a \/ c = b).
  { intros c Hc. apply Hab. eapply extend_cashflows_In; eauto. }
  destruct (Qeq_dec a 0) as [Ha|Ha].
  - destruct (Qlt_le_dec b 0) as [Hb|Hb].
    + right. right. intros c Hc. destruct (Hflows c Hc); subst; lra.
    + right. left. intros c Hc. destruct (Hflows c Hc); subst; lra.
  - destruct (Qeq_dec b 0) as [Hb|Hb].
    + destruct (Qlt_le_dec a 0) as [Ha'|Ha'].
      * right. right. intros c Hc. destruct (Hflows c Hc); subst; lra.
      * right. left. intros c Hc. destruct (Hflows c Hc); subst; lra.
    + left. intros c Hc. destruct (Hflows c Hc); subst; assumption.
Qed.

Lemma combine_repeat (e : Q) (l : list Q) :
  combine l (repeat e (length l)) = map (fun x => (x, e)) l.
Proof.
  induction l as [|x l IH]; simpl; [reflexivity | now rewrite IH].
Qed.

Lemma py_range_length (life : Z) :
  length (py_range 0 life) = Z.to_nat life.
Proof.
  unfold py_range. rewrite length_map, length_seq. f_equal. lia.
Qed.

(** The yearly flows of capital plus energy cost savings take two values:
    with and without the avoided baseline purchase. *)
Lemma capital_energy_flows (gain_yrs : list Z) (life : Z)
    (scost_base upfront e : Q) :
  exists tail,
    arr_add (capital_cashflows gain_yrs life scost_base upfront)
            (annual_cashflows life e)
    = (upfront + 0) :: tail /\
    length tail = Z.to_nat life /\
    (forall c, In c tail -> c = scost_base + e \/ c = 0 + e).
Proof.
  unfold arr_add, capital_cashflows, annual_cashflows.
  cbn [combine map fst snd].
  set (stock := map _ (py_range 0 life)).
  assert (Hlen : length stock = Z.to_nat life).
  { unfold stock. now rewrite length_map, py_range_length. }
  rewrite <- Hlen, combine_repeat, map_map. cbn [fst snd].
  eexists. split; [reflexivity|]. split.
  - now rewrite length_map.
  - intros c Hc. apply in_map_iff in Hc. destruct Hc as [y [<- Hy]].
    unfold stock in Hy. apply in_map_iff in Hy. destruct Hy as [z [<- _]].
    destruct (Z_in z gain_yrs); [now left | now right].
Qed.

Lemma capital_energy_carbon_flows (gain_yrs : list Z) (life : Z)
    (scost_base upfront e cc : Q) :
  exists tail,
    arr_add (arr_add (capital_cashflows gain_yrs life scost_base upfront)
                     (annual_cashflows life e))
            (annual_cashflows life cc)
    = (upfront + 0 + 0) :: tail /\
    length tail = Z.to_nat life /\
    (forall c, In c tail -> c = scost_base + e + cc \/ c = 0 + e + cc).
Proof.
  destruct (capital_energy_flows gain_yrs life scost_base upfront e)
    as [tail [Heq [Hlen Hflows]]].
  rewrite Heq. unfold arr_add at 1. unfold annual_cashflows.
  cbn [combine map fst snd].
  rewrite <- Hlen, combine_repeat, map_map. cbn [fst snd].
  eexists. split; [reflexivity|]. split.
  - now rewrite length_map.
  - intros c Hc. apply in_map_iff in Hc. destruct Hc as [y [<- Hy]].
    destruct (Hflows y Hy) as [-> | ->]; [now left | now right].
Qed.

Lemma floor_life_meas_pos (life_meas : Z) :
  (0 < Z.to_nat (floor_life_meas life_meas))%nat.
Proof.
  unfold floor_life_meas. destruct (Z.ltb_spec life_meas 1); lia.
Qed.

(** On exact numbers [metric_update] returns, for a baseline lifetime
    other than zero, whenever [numpy.irr] raises nothing but what the
    [except ValueError] clause catches. *)
Lemma metric_update_returns_exact
    (hv : handyvars (A := Q)) (np : numpy_lib (A := Q)) (m : measure)
    (life_base life_meas : Z)
    (scost_base scost_meas_delt esave ecostsave csave ccostsave
     scost_meas ecost_meas ccost_meas : Q) :
  life_base <> 0%Z ->
  (forall cf e, irr np cf = Raise e -> is_value_error np e = true) ->
  exists r,
    metric_update hv np m life_base life_meas scost_base scost_meas_delt
      esave ecostsave csave ccostsave scost_meas ecost_meas ccost_meas
    = Ok r.
Proof.
  intros Hbase Hirr.
  destruct (added_stockcost_gain_yrs_defined m life_base life_meas Hbase)
    as [gain_yrs Hgain].
  unfold metric_update. rewrite Hgain. cbn [bind]. cbv zeta.
  destruct (capital_energy_flows gain_yrs (floor_life_meas life_meas)
              scost_base scost_meas_delt ecostsave)
    as [tail_e [He [Hlen_e Hflows_e]]].
  destruct (capital_energy_carbon_flows gain_yrs (floor_life_meas life_meas)
              scost_base scost_meas_delt ecostsave ccostsave)
    as [tail_ec [Hec [Hlen_ec Hflows_ec]]].
  rewrite Hec, He.
  pose proof (floor_life_meas_pos life_meas) as Hlife.
  assert (Hpay_e : exists v,
            try_payback ((scost_meas_delt + 0) :: tail_e) = Ok v).
  { destruct (payback_two_valued (scost_meas_delt + 0) tail_e
                (scost_base + ecostsave) (0 + ecostsave)) as [v Hv].
    - intros ->. simpl in Hlen_e. lia.
    - exact Hflows_e.
    - unfold try_payback. rewrite Hv. eauto. }
  assert (Hpay_ec : exists v,
            try_payback ((scost_meas_delt + 0 + 0) :: tail_ec) = Ok v).
  { destruct (payback_two_valued (scost_meas_delt + 0 + 0) tail_ec
                (scost_base + ecostsave + ccostsave)
                (0 + ecostsave + ccostsave)) as [v Hv].
    - intros ->. simpl in Hlen_ec. lia.
    - exact Hflows_ec.
    - unfold try_payback. rewrite Hv. eauto. }
  destruct Hpay_e as [pe Hpe]. destruct Hpay_ec as [pec Hpec].
  rewrite Hpe, Hpec.
  assert (Htry : forall cf, exists v, try_irr np cf = Ok v).
  { intros cf. unfold try_irr. destruct (irr np cf) as [v|e] eqn:E.
    - destruct (isfinite v); eauto.
    - rewrite (Hirr cf e E). eauto. }
  destruct (Htry ((scost_meas_delt + 0) :: tail_e)) as [ie Hie].
  destruct (Htry ((scost_meas_delt + 0 + 0) :: tail_ec)) as [iec Hiec].
  rewrite Hie, Hiec. cbn [bind].
  repeat match goal with
  | |- context [if ?b then _ else _] => destruct b
  | |- context [let '(_, _) := ?p in _] => destruct p
  end; eauto.
Qed.

(** C4, at a failing input.  The running totals 150, 50, 60, 100, ...
    reach the investment of 100 in the first year and again, for good, at
    the end of the fourth; the loop counts the two years whose total is
    below 100 and interpolates between the second and third totals, which
    gives 7 years. *)
Lemma payback_counts_years_below :
  exists v, payback [-100; 150; -100; 10; 40] = Ok v /\ v == 7.
Proof. eexists; split; [vm_compute; reflexivity | reflexivity]. Qed.

(** With Python numbers the interpolation can also divide by zero. *)
Lemma payback_zero_division :
  payback [-100; 200; -150; 0] = Raise ZeroDivisionError.
Proof. vm_compute. reflexivity. Qed.

End PaybackExact.

End FinanceFacts.

(** ** The lifetime floor *)

Module LifetimeFacts.

Import Lifetime.

Local Open Scope Q_scope.

(** A point-value lifetime below one year is set to one year, silently. *)
Lemma floor_lifetime_scalar (x : Q) :
  floor_lifetime (Scalar x) = Ok (floor_elementwise (Scalar x)).
Proof.
  unfold floor_lifetime, floor_elementwise. now destruct (Qltb x 1).
Qed.

(** The measure lifetime that reaches the cash flows is at least one year,
    for every sample. *)
Lemma life_meas_used_floor (x : Q) : (1 <= life_meas_used x)%Z.
Proof.
  unfold life_meas_used, Finance.floor_life_meas.
  destruct (Z.ltb_spec (py_round x) 1); lia.
Qed.

(** An array of lifetimes is never changed by the floor: it is returned
    as it is, or the floor raises. *)
Lemma floor_lifetime_array (xs : list Q) :
  floor_lifetime (Array xs)
  = if py_any xs then Ok (Array xs) else Raise TypeError.
Proof.
  unfold floor_lifetime, bool_lt_1. now destruct (py_any xs).
Qed.

(** C8, at the failing inputs.  A baseline lifetime array with a sample of
    half a year is left as it is, where the element-wise floor would give
    one year; and on an array of zeros the floor raises [TypeError]. *)
Lemma floor_lifetime_array_not_floored :
  floor_lifetime (Array [1 # 2; 3]) = Ok (Array [1 # 2; 3]) /\
  floor_elementwise (Array [1 # 2; 3]) = Array [1; 3] /\
  floor_lifetime (Array [0; 0]) = Raise TypeError.
Proof. repeat split. Qed.

End LifetimeFacts.

(** ** The breakout walk *)

Module BreakoutFacts.

Import Breakout.

Local Open Scope Q_scope.

(** One item: when every year below it has a normalisation total, the
    division walk returns, and it turns every leaf into its fraction. *)
Lemma out_break_item_divide (adjust_vals : list (string * Q)) :
  forall (i : brk) (k : string) (path : list string),
    (forall p y v, In (p, y, v) (leaves_item path k i) ->
                   exists d, lookup y adjust_vals = Ok d) ->
    exists i', out_break_item adjust_vals true k i = Ok i' /\
               leaves_item path k i'
               = map (normalised adjust_vals) (leaves_item path k i).
Proof.
  fix IH 1. intros [v | items] k path Hkeys.
  - destruct (Hkeys path k v (or_introl eq_refl)) as [d Hd].
    cbn [out_break_item leaves_item map bind negb].
    unfold normalised, denominator, fraction. rewrite Hd.
    cbn [bind negb].
    destruct (Qeq_bool d 0) eqn:E; cbn [negb].
    + eexists; split; reflexivity.
    + rewrite (FinanceFacts.py_div_nonzero v d E). cbn [bind].
      eexists; split; reflexivity.
  - simpl in Hkeys. simpl.
    assert (Hitems :
      exists items',
        (fix walk (l : list (string * brk)) : result (list (string * brk)) :=
           match l with
           | [] => Ok []
           | (k', i') :: rest =>
               r <- out_break_item adjust_vals true k' i' ;;
               rs <- walk rest ;;
               Ok ((k', r) :: rs)
           end) items = Ok items' /\
        (fix go (l : list (string * brk)) : list (list string * string * Q) :=
           match l with
           | [] => []
           | (k', i') :: rest => leaves_item (path ++ [k]) k' i' ++ go rest
           end) items'
        = map (normalised adjust_vals)
            ((fix go (l : list (string * brk))
                : list (list string * string * Q) :=
                match l with
                | [] => []
                | (k', i') :: rest =>
                    leaves_item (path ++ [k]) k' i' ++ go rest
                end) items)).
    { induction items as [|[k' i'] rest IHrest].
      - exists []. split; reflexivity.
      - destruct (IH i' k' (path ++ [k])) as [r [Hr Hlr]].
        { intros p y v Hin. apply (Hkeys p y v).
          apply in_or_app. now left. }
        destruct IHrest as [rs [Hrs Hlrs]].
        { intros p y v Hin. apply (Hkeys p y v).
          apply in_or_app. now right. }
        exists ((k', r) :: rs). split.
        + rewrite Hr. simpl. rewrite Hrs. reflexivity.
        + rewrite map_app, <- Hlr, <- Hlrs. reflexivity. }
    destruct Hitems as [items' [Hwalk Hleaves]].
    exists (Dict items'). split.
    + rewrite Hwalk. reflexivity.
    + exact Hleaves.
Qed.

(** C10. Normalising the breakout tree is total.  When every year that
    keys a leaf has a normalisation total, [out_break_walk] with
    [divide=True] returns (it raises neither [ZeroDivisionError] nor
    anything else); the structure it returns has the leaves of the input,
    each divided by the total of its year, and every leaf whose total is 0
    is set to exactly 0. *)
Theorem out_break_walk_divide_total
    (adjust_dict : list (string * brk)) (adjust_vals : list (string * Q)) :
  (forall p y v, In (p, y, v) (leaves [] adjust_dict) ->
                 exists d, lookup y adjust_vals = Ok d) ->
  exists fracs,
    out_break_walk adjust_dict adjust_vals true = Ok fracs /\
    leaves [] fracs = map (normalised adjust_vals) (leaves [] adjust_dict) /\
    (forall p y v d,
        In (p, y, v) (leaves [] adjust_dict) ->
        lookup y adjust_vals = Ok d -> d == 0 ->
        In (p, y, 0) (leaves [] fracs)).
Proof.
  intros Hkeys.
  assert (Hwalk : exists fracs,
            out_break_walk adjust_dict adjust_vals true = Ok fracs /\
            leaves [] fracs
            = map (normalised adjust_vals) (leaves [] adjust_dict)).
  { induction adjust_dict as [|[k i] rest IH].
    - exists []. split; reflexivity.
    - destruct (out_break_item_divide adjust_vals i k []) as [r [Hr Hlr]].
      { intros p y v Hin. apply (Hkeys p y v). simpl.
        apply in_or_app. now left. }
      destruct IH as [rs [Hrs Hlrs]].
      { intros p y v Hin. apply (Hkeys p y v). simpl.
        apply in_or_app. now right. }
      exists ((k, r) :: rs). split.
      + simpl. rewrite Hr. simpl. rewrite Hrs. reflexivity.
      + simpl. rewrite map_app, <- Hlr, <- Hlrs. reflexivity. }
  destruct Hwalk as [fracs [Hok Hleaves]].
  exists fracs. repeat split; auto.
  intros p y v d Hin Hd Hzero.
  rewrite Hleaves.
  apply in_map_iff. exists (p, y, v). split; auto.
  unfold normalised, denominator, fraction. rewrite Hd. cbv iota beta.
  apply Qeq_bool_iff in Hzero. now rewrite Hzero.
Qed.

(** The theorem above for the sample breakout, whose total for 2016 is
    zero. *)
Lemma out_break_walk_divide_total_witness :
  (forall p y v, In (p, y, v) (leaves [] Samples.sample_breakout) ->
                 exists d, lookup y Samples.sample_totals = Ok d) /\
  exists fracs,
    out_break_walk Samples.sample_breakout Samples.sample_totals true
    = Ok fracs /\
    leaves [] fracs
    = map (normalised Samples.sample_totals)
          (leaves [] Samples.sample_breakout) /\
    (forall p y v d,
        In (p, y, v) (leaves [] Samples.sample_breakout) ->
        lookup y Samples.sample_totals = Ok d -> d == 0 ->
        In (p, y, 0) (leaves [] fracs)).
Proof.
  assert (H1 : forall p y v,
             In (p, y, v) (leaves [] Samples.sample_breakout) ->
             exists d, lookup y Samples.sample_totals = Ok d).
  { intros p y v Hin. simpl in Hin.
    destruct Hin as [Hin|[Hin|[]]]; injection Hin as <- <- <-;
      eexists; reflexivity. }
  split; [exact H1|].
  exact (out_break_walk_divide_total Samples.sample_breakout
           Samples.sample_totals H1).
Defined.

(** On the sample the fractions are 30/60 for 2015 and 0 for 2016. *)
Lemma out_break_walk_example :
  out_break_walk Samples.sample_breakout Samples.sample_totals true
  = Ok [("AIA CZ1"%string,
         Dict [("Residential (New)"%string,
                Dict [("Lighting"%string,
                       Dict [("2015"%string, Leaf (30 / 60));
                             ("2016"%string, Leaf 0)])])])].
Proof. reflexivity. Qed.

End BreakoutFacts.

(** ** Competition *)

Module CompetitionFacts.

Import Competition.

Local Open Scope Q_scope.

(** *** Sums of rationals *)

Lemma fold_left_Qplus (l : list Q) (a : Q) :
  fold_left Qplus l a == a + Qsum l.
Proof.
  unfold Qsum. revert a.
  induction l as [|x l IH]; intros a; simpl; [ring|].
  rewrite (IH (a + x)), (IH (0 + x)). ring.
Qed.

Lemma Qsum_cons (x : Q) (l : list Q) : Qsum (x :: l) == x + Qsum l.
Proof.
  unfold Qsum at 1. simpl. rewrite fold_left_Qplus. ring.
Qed.

Lemma Qsum_map_ext {X : Type} (f g : X -> Q) (l : list X) :
  (forall x, In x l -> f x == g x) -> Qsum (map f l) == Qsum (map g l).
Proof.
  induction l as [|x l IH]; intros Hfg; simpl; [reflexivity|].
  rewrite !Qsum_cons, IH, (Hfg x (or_introl eq_refl)); [reflexivity|].
  intros y Hy. apply Hfg. now right.
Qed.

Lemma Qsum_map_scale {X : Type} (f : X -> Q) (c : Q) (l : list X) :
  Qsum (map (fun x => f x * c) l) == Qsum (map f l) * c.
Proof.
  induction l as [|x l IH]; simpl; [unfold Qsum; simpl; ring|].
  rewrite !Qsum_cons, IH. ring.
Qed.

Lemma Qsum_map_const {X : Type} (c : Q) (l : list X) :
  Qsum (map (fun _ => c) l) == inject_Z (Z.of_nat (length l)) * c.
Proof.
  induction l as [|x l IH].
  - unfold Qsum; simpl; ring.
  - cbn [map length]. rewrite Qsum_cons, IH, Nat2Z.inj_succ.
    unfold Z.succ. rewrite inject_Z_plus. ring.
Qed.

Lemma Qsum_filter {X : Type} (p : X -> bool) (f : X -> Q) (l : list X) :
  Qsum (map (fun x => if p x then f x else 0) l)
  == Qsum (map f (filter p l)).
Proof.
  induction l as [|x l IH]; simpl; [reflexivity|].
  rewrite Qsum_cons, IH. destruct (p x); simpl.
  - now rewrite Qsum_cons.
  - ring.
Qed.

Lemma Qsum_nonneg (l : list Q) :
  (forall x, In x l -> 0 <= x) -> 0 <= Qsum l.
Proof.
  induction l as [|x l IH]; intros Hpos.
  - unfold Qsum; simpl; lra.
  - rewrite Qsum_cons.
    assert (0 <= x) by (apply Hpos; now left).
    assert (0 <= Qsum l) by (apply IH; intros; apply Hpos; now right).
    lra.
Qed.

Lemma Qsum_pos (l : list Q) :
  l <> [] -> (forall x, In x l -> 0 < x) -> 0 < Qsum l.
Proof.
  destruct l as [|x l]; [congruence|]. intros _ Hpos.
  rewrite Qsum_cons.
  assert (0 < x) by (apply Hpos; now left).
  assert (0 <= Qsum l).
  { apply Qsum_nonneg. intros y Hy.
    apply Qlt_le_weak, Hpos. now right. }
  lra.
Qed.

(** *** The residential market shares *)

Lemma Z_in_In (y : year) (l : list year) :
  Finance.Z_in y l = true <-> In y l.
Proof.
  unfold Finance.Z_in. rewrite existsb_exists. split.
  - intros [x [Hin Heq]]. apply Z.eqb_eq in Heq. now subst.
  - intros Hin. exists y. split; [exact Hin | apply Z.eqb_refl].
Qed.

Lemma insert_unique_In (x y : year) (l : list year) :
  In y (insert_unique x l) <-> y = x \/ In y l.
Proof.
  induction l as [|z l IH]; simpl; [intuition|].
  destruct (Z.ltb_spec x z); [simpl; intuition|].
  destruct (Z.eqb_spec x z); simpl; [subst; intuition|].
  rewrite IH. intuition.
Qed.

Lemma unique_years_In (y : year) (l : list year) :
  In y (unique_years l) <-> In y l.
Proof.
  induction l as [|x l IH]; simpl; [reflexivity|].
  rewrite insert_unique_In, IH. intuition.
Qed.

(** A year belongs to the unique years of the measures exactly when some
    measure is on the market in it. *)
Lemma unique_years_flat_map {X : Type} (yrs : X -> list year)
    (measures_adj : list X) (yr : year) :
  Finance.Z_in yr (unique_years (flat_map yrs measures_adj))
  = existsb (fun m => Finance.Z_in yr (yrs m)) measures_adj.
Proof.
  apply eq_true_iff_eq. rewrite Z_in_In.
  rewrite unique_years_In, in_flat_map, existsb_exists.
  split; intros [m [Hm Hyr]]; exists m; split; auto; now apply Z_in_In.
Qed.

Lemma years_on_mkt_all_spec {A : Type} (measures_adj : list (res_measure (A := A)))
    (yr : year) :
  Finance.Z_in yr (years_on_mkt_all measures_adj)
  = existsb (on_mkt yr) measures_adj.
Proof. apply unique_years_flat_map. Qed.

Lemma clamped_range (x : Q) : x <= 709 -> -500 <= clamped x <= 709.
Proof.
  intros Hx. unfold clamped.
  destruct (Qle_bool (-500) x) eqn:E.
  - apply Qle_bool_iff in E. lra.
  - lra.
Qed.

(** The guard of the code is the clamp of the weighted cost. *)
Lemma guard_sum_wt_clamped (m : res_measure (A := Q)) (yr : year) :
  guard_sum_wt (sum_wt m yr) = clamped (weighted_cost m yr).
Proof.
  unfold guard_sum_wt, sum_wt, clamped, weighted_cost.
  cbn [ltb add mul of_Z Q_PyNum]. unfold Qltb.
  change (inject_Z (-500)) with (-500).
  destruct (Qle_bool (-500) _); reflexivity.
Qed.

Section ResidentialShares.

Variable exp : Q -> Q.

(** [numpy.exp] is positive on the arguments it neither underflows nor
    overflows on. *)
Hypothesis exp_pos : forall x, -500 <= x <= 709 -> 0 < exp x.

Notation res_measure := (res_measure (A := Q)).

Lemma exp_frac_spec (m : res_measure) (yr : year) :
  exp_frac exp m yr = exp (clamped (weighted_cost m yr)).
Proof. unfold exp_frac. now rewrite guard_sum_wt_clamped. Qed.

Lemma mkt_fracs_tot_acc (measures_adj : list res_measure) (yr : year)
    (tot : Q) :
  fold_left
    (fun tot m => if on_mkt yr m then tot + exp_frac exp m yr else tot)
    measures_adj tot
  == tot + Qsum (map (fun m => exp (clamped (weighted_cost m yr)))
                     (filter (on_mkt yr) measures_adj)).
Proof.
  revert tot. induction measures_adj as [|m ms IH]; intros tot; simpl.
  - unfold Qsum; simpl; ring.
  - rewrite IH. destruct (on_mkt yr m); simpl.
    + rewrite Qsum_cons, exp_frac_spec. ring.
    + reflexivity.
Qed.

(** The normalising total is the sum over the measures on the market. *)
Lemma mkt_fracs_tot_spec (measures_adj : list res_measure) (yr : year) :
  mkt_fracs_tot exp measures_adj yr
  == Qsum (map (fun m => exp (clamped (weighted_cost m yr)))
               (filter (on_mkt yr) measures_adj)).
Proof.
  unfold mkt_fracs_tot.
  change (fold_left
            (fun tot m => if on_mkt yr m then tot + exp_frac exp m yr else tot)
            measures_adj 0
          == Qsum (map (fun m => exp (clamped (weighted_cost m yr)))
                       (filter (on_mkt yr) measures_adj))).
  rewrite mkt_fracs_tot_acc. ring.
Qed.

Lemma mkt_fracs_tot_pos (measures_adj : list res_measure) (yr : year) :
  (forall m, In m measures_adj -> on_mkt yr m = true ->
     weighted_cost m yr <= 709) ->
  existsb (on_mkt yr) measures_adj = true ->
  0 < mkt_fracs_tot exp measures_adj yr.
Proof.
  intros Hmax Hon. rewrite mkt_fracs_tot_spec. apply Qsum_pos.
  - apply existsb_exists in Hon. destruct Hon as [m [Hin Hm]].
    intros Hnil.
    assert (Hf : In m (filter (on_mkt yr) measures_adj))
      by (apply filter_In; auto).
    apply (in_map (fun m => exp (clamped (weighted_cost m yr)))) in Hf.
    rewrite Hnil in Hf. exact Hf.
  - intros x Hx. apply in_map_iff in Hx. destruct Hx as [m [<- Hm]].
    apply filter_In in Hm. destruct Hm as [Hin Hm].
    apply exp_pos, clamped_range. now apply Hmax.
Qed.

Lemma res_mkt_frac_cases (measures_adj : list res_measure)
    (m : res_measure) (yr : year) :
  res_mkt_frac exp measures_adj m yr
  = if on_mkt yr m
    then exp (clamped (weighted_cost m yr)) / mkt_fracs_tot exp measures_adj yr
    else if existsb (on_mkt yr) measures_adj then 0
         else 1 / inject_Z (Z.of_nat (length measures_adj)).
Proof.
  unfold res_mkt_frac. rewrite years_on_mkt_all_spec, exp_frac_spec.
  destruct (on_mkt yr m); [reflexivity|].
  destruct (existsb (on_mkt yr) measures_adj); reflexivity.
Qed.


End ResidentialShares.



(** *** Sub-market redistribution *)

Lemma combine_map_same {X Y Z : Type} (f : X -> Y) (g : X -> Z)
    (l : list X) :
  combine (map f l) (map g l) = map (fun x => (f x, g x)) l.
Proof.
  induction l as [|x l IH]; simpl; [reflexivity | now rewrite IH].
Qed.

Lemma filter_map_comm {X Y : Type} (f : X -> Y) (p : Y -> bool)
    (l : list X) :
  filter p (map f l) = map f (filter (fun x => p (f x)) l).
Proof.
  induction l as [|x l IH]; simpl; [reflexivity|].
  destruct (p (f x)); simpl; now rewrite IH.
Qed.

Lemma forallb_map_eq {X Y : Type} (f : X -> Y) (p : Y -> bool)
    (l : list X) :
  forallb p (map f l) = forallb (fun x => p (f x)) l.
Proof.
  induction l as [|x l IH]; simpl; [reflexivity | now rewrite IH].
Qed.

Lemma filter_ext_bool {X : Type} (p q : X -> bool) (l : list X) :
  (forall x, p x = q x) -> filter p l = filter q l.
Proof.
  intros Hpq. induction l as [|x l IH]; simpl; [reflexivity|].
  now rewrite Hpq, IH.
Qed.

Lemma sum_inds_acc (inds : list nat) (a : nat) :
  fold_left Nat.add inds a = (a + sum_inds inds)%nat.
Proof.
  unfold sum_inds. revert a.
  induction inds as [|x l IH]; intros a; simpl; [lia|].
  rewrite (IH (a + x)%nat), (IH x). lia.
Qed.

Lemma sum_inds_indicator {X : Type} (p : X -> bool) (l : list X) :
  sum_inds (map (fun x => if p x then 1%nat else 0%nat) l)
  = length (filter p l).
Proof.
  induction l as [|x l IH]; [reflexivity|].
  unfold sum_inds. cbn [map fold_left]. rewrite sum_inds_acc, IH.
  simpl. destruct (p x); simpl; lia.
Qed.

Lemma ind_is_one (b : bool) :
  ((if b then 1 else 0) =? 1)%nat = b.
Proof. now destruct b. Qed.

Lemma redistribute_acc (segs : list Q) (w a : Q) :
  fold_left (fun added seg_redist => added + seg_redist * w) segs a
  == a + Qsum segs * w.
Proof.
  revert a. induction segs as [|x l IH]; intros a; simpl.
  - unfold Qsum; simpl; ring.
  - rewrite IH, Qsum_cons. ring.
Qed.

(** The index lists of the program describe the measures: the weights of
    a year are [distrib_weight] of each measure. *)
Lemma sbmkt_distrib_fracs_yr_spec (measures_adj : list sbmkt_measure)
    (yr : year) :
  sbmkt_distrib_fracs_yr (noapply_sbmkt_fracs measures_adj)
    (map (fun m => mkt_frac m yr) measures_adj)
  = map (distrib_weight measures_adj yr) measures_adj.
Proof.
  set (ind := fun m : sbmkt_measure =>
                if full_segment m then 1%nat else 0%nat).
  set (share := fun m : sbmkt_measure => mkt_frac m yr).
  assert (Hinds : distrib_inds (noapply_sbmkt_fracs measures_adj)
                  = map ind measures_adj).
  { unfold distrib_inds, noapply_sbmkt_fracs. now rewrite map_map. }
  assert (Hcomb : combine (map ind measures_adj) (map share measures_adj)
                  = map (fun m => (ind m, share m)) measures_adj)
    by apply combine_map_same.
  assert (Helig :
    filter (fun p : nat * Q => (fst p =? 1)%nat)
           (map (fun m => (ind m, share m)) measures_adj)
    = map (fun m => (ind m, share m)) (filter full_segment measures_adj)).
  { rewrite filter_map_comm. f_equal. apply filter_ext_bool.
    intros m. apply ind_is_one. }
  assert (Hweights :
    map (fun p : nat * Q => if (fst p =? 1)%nat then snd p else 0)
        (map (fun m => (ind m, share m)) measures_adj)
    = map (fun e => if full_segment e then mkt_frac e yr else 0)
          measures_adj).
  { rewrite map_map. apply map_ext. intros m. cbn [fst snd].
    unfold ind. now rewrite ind_is_one. }
  unfold sbmkt_distrib_fracs_yr, distrib_weight, eligible_all_zero.
  rewrite Hinds. fold share. rewrite Hcomb, Helig, Hweights.
  rewrite forallb_map_eq. cbn [snd]. unfold share at 1.
  unfold ind at 1 2. rewrite sum_inds_indicator.
  destruct (forallb _ (filter full_segment measures_adj)).
  - destruct (length (filter full_segment measures_adj) =? 0)%nat.
    + unfold noapply_sbmkt_fracs. now rewrite map_map.
    + rewrite map_map. apply map_ext. intros m.
      unfold ind. now rewrite ind_is_one.
  - destruct (negb _).
    + now rewrite map_map.
    + now rewrite map_map.
Qed.

Lemma nth_error_seq_lt (a n i : nat) :
  (i < n)%nat -> nth_error (seq a n) i = Some (a + i)%nat.
Proof.
  revert a i. induction n as [|n IH]; intros a i Hi; [lia|].
  destruct i as [|i]; simpl; [f_equal; lia|].
  rewrite IH by lia. f_equal. lia.
Qed.

Lemma uncaptured_all_full (measures_adj : list sbmkt_measure) (yr : year) :
  forallb (fun x => Qeq_bool x 0) (noapply_sbmkt_fracs measures_adj) = true ->
  uncaptured measures_adj yr == 0.
Proof.
  unfold noapply_sbmkt_fracs, uncaptured. rewrite forallb_map_eq.
  intros Hall. rewrite forallb_forall in Hall.
  rewrite (Qsum_map_ext _ (fun _ => 0)).
  - rewrite Qsum_map_const. ring.
  - intros m Hm. specialize (Hall m Hm). apply Qeq_bool_iff in Hall.
    rewrite Hall. ring.
Qed.

(** What a measure is given in a year: the total uncaptured portion times
    its weight. *)
Lemma find_added_sbmkt_fracs_nth (measures_adj : list sbmkt_measure)
    (yr : year) (mn : nat) (m : sbmkt_measure) :
  nth_error measures_adj mn = Some m ->
  exists added,
    nth_error (find_added_sbmkt_fracs measures_adj) mn = Some added /\
    added yr
    == uncaptured measures_adj yr * distrib_weight measures_adj yr m.
Proof.
  intros Hm. unfold find_added_sbmkt_fracs.
  destruct (forallb _ (noapply_sbmkt_fracs measures_adj)) eqn:Hall.
  - exists (fun _ => 0). split.
    + rewrite nth_error_map, Hm. reflexivity.
    + rewrite (uncaptured_all_full measures_adj yr Hall). ring.
  - assert (Hlt : (mn < length measures_adj)%nat)
      by (apply nth_error_Some; congruence).
    eexists. split.
    + rewrite nth_error_map, (nth_error_seq_lt 0 _ mn Hlt). reflexivity.
    + cbn [Nat.add]. unfold added_sbmkt_fracs_yr.
      rewrite sbmkt_distrib_fracs_yr_spec, map_map.
      erewrite nth_error_nth
        by (rewrite nth_error_map, Hm; reflexivity).
      rewrite redistribute_acc.
      unfold noapply_sbmkt_fracs.
      rewrite combine_map_same, map_map. cbn [fst snd].
      unfold uncaptured. ring.
Qed.

Lemma Qsum_ge_member (l : list Q) (x : Q) :
  (forall y, In y l -> 0 <= y) -> In x l -> x <= Qsum l.
Proof.
  induction l as [|y l IH]; intros Hpos Hin; [contradiction|].
  rewrite Qsum_cons.
  assert (Hy : 0 <= y) by (apply Hpos; now left).
  assert (Hl : 0 <= Qsum l)
    by (apply Qsum_nonneg; intros; apply Hpos; now right).
  destruct Hin as [->|Hin]; [lra|].
  assert (x <= Qsum l) by (apply IH; auto; intros; apply Hpos; now right).
  lra.
Qed.

Lemma Qsum_zero_all_zero (l : list Q) :
  (forall y, In y l -> 0 <= y) -> Qsum l == 0 ->
  forall x, In x l -> x == 0.
Proof.
  intros Hpos Hsum x Hin.
  pose proof (Qsum_ge_member l x Hpos Hin).
  pose proof (Hpos x Hin). lra.
Qed.



(** A sole competitor that applies to 60% of its segment is given nothing
    back: its share stays what it was. *)
Lemma sole_competitor_keeps_share (share : year -> Q) (yr : year) :
  forall added,
    In added (find_added_sbmkt_fracs
                [{| sub_market_scaling := 3 # 5; mkt_frac := share |}]) ->
    share yr + added yr == share yr.
Proof.
  intros added [<-|[]]. cbn. ring.
Qed.

(** *** The commercial market shares *)

Lemma Qmin_fold_spec (xs : list Q) (x : Q) :
  let r := fold_left (fun a b => if Qltb b a then b else a) xs x in
  (r = x \/ In r xs) /\ r <= x /\ (forall c, In c xs -> r <= c).
Proof.
  revert x. induction xs as [|y ys IH]; intros x; simpl.
  - split; [now left|]. split; [lra | contradiction].
  - destruct (IH (if Qltb y x then y else x)) as [Hin [Hle Hall]].
    destruct (Qltb y x) eqn:E.
    + apply FinanceFacts.Qltb_true in E.
      split; [destruct Hin; auto|]. split; [lra|].
      intros c [<-|Hc]; auto.
    + apply FinanceFacts.Qltb_false in E.
      split; [destruct Hin; auto|]. split; [lra|].
      intros c [<-|Hc]; [lra | auto].
Qed.

(** Built-in [min] returns a member that is below every member. *)
Lemma Qmin_py_spec (l : list Q) :
  l <> [] ->
  exists r, Qmin_py l = Ok r /\ In r l /\ (forall c, In c l -> r <= c).
Proof.
  destruct l as [|x xs]; [congruence|]. intros _.
  destruct (Qmin_fold_spec xs x) as [Hin [Hle Hall]].
  eexists. split; [reflexivity|]. split.
  - destruct Hin as [->|Hin]; [now left | now right].
  - intros c [<-|Hc]; auto.
Qed.

Lemma collect_map {X Y : Type} (f : X -> result Y) (g : X -> Y)
    (l : list X) :
  (forall x, In x l -> f x = Ok (g x)) -> collect f l = Ok (map g l).
Proof.
  induction l as [|x l IH]; intros Hf; simpl; [reflexivity|].
  rewrite (Hf x (or_introl eq_refl)), IH; [reflexivity|].
  intros y Hy. apply Hf. now right.
Qed.

Lemma collect_enumerate {X Y : Type} (f : nat * X -> result Y)
    (g : nat -> Y) (l : list X) (start : nat) :
  (forall i x, nth_error l i = Some x ->
               f ((start + i)%nat, x) = Ok (g (start + i)%nat)) ->
  collect f (enumerate start l) = Ok (map g (seq start (length l))).
Proof.
  revert start. induction l as [|x l IH]; intros start Hf; simpl;
    [reflexivity|].
  pose proof (Hf 0%nat x eq_refl) as H0. rewrite Nat.add_0_r in H0.
  rewrite H0. cbn [bind]. rewrite IH; [reflexivity|].
  intros i y Hy. specialize (Hf (S i) y Hy).
  now rewrite Nat.add_succ_r in Hf.
Qed.

Lemma index_nth {X : Type} (l : list X) (i : nat) (d : X) :
  (i < length l)%nat -> index l i = Ok (nth i l d).
Proof.
  intros Hi. unfold index.
  destruct (nth_error l i) eqn:E.
  - now rewrite (nth_error_nth l i d E).
  - apply nth_error_None in E. lia.
Qed.

(** The equality test against [min] finds the lowest cost, and the
    measures equal to the minimum are those tied with it. *)
Lemma lowest_is_min (costs : list Q) (c r : Q) :
  In c costs -> In r costs -> (forall c', In c' costs -> r <= c') ->
  Qeq_bool c r = lowest costs c /\
  (Qeq_bool c r = true ->
   filter (fun c' => Qeq_bool c' r) costs
   = filter (fun c' => Qeq_bool c' c) costs).
Proof.
  intros Hc Hr Hmin. split.
  - apply eq_true_iff_eq. unfold lowest.
    rewrite Qeq_bool_iff, forallb_forall. split.
    + intros Heq c' Hc'. apply Qle_bool_iff. rewrite Heq. auto.
    + intros Hlow. specialize (Hlow r Hr). apply Qle_bool_iff in Hlow.
      specialize (Hmin c Hc). lra.
  - intros Heq. apply Qeq_bool_iff in Heq.
    apply filter_ext_bool. intros c'.
    apply eq_true_iff_eq. rewrite !Qeq_bool_iff, Heq. reflexivity.
Qed.

(** The share in terms of [tot_cost]: the sum, over the bins, of the
    bin's population fraction divided by the number of measures tied at
    the measure's total cost when that is the lowest of the bin, and 0
    otherwise. *)
Lemma com_mkt_frac_by_tot_cost (measures_adj : list com_measure)
    (m : com_measure) (yr : year) :
  In m measures_adj -> com_on_mkt yr m = true ->
  let competing := filter (com_on_mkt yr) measures_adj in
  let n := length (tot_cost m yr) in
  (forall x, In x competing -> (n <= length (tot_cost x yr))%nat) ->
  (n <= length (rate_distribution m yr))%nat ->
  let wins (ind2 : nat) : Q :=
    let costs := map (fun x => nth ind2 (tot_cost x yr) 0) competing in
    let own := nth ind2 (tot_cost m yr) 0 in
    if lowest costs own
    then nth ind2 (rate_distribution m yr) 0
         / inject_Z (Z.of_nat (tied costs own))
    else 0 in
  com_mkt_frac measures_adj m yr = Ok (Qsum (map wins (seq 0 n))).
Proof.
  intros Hin Hon competing n Hlen Hdist wins.
  assert (Hm : In m competing) by (apply filter_In; auto).
  unfold com_mkt_frac. rewrite Hon.
  rewrite (collect_enumerate _ wins); [reflexivity|].
  intros i dr Hdr. cbn [Nat.add fst snd].
  assert (Hi : (i < n)%nat) by (apply nth_error_Some; congruence).
  assert (Hown : nth i (tot_cost m yr) 0 = dr)
    by (now apply nth_error_nth).
  unfold bin_share. fold competing.
  rewrite (collect_map _ (fun x => nth i (tot_cost x yr) 0)).
  2:{ intros x Hx. apply index_nth. specialize (Hlen x Hx). lia. }
  cbn [bind].
  set (costs := map (fun x => nth i (tot_cost x yr) 0) competing).
  assert (Hdr_in : In dr costs).
  { rewrite <- Hown. unfold costs.
    apply (in_map (fun x => nth i (tot_cost x yr) 0)). exact Hm. }
  destruct (Qmin_py_spec costs) as [r [Hr [Hr_in Hr_min]]].
  { intros Hnil. rewrite Hnil in Hdr_in. exact Hdr_in. }
  rewrite Hr. cbn [bind].
  destruct (lowest_is_min costs dr r Hdr_in Hr_in Hr_min) as [Hlow Htied].
  unfold wins. fold competing. fold costs. rewrite Hown, <- Hlow.
  destruct (Qeq_bool dr r) eqn:E.
  - rewrite (index_nth _ i 0) by lia. cbn [bind].
    unfold tied. now rewrite (Htied eq_refl).
  - reflexivity.
Qed.

Lemma tot_cost_length (x : com_measure) (yr : year) :
  length (unit_cost_e_com x yr) = length (unit_cost_s_com x yr) ->
  length (tot_cost x yr) = length (unit_cost_s_com x yr).
Proof.
  intros Hlen. unfold tot_cost.
  rewrite length_map, length_combine, Hlen. apply Nat.min_id.
Qed.

(** The total cost of a bin is the capital cost plus the operating cost
    of the bin. *)
Lemma tot_cost_nth (x : com_measure) (yr : year) (i : nat) :
  length (unit_cost_e_com x yr) = length (unit_cost_s_com x yr) ->
  nth i (tot_cost x yr) 0
  = nth i (unit_cost_s_com x yr) 0 + nth i (unit_cost_e_com x yr) 0.
Proof.
  intros Hlen. unfold tot_cost.
  change 0 with ((fun p : Q * Q => fst p + snd p) (0, 0)) at 1.
  rewrite map_nth, combine_nth by (symmetry; exact Hlen).
  reflexivity.
Qed.

(** C7. Commercial market shares, for costs that are point values.  Let a
    measure be on the market in a year, with [n] discount-rate bins; let
    every competing measure on the market carry a capital and an operating
    cost for the same bins, at least those [n]; and let the measure's rate
    distribution have those bins.  The cost of a measure in a bin is its
    capital cost plus its operating cost of the bin.  Then the share the
    program computes for the measure is the sum, over the bins, of what it
    wins of each: the bin's population fraction divided by the number of
    measures on the market tied at its cost when its cost is the lowest of
    the bin, and 0 otherwise. *)
Theorem com_mkt_frac_lowest_cost (measures_adj : list com_measure)
    (m : com_measure) (yr : year) :
  In m measures_adj -> In yr (com_yrs_on_mkt m) ->
  let competing :=
    filter (fun x => Finance.Z_in yr (com_yrs_on_mkt x)) measures_adj in
  let n := length (unit_cost_s_com m yr) in
  (forall x, In x competing ->
     length (unit_cost_e_com x yr) = length (unit_cost_s_com x yr) /\
     (n <= length (unit_cost_s_com x yr))%nat) ->
  (n <= length (rate_distribution m yr))%nat ->
  let cost (x : com_measure) (ind2 : nat) : Q :=
    nth ind2 (unit_cost_s_com x yr) 0 + nth ind2 (unit_cost_e_com x yr) 0 in
  let wins (ind2 : nat) : Q :=
    let costs := map (fun x => cost x ind2) competing in
    if lowest costs (cost m ind2)
    then nth ind2 (rate_distribution m yr) 0
         / inject_Z (Z.of_nat (tied costs (cost m ind2)))
    else 0 in
  com_mkt_frac measures_adj m yr = Ok (Qsum (map wins (seq 0 n))).
Proof.
  intros Hin Hyr competing n Hlen Hdist cost wins.
  assert (Hon : com_on_mkt yr m = true) by (now apply Z_in_In).
  assert (Hm : In m competing) by (apply filter_In; auto).
  assert (Hn : length (tot_cost m yr) = n)
    by (apply tot_cost_length, (Hlen m Hm)).
  rewrite (com_mkt_frac_by_tot_cost measures_adj m yr Hin Hon).
  - rewrite Hn. f_equal. f_equal. apply map_ext_in.
    intros i Hi. apply in_seq in Hi.
    fold competing. unfold wins, cost.
    rewrite (tot_cost_nth m yr i) by (apply (Hlen m Hm)).
    rewrite (map_ext_in (fun x => nth i (tot_cost x yr) 0)
               (fun x => nth i (unit_cost_s_com x yr) 0
                         + nth i (unit_cost_e_com x yr) 0)).
    + reflexivity.
    + intros x Hx. apply tot_cost_nth, (Hlen x Hx).
  - intros x Hx. fold competing in Hx. rewrite Hn.
    rewrite tot_cost_length by (apply (Hlen x Hx)).
    apply (Hlen x Hx).
  - rewrite Hn. exact Hdist.
Qed.

(** The theorem above for the first of the two sample measures, which
    wins the first bin and ties in the second. *)
Lemma com_mkt_frac_lowest_cost_witness :
  In Samples.com_a [Samples.com_a; Samples.com_b] /\
  In 2015%Z (com_yrs_on_mkt Samples.com_a) /\
  let m := Samples.com_a in
  let yr := 2015%Z in
  let competing :=
    filter (fun x => Finance.Z_in yr (com_yrs_on_mkt x))
           [Samples.com_a; Samples.com_b] in
  let n := length (unit_cost_s_com m yr) in
  (forall x, In x competing ->
     length (unit_cost_e_com x yr) = length (unit_cost_s_com x yr) /\
     (n <= length (unit_cost_s_com x yr))%nat) /\
  (n <= length (rate_distribution m yr))%nat /\
  let cost (x : com_measure) (ind2 : nat) : Q :=
    nth ind2 (unit_cost_s_com x yr) 0 + nth ind2 (unit_cost_e_com x yr) 0 in
  let wins (ind2 : nat) : Q :=
    let costs := map (fun x => cost x ind2) competing in
    if lowest costs (cost m ind2)
    then nth ind2 (rate_distribution m yr) 0
         / inject_Z (Z.of_nat (tied costs (cost m ind2)))
    else 0 in
  com_mkt_frac [Samples.com_a; Samples.com_b] m yr
  = Ok (Qsum (map wins (seq 0 n))).
Proof.
  assert (H1 : In Samples.com_a [Samples.com_a; Samples.com_b])
    by (now left).
  assert (H2 : In 2015%Z (com_yrs_on_mkt Samples.com_a))
    by (vm_compute; tauto).
  assert (H3 : forall x,
             In x (filter (fun x => Finance.Z_in 2015 (com_yrs_on_mkt x))
                          [Samples.com_a; Samples.com_b]) ->
             length (unit_cost_e_com x 2015%Z)
             = length (unit_cost_s_com x 2015%Z) /\
             (length (unit_cost_s_com Samples.com_a 2015%Z)
              <= length (unit_cost_s_com x 2015%Z))%nat).
  { intros x [<-|[<-|[]]]; simpl; lia. }
  assert (H4 : (length (unit_cost_s_com Samples.com_a 2015%Z)
                <= length (rate_distribution Samples.com_a 2015%Z))%nat)
    by (simpl; lia).
  split; [exact H1|]. split; [exact H2|]. split; [exact H3|].
  split; [exact H4|].
  exact (com_mkt_frac_lowest_cost [Samples.com_a; Samples.com_b]
           Samples.com_a 2015%Z H1 H2 H3 H4).
Defined.

(** The share of that measure is 3/5 + (2/5)/2 = 4/5. *)
Lemma com_mkt_frac_example :
  exists v,
    com_mkt_frac [Samples.com_a; Samples.com_b] Samples.com_a 2015%Z = Ok v
    /\ v == 4 # 5.
Proof. eexists; split; [vm_compute; reflexivity | reflexivity]. Qed.

(** *** [compete_adj] returns *)

Lemma insert_year_cons (y : year) (l : list year) :
  exists x rest, insert_year y l = x :: rest.
Proof.
  destruct l as [|x rest]; simpl; [eauto|].
  destruct (y <=? x)%Z; eauto.
Qed.

Lemma sorted_years_cons (l : list year) :
  l <> [] -> exists x rest, sorted_years l = x :: rest.
Proof.
  destruct l as [|y l]; [congruence|]. intros _. simpl.
  apply insert_year_cons.
Qed.

Lemma weighted_share_returns (years : list year)
    (adj_fracs added_sbmkt_fracs : year -> Q) (yr : year)
    (mseg_key adopt_scheme : string) (mkt_entry_yrs : list Z)
    (base_turnover_rt eff_turnover_rt : year -> Q) :
  mkt_entry_yrs <> [] -> In yr years ->
  exists share,
    weighted_share years adj_fracs added_sbmkt_fracs yr mseg_key
      adopt_scheme mkt_entry_yrs base_turnover_rt eff_turnover_rt
    = Ok share.
Proof.
  intros Hentry Hyr. unfold weighted_share.
  destruct mkt_entry_yrs as [|e es]; [congruence|]. simpl py_min.
  cbn [bind]. set (entry := fold_left Z.min es e).
  destruct (yr <? entry)%Z eqn:Hlt; [cbn [bind]; eauto|].
  destruct (sorted_years_cons
              (filter (fun x => (x <=? yr)%Z && (entry <=? x)%Z) years))
    as [w [rest Hw]].
  - intros Hnil.
    assert (Hin : In yr (filter (fun x => (x <=? yr)%Z && (entry <=? x)%Z)
                           years)).
    { apply filter_In. split; [exact Hyr|].
      apply Z.ltb_ge in Hlt.
      apply andb_true_intro. split; apply Z.leb_le; lia. }
    rewrite Hnil in Hin. exact Hin.
  - rewrite Hw. cbn [bind]. eauto.
Qed.

Lemma has_key_map_fst (k : string) (d : list (string * (year -> Q))) :
  has_key k d = existsb (String.eqb k) (map fst d).
Proof.
  induction d as [|[k' f] rest IH]; simpl; [reflexivity | now rewrite IH].
Qed.

Lemma add_at_returns (d : list (string * (year -> Q))) (k : string)
    (yr : year) (v : Q) :
  has_key k d = true -> exists d', add_at d k yr v = Ok d'.
Proof.
  induction d as [|[k' f] rest IH]; simpl; [discriminate|].
  destruct (String.eqb k k'); simpl; [eauto|].
  intros Hk. destruct (IH Hk) as [rest' Hrest].
  rewrite Hrest. simpl. eauto.
Qed.

Lemma record_secondary_returns (s : secnd_shares) (k : string) (yr : year)
    (a : mseg) (adj_frac_tot adj_frac_comp : Q) :
  same_keys s ->
  exists s', record_secondary s k yr a adj_frac_tot adj_frac_comp = Ok s'.
Proof.
  intros [Hoc [Hat Hac]]. unfold record_secondary.
  destruct (original_total s) as [|kv rest] eqn:Hot; [eauto|].
  destruct (has_key k (kv :: rest)) eqn:Hk; [|eauto].
  assert (Hkeys : forall d, map fst d = map fst (kv :: rest) ->
                            has_key k d = true).
  { intros d Hd. rewrite has_key_map_fst, Hd, <- has_key_map_fst.
    exact Hk. }
  destruct (add_at_returns (kv :: rest) k yr
              (vals a Energy Total Efficient yr) Hk) as [ot Ho].
  destruct (add_at_returns (original_competed s) k yr
              (vals a Energy Competed Efficient yr) (Hkeys _ Hoc))
    as [oc Hc].
  destruct (add_at_returns (adjusted_total s) k yr
              (vals a Energy Total Efficient yr * adj_frac_tot)
              (Hkeys _ Hat)) as [at' Ha].
  destruct (add_at_returns (adjusted_competed s) k yr
              (vals a Energy Competed Efficient yr * adj_frac_comp)
              (Hkeys _ Hac)) as [ac Hb].
  rewrite Ho, Hc, Ha, Hb. simpl. eauto.
Qed.

(** C1. Conservation of the competition adjustment.  [compete_adj]
    returns whenever some measure has a market entry year, the year is one
    of the years the shares are keyed by, and the four dicts of the
    secondary-adjustment record carry the same keys.  For the year it is
    called on and for every resource (stock cost, energy cost, carbon cost,
    energy, carbon), status and case, and for the measure stock of either
    status, it writes [master_new = master_old - adj_old * (1 - share)] and
    [adj_new = adj_old * share], where the share of the totals is the
    weighted total share and the share of the competed values is the
    competed share; so what leaves the master aggregate is what leaves the
    contributing microsegment. *)
Theorem compete_adj_conserves (years : list year)
    (adj_fracs added_sbmkt_fracs : year -> Q) (st : adj_state) (yr : year)
    (mseg_key secnd_mseg_adjkey adopt_scheme : string)
    (mkt_entry_yrs : list Z) (base_turnover_rt eff_turnover_rt : year -> Q) :
  mkt_entry_yrs <> [] -> In yr years -> same_keys (secnd_adj_mktshr st) ->
  exists st' adj_frac_tot,
    compete_adj years adj_fracs added_sbmkt_fracs st yr mseg_key
      secnd_mseg_adjkey adopt_scheme mkt_entry_yrs base_turnover_rt
      eff_turnover_rt = Ok st' /\
    weighted_share years adj_fracs added_sbmkt_fracs yr mseg_key
      adopt_scheme mkt_entry_yrs base_turnover_rt eff_turnover_rt
    = Ok adj_frac_tot /\
    let share (s : status) :=
      match s with
      | Total => adj_frac_tot
      | Competed => adj_fracs yr + added_sbmkt_fracs yr
      end in
    (forall r s x,
        vals (mast st') r s x yr
        = vals (mast st) r s x yr - vals (adj st) r s x yr * (1 - share s) /\
        vals (adj st') r s x yr = vals (adj st) r s x yr * share s /\
        vals (mast st) r s x yr - vals (mast st') r s x yr
        == vals (adj st) r s x yr - vals (adj st') r s x yr) /\
    (forall s,
        stock_measure (mast st') s yr
        = stock_measure (mast st) s yr
          - stock_measure (adj st) s yr * (1 - share s) /\
        stock_measure (adj st') s yr = stock_measure (adj st) s yr * share s /\
        stock_measure (mast st) s yr - stock_measure (mast st') s yr
        == stock_measure (adj st) s yr - stock_measure (adj st') s yr).
Proof.
  intros Hentry Hyr Hkeys.
  destruct (weighted_share_returns years adj_fracs added_sbmkt_fracs yr
              mseg_key adopt_scheme mkt_entry_yrs base_turnover_rt
              eff_turnover_rt Hentry Hyr) as [adj_frac_tot Hshare].
  destruct (record_secondary_returns (secnd_adj_mktshr st)
              secnd_mseg_adjkey yr (adj st) adj_frac_tot
              (adj_fracs yr + added_sbmkt_fracs yr) Hkeys)
    as [secnd Hsecnd].
  unfold compete_adj. rewrite (proj2 (Z_in_In yr years) Hyr).
  cbn [bind]. rewrite Hshare. cbn [bind]. rewrite Hsecnd.
  cbn [bind].
  eexists. exists adj_frac_tot. split; [reflexivity|].
  split; [reflexivity|]. cbv zeta. split.
  - intros r s x.
    destruct r, s, x; cbn; unfold upd; rewrite !Z.eqb_refl;
      (split; [reflexivity | split; [reflexivity | ring]]).
  - intros s.
    destruct s; cbn; unfold upd; rewrite !Z.eqb_refl;
      (split; [reflexivity | split; [reflexivity | ring]]).
Qed.

(** The theorem above at the sample measure, in 2016, with a share of one
    half and no adjustment from sub-markets. *)
Lemma compete_adj_conserves_witness :
  ([2015]%Z <> []) /\ In 2016%Z Samples.aeo_years /\
  same_keys (secnd_adj_mktshr Samples.adj_state0) /\
  exists st' adj_frac_tot,
    compete_adj Samples.aeo_years (fun _ => 1 # 2) (fun _ => 0)
      Samples.adj_state0 2016%Z Samples.existing_key
      "('AIA_CZ1', 'single family home', 'existing')"
      "Max adoption potential" [2015]%Z (fun _ => 1 # 10) (fun _ => 0)
    = Ok st' /\
    weighted_share Samples.aeo_years (fun _ => 1 # 2) (fun _ => 0) 2016%Z
      Samples.existing_key "Max adoption potential" [2015]%Z
      (fun _ => 1 # 10) (fun _ => 0)
    = Ok adj_frac_tot /\
    let share (s : status) :=
      match s with
      | Total => adj_frac_tot
      | Competed => (1 # 2) + 0
      end in
    (forall r s x,
        vals (mast st') r s x 2016%Z
        = vals (mast Samples.adj_state0) r s x 2016%Z
          - vals (adj Samples.adj_state0) r s x 2016%Z * (1 - share s) /\
        vals (adj st') r s x 2016%Z
        = vals (adj Samples.adj_state0) r s x 2016%Z * share s /\
        vals (mast Samples.adj_state0) r s x 2016%Z
        - vals (mast st') r s x 2016%Z
        == vals (adj Samples.adj_state0) r s x 2016%Z
           - vals (adj st') r s x 2016%Z) /\
    (forall s,
        stock_measure (mast st') s 2016%Z
        = stock_measure (mast Samples.adj_state0) s 2016%Z
          - stock_measure (adj Samples.adj_state0) s 2016%Z * (1 - share s) /\
        stock_measure (adj st') s 2016%Z
        = stock_measure (adj Samples.adj_state0) s 2016%Z * share s /\
        stock_measure (mast Samples.adj_state0) s 2016%Z
        - stock_measure (mast st') s 2016%Z
        == stock_measure (adj Samples.adj_state0) s 2016%Z
           - stock_measure (adj st') s 2016%Z).
Proof.
  assert (H1 : [2015]%Z <> []) by discriminate.
  assert (H2 : In 2016%Z Samples.aeo_years) by (simpl; auto).
  assert (H3 : same_keys (secnd_adj_mktshr Samples.adj_state0))
    by (repeat split).
  split; [exact H1|]. split; [exact H2|]. split; [exact H3|].
  exact (compete_adj_conserves Samples.aeo_years (fun _ => 1 # 2)
           (fun _ => 0) Samples.adj_state0 2016%Z Samples.existing_key
           "('AIA_CZ1', 'single family home', 'existing')"
           "Max adoption potential" [2015]%Z (fun _ => 1 # 10) (fun _ => 0)
           H1 H2 H3).
Defined.

End CompetitionFacts.

(** ** The order of competition *)

Module OrderFacts.

Import Competition Order.

Local Open Scope string_scope.

(** *** The order on keys *)

Lemma key_lt_compare (a b : string) :
  key_lt a b <-> String.compare a b = Lt.
Proof.
  unfold key_lt, String.ltb. destruct (String.compare a b); intuition congruence.
Qed.

Lemma key_lt_trans (a b c : string) : key_lt a b -> key_lt b c -> key_lt a c.
Proof.
  rewrite !key_lt_compare.
  change String.compare with String_as_OT.cmp.
  rewrite !String_as_OT.cmp_lt. apply String_as_OT.lt_trans.
Qed.

Lemma key_lt_irrefl (a : string) : ~ key_lt a a.
Proof.
  rewrite key_lt_compare. intros H.
  assert (E : String.compare a a = Eq).
  { change String.compare with String_as_OT.cmp.
    now apply String_as_OT.cmp_eq. }
  congruence.
Qed.

(** Two keys are equal, or one is below the other. *)
Lemma key_trichotomy (a b : string) :
  String.ltb a b = false -> String.eqb a b = false -> key_lt b a.
Proof.
  intros Hlt Hne. apply key_lt_compare.
  rewrite String.compare_antisym.
  unfold String.ltb in Hlt.
  destruct (String.compare a b) eqn:E; simpl; try congruence.
  apply String.compare_eq_iff in E. apply String.eqb_neq in Hne.
  contradiction.
Qed.

Lemma key_lt_leb (a b : string) : key_lt a b -> String.leb a b = true.
Proof.
  rewrite key_lt_compare. unfold String.leb. now intros ->.
Qed.

(** *** [numpy.unique] and [sorted] *)

Lemma insert_unique_key_In (k x : string) (l : list string) :
  In x (insert_unique_key k l) <-> x = k \/ In x l.
Proof.
  induction l as [|y l IH]; simpl; [intuition|].
  destruct (String.ltb k y); [simpl; intuition|].
  destruct (String.eqb_spec k y); [subst; simpl; intuition|].
  simpl. rewrite IH. intuition.
Qed.

Lemma np_unique_In (x : string) (l : list string) :
  In x (np_unique l) <-> In x l.
Proof.
  induction l as [|y l IH]; simpl; [reflexivity|].
  rewrite insert_unique_key_In, IH. intuition.
Qed.

Lemma insert_unique_key_hd (k a : string) (l : list string) :
  key_lt a k -> HdRel key_lt a l -> HdRel key_lt a (insert_unique_key k l).
Proof.
  intros Hak Hal. destruct l as [|y l]; simpl; [now constructor|].
  inversion Hal; subst.
  destruct (String.ltb k y); [now constructor|].
  destruct (String.eqb k y); now constructor.
Qed.

Lemma insert_unique_key_sorted (k : string) (l : list string) :
  Sorted key_lt l -> Sorted key_lt (insert_unique_key k l).
Proof.
  induction l as [|y l IH]; intros Hs; simpl.
  - repeat constructor.
  - destruct (String.ltb k y) eqn:Hlt.
    + constructor; [exact Hs | now constructor].
    + destruct (String.eqb k y) eqn:Heq; [exact Hs|].
      inversion Hs; subst. constructor; [now apply IH|].
      apply insert_unique_key_hd; [|assumption].
      now apply key_trichotomy.
Qed.

Lemma np_unique_sorted (l : list string) : Sorted key_lt (np_unique l).
Proof.
  induction l as [|k l IH]; simpl; [constructor|].
  now apply insert_unique_key_sorted.
Qed.

(** Sorting a list that is already strictly increasing changes nothing. *)
Lemma py_sorted_id (l : list string) : Sorted key_lt l -> py_sorted l = l.
Proof.
  induction l as [|k l IH]; intros Hs; [reflexivity|].
  inversion Hs; subst. simpl. rewrite IH by assumption.
  destruct l as [|x l]; [reflexivity|].
  simpl. inversion H2; subst. now rewrite key_lt_leb.
Qed.

(** The keys are visited in strictly increasing order, each once, and they
    are the contributing keys of the measures. *)
Lemma msegs_sorted (keys : list (list string)) :
  StronglySorted key_lt (msegs keys).
Proof.
  unfold msegs. rewrite py_sorted_id by apply np_unique_sorted.
  apply Sorted_StronglySorted; [|apply np_unique_sorted].
  intros a b c. apply key_lt_trans.
Qed.

Lemma msegs_In (keys : list (list string)) (k : string) :
  In k (msegs keys) <-> exists ks, In ks keys /\ In k ks.
Proof.
  unfold msegs. rewrite py_sorted_id by apply np_unique_sorted.
  rewrite np_unique_In, in_concat. reflexivity.
Qed.

(** *** Primary keys sort before secondary keys *)

Lemma prefix_append (p s : string) :
  String.prefix p s = true -> exists t, s = p ++ t.
Proof.
  revert s. induction p as [|c p IH]; intros s Hp.
  - exists s. reflexivity.
  - destruct s as [|d s]; [discriminate|]. simpl in Hp.
    destruct (ascii_dec c d); [|discriminate]. subst.
    destruct (IH s Hp) as [t ->]. exists t. reflexivity.
Qed.

Lemma primary_lt_secondary (a b : string) :
  primary_key a = true -> secondary_key b = true -> key_lt a b.
Proof.
  unfold primary_key, secondary_key, key_lt. intros Ha Hb.
  destruct (prefix_append _ _ Ha) as [ta ->].
  destruct (prefix_append _ _ Hb) as [tb ->].
  reflexivity.
Qed.

Lemma prefix_append_true (p t : string) : String.prefix p (p ++ t) = true.
Proof.
  induction p as [|c p IH]; simpl; [now destruct t|].
  destruct (ascii_dec c c); [exact IH | contradiction].
Qed.

Lemma contains_skip (needle a b : string) :
  contains needle b = true -> contains needle (a ++ b) = true.
Proof.
  induction a as [|c a IH]; intros Hb; [exact Hb|].
  cbn [append contains]. rewrite (IH Hb). apply orb_true_r.
Qed.

Lemma contains_prefix (needle s : string) :
  String.prefix needle s = true -> contains needle s = true.
Proof.
  intros Hp. destruct s; cbn [contains]; rewrite Hp; reflexivity.
Qed.

(** A key whose first field is [primary] takes the primary branch, and a
    well-formed key whose first field is [secondary] the secondary one. *)
Lemma primary_key_contains (k : string) :
  primary_key k = true -> contains "primary" k = true.
Proof.
  intros Hp. destruct (prefix_append _ _ Hp) as [t ->].
  change ("('primary'" ++ t) with ("('" ++ ("primary" ++ ("'" ++ t))).
  apply contains_skip, contains_prefix, prefix_append_true.
Qed.

Lemma secondary_key_contains (k : string) :
  secondary_key k = true -> contains "secondary" k = true.
Proof.
  intros Hp. destruct (prefix_append _ _ Hp) as [t ->].
  change ("('secondary'" ++ t) with ("('" ++ ("secondary" ++ ("'" ++ t))).
  apply contains_skip, contains_prefix, prefix_append_true.
Qed.

Lemma primary_not_secondary (k : string) :
  primary_key k = true -> secondary_key k = false.
Proof.
  intros Hp. destruct (secondary_key k) eqn:Hs; [|reflexivity].
  exfalso. apply (key_lt_irrefl k). now apply primary_lt_secondary.
Qed.

(** A strictly increasing list of well-formed keys is its primary keys
    followed by its secondary keys. *)
Lemma sorted_keys_split (l : list string) :
  StronglySorted key_lt l -> (forall k, In k l -> key_ok k) ->
  l = (filter primary_key l ++ filter secondary_key l)%list.
Proof.
  induction 1 as [|k l Hs IH Hall]; intros Hok; [reflexivity|].
  assert (Hok' : forall x, In x l -> key_ok x)
    by (intros; apply Hok; now right).
  specialize (IH Hok').
  destruct (Hok k (or_introl eq_refl)) as [Hp|[Hsec _]].
  - cbn [filter]. rewrite Hp, (primary_not_secondary k Hp).
    cbn [app]. now rewrite <- IH.
  - assert (Hnp : primary_key k = false).
    { destruct (primary_key k) eqn:E; [|reflexivity].
      rewrite (primary_not_secondary k E) in Hsec. discriminate. }
    cbn [filter]. rewrite Hnp, Hsec.
    assert (Hnone : filter primary_key l = []).
    { clear IH. rewrite Forall_forall in Hall.
      destruct (filter primary_key l) as [|x rest] eqn:E; [reflexivity|].
      assert (Hx : In x (filter primary_key l)) by (rewrite E; now left).
      apply filter_In in Hx. destruct Hx as [Hx Hxp].
      exfalso. apply (key_lt_irrefl k).
      apply (key_lt_trans k x k); [now apply Hall|].
      now apply primary_lt_secondary. }
    rewrite Hnone in *. cbn [app] in *. now rewrite <- IH.
Qed.

(** *** The loop of [compete_measures] *)

Lemma bind_ok_r {X : Type} (r : result X) : (x <- r ;; Ok x) = r.
Proof. now destruct r. Qed.

Lemma bind_assoc {X Y Z : Type} (r : result X) (f : X -> result Y)
    (g : Y -> result Z) :
  (y <- (x <- r ;; f x) ;; g y) = (x <- r ;; y <- f x ;; g y).
Proof. now destruct r. Qed.

Section EngineFacts.

Variable state : Type.
Variable compete_res_primary : list nat -> string -> state -> result state.
Variable compete_com_primary : list nat -> string -> state -> result state.
Variable secondary_adj :
  list nat -> string -> string -> state -> result state.
Variable htcl_adj_rec : string -> list nat -> state -> result state.
Variable htcl_adj : state -> result state.
Variable secnd_mseg_adjkey : string -> string.
Variable original_energy_positive : state -> nat -> string -> result bool.

Notation process_key :=
  (process_key compete_res_primary compete_com_primary secondary_adj
     htcl_adj_rec secnd_mseg_adjkey original_energy_positive).
Notation process_keys :=
  (process_keys compete_res_primary compete_com_primary secondary_adj
     htcl_adj_rec secnd_mseg_adjkey original_energy_positive).
Notation process_primary :=
  (process_primary compete_res_primary compete_com_primary htcl_adj_rec).
Notation process_secondary :=
  (process_secondary secondary_adj secnd_mseg_adjkey
     original_energy_positive).
Notation compete_measures :=
  (compete_measures compete_res_primary compete_com_primary secondary_adj
     htcl_adj_rec htcl_adj secnd_mseg_adjkey original_energy_positive).

Lemma process_key_primary (keys : list (list string)) (htcl : bool)
    (k : string) (s : state) :
  primary_key k = true ->
  process_key keys htcl k s = process_primary keys htcl k s.
Proof.
  intros Hp. unfold Order.process_key, Order.process_primary.
  now rewrite (primary_key_contains k Hp).
Qed.

Lemma process_key_secondary (keys : list (list string)) (htcl : bool)
    (k : string) (s : state) :
  secondary_key k = true -> contains "primary" k = false ->
  process_key keys htcl k s = process_secondary keys k s.
Proof.
  intros Hs Hnp.
  unfold Order.process_key, Order.process_secondary, overlap_step.
  rewrite Hnp, (secondary_key_contains k Hs). cbn [andb].
  apply bind_ok_r.
Qed.

Lemma process_keys_app (keys : list (list string)) (htcl : bool)
    (l1 l2 : list string) (s : state) :
  process_keys keys htcl (l1 ++ l2)%list s
  = (s' <- process_keys keys htcl l1 s ;; process_keys keys htcl l2 s').
Proof.
  revert s. induction l1 as [|k l1 IH]; intros s; [reflexivity|].
  cbn [app Order.process_keys]. rewrite bind_assoc.
  destruct (process_key keys htcl k s) as [s'|e]; [|reflexivity].
  cbn [bind]. apply IH.
Qed.

Lemma process_keys_run (keys : list (list string)) (htcl : bool)
    (step : string -> state -> result state) (l : list string) :
  (forall k s, In k l -> process_key keys htcl k s = step k s) ->
  forall s, process_keys keys htcl l s = run step l s.
Proof.
  induction l as [|k l IH]; intros Hstep s; [reflexivity|].
  cbn [Order.process_keys run]. rewrite (Hstep k s (or_introl eq_refl)).
  destruct (step k s) as [s'|e]; [|reflexivity].
  cbn [bind]. apply IH. intros k' s'' Hk'. apply Hstep. now right.
Qed.


End EngineFacts.


(** On the sample keys the engine competes the shared primary key first
    and adjusts the secondary key after it. *)
Lemma compete_measures_example :
  Order.compete_measures
    (fun _ => Samples.log_step "res ") (fun _ => Samples.log_step "com ")
    (fun _ msu _ => Samples.log_step "secondary " msu)
    (fun msu _ => Samples.log_step "overlap " msu)
    (Samples.log_step "remove overlaps" "")
    (fun _ => "('AIA_CZ1', 'single family home', 'existing')")
    (fun _ _ _ => Ok true)
    Samples.sample_keys []
  = Ok [("res " ++ Samples.existing_key);
        ("secondary " ++ Samples.secondary_key_sample)].
Proof. vm_compute. reflexivity. Qed.


End OrderFacts.

(** ** More on the financial metrics calculator *)

Module MetricFacts.

Import Finance FinanceFacts Competition CompetitionFacts.

Local Open Scope Q_scope.

(** *** Witnesses for the payback period *)

Lemma forallb_Qle_In (l : list Q) :
  forallb (fun c => Qle_bool 0 c) l = true -> forall c, In c l -> 0 <= c.
Proof.
  intros Hall c Hc. apply Qle_bool_iff.
  exact (proj1 (forallb_forall _ l) Hall c Hc).
Qed.

Lemma forallb_Qlt_In (bound : Q) (l : list Q) :
  forallb (fun t => Qltb t bound) l = true ->
  forall t, In t l -> t < bound.
Proof.
  intros Hall t Ht. apply Qltb_true.
  exact (proj1 (forallb_forall _ l) Hall t Ht).
Qed.

(** [payback([-100, 50, 50, 50])]: the investment is reached in the year of
    index 1, from a running total of 50. *)
Lemma payback_interpolates_witness :
  exists v,
    payback [-100; 50; 50; 50] = Ok v /\
    v == inject_Z (Z.of_nat 1) + (Qabs (-100) - 50) / (100 - 50).
Proof.
  apply (payback_interpolates (-100) [50; 50; 50] 1).
  - reflexivity.
  - apply forallb_Qle_In. vm_compute. reflexivity.
  - vm_compute. lia.
  - intros i Hi. assert (i = 0%nat) as -> by lia. vm_compute. reflexivity.
  - vm_compute. discriminate.
Defined.

(** [payback([-100, 0])]: flows of zero never recover the investment. *)
Lemma payback_never_recovers_witness : payback [-100; 0] = Ok 999.
Proof.
  apply (payback_never_recovers (-100) [0]).
  - reflexivity.
  - apply forallb_Qlt_In. vm_compute. reflexivity.
Defined.

(** A lighting measure of 30 years against a baseline of 10, with a numpy
    whose [irr] raises [ValueError]. *)
Lemma metric_update_returns_exact_witness :
  exists r,
    metric_update FinanceData.handyvars_exact FinanceData.numpy_no_rate_exact
      FinanceData.lighting_measure 10 30 5 (-20) 3 2 1 1 25 4 1 = Ok r.
Proof.
  apply (metric_update_returns_exact FinanceData.handyvars_exact
           FinanceData.numpy_no_rate_exact FinanceData.lighting_measure
           10 30 5 (-20) 3 2 1 1 25 4 1).
  - discriminate.
  - intros cf e He. cbn in He. injection He as <-. reflexivity.
Defined.

(** *** Cost of conserved carbon *)

Section Carbon.

Context {A : Type} `{PyNum A}.

Ltac split_consumer :=
  repeat match goal with
  | |- context [try_irr ?np ?cf] => destruct (try_irr np cf); simpl
  | |- context [try_payback ?cf] => destruct (try_payback cf); simpl
  end.

(** Whenever [metric_update] returns, its cost of conserved carbon is the
    sentinel 999 if the NPV of the avoided-carbon stream is not positive,
    and otherwise minus the NPV of the incremental capital cash flows over
    the NPV of the avoided carbon times 1000000; the variant with energy
    cost benefits adds the NPV of the energy cost savings to the capital
    NPV before negating.  This holds for exact numbers and for floats. *)
Lemma metric_update_ccc_generic
    (hv : handyvars) (np : numpy_lib) (m : measure) (life_base life_meas : Z)
    (scost_base scost_meas_delt esave ecostsave csave ccostsave
     scost_meas ecost_meas ccost_meas : A) :
  life_base <> 0%Z ->
  exists gain_yrs,
    added_stockcost_gain_yrs m life_base life_meas = Ok gain_yrs /\
    let life := floor_life_meas life_meas in
    let npv_s_delt :=
      npv (discount_rate hv)
          (capital_cashflows gain_yrs life scost_base scost_meas_delt) in
    let npv_e_delt :=
      npv (discount_rate hv) (annual_cashflows life ecostsave) in
    let npv_csave := npv (discount_rate hv) (annual_cashflows life csave) in
    match metric_update hv np m life_base life_meas scost_base
            scost_meas_delt esave ecostsave csave ccostsave
            scost_meas ecost_meas ccost_meas with
    | Ok r =>
        if ltb (of_Z 0) npv_csave
        then ccc r = div (opp npv_s_delt) (mul npv_csave (of_Z 1000000)) /\
             ccc_bens r = div (opp (add npv_s_delt npv_e_delt))
                              (mul npv_csave (of_Z 1000000))
        else ccc r = of_Z 999 /\ ccc_bens r = of_Z 999
    | Raise _ => update_consumer_metrics m = true
    end.
Proof.
  intros Hbase.
  destruct (added_stockcost_gain_yrs_defined m life_base life_meas Hbase)
    as [gain_yrs Hgain].
  exists gain_yrs. split; [exact Hgain|].
  unfold metric_update. rewrite Hgain. simpl bind.
  destruct (ltb (of_Z 0)
              (npv (discount_rate hv)
                 (annual_cashflows (floor_life_meas life_meas) esave)));
    destruct (ltb (of_Z 0)
                (npv (discount_rate hv)
                   (annual_cashflows (floor_life_meas life_meas) csave)));
    cbv zeta;
    destruct (update_consumer_metrics m); simpl; auto;
    destruct (existsb residential (bldg_type m));
    destruct (existsb (fun b => negb (residential b)) (bldg_type m));
    try destruct (com_unit_costs _ _ _ _) as [[? ?] ?];
    split_consumer; auto.
Qed.

End Carbon.

(** *** The years of an avoided baseline purchase *)

Lemma py_range_In (lo hi i : Z) :
  In i (py_range lo hi) <-> (lo <= i < hi)%Z.
Proof.
  unfold py_range. rewrite in_map_iff. split.
  - intros [k [<- Hk]]. apply in_seq in Hk. lia.
  - intros Hi. exists (Z.to_nat (i - lo)). split; [lia|].
    apply in_seq. lia.
Qed.

(** The gain years of [metric_update].  For a baseline lifetime other
    than zero the list holds [i - 1] for every multiple [i] of the baseline
    lifetime with [1 <= i < life_meas], provided the measure is a
    full-service supply-side lighting measure that outlives the baseline;
    for any other measure the list is empty. *)
Theorem added_stockcost_gain_yrs_spec (m : measure) (life_base life_meas : Z)
    (gain_yrs : list Z) (y : Z) :
  life_base <> 0%Z ->
  added_stockcost_gain_yrs m life_base life_meas = Ok gain_yrs ->
  (In y gain_yrs <->
   (life_base < life_meas)%Z /\
   str_in "lighting" (end_use_primary m) = true /\
   measure_type m = "full service"%string /\
   technology_type_primary m = "supply"%string /\
   (0 <= y < life_meas - 1)%Z /\ ((y + 1) mod life_base = 0)%Z).
Proof.
  intros Hbase. unfold added_stockcost_gain_yrs.
  destruct (life_base <? life_meas)%Z eqn:Hlt; cbn [andb];
    [apply Z.ltb_lt in Hlt | apply Z.ltb_ge in Hlt].
  2: { intros [= <-]. split; [contradiction | lia]. }
  destruct (str_in "lighting" (end_use_primary m)) eqn:Hl; cbn [andb].
  2: { intros [= <-]. split; [contradiction | intros (_ & ? & _); congruence]. }
  destruct (String.eqb_spec (measure_type m) "full service") as [Hm|Hm];
    cbn [andb].
  2: { intros [= <-]. split; [contradiction | intros (_ & _ & ? & _); congruence]. }
  destruct (String.eqb_spec (technology_type_primary m) "supply") as [Ht|Ht].
  2: { intros [= <-].
       split; [contradiction | intros (_ & _ & _ & ? & _); congruence]. }
  assert (Hspec : forall l,
             l = py_range 1 life_meas ->
             In y (map (fun i => (i - 1)%Z)
                       (filter (fun i => (i mod life_base =? 0)%Z) l)) <->
             (0 <= y < life_meas - 1)%Z /\ ((y + 1) mod life_base = 0)%Z).
  { intros l ->. rewrite in_map_iff. split.
    - intros [i [<- Hi]]. apply filter_In in Hi. destruct Hi as [Hi Hmod].
      apply py_range_In in Hi. apply Z.eqb_eq in Hmod.
      replace (i - 1 + 1)%Z with i by lia. split; [lia | exact Hmod].
    - intros [Hy Hmod]. exists (y + 1)%Z. split; [lia|].
      apply filter_In. split; [apply py_range_In; lia|].
      now apply Z.eqb_eq. }
  destruct (py_range 1 life_meas) as [|i0 r] eqn:Hr.
  - intros [= <-]. split; [contradiction|].
    intros (_ & _ & _ & _ & Hy & _).
    assert (Hin : In (y + 1)%Z (py_range 1 life_meas))
      by (apply py_range_In; lia).
    rewrite Hr in Hin. exact Hin.
  - destruct (Z.eqb_spec life_base 0) as [|_]; [contradiction|].
    intros [= <-]. rewrite (Hspec (i0 :: r) eq_refl). tauto.
Qed.

(** An LED of 30 years against a bulb of 10: the purchases of years 9 and
    19 are avoided. *)
Lemma added_stockcost_gain_yrs_spec_witness :
  In 19%Z [9; 19]%Z <->
  (10 < 30)%Z /\
  str_in "lighting" (end_use_primary FinanceData.lighting_measure) = true /\
  measure_type FinanceData.lighting_measure = "full service"%string /\
  technology_type_primary FinanceData.lighting_measure = "supply"%string /\
  (0 <= 19 < 30 - 1)%Z /\ ((19 + 1) mod 10 = 0)%Z.
Proof.
  apply (added_stockcost_gain_yrs_spec FinanceData.lighting_measure 10 30
           [9; 19]%Z 19%Z).
  - discriminate.
  - vm_compute. reflexivity.
Defined.

(** *** Net present values on exact numbers *)

Lemma pow_pos (x : Q) (n : nat) : 0 < x -> 0 < pow x n.
Proof.
  intros Hx. induction n as [|n IH]; cbn [pow].
  - reflexivity.
  - change (mul x (pow x n)) with (x * pow x n). nra.
Qed.

Lemma pow_le (x y : Q) (n : nat) : 0 < x -> x <= y -> pow x n <= pow y n.
Proof.
  intros Hx Hxy. induction n as [|n IH]; cbn [pow].
  - apply Qle_refl.
  - change (mul x (pow x n)) with (x * pow x n).
    change (mul y (pow y n)) with (y * pow y n).
    pose proof (pow_pos x n Hx). nra.
Qed.

Lemma npv_Qsum (rate : Q) (values : list Q) :
  npv rate values = Qsum (npv_terms rate 0 values).
Proof. reflexivity. Qed.

Lemma npv_terms_repeat (rate e : Q) (n t : nat) :
  npv_terms rate t (repeat e n)
  = map (fun k => e / pow (1 + rate) k) (seq t n).
Proof.
  revert t. induction n as [|n IH]; intros t; cbn [repeat npv_terms seq map].
  - reflexivity.
  - now rewrite IH.
Qed.

(** The NPV of [numpy.append(0, [e] * life)] is [e] times a discount
    factor, which is positive for a life of at least one year and a rate
    above -1. *)
Lemma npv_annual (rate e : Q) (life : Z) :
  npv rate (annual_cashflows life e)
  == Qsum (map (fun k => 1 / pow (1 + rate) k) (seq 1 (Z.to_nat life))) * e.
Proof.
  rewrite npv_Qsum. unfold annual_cashflows. cbn [npv_terms].
  rewrite Qsum_cons, npv_terms_repeat.
  rewrite <- (Qsum_map_scale (fun k => 1 / pow (1 + rate) k) e).
  change (div (of_Z 0) (pow (add (of_Z 1) rate) 0)) with (0 / 1).
  rewrite (Qsum_map_ext (fun k => e / pow (1 + rate) k)
             (fun k => 1 / pow (1 + rate) k * e)).
  - field.
  - intros k _. unfold Qdiv. ring.
Qed.

Lemma discount_factor_pos (rate : Q) (life : Z) :
  0 < 1 + rate -> (1 <= life)%Z ->
  0 < Qsum (map (fun k => 1 / pow (1 + rate) k) (seq 1 (Z.to_nat life))).
Proof.
  intros Hrate Hlife. apply Qsum_pos.
  - destruct (Z.to_nat life) eqn:E; [lia | discriminate].
  - intros x Hx. apply in_map_iff in Hx. destruct Hx as [k [<- _]].
    pose proof (pow_pos (1 + rate) k Hrate) as Hp.
    unfold Qdiv. rewrite Qmult_1_l. now apply Qinv_lt_0_compat.
Qed.

Lemma floor_life_meas_ge (life_meas : Z) : (1 <= floor_life_meas life_meas)%Z.
Proof.
  unfold floor_life_meas. destruct (Z.ltb_spec life_meas 1); lia.
Qed.

Lemma npv_annual_positive (rate e : Q) (life_meas : Z) :
  0 < 1 + rate ->
  ltb (of_Z 0) (npv rate (annual_cashflows (floor_life_meas life_meas) e))
  = Qltb 0 e.
Proof.
  intros Hrate.
  pose proof (discount_factor_pos rate (floor_life_meas life_meas) Hrate
                (floor_life_meas_ge life_meas)) as Hpos.
  pose proof (npv_annual rate e (floor_life_meas life_meas)) as Hnpv.
  change (ltb (of_Z 0)) with (Qltb 0).
  destruct (Qltb 0 e) eqn:He.
  - apply Qltb_true in He. apply Qltb_true. rewrite Hnpv. nra.
  - apply Qltb_false in He. apply Qltb_false. rewrite Hnpv. nra.
Qed.

(** *** The portfolio metrics in closed form *)

Lemma pow_Qpower (x : Q) (n : nat) : pow x n == x ^ Z.of_nat n.
Proof.
  induction n as [|n IH].
  - reflexivity.
  - cbn [pow]. change (mul x (pow x n)) with (x * pow x n).
    rewrite IH, Nat2Z.inj_succ. unfold Z.succ.
    rewrite Qpower_plus' by lia.
    change (x ^ 1) with x. ring.
Qed.

Lemma npv_terms_seq (rate : Q) (g : nat -> Q) (n : nat) :
  forall s t,
    npv_terms rate t (map g (seq s n))
    = map (fun k => g (s + k)%nat / pow (1 + rate) (t + k)) (seq 0 n).
Proof.
  induction n as [|n IH]; intros s t; cbn [seq map npv_terms].
  - reflexivity.
  - rewrite IH, <- seq_shift, map_map, !Nat.add_0_r.
    f_equal. apply map_ext. intros k.
    now rewrite !Nat.add_succ_r.
Qed.

(** The NPV of the annual flows is the discounted stream. *)
Lemma npv_annual_closed (rate e : Q) (life : Z) :
  npv rate (annual_cashflows life e)
  == Discounting.discounted_stream rate life e.
Proof.
  rewrite npv_Qsum. unfold annual_cashflows. cbn [npv_terms].
  rewrite Qsum_cons, npv_terms_repeat.
  change (div (of_Z 0) (pow (add (of_Z 1) rate) 0)) with (0 / 1).
  unfold Discounting.discounted_stream, py_range.
  replace (life + 1 - 1)%Z with life by lia.
  rewrite map_map, <- seq_shift, map_map.
  rewrite (Qsum_map_ext
             (fun k => e / pow (1 + rate) (S k))
             (fun k => Discounting.discounted rate (1 + Z.of_nat k) e)).
  - field.
  - intros k _. unfold Discounting.discounted.
    rewrite pow_Qpower, Nat2Z.inj_succ.
    replace (Z.succ (Z.of_nat k)) with (1 + Z.of_nat k)%Z by lia.
    reflexivity.
Qed.

(** The gain years of the code are those of [gain_year]. *)
Lemma Z_in_gain_yrs (m : measure) (life_base life_meas : Z)
    (gain_yrs : list Z) (y : Z) :
  life_base <> 0%Z ->
  added_stockcost_gain_yrs m life_base life_meas = Ok gain_yrs ->
  Z_in y gain_yrs = Discounting.gain_year m life_base life_meas y.
Proof.
  intros Hbase. unfold added_stockcost_gain_yrs, Discounting.gain_year.
  destruct ((life_base <? life_meas)%Z
            && str_in "lighting" (end_use_primary m)
            && String.eqb (measure_type m) "full service"
            && String.eqb (technology_type_primary m) "supply");
    [|intros [= <-]; reflexivity].
  cbn [andb].
  assert (Hrange : forall l,
             l = py_range 1 life_meas ->
             Z_in y (map (fun i => (i - 1)%Z)
                         (filter (fun i => (i mod life_base =? 0)%Z) l))
             = (0 <=? y)%Z && (y <? life_meas - 1)%Z
               && ((y + 1) mod life_base =? 0)%Z).
  { intros l ->. apply eq_true_iff_eq.
    rewrite Z_in_In, in_map_iff, !andb_true_iff, Z.leb_le, Z.ltb_lt,
      Z.eqb_eq.
    split.
    - intros [i [<- Hi]]. apply filter_In in Hi. destruct Hi as [Hi Hmod].
      apply py_range_In in Hi. apply Z.eqb_eq in Hmod.
      replace (i - 1 + 1)%Z with i by lia. repeat split; [lia | lia | exact Hmod].
    - intros [[Hlo Hhi] Hmod]. exists (y + 1)%Z. split; [lia|].
      apply filter_In. split; [apply py_range_In; lia|].
      now apply Z.eqb_eq. }
  destruct (py_range 1 life_meas) as [|i0 r] eqn:Hr.
  - intros [= <-]. rewrite <- (Hrange [] eq_refl). reflexivity.
  - destruct (Z.eqb_spec life_base 0) as [|_]; [contradiction|].
    intros [= <-]. exact (Hrange (i0 :: r) eq_refl).
Qed.

(** The NPV of the incremental capital cash flows is the discounted
    capital. *)
Lemma npv_capital_closed (rate : Q) (m : measure) (life_base life_meas : Z)
    (gain_yrs : list Z) (scost_base upfront : Q) :
  life_base <> 0%Z ->
  added_stockcost_gain_yrs m life_base life_meas = Ok gain_yrs ->
  npv rate (capital_cashflows gain_yrs (floor_life_meas life_meas)
              scost_base upfront)
  == Discounting.discounted_capital rate m life_base life_meas
       scost_base upfront.
Proof.
  intros Hbase Hgain.
  rewrite npv_Qsum, floor_life_meas_max. unfold capital_cashflows.
  cbn [npv_terms]. rewrite Qsum_cons.
  change (div upfront (pow (add (of_Z 1) rate) 0)) with (upfront / 1).
  unfold Discounting.discounted_capital, py_range.
  rewrite !map_map, npv_terms_seq.
  rewrite (Qsum_map_ext
             (fun k => (if Z_in (0 + Z.of_nat (0 + k)) gain_yrs
                        then scost_base else of_Z 0)
                       / pow (1 + rate) (1 + k))
             (fun k => Discounting.discounted rate (0 + Z.of_nat k + 1)
                         (if Discounting.gain_year m life_base life_meas
                               (0 + Z.of_nat k)
                          then scost_base else 0))).
  - field.
  - intros k _. unfold Discounting.discounted.
    rewrite (Z_in_gain_yrs m life_base life_meas gain_yrs _ Hbase Hgain).
    rewrite pow_Qpower.
    replace (Z.of_nat (1 + k)) with (0 + Z.of_nat k + 1)%Z by lia.
    reflexivity.
Qed.

(** C3. Cost of conserved energy, on exact numbers.  Let the energy
    savings, the carbon cost savings and the incremental capital cost be
    discounted at the general rate over the measure life (floored at one
    year): a saving counts at the end of each year, the upfront cost
    today, and the avoided baseline purchases at the end of their years.
    With a non-zero baseline lifetime, whenever [metric_update] returns,
    its CCE and the variant with carbon benefits are 999 if the discounted
    energy savings are not positive; otherwise the CCE is minus the
    discounted capital cost over the discounted energy savings, and the
    variant subtracts the discounted carbon cost savings as well in the
    numerator.  An exception can only come from the consumer-level
    metrics. *)
Theorem metric_update_cce
    (hv : handyvars (A := Q)) (np : numpy_lib (A := Q)) (m : measure)
    (life_base life_meas : Z)
    (scost_base scost_meas_delt esave ecostsave csave ccostsave
     scost_meas ecost_meas ccost_meas : Q) :
  life_base <> 0%Z ->
  let rate := discount_rate hv in
  let life := Z.max 1 life_meas in
  let capital :=
    Discounting.discounted_capital rate m life_base life_meas
      scost_base scost_meas_delt in
  let energy := Discounting.discounted_stream rate life esave in
  let carbon_cost := Discounting.discounted_stream rate life ccostsave in
  match metric_update hv np m life_base life_meas scost_base
          scost_meas_delt esave ecostsave csave ccostsave
          scost_meas ecost_meas ccost_meas with
  | Ok r =>
      if Qle_bool energy 0
      then cce r = 999 /\ cce_bens r = 999
      else cce r == - capital / energy /\
           cce_bens r == (- capital - carbon_cost) / energy
  | Raise _ => update_consumer_metrics m = true
  end.
Proof.
  intros Hbase rate life capital energy carbon_cost.
  destruct (metric_update_cce_generic hv np m life_base life_meas scost_base
              scost_meas_delt esave ecostsave csave ccostsave
              scost_meas ecost_meas ccost_meas Hbase)
    as [gain_yrs [Hgain Hcce]].
  cbv zeta in Hcce.
  destruct (metric_update hv np m life_base life_meas scost_base
              scost_meas_delt esave ecostsave csave ccostsave
              scost_meas ecost_meas ccost_meas) as [r|e]; [|exact Hcce].
  pose proof (npv_capital_closed (discount_rate hv) m life_base life_meas
                gain_yrs scost_base scost_meas_delt Hbase Hgain) as Hs.
  pose proof (npv_annual_closed (discount_rate hv) esave
                (floor_life_meas life_meas)) as He.
  pose proof (npv_annual_closed (discount_rate hv) ccostsave
                (floor_life_meas life_meas)) as Hc.
  subst energy carbon_cost capital life rate.
  rewrite <- floor_life_meas_max.
  assert (Hb : Qle_bool (Discounting.discounted_stream (discount_rate hv)
                           (floor_life_meas life_meas) esave) 0
               = Qle_bool (npv (discount_rate hv)
                             (annual_cashflows (floor_life_meas life_meas)
                                esave)) 0)
    by (rewrite He; reflexivity).
  rewrite Hb.
  change (ltb (of_Z 0)) with (Qltb 0) in Hcce. unfold Qltb in Hcce.
  destruct (Qle_bool _ 0); cbn [negb] in Hcce.
  - exact Hcce.
  - destruct Hcce as [H1 H2]. rewrite H1, H2, <- Hs, <- He, <- Hc.
    split.
    + reflexivity.
    + change (div ?a ?b) with (a / b).
      change (opp (add ?a ?b)) with (- (a + b)).
      unfold Qdiv, Qminus. ring.
Qed.

(** The theorem above at a lighting measure of 30 years against a baseline
    of 10. *)
Lemma metric_update_cce_witness :
  (10 <> 0)%Z /\
  let hv := FinanceData.handyvars_exact in
  let m := FinanceData.lighting_measure in
  let rate := discount_rate hv in
  let life := Z.max 1 30 in
  let capital := Discounting.discounted_capital rate m 10 30 5 (-20) in
  let energy := Discounting.discounted_stream rate life 3 in
  let carbon_cost := Discounting.discounted_stream rate life 1 in
  match metric_update hv FinanceData.numpy_no_rate_exact m 10 30 5 (-20) 3 2
          1 1 25 4 1 with
  | Ok r =>
      if Qle_bool energy 0
      then cce r = 999 /\ cce_bens r = 999
      else cce r == - capital / energy /\
           cce_bens r == (- capital - carbon_cost) / energy
  | Raise _ => update_consumer_metrics m = true
  end.
Proof.
  assert (H1 : (10 <> 0)%Z) by discriminate.
  split; [exact H1|].
  exact (metric_update_cce FinanceData.handyvars_exact
           FinanceData.numpy_no_rate_exact FinanceData.lighting_measure
           10 30 5 (-20) 3 2 1 1 25 4 1 H1).
Defined.

(** Cost of conserved carbon, on exact numbers.  With the avoided carbon,
    the energy cost savings and the incremental capital cost discounted as
    for the cost of conserved energy: whenever [metric_update] returns,
    its CCC and the variant with energy cost benefits are 999 if the
    discounted avoided carbon is not positive; otherwise the CCC is minus
    the discounted capital cost over 1000000 times the discounted avoided
    carbon, and the variant subtracts the discounted energy cost savings
    as well in the numerator. *)
Theorem metric_update_ccc
    (hv : handyvars (A := Q)) (np : numpy_lib (A := Q)) (m : measure)
    (life_base life_meas : Z)
    (scost_base scost_meas_delt esave ecostsave csave ccostsave
     scost_meas ecost_meas ccost_meas : Q) :
  life_base <> 0%Z ->
  let rate := discount_rate hv in
  let life := Z.max 1 life_meas in
  let capital :=
    Discounting.discounted_capital rate m life_base life_meas
      scost_base scost_meas_delt in
  let carbon := Discounting.discounted_stream rate life csave in
  let energy_cost := Discounting.discounted_stream rate life ecostsave in
  match metric_update hv np m life_base life_meas scost_base
          scost_meas_delt esave ecostsave csave ccostsave
          scost_meas ecost_meas ccost_meas with
  | Ok r =>
      if Qle_bool carbon 0
      then ccc r = 999 /\ ccc_bens r = 999
      else ccc r == - capital / (carbon * 1000000) /\
           ccc_bens r == (- capital - energy_cost) / (carbon * 1000000)
  | Raise _ => update_consumer_metrics m = true
  end.
Proof.
  intros Hbase rate life capital carbon energy_cost.
  destruct (metric_update_ccc_generic hv np m life_base life_meas scost_base
              scost_meas_delt esave ecostsave csave ccostsave
              scost_meas ecost_meas ccost_meas Hbase)
    as [gain_yrs [Hgain Hccc]].
  cbv zeta in Hccc.
  destruct (metric_update hv np m life_base life_meas scost_base
              scost_meas_delt esave ecostsave csave ccostsave
              scost_meas ecost_meas ccost_meas) as [r|e]; [|exact Hccc].
  pose proof (npv_capital_closed (discount_rate hv) m life_base life_meas
                gain_yrs scost_base scost_meas_delt Hbase Hgain) as Hs.
  pose proof (npv_annual_closed (discount_rate hv) csave
                (floor_life_meas life_meas)) as Hc.
  pose proof (npv_annual_closed (discount_rate hv) ecostsave
                (floor_life_meas life_meas)) as He.
  subst carbon energy_cost capital life rate.
  rewrite <- floor_life_meas_max.
  assert (Hb : Qle_bool (Discounting.discounted_stream (discount_rate hv)
                           (floor_life_meas life_meas) csave) 0
               = Qle_bool (npv (discount_rate hv)
                             (annual_cashflows (floor_life_meas life_meas)
                                csave)) 0)
    by (rewrite Hc; reflexivity).
  rewrite Hb.
  change (ltb (of_Z 0)) with (Qltb 0) in Hccc. unfold Qltb in Hccc.
  destruct (Qle_bool _ 0); cbn [negb] in Hccc.
  - exact Hccc.
  - destruct Hccc as [H1 H2]. rewrite H1, H2, <- Hs, <- He, <- Hc.
    change (mul ?a (of_Z 1000000)) with (a * 1000000).
    split.
    + reflexivity.
    + change (div ?a ?b) with (a / b).
      change (opp (add ?a ?b)) with (- (a + b)).
      unfold Qdiv, Qminus. ring.
Qed.

Lemma metric_update_ccc_witness :
  (10 <> 0)%Z /\
  let hv := FinanceData.handyvars_exact in
  let m := FinanceData.lighting_measure in
  let rate := discount_rate hv in
  let life := Z.max 1 30 in
  let capital := Discounting.discounted_capital rate m 10 30 5 (-20) in
  let carbon := Discounting.discounted_stream rate life 1 in
  let energy_cost := Discounting.discounted_stream rate life 2 in
  match metric_update hv FinanceData.numpy_no_rate_exact m 10 30 5 (-20) 3 2
          1 1 25 4 1 with
  | Ok r =>
      if Qle_bool carbon 0
      then ccc r = 999 /\ ccc_bens r = 999
      else ccc r == - capital / (carbon * 1000000) /\
           ccc_bens r == (- capital - energy_cost) / (carbon * 1000000)
  | Raise _ => update_consumer_metrics m = true
  end.
Proof.
  assert (H1 : (10 <> 0)%Z) by discriminate.
  split; [exact H1|].
  exact (metric_update_ccc FinanceData.handyvars_exact
           FinanceData.numpy_no_rate_exact FinanceData.lighting_measure
           10 30 5 (-20) 3 2 1 1 25 4 1 H1).
Defined.

(** The sentinel of the portfolio metrics, in terms of the inputs.  With a
    discount rate above -1, [metric_update] sets the cost of conserved
    energy (with and without carbon benefits) to 999 exactly when the
    per-unit energy savings are not positive, and the cost of conserved
    carbon exactly when the per-unit avoided carbon is not positive;
    otherwise it divides by a positive NPV. *)
Theorem metric_update_sentinel_by_savings
    (hv : handyvars (A := Q)) (np : numpy_lib (A := Q)) (m : measure)
    (life_base life_meas : Z)
    (scost_base scost_meas_delt esave ecostsave csave ccostsave
     scost_meas ecost_meas ccost_meas : Q) (r : metrics) :
  0 < 1 + discount_rate hv ->
  metric_update hv np m life_base life_meas scost_base scost_meas_delt
    esave ecostsave csave ccostsave scost_meas ecost_meas ccost_meas = Ok r ->
  exists gain_yrs,
    added_stockcost_gain_yrs m life_base life_meas = Ok gain_yrs /\
    let life := floor_life_meas life_meas in
    let npv_s_delt :=
      npv (discount_rate hv)
          (capital_cashflows gain_yrs life scost_base scost_meas_delt) in
    let npv_esave := npv (discount_rate hv) (annual_cashflows life esave) in
    let npv_csave := npv (discount_rate hv) (annual_cashflows life csave) in
    (if Qle_bool esave 0
     then cce r = 999 /\ cce_bens r = 999
     else 0 < npv_esave /\ cce r = - npv_s_delt / npv_esave) /\
    (if Qle_bool csave 0
     then ccc r = 999 /\ ccc_bens r = 999
     else 0 < npv_csave /\ ccc r = - npv_s_delt / (npv_csave * 1000000)).
Proof.
  intros Hrate Hret.
  pose proof (npv_annual_positive (discount_rate hv) esave life_meas Hrate)
    as He.
  pose proof (npv_annual_positive (discount_rate hv) csave life_meas Hrate)
    as Hc.
  unfold metric_update in Hret.
  destruct (added_stockcost_gain_yrs m life_base life_meas) as [gain_yrs|];
    [|discriminate].
  exists gain_yrs. split; [reflexivity|].
  intros life npv_s_delt npv_esave npv_csave.
  fold life in He, Hc. fold npv_esave in He. fold npv_csave in Hc.
  assert (Hpe : Qle_bool esave 0 = false -> 0 < npv_esave).
  { intros E. apply Qltb_true. change (Qltb 0 npv_esave) with
      (ltb (of_Z 0) npv_esave). rewrite He. unfold Qltb. now rewrite E. }
  assert (Hpc : Qle_bool csave 0 = false -> 0 < npv_csave).
  { intros E. apply Qltb_true. change (Qltb 0 npv_csave) with
      (ltb (of_Z 0) npv_csave). rewrite Hc. unfold Qltb. now rewrite E. }
  cbn [bind] in Hret. cbv zeta in Hret.
  fold life in Hret. fold npv_esave in Hret. fold npv_csave in Hret.
  rewrite He, Hc in Hret. unfold Qltb in Hret.
  destruct (Qle_bool esave 0) eqn:Ee; destruct (Qle_bool csave 0) eqn:Ec;
    cbn [negb] in Hret;
    destruct (update_consumer_metrics m);
    repeat match type of Hret with
    | context [let '(_, _) := ?p in _] => destruct p
    | context [if ?b then _ else _] => destruct b
    | context [try_irr ?n ?cf] => destruct (try_irr n cf); cbn [bind] in Hret
    | context [try_payback ?cf] =>
        destruct (try_payback cf); cbn [bind] in Hret
    end;
    try discriminate; injection Hret as <-; cbn [cce cce_bens ccc ccc_bens];
    repeat split; auto.
Qed.

Lemma metric_update_sentinel_by_savings_witness :
  exists r,
    metric_update FinanceData.handyvars_exact FinanceData.numpy_no_rate_exact
      FinanceData.heating_measure 10 15 5 (-20) 3 2 0 0 25 4 1 = Ok r /\
    exists gain_yrs,
      added_stockcost_gain_yrs FinanceData.heating_measure 10 15
      = Ok gain_yrs /\
      let life := floor_life_meas 15 in
      let rate := discount_rate FinanceData.handyvars_exact in
      let npv_s_delt := npv rate (capital_cashflows gain_yrs life 5 (-20)) in
      let npv_esave := npv rate (annual_cashflows life 3) in
      let npv_csave := npv rate (annual_cashflows life 0) in
      (if Qle_bool 3 0
       then cce r = 999 /\ cce_bens r = 999
       else 0 < npv_esave /\ cce r = - npv_s_delt / npv_esave) /\
      (if Qle_bool 0 0
       then ccc r = 999 /\ ccc_bens r = 999
       else 0 < npv_csave /\ ccc r = - npv_s_delt / (npv_csave * 1000000)).
Proof.
  eexists. split; [vm_compute; reflexivity|].
  apply (metric_update_sentinel_by_savings FinanceData.handyvars_exact
           FinanceData.numpy_no_rate_exact FinanceData.heating_measure
           10 15 5 (-20) 3 2 0 0 25 4 1).
  - reflexivity.
  - vm_compute. reflexivity.
Defined.

(** *** Commercial unit costs by discount-rate tier *)

Lemma npv_terms_antitone (r1 r2 : Q) (values : list Q) (t : nat) :
  0 < 1 + r1 -> r1 <= r2 -> (forall v, In v values -> 0 <= v) ->
  Qsum (npv_terms r2 t values) <= Qsum (npv_terms r1 t values).
Proof.
  intros Hr1 Hr Hpos. revert t.
  induction values as [|v vs IH]; intros t; cbn [npv_terms].
  - apply Qle_refl.
  - rewrite !Qsum_cons.
    assert (Hv : 0 <= v) by (apply Hpos; now left).
    assert (Hvs : forall x, In x vs -> 0 <= x)
      by (intros; apply Hpos; now right).
    specialize (IH Hvs (S t)).
    change (div v (pow (add (of_Z 1) r2) t)) with (v / pow (1 + r2) t).
    change (div v (pow (add (of_Z 1) r1) t)) with (v / pow (1 + r1) t).
    assert (Hp1 : 0 < pow (1 + r1) t) by (apply pow_pos; exact Hr1).
    assert (Hp2 : 0 < pow (1 + r2) t) by (apply pow_pos; lra).
    assert (Hle : pow (1 + r1) t <= pow (1 + r2) t)
      by (apply pow_le; [exact Hr1 | lra]).
    assert (Hterm : v / pow (1 + r2) t <= v / pow (1 + r1) t).
    { apply Qle_shift_div_r; [exact Hp2|].
      set (x := v / pow (1 + r1) t).
      assert (Hx : x * pow (1 + r1) t == v)
        by (unfold x; field; intros Hz; lra).
      assert (0 <= x).
      { unfold x. apply Qle_shift_div_l; [exact Hp1 | lra]. }
      nra. }
    lra.
Qed.

Lemma npv_tiers_ascending (rates values : list Q) :
  (forall r, In r rates -> 0 < 1 + r) ->
  StronglySorted (fun a b => b <= a) rates ->
  (forall v, In v values -> 0 <= v) ->
  StronglySorted Qle (map (fun r => npv r values) rates).
Proof.
  intros Hrates Hsorted Hpos.
  induction Hsorted as [|r rs Hrs IH Hall]; cbn [map]; constructor.
  - apply IH. intros; apply Hrates; now right.
  - apply Forall_forall. intros x Hx.
    apply in_map_iff in Hx. destruct Hx as [r' [<- Hr']].
    rewrite !npv_Qsum. apply npv_terms_antitone.
    + apply Hrates. now right.
    + exact (proj1 (Forall_forall _ _) Hall r' Hr').
    + exact Hpos.
Qed.

(** The commercial unit costs of [metric_update] on exact numbers, where
    every NPV is finite: each of the three outputs is the list of the NPVs
    of the total cash flows under the discount-rate tiers, in tier order.
    With tiers listed from the highest rate to the lowest (as
    [com_timeprefs] lists them) and rates above -1, the unit costs of a
    stream of non-negative flows are in ascending order: "rate 1" is the
    smallest and "rate 7" the largest. *)
Theorem com_unit_costs_ascending (hv : handyvars (A := Q))
    (s_tot e_tot c_tot : list Q) :
  (forall r, In r (com_timeprefs_rates hv) -> 0 < 1 + r) ->
  StronglySorted (fun a b => b <= a) (com_timeprefs_rates hv) ->
  com_unit_costs hv s_tot e_tot c_tot
  = (ComRates (map (fun r => npv r s_tot) (com_timeprefs_rates hv)),
     ComRates (map (fun r => npv r e_tot) (com_timeprefs_rates hv)),
     ComRates (map (fun r => npv r c_tot) (com_timeprefs_rates hv))) /\
  forall flows, (forall v, In v flows -> 0 <= v) ->
    StronglySorted Qle (map (fun r => npv r flows) (com_timeprefs_rates hv)).
Proof.
  intros Hrates Hsorted. split.
  - unfold com_unit_costs.
    assert (E : forall l : list (Q * Q * Q),
               existsb (fun t : Q * Q * Q =>
                          let '(s, e, c) := t in
                          nonfinite s || nonfinite e || nonfinite c) l
               = false).
    { induction l as [|[[s e] c] l IH]; [reflexivity|].
      cbn [existsb]. rewrite IH. reflexivity. }
    rewrite E, !map_map. reflexivity.
  - intros flows Hpos. now apply npv_tiers_ascending.
Qed.

Lemma handyvars_exact_rates :
  (forall r, In r (com_timeprefs_rates FinanceData.handyvars_exact) ->
             0 < 1 + r) /\
  StronglySorted (fun a b => b <= a)
    (com_timeprefs_rates FinanceData.handyvars_exact).
Proof.
  split.
  - intros r Hr. cbn in Hr.
    repeat (destruct Hr as [<-|Hr]; [reflexivity|]). contradiction.
  - cbn. repeat (constructor; [|repeat constructor; discriminate]).
    constructor.
Qed.

(** The seven tiers of [UsefulVars] and the total stock cost flows of a
    measure that costs 25 and avoids a baseline purchase of 5 in its
    second year. *)
Lemma com_unit_costs_ascending_witness :
  let hv := FinanceData.handyvars_exact in
  com_unit_costs hv [25; 0; 5] [0; 4; 4] [0; 1; 1]
  = (ComRates (map (fun r => npv r [25; 0; 5]) (com_timeprefs_rates hv)),
     ComRates (map (fun r => npv r [0; 4; 4]) (com_timeprefs_rates hv)),
     ComRates (map (fun r => npv r [0; 1; 1]) (com_timeprefs_rates hv))) /\
  forall flows, (forall v, In v flows -> 0 <= v) ->
    StronglySorted Qle (map (fun r => npv r flows) (com_timeprefs_rates hv)).
Proof.
  apply (com_unit_costs_ascending FinanceData.handyvars_exact
           [25; 0; 5] [0; 4; 4] [0; 1; 1]).
  - exact (proj1 handyvars_exact_rates).
  - exact (proj2 handyvars_exact_rates).
Defined.

End MetricFacts.

(** ** More on the competition adjustment *)

Module AdjustFacts.

Import Finance FinanceFacts Competition CompetitionFacts.

Local Open Scope Q_scope.

(** *** What [compete_adj] leaves alone *)

Ltac open_compete_adj H :=
  unfold compete_adj in H;
  match type of H with
  | context [Finance.Z_in ?y ?l] =>
      destruct (Finance.Z_in y l);
      [cbn [bind] in H | discriminate H]
  end;
  match type of H with
  | context [weighted_share ?a ?b ?c ?d ?e ?f ?g ?h ?i] =>
      destruct (weighted_share a b c d e f g h i) as [adj_frac_tot|];
      [cbn [bind] in H | discriminate H]
  end;
  match type of H with
  | context [record_secondary ?a ?b ?c ?d ?e ?f] =>
      destruct (record_secondary a b c d e f) as [secnd|];
      [cbn [bind] in H | discriminate H]
  end;
  cbv zeta in H; injection H as <-.

(** [compete_adj] writes the year it is called on and no other: in every
    other year the master microsegment, the contributing microsegment and
    the three breakout dicts hold what they held before. *)
Theorem compete_adj_other_years (years : list year)
    (adj_fracs added_sbmkt_fracs : year -> Q) (st st' : adj_state)
    (yr : year) (mseg_key secnd_mseg_adjkey adopt_scheme : string)
    (mkt_entry_yrs : list Z) (base_turnover_rt eff_turnover_rt : year -> Q)
    (y : year) :
  compete_adj years adj_fracs added_sbmkt_fracs st yr mseg_key
    secnd_mseg_adjkey adopt_scheme mkt_entry_yrs base_turnover_rt
    eff_turnover_rt = Ok st' ->
  y <> yr ->
  (forall r s x, vals (mast st') r s x y = vals (mast st) r s x y) /\
  (forall r s x, vals (adj st') r s x y = vals (adj st) r s x y) /\
  (forall s, stock_measure (mast st') s y = stock_measure (mast st) s y) /\
  (forall s, stock_measure (adj st') s y = stock_measure (adj st) s y) /\
  mast_brk_base st' y = mast_brk_base st y /\
  mast_brk_eff st' y = mast_brk_eff st y /\
  mast_brk_save st' y = mast_brk_save st y.
Proof.
  intros Hret Hy. open_compete_adj Hret.
  assert (E : (y =? yr)%Z = false) by (apply Z.eqb_neq; exact Hy).
  repeat split;
    try (intros r s x; destruct r, s, x);
    try (intros s; destruct s);
    cbn; unfold upd; rewrite ?E; reflexivity.
Qed.

Lemma compete_adj_other_years_witness :
  exists st',
    compete_adj Samples.aeo_years (fun _ => 1 # 2) (fun _ => 0)
      Samples.adj_state0 2016%Z Samples.existing_key
      "('AIA_CZ1', 'single family home', 'existing')"
      "Max adoption potential" [2015]%Z (fun _ => 1 # 10) (fun _ => 0)
    = Ok st' /\
    (forall r s x,
        vals (mast st') r s x 2017%Z
        = vals (mast Samples.adj_state0) r s x 2017%Z) /\
    (forall r s x,
        vals (adj st') r s x 2017%Z
        = vals (adj Samples.adj_state0) r s x 2017%Z) /\
    (forall s, stock_measure (mast st') s 2017%Z
               = stock_measure (mast Samples.adj_state0) s 2017%Z) /\
    (forall s, stock_measure (adj st') s 2017%Z
               = stock_measure (adj Samples.adj_state0) s 2017%Z) /\
    mast_brk_base st' 2017%Z = mast_brk_base Samples.adj_state0 2017%Z /\
    mast_brk_eff st' 2017%Z = mast_brk_eff Samples.adj_state0 2017%Z /\
    mast_brk_save st' 2017%Z = mast_brk_save Samples.adj_state0 2017%Z.
Proof.
  eexists. split; [reflexivity|].
  apply (compete_adj_other_years Samples.aeo_years (fun _ => 1 # 2)
           (fun _ => 0) Samples.adj_state0 _ 2016%Z Samples.existing_key
           "('AIA_CZ1', 'single family home', 'existing')"
           "Max adoption potential" [2015]%Z (fun _ => 1 # 10) (fun _ => 0)
           2017%Z).
  - reflexivity.
  - discriminate.
Defined.

(** *** The breakouts stay consistent *)

(** [compete_adj] keeps the savings breakout equal to the baseline
    breakout minus the efficient one: if that holds in every year before
    the call, it holds in every year after it. *)
Theorem compete_adj_breakout_savings (years : list year)
    (adj_fracs added_sbmkt_fracs : year -> Q) (st st' : adj_state)
    (yr : year) (mseg_key secnd_mseg_adjkey adopt_scheme : string)
    (mkt_entry_yrs : list Z) (base_turnover_rt eff_turnover_rt : year -> Q) :
  compete_adj years adj_fracs added_sbmkt_fracs st yr mseg_key
    secnd_mseg_adjkey adopt_scheme mkt_entry_yrs base_turnover_rt
    eff_turnover_rt = Ok st' ->
  (forall y, mast_brk_save st y == mast_brk_base st y - mast_brk_eff st y) ->
  forall y,
    mast_brk_save st' y == mast_brk_base st' y - mast_brk_eff st' y.
Proof.
  intros Hret Hinv y. open_compete_adj Hret.
  cbn. unfold upd. specialize (Hinv y).
  destruct (y =? yr)%Z eqn:E; [|exact Hinv].
  apply Z.eqb_eq in E. subst y. rewrite Hinv. ring.
Qed.

Lemma compete_adj_breakout_savings_witness :
  exists st',
    compete_adj Samples.aeo_years (fun _ => 1 # 2) (fun _ => 0)
      Samples.adj_state0 2016%Z Samples.existing_key
      "('AIA_CZ1', 'single family home', 'existing')"
      "Max adoption potential" [2015]%Z (fun _ => 1 # 10) (fun _ => 0)
    = Ok st' /\
    forall y,
      mast_brk_save st' y == mast_brk_base st' y - mast_brk_eff st' y.
Proof.
  eexists. split; [reflexivity|].
  apply (compete_adj_breakout_savings Samples.aeo_years (fun _ => 1 # 2)
           (fun _ => 0) Samples.adj_state0 _ 2016%Z Samples.existing_key
           "('AIA_CZ1', 'single family home', 'existing')"
           "Max adoption potential" [2015]%Z (fun _ => 1 # 10) (fun _ => 0)).
  - reflexivity.
  - intros y. reflexivity.
Defined.

(** *** The weighted total share *)

Lemma insert_year_In (x y : year) (l : list year) :
  In x (insert_year y l) <-> x = y \/ In x l.
Proof.
  induction l as [|z l IH]; simpl; [intuition|].
  destruct (y <=? z)%Z; simpl; [intuition|].
  rewrite IH. intuition.
Qed.

Lemma sorted_years_In (x : year) (l : list year) :
  In x (sorted_years l) <-> In x l.
Proof.
  induction l as [|y l IH]; simpl; [reflexivity|].
  rewrite insert_year_In, IH. intuition.
Qed.

Lemma insert_year_sorted (y : year) (l : list year) :
  StronglySorted Z.le l -> StronglySorted Z.le (insert_year y l).
Proof.
  induction 1 as [|z l Hl IH Hz]; simpl.
  - repeat constructor.
  - destruct (Z.leb_spec y z).
    + constructor; [now constructor|].
      constructor; [assumption|].
      apply Forall_forall. intros x Hx.
      pose proof (proj1 (Forall_forall _ _) Hz x Hx). lia.
    + constructor; [exact IH|].
      apply Forall_forall. intros x Hx. apply insert_year_In in Hx.
      destruct Hx as [->|Hx]; [lia|].
      exact (proj1 (Forall_forall _ _) Hz x Hx).
Qed.

Lemma sorted_years_sorted (l : list year) :
  StronglySorted Z.le (sorted_years l).
Proof.
  induction l as [|y l IH]; simpl; [constructor|].
  now apply insert_year_sorted.
Qed.

Lemma last_cons (rest : list year) (w d : year) :
  last (w :: rest) d = last rest w.
Proof.
  revert w d. induction rest as [|x r IH]; intros w d; [reflexivity|].
  change (last (w :: x :: r) d) with (last (x :: r) d).
  now rewrite (IH x d), (IH x w).
Qed.

(** The last of an ascending list that holds its own upper bound. *)
Lemma sorted_last_bound (l : list year) (d yr : year) :
  StronglySorted Z.le l -> In yr l -> (forall x, In x l -> (x <= yr)%Z) ->
  last l d = yr.
Proof.
  induction l as [|a l IH]; intros Hs Hin Hle; [contradiction|].
  destruct l as [|b l'].
  - destruct Hin as [->|[]]. reflexivity.
  - change (last (a :: b :: l') d) with (last (b :: l') d).
    inversion Hs as [|? ? Hs' Hall]; subst.
    apply IH; [exact Hs' | | intros x Hx; apply Hle; now right].
    destruct Hin as [->|Hin]; [|exact Hin].
    pose proof (proj1 (Forall_forall _ _) Hall b (or_introl eq_refl)).
    assert (b <= yr)%Z by (apply Hle; simpl; auto).
    left. lia.
Qed.

Lemma sorted_last (w : year) (rest : list year) (yr : year) :
  StronglySorted Z.le (w :: rest) -> In yr (w :: rest) ->
  (forall x, In x (w :: rest) -> (x <= yr)%Z) ->
  last rest w = yr.
Proof.
  intros Hs Hin Hle. rewrite <- (last_cons rest w 0%Z).
  now apply sorted_last_bound.
Qed.

Lemma weighting_loop_technical_potential (new_segment : bool)
    (adj_fracs added_sbmkt_fracs base_turnover_rt eff_turnover_rt : year -> Q)
    (rest : list year) (w : year) (eff_frac_map base_frac_map : Q) :
  weighting_loop true new_segment adj_fracs added_sbmkt_fracs
    base_turnover_rt eff_turnover_rt rest
    (adj_fracs w + added_sbmkt_fracs w) eff_frac_map base_frac_map
  = adj_fracs (last rest w) + added_sbmkt_fracs (last rest w).
Proof.
  revert w. induction rest as [|x rest IH]; intros w; cbn [weighting_loop].
  - reflexivity.
  - rewrite IH. now rewrite <- (last_cons rest x w).
Qed.

(** Under the technical potential scheme the weighted total share of
    [compete_adj] is the competed share of the year itself, capped at 1:
    neither the shares of earlier years nor the turnover rates enter. *)
Theorem weighted_share_technical_potential (years : list year)
    (adj_fracs added_sbmkt_fracs : year -> Q) (yr : year)
    (mseg_key : string) (mkt_entry_yrs : list Z)
    (base_turnover_rt eff_turnover_rt : year -> Q) :
  mkt_entry_yrs <> [] -> In yr years ->
  let adj_frac_comp := adj_fracs yr + added_sbmkt_fracs yr in
  weighted_share years adj_fracs added_sbmkt_fracs yr mseg_key
    "Technical potential" mkt_entry_yrs base_turnover_rt eff_turnover_rt
  = Ok (if Qltb 1 adj_frac_comp then 1 else adj_frac_comp).
Proof.
  intros Hentry Hyr adj_frac_comp. unfold weighted_share.
  destruct mkt_entry_yrs as [|e es]; [congruence|]. cbn [py_min bind].
  set (entry := fold_left Z.min es e).
  destruct (yr <? entry)%Z eqn:Hlt; [reflexivity|].
  apply Z.ltb_ge in Hlt.
  set (ws := sorted_years
               (filter (fun x => (x <=? yr)%Z && (entry <=? x)%Z) years)).
  assert (Hin : forall x, In x ws <-> In x years /\ (entry <= x <= yr)%Z).
  { intros x. unfold ws. rewrite sorted_years_In, filter_In.
    rewrite andb_true_iff, !Z.leb_le. intuition. }
  assert (Hws : In yr ws) by (apply Hin; split; [exact Hyr | lia]).
  pose proof (sorted_years_sorted
                (filter (fun x => (x <=? yr)%Z && (entry <=? x)%Z) years))
    as Hsorted.
  fold ws in Hsorted.
  destruct ws as [|w rest]; [contradiction|]. cbn [bind].
  change (String.eqb "Technical potential" "Technical potential") with true.
  rewrite weighting_loop_technical_potential.
  rewrite (sorted_last w rest yr Hsorted Hws).
  - reflexivity.
  - intros x Hx. apply Hin in Hx. lia.
Qed.

Lemma weighted_share_technical_potential_witness :
  weighted_share Samples.aeo_years (fun y => inject_Z (y - 2014) / 4)
    (fun _ => 0) 2016%Z Samples.existing_key "Technical potential"
    [2015]%Z (fun _ => 1 # 10) (fun _ => 0)
  = Ok (if Qltb 1 (inject_Z (2016 - 2014) / 4 + 0) then 1
        else inject_Z (2016 - 2014) / 4 + 0).
Proof.
  apply (weighted_share_technical_potential Samples.aeo_years
           (fun y => inject_Z (y - 2014) / 4) (fun _ => 0) 2016%Z
           Samples.existing_key [2015]%Z (fun _ => 1 # 10) (fun _ => 0)).
  - discriminate.
  - simpl. auto.
Defined.

(** The moving average over the years since market entry, for an
    existing-stock segment: the captured and remaining stock fractions sum
    to 1, the weight of a year lies between 0 and 1, and so the weighted
    share is never negative. *)
Lemma weighting_loop_nonneg (technical_potential : bool)
    (adj_fracs added_sbmkt_fracs base_turnover_rt eff_turnover_rt : year -> Q)
    (rest : list year) :
  (forall y, 0 <= adj_fracs y + added_sbmkt_fracs y) ->
  (forall y, 0 <= base_turnover_rt y) ->
  (forall y, 0 <= eff_turnover_rt y <= 1) ->
  forall adj_frac_tot eff_frac_map base_frac_map,
    0 <= adj_frac_tot -> 0 <= eff_frac_map <= 1 ->
    base_frac_map == 1 - eff_frac_map ->
    0 <= weighting_loop technical_potential false adj_fracs added_sbmkt_fracs
           base_turnover_rt eff_turnover_rt rest adj_frac_tot eff_frac_map
           base_frac_map.
Proof.
  intros Hshare Hbase Heff.
  induction rest as [|wyr rest IH];
    intros tot eff base Htot Hefm Hbfm; cbn [weighting_loop].
  - exact Htot.
  - destruct technical_potential.
    + apply IH; auto.
    + pose proof (Hshare wyr) as Hs. pose proof (Hbase wyr) as Hb.
      pose proof (Heff wyr) as He.
      assert (Hew : 0 <= eff_turnover_rt wyr * eff <= eff) by nra.
      destruct (Qltb (base_turnover_rt wyr) base) eqn:E1;
        [apply Qltb_true in E1 | apply Qltb_false in E1];
        (destruct (Qltb (eff + base_turnover_rt wyr) 1) eqn:E2;
         [apply Qltb_true in E2 | apply Qltb_false in E2]);
        apply IH; try lra; try nra.
Qed.

(** For an existing-stock segment the weighted total share of
    [compete_adj] lies between 0 and 1 under either adoption scheme,
    whenever the competed shares are not negative, the baseline turnover
    rates are not negative and the measure turnover rates lie between 0
    and 1. *)
Theorem weighted_share_bounded (years : list year)
    (adj_fracs added_sbmkt_fracs : year -> Q) (yr : year)
    (mseg_key adopt_scheme : string) (mkt_entry_yrs : list Z)
    (base_turnover_rt eff_turnover_rt : year -> Q) (share : Q) :
  contains "new" mseg_key = false ->
  (forall y, 0 <= adj_fracs y + added_sbmkt_fracs y) ->
  (forall y, 0 <= base_turnover_rt y) ->
  (forall y, 0 <= eff_turnover_rt y <= 1) ->
  weighted_share years adj_fracs added_sbmkt_fracs yr mseg_key adopt_scheme
    mkt_entry_yrs base_turnover_rt eff_turnover_rt = Ok share ->
  0 <= share <= 1.
Proof.
  intros Hexisting Hshare Hbase Heff. unfold weighted_share.
  destruct (py_min mkt_entry_yrs) as [entry|]; [|discriminate].
  cbn [bind]. rewrite Hexisting.
  assert (Hcap : forall t, 0 <= t -> 0 <= (if Qltb 1 t then 1 else t) <= 1).
  { intros t Ht. destruct (Qltb 1 t) eqn:E; [lra|].
    apply Qltb_false in E. lra. }
  destruct (yr <? entry)%Z.
  - cbn [bind]. intros [= <-]. apply Hcap, Hshare.
  - destruct (sorted_years _) as [|wyr rest]; [discriminate|].
    cbn [bind]. intros [= <-]. apply Hcap.
    apply weighting_loop_nonneg; auto; lra.
Qed.

Lemma weighted_share_bounded_witness :
  exists share,
    weighted_share Samples.aeo_years (fun _ => 1 # 2) (fun _ => 0) 2017%Z
      Samples.existing_key "Max adoption potential" [2015]%Z
      (fun _ => 1 # 10) (fun _ => 1 # 20) = Ok share /\
    0 <= share <= 1.
Proof.
  eexists. split; [reflexivity|].
  apply (weighted_share_bounded Samples.aeo_years (fun _ => 1 # 2)
           (fun _ => 0) 2017%Z Samples.existing_key "Max adoption potential"
           [2015]%Z (fun _ => 1 # 10) (fun _ => 1 # 20)).
  - vm_compute. reflexivity.
  - intros y. vm_compute. discriminate.
  - intros y. vm_compute. discriminate.
  - intros y. split; vm_compute; discriminate.
  - reflexivity.
Defined.

(** *** When [compete_adj] raises *)

(** With the four dicts of the secondary-adjustment record keyed alike,
    [compete_adj] raises in two cases only: [KeyError] from
    [adj_fracs[yr]], its first statement, when the year is not a key of
    the shares, and [ValueError] from [min] when the year is a key and the
    list of market entry years is empty.  Otherwise it returns: once the
    year is a key, the weighting loop runs at least once, so the share is
    never read unassigned. *)
Theorem compete_adj_outcome (years : list year)
    (adj_fracs added_sbmkt_fracs : year -> Q) (st : adj_state) (yr : year)
    (mseg_key secnd_mseg_adjkey adopt_scheme : string)
    (mkt_entry_yrs : list Z) (base_turnover_rt eff_turnover_rt : year -> Q) :
  same_keys (secnd_adj_mktshr st) ->
  match compete_adj years adj_fracs added_sbmkt_fracs st yr mseg_key
          secnd_mseg_adjkey adopt_scheme mkt_entry_yrs base_turnover_rt
          eff_turnover_rt with
  | Ok _ => In yr years /\ mkt_entry_yrs <> []
  | Raise e =>
      (~ In yr years /\ e = KeyError) \/
      (In yr years /\ mkt_entry_yrs = [] /\ e = ValueError)
  end.
Proof.
  intros Hkeys. unfold compete_adj.
  destruct (Finance.Z_in yr years) eqn:Hkey.
  - apply Z_in_In in Hkey. cbn [bind].
    destruct mkt_entry_yrs as [|e0 es].
    + cbn. right. auto.
    + destruct (weighted_share_returns years adj_fracs added_sbmkt_fracs yr
                  mseg_key adopt_scheme (e0 :: es) base_turnover_rt
                  eff_turnover_rt ltac:(discriminate) Hkey)
        as [share Hshare].
      rewrite Hshare. cbn [bind].
      destruct (record_secondary_returns (secnd_adj_mktshr st)
                  secnd_mseg_adjkey yr (adj st) share
                  (adj_fracs yr + added_sbmkt_fracs yr) Hkeys)
        as [secnd Hsecnd].
      rewrite Hsecnd. cbn [bind]. split; [exact Hkey | discriminate].
  - cbn [bind]. left. split; [|reflexivity].
    intros Hin. apply Z_in_In in Hin. congruence.
Qed.

Lemma compete_adj_outcome_witness :
  match compete_adj [2015]%Z (fun _ => 1 # 2) (fun _ => 0)
          Samples.adj_state0 2017%Z Samples.existing_key
          "('AIA_CZ1', 'single family home', 'existing')"
          "Max adoption potential" [2016]%Z (fun _ => 1 # 10) (fun _ => 0)
  with
  | Ok _ => In 2017%Z [2015]%Z /\ [2016]%Z <> []
  | Raise e =>
      (~ In 2017%Z [2015]%Z /\ e = KeyError) \/
      (In 2017%Z [2015]%Z /\ [2016]%Z = [] /\ e = ValueError)
  end.
Proof.
  apply (compete_adj_outcome [2015]%Z (fun _ => 1 # 2) (fun _ => 0)
           Samples.adj_state0 2017%Z Samples.existing_key
           "('AIA_CZ1', 'single family home', 'existing')"
           "Max adoption potential" [2016]%Z (fun _ => 1 # 10) (fun _ => 0)).
  repeat split.
Defined.

End AdjustFacts.

(** ** More on the market shares *)

Module ShareFacts.

Import Finance FinanceFacts Competition CompetitionFacts.

Local Open Scope Q_scope.

(** *** Sums over two lists *)

Lemma Qsum_nil : Qsum [] == 0.
Proof. reflexivity. Qed.

Lemma Qsum_map_add {X : Type} (f g : X -> Q) (l : list X) :
  Qsum (map (fun x => f x + g x) l) == Qsum (map f l) + Qsum (map g l).
Proof.
  induction l as [|x l IH]; cbn [map].
  - rewrite Qsum_nil. ring.
  - rewrite !Qsum_cons, IH. ring.
Qed.

Lemma Qsum_swap {X Y : Type} (f : X -> Y -> Q) (l1 : list X) (l2 : list Y) :
  Qsum (map (fun x => Qsum (map (f x) l2)) l1)
  == Qsum (map (fun y => Qsum (map (fun x => f x y) l1)) l2).
Proof.
  induction l1 as [|x l1 IH]; cbn [map].
  - rewrite Qsum_nil. rewrite (Qsum_map_ext _ (fun _ => 0)).
    + rewrite Qsum_map_const. ring.
    + intros y _. reflexivity.
  - rewrite Qsum_cons, IH, <- Qsum_map_add.
    apply Qsum_map_ext. intros y _. now rewrite Qsum_cons.
Qed.

Lemma Qsum_pointwise {X Y : Type} (f : X -> Q) (g : Y -> Q)
    (l1 : list X) (l2 : list Y) :
  length l1 = length l2 ->
  (forall i a b, nth_error l1 i = Some a -> nth_error l2 i = Some b ->
                 f a == g b) ->
  Qsum (map f l1) == Qsum (map g l2).
Proof.
  revert l2. induction l1 as [|a l1 IH]; intros [|b l2] Hlen Hfg;
    try discriminate; cbn [map]; [reflexivity|].
  rewrite !Qsum_cons, (Hfg 0%nat a b eq_refl eq_refl), (IH l2).
  - reflexivity.
  - simpl in Hlen. lia.
  - intros i a' b' Ha Hb. exact (Hfg (S i) a' b' Ha Hb).
Qed.

Lemma map_nth_seq (l : list Q) :
  map (fun j => nth j l 0) (seq 0 (length l)) = l.
Proof.
  induction l as [|x l IH]; [reflexivity|].
  cbn [length seq map nth]. f_equal.
  rewrite <- seq_shift, map_map. exact IH.
Qed.

Lemma inject_nat_nonzero (n : nat) :
  n <> 0%nat -> ~ inject_Z (Z.of_nat n) == 0.
Proof.
  intros Hn Hz. apply Hn.
  assert (E : Z.of_nat n = 0%Z).
  { unfold Qeq in Hz. simpl in Hz. lia. }
  lia.
Qed.

(** *** What the sub-market redistribution hands out *)

Lemma find_added_sbmkt_fracs_length (measures_adj : list sbmkt_measure) :
  length (find_added_sbmkt_fracs measures_adj) = length measures_adj.
Proof.
  unfold find_added_sbmkt_fracs. destruct (forallb _ _).
  - apply length_map.
  - now rewrite length_map, length_seq.
Qed.

(** With shares that are not negative and a measure that applies to the
    full segment, the weights of a year sum to 1. *)
Lemma distrib_weight_total (measures_adj : list sbmkt_measure) (yr : year) :
  (forall m, In m measures_adj -> 0 <= mkt_frac m yr) ->
  (exists m, In m measures_adj /\ full_segment m = true) ->
  Qsum (map (distrib_weight measures_adj yr) measures_adj) == 1.
Proof.
  intros Hpos [e [He Hfull]].
  assert (Hel : In e (filter full_segment measures_adj))
    by (apply filter_In; auto).
  unfold distrib_weight. cbv zeta.
  set (eligible := filter full_segment measures_adj) in *.
  set (total :=
         Qsum (map (fun e0 => if full_segment e0 then mkt_frac e0 yr else 0)
                   measures_adj)).
  assert (Hk : length eligible <> 0%nat)
    by (destruct eligible; [contradiction | discriminate]).
  destruct (forallb (fun e0 => Qeq_bool (mkt_frac e0 yr) 0) eligible)
    eqn:Hzero.
  - destruct (Nat.eqb_spec (length eligible) 0) as [|_]; [contradiction|].
    rewrite (Qsum_filter full_segment
               (fun _ => 1 / inject_Z (Z.of_nat (length eligible)))).
    fold eligible. rewrite Qsum_map_const. field.
    now apply inject_nat_nonzero.
  - assert (Htotal : 0 < total).
    { assert (Hex : exists x, In x eligible /\ ~ mkt_frac x yr == 0).
      { destruct (existsb (fun e0 => negb (Qeq_bool (mkt_frac e0 yr) 0))
                          eligible) eqn:Hex.
        - apply existsb_exists in Hex. destruct Hex as [x [Hx Hnz]].
          exists x. split; [exact Hx|]. intros Hz.
          apply Qeq_bool_iff in Hz. rewrite Hz in Hnz. discriminate.
        - exfalso. rewrite <- Bool.not_true_iff_false in Hzero.
          apply Hzero, forallb_forall. intros x Hx.
          pose proof (existsb_false_forall _ _ Hex x Hx) as Hn.
          now apply negb_false_iff in Hn. }
      destruct Hex as [x [Hx Hnz]].
      apply filter_In in Hx. destruct Hx as [Hx Hxfull].
      assert (0 <= mkt_frac x yr) by (apply Hpos; exact Hx).
      assert (Hmem : mkt_frac x yr <= total).
      { unfold total. apply Qsum_ge_member.
        - intros y Hy. apply in_map_iff in Hy. destruct Hy as [m [<- Hm]].
          destruct (full_segment m); [now apply Hpos | lra].
        - apply in_map_iff. exists x. rewrite Hxfull. auto. }
      destruct (Qeq_dec (mkt_frac x yr) 0); [contradiction | lra]. }
    assert (E : Qeq_bool total 0 = false).
    { destruct (Qeq_bool total 0) eqn:E0; [|reflexivity].
      apply Qeq_bool_iff in E0. lra. }
    rewrite E. cbn [negb].
    rewrite (Qsum_map_ext _
               (fun m => (if full_segment m then mkt_frac m yr else 0)
                         * / total))
      by (intros; reflexivity).
    rewrite Qsum_map_scale. fold total. field. lra.
Qed.

(** The added fractions of a year sum to the uncaptured portion of the
    segment, [sum of (1 - scaling) * share], whenever the shares are not
    negative and some measure applies to the full segment: what the
    measures with a sub-market leave unserved is handed out in full. *)
Theorem find_added_sbmkt_fracs_total (measures_adj : list sbmkt_measure)
    (yr : year) :
  (forall m, In m measures_adj -> 0 <= mkt_frac m yr) ->
  (exists m, In m measures_adj /\ full_segment m = true) ->
  Qsum (map (fun added : year -> Q => added yr)
            (find_added_sbmkt_fracs measures_adj))
  == uncaptured measures_adj yr.
Proof.
  intros Hpos Hfull.
  rewrite (Qsum_pointwise (fun added : year -> Q => added yr)
             (fun m => distrib_weight measures_adj yr m
                       * uncaptured measures_adj yr)
             (find_added_sbmkt_fracs measures_adj) measures_adj).
  - rewrite Qsum_map_scale, distrib_weight_total by assumption. ring.
  - apply find_added_sbmkt_fracs_length.
  - intros i a m Ha Hm.
    destruct (find_added_sbmkt_fracs_nth measures_adj yr i m Hm)
      as [added [Hadded Heq]].
    rewrite Ha in Hadded. injection Hadded as <-. rewrite Heq. ring.
Qed.

(** The measure that serves 60% of its segment and the one that serves
    all of it, each with half of the market: 0.4 * 0.5 is handed out. *)
Lemma find_added_sbmkt_fracs_total_witness :
  Qsum (map (fun added : year -> Q => added 2015%Z)
            (find_added_sbmkt_fracs
               [Samples.partial_measure; Samples.full_measure]))
  == uncaptured [Samples.partial_measure; Samples.full_measure] 2015%Z.
Proof.
  apply (find_added_sbmkt_fracs_total
           [Samples.partial_measure; Samples.full_measure] 2015%Z).
  - intros m [<-|[<-|[]]]; vm_compute; discriminate.
  - exists Samples.full_measure. split; [simpl; auto | reflexivity].
Defined.

(** *** The commercial shares of a year *)

Lemma filter_nil_existsb {X : Type} (p : X -> bool) (l : list X) :
  filter p l = [] -> existsb p l = false.
Proof.
  induction l as [|x l IH]; simpl; [reflexivity|].
  destruct (p x); [discriminate | exact IH].
Qed.

Lemma filter_cons_existsb {X : Type} (p : X -> bool) (l : list X) :
  filter p l <> [] -> existsb p l = true.
Proof.
  induction l as [|x l IH]; simpl; [congruence|].
  destruct (p x); [reflexivity | exact IH].
Qed.

Section Bins.

Import Shares.

Variable measures_adj : list com_measure.
Variable yr : year.
Variable dist : list Q.

Hypothesis bins :
  forall x, In x (competing measures_adj yr) ->
    length (tot_cost x yr) = length dist /\ rate_distribution x yr = dist.

Lemma com_mkt_frac_on_mkt (m : com_measure) :
  In m (competing measures_adj yr) ->
  com_mkt_frac measures_adj m yr
  = Ok (Qsum (map (bin_won measures_adj yr dist m) (seq 0 (length dist)))).
Proof.
  intros Hm. destruct (bins m Hm) as [Hlen Hdist].
  assert (Hon : com_on_mkt yr m = true)
    by (apply filter_In in Hm; tauto).
  unfold com_mkt_frac. rewrite Hon, <- Hlen.
  rewrite (collect_enumerate _ (bin_won measures_adj yr dist m));
    [reflexivity|].
  intros i dr Hdr. cbn [Nat.add fst snd].
  assert (Hi : (i < length (tot_cost m yr))%nat)
    by (apply nth_error_Some; congruence).
  assert (Hown : nth i (tot_cost m yr) 0 = dr) by (now apply nth_error_nth).
  unfold bin_share. fold (competing measures_adj yr).
  rewrite (collect_map _ (fun x => nth i (tot_cost x yr) 0)).
  2:{ intros x Hx. apply index_nth. destruct (bins x Hx) as [Hx_len _].
      lia. }
  cbn [bind]. fold (bin_costs measures_adj yr i).
  assert (Hne : bin_costs measures_adj yr i <> []).
  { unfold bin_costs. destruct (competing measures_adj yr);
      [contradiction | discriminate]. }
  destruct (Qmin_py_spec (bin_costs measures_adj yr i) Hne) as [r [Hr _]].
  assert (Hlow : lowest_cost measures_adj yr i = r)
    by (unfold lowest_cost; now rewrite Hr).
  rewrite Hr. cbn [bind]. unfold bin_won, winners. rewrite Hown, Hlow.
  destruct (Qeq_bool dr r); [|reflexivity].
  rewrite Hdist, (index_nth dist i 0) by lia. reflexivity.
Qed.

Lemma bin_handed_out (j : nat) :
  competing measures_adj yr <> [] ->
  Qsum (map (fun m => bin_won measures_adj yr dist m j)
            (competing measures_adj yr))
  == nth j dist 0.
Proof.
  intros Hne.
  assert (Hcosts : bin_costs measures_adj yr j <> []).
  { unfold bin_costs. destruct (competing measures_adj yr);
      [congruence | discriminate]. }
  destruct (Qmin_py_spec (bin_costs measures_adj yr j) Hcosts)
    as [r [Hr [Hin _]]].
  assert (Hlow : lowest_cost measures_adj yr j = r)
    by (unfold lowest_cost; now rewrite Hr).
  assert (Hmap :
    map (fun m => bin_won measures_adj yr dist m j)
        (competing measures_adj yr)
    = map (fun c => if Qeq_bool c r
                    then nth j dist 0
                         / inject_Z (Z.of_nat (winners measures_adj yr j))
                    else 0) (bin_costs measures_adj yr j)).
  { unfold bin_costs. rewrite map_map. apply map_ext. intros m.
    unfold bin_won. now rewrite Hlow. }
  rewrite Hmap.
  rewrite (Qsum_filter (fun c => Qeq_bool c r)
             (fun _ => nth j dist 0
                       / inject_Z (Z.of_nat (winners measures_adj yr j)))).
  rewrite Qsum_map_const. unfold winners. rewrite Hlow.
  field. apply inject_nat_nonzero.
  assert (Hmem : In r (filter (fun c => Qeq_bool c r)
                              (bin_costs measures_adj yr j))).
  { apply filter_In. split; [exact Hin|]. now apply Qeq_bool_iff. }
  destruct (filter _ (bin_costs measures_adj yr j));
    [contradiction | discriminate].
Qed.

(** The commercial market shares of a year.  When the measures on the
    market in a year share the distribution of adopters over the
    discount-rate bins and have a cost for every bin, the shares of all the
    competing measures sum to the total of that distribution (1 for the
    distributions of [UsefulVars]): every bin is handed out in full, split
    among the measures tied at its lowest cost.  When no measure is on the
    market, the shares are [1 / len(measures_adj)] each and sum to 1. *)
Theorem com_mkt_fracs_total :
  measures_adj <> [] ->
  exists shares,
    collect (fun m => com_mkt_frac measures_adj m yr) measures_adj
    = Ok shares /\
    Qsum shares == match competing measures_adj yr with
                   | [] => 1
                   | _ :: _ => Qsum dist
                   end.
Proof.
  intros Hmeasures.
  assert (Hyears :
    Finance.Z_in yr (unique_years (flat_map com_yrs_on_mkt measures_adj))
    = existsb (com_on_mkt yr) measures_adj)
    by apply unique_years_flat_map.
  assert (Hcase : forall l : list com_measure,
             l = [] \/ (l <> [] /\
                        match l with [] => 1 | _ :: _ => Qsum dist end
                        = Qsum dist)).
  { intros [|x l]; [now left | right; split; [discriminate | reflexivity]]. }
  destruct (Hcase (competing measures_adj yr)) as [Hcomp | [Hne ->]].
  - rewrite Hcomp.
    assert (Hnone : existsb (com_on_mkt yr) measures_adj = false)
      by (now apply filter_nil_existsb).
    exists (map (fun _ => 1 / inject_Z (Z.of_nat (length measures_adj)))
                measures_adj).
    split.
    + apply collect_map. intros m Hm. unfold com_mkt_frac.
      rewrite (existsb_false_forall _ _ Hnone m Hm).
      now rewrite Hyears, Hnone.
    + rewrite Qsum_map_const. field. apply inject_nat_nonzero.
      destruct measures_adj; [congruence | discriminate].
  - assert (Hsome : existsb (com_on_mkt yr) measures_adj = true)
      by (apply filter_cons_existsb; exact Hne).
    exists (map (fun m =>
                   if com_on_mkt yr m
                   then Qsum (map (bin_won measures_adj yr dist m)
                                  (seq 0 (length dist)))
                   else 0) measures_adj).
    split.
    + apply collect_map. intros m Hm.
      destruct (com_on_mkt yr m) eqn:Hon.
      * apply com_mkt_frac_on_mkt. apply filter_In. auto.
      * unfold com_mkt_frac.
        now rewrite Hon, Hyears, Hsome.
    + rewrite (Qsum_filter (com_on_mkt yr)
                 (fun m => Qsum (map (bin_won measures_adj yr dist m)
                                     (seq 0 (length dist))))).
      fold (competing measures_adj yr). rewrite Qsum_swap.
      rewrite (Qsum_map_ext _ (fun j => nth j dist 0)).
      * now rewrite map_nth_seq.
      * intros j _. now apply bin_handed_out.
Qed.

End Bins.

(** The two sample measures: the first wins the first bin and they tie
    in the second; their shares sum to 3/5 + 2/5. *)
Lemma com_mkt_fracs_total_witness :
  exists shares,
    collect (fun m => com_mkt_frac [Samples.com_a; Samples.com_b] m 2015%Z)
            [Samples.com_a; Samples.com_b] = Ok shares /\
    Qsum shares
    == match Shares.competing [Samples.com_a; Samples.com_b] 2015%Z with
       | [] => 1
       | _ :: _ => Qsum [3 # 5; 2 # 5]
       end.
Proof.
  apply (com_mkt_fracs_total [Samples.com_a; Samples.com_b] 2015%Z
           [3 # 5; 2 # 5]).
  - intros x [<-|[<-|[]]]; split; reflexivity.
  - discriminate.
Defined.

End ShareFacts.

(** ** More on the breakouts by category *)

Module PartitionFacts.

Import Breakout BreakoutFacts Competition CompetitionFacts Partition.

Local Open Scope Q_scope.

(** One item under the multiplying walk: when every year below it has a
    value, the walk returns and multiplies every leaf by the value of its
    year. *)
Lemma out_break_item_multiply (adjust_vals : list (string * Q)) :
  forall (i : brk) (k : string) (path : list string),
    (forall p y v, In (p, y, v) (leaves_item path k i) ->
                   exists d, lookup y adjust_vals = Ok d) ->
    exists i', out_break_item adjust_vals false k i = Ok i' /\
               leaves_item path k i'
               = map (scaled adjust_vals) (leaves_item path k i).
Proof.
  fix IH 1. intros [v | items] k path Hkeys.
  - destruct (Hkeys path k v (or_introl eq_refl)) as [d Hd].
    cbn [out_break_item leaves_item map bind negb].
    unfold scaled, denominator. rewrite Hd. cbn [bind negb].
    eexists; split; reflexivity.
  - simpl in Hkeys. simpl.
    assert (Hitems :
      exists items',
        (fix walk (l : list (string * brk)) : result (list (string * brk)) :=
           match l with
           | [] => Ok []
           | (k', i') :: rest =>
               r <- out_break_item adjust_vals false k' i' ;;
               rs <- walk rest ;;
               Ok ((k', r) :: rs)
           end) items = Ok items' /\
        (fix go (l : list (string * brk)) : list (list string * string * Q) :=
           match l with
           | [] => []
           | (k', i') :: rest => leaves_item (path ++ [k]) k' i' ++ go rest
           end) items'
        = map (scaled adjust_vals)
            ((fix go (l : list (string * brk))
                : list (list string * string * Q) :=
                match l with
                | [] => []
                | (k', i') :: rest =>
                    leaves_item (path ++ [k]) k' i' ++ go rest
                end) items)).
    { induction items as [|[k' i'] rest IHrest].
      - exists []. split; reflexivity.
      - destruct (IH i' k' (path ++ [k])) as [r [Hr Hlr]].
        { intros p y v Hin. apply (Hkeys p y v).
          apply in_or_app. now left. }
        destruct IHrest as [rs [Hrs Hlrs]].
        { intros p y v Hin. apply (Hkeys p y v).
          apply in_or_app. now right. }
        exists ((k', r) :: rs). split.
        + rewrite Hr. simpl. rewrite Hrs. reflexivity.
        + rewrite map_app, <- Hlr, <- Hlrs. reflexivity. }
    destruct Hitems as [items' [Hwalk Hleaves]].
    exists (Dict items'). split.
    + rewrite Hwalk. reflexivity.
    + exact Hleaves.
Qed.

Lemma out_break_walk_multiply (adjust_dict : list (string * brk))
    (adjust_vals : list (string * Q)) :
  (forall p y v, In (p, y, v) (leaves [] adjust_dict) ->
                 exists d, lookup y adjust_vals = Ok d) ->
  exists parts,
    out_break_walk adjust_dict adjust_vals false = Ok parts /\
    leaves [] parts = map (scaled adjust_vals) (leaves [] adjust_dict).
Proof.
  intros Hkeys. induction adjust_dict as [|[k i] rest IH].
  - exists []. split; reflexivity.
  - destruct (out_break_item_multiply adjust_vals i k []) as [r [Hr Hlr]].
    { intros p y v Hin. apply (Hkeys p y v). simpl.
      apply in_or_app. now left. }
    destruct IH as [rs [Hrs Hlrs]].
    { intros p y v Hin. apply (Hkeys p y v). simpl.
      apply in_or_app. now right. }
    exists ((k, r) :: rs). split.
    + simpl. rewrite Hr. simpl. rewrite Hrs. reflexivity.
    + simpl. rewrite map_app, <- Hlr, <- Hlrs. reflexivity.
Qed.

Lemma out_break_walk_divide (adjust_dict : list (string * brk))
    (adjust_vals : list (string * Q)) :
  (forall p y v, In (p, y, v) (leaves [] adjust_dict) ->
                 exists d, lookup y adjust_vals = Ok d) ->
  exists fracs,
    out_break_walk adjust_dict adjust_vals true = Ok fracs /\
    leaves [] fracs = map (normalised adjust_vals) (leaves [] adjust_dict).
Proof.
  intros Hkeys. induction adjust_dict as [|[k i] rest IH].
  - exists []. split; reflexivity.
  - destruct (out_break_item_divide adjust_vals i k []) as [r [Hr Hlr]].
    { intros p y v Hin. apply (Hkeys p y v). simpl.
      apply in_or_app. now left. }
    destruct IH as [rs [Hrs Hlrs]].
    { intros p y v Hin. apply (Hkeys p y v). simpl.
      apply in_or_app. now right. }
    exists ((k, r) :: rs). split.
    + simpl. rewrite Hr. simpl. rewrite Hrs. reflexivity.
    + simpl. rewrite map_app, <- Hlr, <- Hlrs. reflexivity.
Qed.

(** The two walks of [finalize_outputs] in a row.  Dividing a breakout
    structure by the totals [norm] and multiplying the outcome by the
    values [vals] returns, when both dicts have every year that keys a
    leaf, and turns a leaf [v] of year [y] into [v / norm[y] * vals[y]], or
    into 0 when [norm[y]] is 0.  With [vals = norm] a leaf whose total is
    not zero is restored, and a leaf whose total is zero is lost. *)
Theorem out_break_walk_divide_multiply
    (adjust_dict : list (string * brk)) (norm vals : list (string * Q)) :
  (forall p y v, In (p, y, v) (leaves [] adjust_dict) ->
                 (exists d, lookup y norm = Ok d) /\
                 (exists t, lookup y vals = Ok t)) ->
  exists fracs parts,
    out_break_walk adjust_dict norm true = Ok fracs /\
    out_break_walk fracs vals false = Ok parts /\
    leaves [] parts
    = map (fun leaf => scaled vals (normalised norm leaf))
          (leaves [] adjust_dict) /\
    (forall p y v,
        In (p, y, v) (leaves [] adjust_dict) ->
        exists v',
          In (p, y, v') (leaves [] parts) /\
          (~ denominator y norm == 0 -> vals = norm -> v' == v) /\
          (denominator y norm == 0 -> v' == 0)).
Proof.
  intros Hkeys.
  destruct (out_break_walk_divide adjust_dict norm) as [fracs [Hf Hlf]].
  { intros p y v Hin. exact (proj1 (Hkeys p y v Hin)). }
  destruct (out_break_walk_multiply fracs vals) as [parts [Hp Hlp]].
  { intros p y v Hin. rewrite Hlf in Hin. apply in_map_iff in Hin.
    destruct Hin as [[[p0 y0] v0] [Heq Hin0]].
    unfold normalised in Heq. injection Heq as <- <- <-.
    exact (proj2 (Hkeys p0 y0 v0 Hin0)). }
  exists fracs, parts. split; [exact Hf|]. split; [exact Hp|].
  assert (Hleaves : leaves [] parts
                    = map (fun leaf => scaled vals (normalised norm leaf))
                          (leaves [] adjust_dict))
    by (now rewrite Hlp, Hlf, map_map).
  split; [exact Hleaves|].
  intros p y v Hin.
  exists (fraction v (denominator y norm) * denominator y vals).
  split.
  - rewrite Hleaves. apply in_map_iff. exists (p, y, v). split; auto.
  - unfold fraction. split.
    + intros Hnz ->. destruct (Qeq_bool (denominator y norm) 0) eqn:E.
      * apply Qeq_bool_iff in E. contradiction.
      * field. exact Hnz.
    + intros Hz. apply Qeq_bool_iff in Hz. rewrite Hz. ring.
Qed.

Lemma out_break_walk_divide_multiply_witness :
  exists fracs parts,
    out_break_walk Samples.sample_breakout Samples.sample_totals true
    = Ok fracs /\
    out_break_walk fracs Samples.sample_totals false = Ok parts /\
    leaves [] parts
    = map (fun leaf =>
             scaled Samples.sample_totals
                    (normalised Samples.sample_totals leaf))
          (leaves [] Samples.sample_breakout) /\
    (forall p y v,
        In (p, y, v) (leaves [] Samples.sample_breakout) ->
        exists v',
          In (p, y, v') (leaves [] parts) /\
          (~ denominator y Samples.sample_totals == 0 ->
           Samples.sample_totals = Samples.sample_totals -> v' == v) /\
          (denominator y Samples.sample_totals == 0 -> v' == 0)).
Proof.
  apply (out_break_walk_divide_multiply Samples.sample_breakout
           Samples.sample_totals Samples.sample_totals).
  intros p y v Hin. simpl in Hin.
  destruct Hin as [Hin|[Hin|[]]]; injection Hin as <- <- <-;
    split; eexists; reflexivity.
Defined.

Lemma filter_year_map (f : list string * string * Q -> list string * string * Q)
    (y : string) (ls : list (list string * string * Q)) :
  (forall l, snd (fst (f l)) = snd (fst l)) ->
  filter (fun l => String.eqb (snd (fst l)) y) (map f ls)
  = map f (filter (fun l => String.eqb (snd (fst l)) y) ls).
Proof.
  intros Hkey. induction ls as [|l ls IH]; [reflexivity|].
  cbn [map filter]. rewrite Hkey, IH.
  destruct (String.eqb (snd (fst l)) y); reflexivity.
Qed.

(** The categories add up.  If the leaves of a year in a breakout
    structure sum to the normalisation total of that year, and that total
    is not zero, then after the dividing walk and the multiplying walk the
    leaves of that year sum to the value the second walk multiplied by:
    the results by category of a year add up to the overall result. *)
Theorem out_break_walk_partition
    (adjust_dict : list (string * brk)) (norm vals : list (string * Q))
    (y : string) (n t : Q) :
  (forall p y' v, In (p, y', v) (leaves [] adjust_dict) ->
                  (exists d, lookup y' norm = Ok d) /\
                  (exists t', lookup y' vals = Ok t')) ->
  lookup y norm = Ok n -> ~ n == 0 -> lookup y vals = Ok t ->
  year_total y (leaves [] adjust_dict) == n ->
  exists fracs parts,
    out_break_walk adjust_dict norm true = Ok fracs /\
    out_break_walk fracs vals false = Ok parts /\
    year_total y (leaves [] parts) == t.
Proof.
  intros Hkeys Hn Hnz Ht Htotal.
  destruct (out_break_walk_divide adjust_dict norm) as [fracs [Hf Hlf]].
  { intros p y' v Hin. exact (proj1 (Hkeys p y' v Hin)). }
  destruct (out_break_walk_multiply fracs vals) as [parts [Hp Hlp]].
  { intros p y' v Hin. rewrite Hlf in Hin. apply in_map_iff in Hin.
    destruct Hin as [[[p0 y0] v0] [Heq Hin0]].
    unfold normalised in Heq. injection Heq as <- <- <-.
    exact (proj2 (Hkeys p0 y0 v0 Hin0)). }
  exists fracs, parts. split; [exact Hf|]. split; [exact Hp|].
  rewrite Hlp, Hlf, map_map. unfold year_total in *.
  rewrite filter_year_map by (intros [[p0 y0] v0]; reflexivity).
  rewrite map_map.
  rewrite (Qsum_map_ext _ (fun l => snd l * (t / n))).
  - rewrite Qsum_map_scale, Htotal. field. exact Hnz.
  - intros [[p0 y0] v0] Hin. apply filter_In in Hin.
    destruct Hin as [_ Hy]. cbn [fst snd] in Hy.
    apply String.eqb_eq in Hy. subst y0.
    cbn [scaled normalised snd]. unfold denominator, fraction.
    rewrite Hn, Ht.
    destruct (Qeq_bool n 0) eqn:E.
    + apply Qeq_bool_iff in E. contradiction.
    + field. exact Hnz.
Qed.

(** The sample breakout, whose only leaf of 2015 is 30, against a total
    of 30 and an overall result of 12. *)
Lemma out_break_walk_partition_witness :
  exists fracs parts,
    out_break_walk Samples.sample_breakout
      [("2015"%string, 30); ("2016"%string, 0)] true = Ok fracs /\
    out_break_walk fracs [("2015"%string, 12); ("2016"%string, 5)] false
    = Ok parts /\
    year_total "2015" (leaves [] parts) == 12.
Proof.
  apply (out_break_walk_partition Samples.sample_breakout
           [("2015"%string, 30); ("2016"%string, 0)]
           [("2015"%string, 12); ("2016"%string, 5)] "2015" 30 12).
  - intros p y v Hin. simpl in Hin.
    destruct Hin as [Hin|[Hin|[]]]; injection Hin as <- <- <-;
      split; eexists; reflexivity.
  - reflexivity.
  - discriminate.
  - reflexivity.
  - reflexivity.
Defined.

End PartitionFacts.

(** ** Secondary microsegments *)

Module SecondaryFacts.

Import Finance FinanceFacts Competition CompetitionFacts Secondary.

Local Open Scope Q_scope.

Lemma get_at_returns (d : list (string * (year -> Q))) (k : string) :
  has_key k d = true -> exists f, get_at d k = Ok f.
Proof.
  induction d as [|[k' f] rest IH]; simpl; [discriminate|].
  destruct (String.eqb k k'); simpl; eauto.
Qed.

Lemma share_ratio_returns (original adjusted : list (string * (year -> Q)))
    (k : string) (yr : year) :
  has_key k original = true -> has_key k adjusted = true ->
  exists f, share_ratio original adjusted k yr = Ok f.
Proof.
  intros Ho Ha. unfold share_ratio.
  destruct (get_at_returns original k Ho) as [o ->].
  destruct (get_at_returns adjusted k Ha) as [a ->].
  cbn [bind]. destruct (Qeq_bool (o yr) 0) eqn:E; cbn [negb bind].
  - eauto.
  - rewrite (py_div_nonzero _ _ E). eauto.
Qed.

Lemma same_keys_has_key (s : secnd_shares) (k : string) :
  same_keys s -> has_key k (original_total s) = true ->
  has_key k (original_competed s) = true /\
  has_key k (adjusted_total s) = true /\
  has_key k (adjusted_competed s) = true.
Proof.
  intros [Hoc [Hat Hac]] Hk. rewrite has_key_map_fst in Hk.
  rewrite !has_key_map_fst, Hoc, Hat, Hac. auto.
Qed.

(** One year of the adjustment. *)
Lemma secondary_adj_yr_spec (k : string) (st : adj_state) (yr : year) :
  same_keys (secnd_adj_mktshr st) ->
  has_key k (original_total (secnd_adj_mktshr st)) = true ->
  exists st',
    secondary_adj_yr k st yr = Ok st' /\
    secnd_adj_mktshr st' = secnd_adj_mktshr st /\
    scaled_in_year (fun s => secondary_share (secnd_adj_mktshr st) k s yr)
      yr st st' /\
    (forall y, y <> yr -> same_in_year y st st') /\
    stock_kept st st'.
Proof.
  intros Hkeys Hk.
  destruct (same_keys_has_key _ k Hkeys Hk) as [Hoc [Hat Hac]].
  destruct (share_ratio_returns _ _ k yr Hoc Hac) as [fc Hfc].
  destruct (share_ratio_returns _ _ k yr Hk Hat) as [ft Hft].
  unfold secondary_adj_yr. cbv zeta. rewrite Hfc, Hft. cbn [bind].
  eexists. split; [reflexivity|]. split; [reflexivity|].
  split; [|split].
  - intros r s x Hr. unfold secondary_share. rewrite Hfc, Hft.
    destruct r, s, x; try congruence; cbn; unfold upd;
      rewrite !Z.eqb_refl; split; reflexivity.
  - intros y Hy r s x.
    assert (E : (y =? yr)%Z = false) by (apply Z.eqb_neq; exact Hy).
    destruct r, s, x; cbn; unfold upd; rewrite ?E; split; reflexivity.
  - intros s x y. destruct s, x; cbn; repeat split; reflexivity.
Qed.

(** [secondary_adj] for one measure, over a horizon of distinct years.  It
    returns when the record of the primary shares has the key of the
    secondary microsegment.  In every year of the horizon it scales the
    contributing energy, carbon and their costs by the recorded share of
    the year (the total values by the total share, the competed values by
    the competed share) and takes what it removes there off the master
    values, so that what leaves the master microsegment is what leaves the
    contributing one.  It changes neither the stock cost nor the captured
    stock in any year. *)
Theorem secondary_adj_conserves (k : string) (aeo_years : list year)
    (st : adj_state) :
  NoDup aeo_years ->
  same_keys (secnd_adj_mktshr st) ->
  has_key k (original_total (secnd_adj_mktshr st)) = true ->
  exists st',
    secondary_adj_years k aeo_years st = Ok st' /\
    stock_kept st st' /\
    forall y, In y aeo_years ->
      scaled_in_year (fun s => secondary_share (secnd_adj_mktshr st) k s y)
        y st st' /\
      forall r s x,
        vals (mast st) r s x y - vals (mast st') r s x y
        == vals (adj st) r s x y - vals (adj st') r s x y.
Proof.
  intros Hnodup Hkeys Hk.
  assert (Hloop :
    exists st',
      secondary_adj_years k aeo_years st = Ok st' /\
      secnd_adj_mktshr st' = secnd_adj_mktshr st /\
      stock_kept st st' /\
      (forall y, In y aeo_years ->
         scaled_in_year
           (fun s => secondary_share (secnd_adj_mktshr st) k s y) y st st') /\
      (forall y, ~ In y aeo_years -> same_in_year y st st')).
  { revert st Hkeys Hk.
    induction Hnodup as [|yr rest Hnotin Hnodup IH]; intros st Hkeys Hk.
    - exists st. split; [reflexivity|]. split; [reflexivity|].
      split; [repeat split|]. split; [intros y []|].
      intros y _ r s x. split; reflexivity.
    - destruct (secondary_adj_yr_spec k st yr Hkeys Hk)
        as [st1 [Hstep [Hledger [Hscaled [Hsame Hstock]]]]].
      destruct (IH st1) as [st' [Hrest [Hledger' [Hstock' [Hin Hout]]]]].
      { now rewrite Hledger. }
      { now rewrite Hledger. }
      exists st'. cbn [secondary_adj_years]. rewrite Hstep. cbn [bind].
      split; [exact Hrest|]. split; [congruence|]. split; [|split].
      + intros s x y.
        destruct (Hstock s x y) as (A1 & A2 & A3 & A4).
        destruct (Hstock' s x y) as (B1 & B2 & B3 & B4).
        repeat split; congruence.
      + intros y [<-|Hy].
        * intros r s x Hr. destruct (Hscaled r s x Hr) as [A1 A2].
          destruct (Hout yr Hnotin r s x) as [B1 B2].
          split; congruence.
        * assert (Hneq : y <> yr) by (intros ->; contradiction).
          intros r s x Hr. specialize (Hin y Hy r s x Hr).
          rewrite Hledger in Hin. destruct Hin as [A1 A2].
          destruct (Hsame y Hneq r s x) as [B1 B2].
          split; congruence.
      + intros y Hy r s x.
        assert (Hneq : y <> yr) by (intros ->; apply Hy; now left).
        assert (Hrest' : ~ In y rest) by (intros H; apply Hy; now right).
        destruct (Hsame y Hneq r s x) as [A1 A2].
        destruct (Hout y Hrest' r s x) as [B1 B2].
        split; congruence. }
  destruct Hloop as [st' [Hret [_ [Hstock [Hin _]]]]].
  exists st'. split; [exact Hret|]. split; [exact Hstock|].
  intros y Hy. split; [exact (Hin y Hy)|].
  intros r s x.
  destruct r.
  - destruct (Hstock s x y) as (A1 & A2 & _). rewrite A1, A2. ring.
  - destruct (Hin y Hy CostEnergy s x) as [A1 A2]; [discriminate|].
    rewrite A1, A2. ring.
  - destruct (Hin y Hy CostCarbon s x) as [A1 A2]; [discriminate|].
    rewrite A1, A2. ring.
  - destruct (Hin y Hy Energy s x) as [A1 A2]; [discriminate|].
    rewrite A1, A2. ring.
  - destruct (Hin y Hy Carbon s x) as [A1 A2]; [discriminate|].
    rewrite A1, A2. ring.
Qed.

Lemma aeo_years_nodup : NoDup Samples.aeo_years.
Proof.
  unfold Samples.aeo_years.
  repeat (constructor; [simpl; intuition discriminate|]). constructor.
Qed.

Lemma secondary_adj_conserves_witness :
  exists st',
    secondary_adj_years Cases.adjkey Samples.aeo_years Cases.secondary_state
    = Ok st' /\
    stock_kept Cases.secondary_state st' /\
    forall y, In y Samples.aeo_years ->
      scaled_in_year
        (fun s => secondary_share
                    (secnd_adj_mktshr Cases.secondary_state)
                    Cases.adjkey s y)
        y Cases.secondary_state st' /\
      forall r s x,
        vals (mast Cases.secondary_state) r s x y - vals (mast st') r s x y
        == vals (adj Cases.secondary_state) r s x y - vals (adj st') r s x y.
Proof.
  apply (secondary_adj_conserves Cases.adjkey Samples.aeo_years
           Cases.secondary_state).
  - exact aeo_years_nodup.
  - repeat split.
  - reflexivity.
Defined.

(** *** From the primary competition to the secondary adjustment *)

Lemma get_at_has_key (d : list (string * (year -> Q))) (k : string)
    (f : year -> Q) :
  get_at d k = Ok f -> has_key k d = true.
Proof.
  induction d as [|[k' g] rest IH]; simpl; [discriminate|].
  destruct (String.eqb k k'); simpl; auto.
Qed.

Lemma get_add_at (d : list (string * (year -> Q))) (k : string)
    (f : year -> Q) (yr : year) (v : Q) :
  get_at d k = Ok f ->
  exists d', add_at d k yr v = Ok d' /\
             get_at d' k = Ok (upd f yr (f yr + v)).
Proof.
  induction d as [|[k' g] rest IH]; simpl; [discriminate|].
  destruct (String.eqb k k') eqn:E.
  - intros [= ->]. eexists. split; [reflexivity|]. simpl. now rewrite E.
  - intros Hget. destruct (IH Hget) as [rest' [Hadd Hget']].
    rewrite Hadd. cbn [bind]. eexists. split; [reflexivity|].
    simpl. now rewrite E.
Qed.

Lemma share_ratio_recorded (original adjusted : list (string * (year -> Q)))
    (k : string) (yr : year) (o a : year -> Q) (e share : Q) :
  get_at original k = Ok (upd o yr (o yr + e)) ->
  get_at adjusted k = Ok (upd a yr (a yr + e * share)) ->
  ~ o yr + e == 0 ->
  share_ratio original adjusted k yr
  = Ok ((a yr + e * share) / (o yr + e)).
Proof.
  intros Ho Ha Hnz. unfold share_ratio. rewrite Ho, Ha. cbn [bind].
  unfold upd. rewrite Z.eqb_refl.
  assert (E : Qeq_bool (o yr + e) 0 = false).
  { destruct (Qeq_bool (o yr + e) 0) eqn:E0; [|reflexivity].
    apply Qeq_bool_iff in E0. contradiction. }
  rewrite E. cbn [negb]. now rewrite (py_div_nonzero _ _ E).
Qed.

(** What [compete_adj] records for a primary microsegment is what
    [secondary_adj] scales the associated secondary microsegment by.  After
    the record of a year, the share of the secondary adjustment is the
    energy recorded as adjusted over the energy recorded as original:
    [(adjusted + e * share) / (original + e)] for the captured energy [e]
    of the primary microsegment.  For the first record of a year, with
    non-zero energy, it is the primary share itself. *)
Theorem record_secondary_share (s : secnd_shares) (k : string) (yr : year)
    (a : mseg) (adj_frac_tot adj_frac_comp : Q) (ot oc at' ac : year -> Q) :
  get_at (original_total s) k = Ok ot ->
  get_at (original_competed s) k = Ok oc ->
  get_at (adjusted_total s) k = Ok at' ->
  get_at (adjusted_competed s) k = Ok ac ->
  let e_tot := vals a Energy Total Efficient yr in
  let e_comp := vals a Energy Competed Efficient yr in
  ~ ot yr + e_tot == 0 -> ~ oc yr + e_comp == 0 ->
  exists s',
    record_secondary s k yr a adj_frac_tot adj_frac_comp = Ok s' /\
    secondary_share s' k Total yr
    = (at' yr + e_tot * adj_frac_tot) / (ot yr + e_tot) /\
    secondary_share s' k Competed yr
    = (ac yr + e_comp * adj_frac_comp) / (oc yr + e_comp) /\
    (ot yr == 0 -> at' yr == 0 ->
     secondary_share s' k Total yr == adj_frac_tot) /\
    (oc yr == 0 -> ac yr == 0 ->
     secondary_share s' k Competed yr == adj_frac_comp).
Proof.
  intros Hot Hoc Hat Hac e_tot e_comp Hnt Hnc.
  destruct (get_add_at _ k ot yr e_tot Hot) as [ot' [Aot Got]].
  destruct (get_add_at _ k oc yr e_comp Hoc) as [oc' [Aoc Goc]].
  destruct (get_add_at _ k at' yr (e_tot * adj_frac_tot) Hat)
    as [at'' [Aat Gat]].
  destruct (get_add_at _ k ac yr (e_comp * adj_frac_comp) Hac)
    as [ac' [Aac Gac]].
  unfold record_secondary.
  rewrite (get_at_has_key _ _ _ Hot).
  destruct (original_total s) as [|kv rest] eqn:Hor;
    [discriminate Hot|].
  fold e_tot e_comp. rewrite Aot, Aoc, Aat, Aac. cbn [bind].
  eexists. split; [reflexivity|].
  unfold secondary_share.
  cbn [original_total original_competed adjusted_total adjusted_competed].
  rewrite (share_ratio_recorded ot' at'' k yr ot at' e_tot adj_frac_tot
             Got Gat Hnt).
  rewrite (share_ratio_recorded oc' ac' k yr oc ac e_comp adj_frac_comp
             Goc Gac Hnc).
  split; [reflexivity|]. split; [reflexivity|]. split.
  - intros Hz Hz'. rewrite Hz, Hz'. rewrite Hz in Hnt. field.
    intros H0. apply Hnt. rewrite H0. ring.
  - intros Hz Hz'. rewrite Hz, Hz'. rewrite Hz in Hnc. field.
    intros H0. apply Hnc. rewrite H0. ring.
Qed.

(** A first record of 40 units of total and of competed energy, with
    shares of 1/2 and 2/5. *)
Lemma record_secondary_share_witness :
  exists s',
    record_secondary Cases.fresh_ledger Cases.adjkey 2016%Z
      (Samples.flat_mseg 4 40) (1 # 2) (2 # 5) = Ok s' /\
    secondary_share s' Cases.adjkey Total 2016%Z
    = (0 + 40 * (1 # 2)) / (0 + 40) /\
    secondary_share s' Cases.adjkey Competed 2016%Z
    = (0 + 40 * (2 # 5)) / (0 + 40) /\
    (0 == 0 -> 0 == 0 ->
     secondary_share s' Cases.adjkey Total 2016%Z == 1 # 2) /\
    (0 == 0 -> 0 == 0 ->
     secondary_share s' Cases.adjkey Competed 2016%Z == 2 # 5).
Proof.
  apply (record_secondary_share Cases.fresh_ledger Cases.adjkey 2016%Z
           (Samples.flat_mseg 4 40) (1 # 2) (2 # 5)
           (fun _ => 0) (fun _ => 0) (fun _ => 0) (fun _ => 0));
    try reflexivity; discriminate.
Defined.

End SecondaryFacts.

(** ** Heating and cooling overlaps *)

Module OverlapFacts.

Import Finance FinanceFacts Competition CompetitionFacts Secondary Overlap.

Local Open Scope Q_scope.

(** *** The record of overlaps *)

Lemma fields_eqb_eq (a b : list string) : fields_eqb a b = true <-> a = b.
Proof.
  revert b. induction a as [|x a IH]; intros [|y b]; simpl;
    try (split; [discriminate | congruence]); [tauto|].
  rewrite andb_true_iff, String.eqb_eq, IH.
  split; [intros [-> ->]; reflexivity | intros [= -> ->]; auto].
Qed.

Lemma fields_eqb_refl (a : list string) : fields_eqb a a = true.
Proof. now apply fields_eqb_eq. Qed.

Lemma find_entry_app_new (k : list string) (o : overlap)
    (l : list (list string * overlap)) (k' : list string) :
  find_entry k' (l ++ [(k, o)])
  = match find_entry k' l with
    | Some o' => Some o'
    | None => if fields_eqb k' k then Some o else None
    end.
Proof.
  induction l as [|[k0 o0] l IH]; simpl; [reflexivity|].
  destruct (fields_eqb k' k0); [reflexivity | exact IH].
Qed.

Lemma find_entry_replace (k : list string) (o : overlap)
    (l : list (list string * overlap)) (k' : list string) :
  find_entry k' (replace_entry k o l)
  = match find_entry k' l with
    | Some o' => if fields_eqb k' k then Some o else Some o'
    | None => None
    end.
Proof.
  induction l as [|[k0 o0] l IH]; simpl; [reflexivity|].
  destruct (fields_eqb k k0) eqn:E; simpl.
  - apply fields_eqb_eq in E. subst k0.
    destruct (fields_eqb k' k);
      [reflexivity | destruct (find_entry k' l); reflexivity].
  - destruct (fields_eqb k' k0) eqn:E'; [|exact IH].
    apply fields_eqb_eq in E'. subst k0.
    destruct (fields_eqb k' k) eqn:E''; [|reflexivity].
    apply fields_eqb_eq in E''. subst k'.
    rewrite fields_eqb_refl in E. discriminate.
Qed.

Lemma entries_set_entries (d : htcl_data) (s s' : side)
    (l : list (list string * overlap)) :
  entries (set_entries d s l) s'
  = match s, s' with
    | Supply, Supply | Demand, Demand => l
    | _, _ => entries d s'
    end.
Proof. destruct s, s'; reflexivity. Qed.

(** Recording a microsegment adds the baseline energy of its measures,
    and what they save, to the entry of its technology type and of its
    climate zone, building type, structure type, fuel type and end use,
    counting a missing entry as zero; every other entry is left as it
    was. *)
Theorem htcl_adj_rec_accumulates (d d' : htcl_data) (keys : list string)
    (msu_mkts : list mseg) (htcl_totals : list (list string * (year -> Q))) :
  htcl_adj_rec d keys msu_mkts htcl_totals = Ok d' ->
  exists s k tech_typ,
    msu_split keys = Ok k /\ py_index keys (-3) = Ok tech_typ /\
    side_of_field tech_typ = Ok s /\
    (forall yr,
        recorded_affected d' s k yr
        == recorded_affected d s k yr + affected msu_mkts yr /\
        recorded_savings d' s k yr
        == recorded_savings d s k yr + savings msu_mkts yr) /\
    (forall s' k', s' <> s \/ k' <> k ->
        find_entry k' (entries d' s') = find_entry k' (entries d s')).
Proof.
  unfold htcl_adj_rec. intros Hrec.
  destruct (msu_split keys) as [k|]; [|discriminate]. cbn [bind] in Hrec.
  destruct (py_index keys (-3)) as [tech_typ|]; [|discriminate].
  cbn [bind] in Hrec.
  destruct (side_of_field tech_typ) as [s|] eqn:Hside; [|discriminate].
  cbn [bind] in Hrec.
  exists s, k, tech_typ. split; [reflexivity|]. split; [reflexivity|].
  split; [exact Hside|].
  assert (Hother : forall l s' k', s' <> s \/ k' <> k ->
             (forall k'', k'' <> k ->
                find_entry k'' l = find_entry k'' (entries d s)) ->
             find_entry k' (entries (set_entries d s l) s')
             = find_entry k' (entries d s')).
  { intros l s' k' Hneq Hl. rewrite entries_set_entries.
    destruct s, s'; try reflexivity;
      destruct Hneq as [Hs|Hk]; try congruence; now apply Hl. }
  destruct (find_entry k (entries d s)) as [o|] eqn:Hfind.
  - injection Hrec as <-. split.
    + intros yr. unfold recorded_affected, recorded_savings.
      rewrite Hfind.
      assert (E : entries (set_entries d s
                     (replace_entry k
                        {| total := total o;
                           total_affected :=
                             fun yr0 => total_affected o yr0
                                        + affected msu_mkts yr0;
                           affected_savings :=
                             fun yr0 => affected_savings o yr0
                                        + savings msu_mkts yr0 |}
                        (entries d s))) s
                  = replace_entry k
                      {| total := total o;
                         total_affected :=
                           fun yr0 => total_affected o yr0
                                      + affected msu_mkts yr0;
                         affected_savings :=
                           fun yr0 => affected_savings o yr0
                                      + savings msu_mkts yr0 |}
                      (entries d s))
        by (destruct s; reflexivity).
      rewrite E, find_entry_replace, Hfind, fields_eqb_refl.
      cbn [total_affected affected_savings]. split; reflexivity.
    + intros s' k' Hneq. apply Hother; [exact Hneq|].
      intros k'' Hk''. rewrite find_entry_replace.
      destruct (find_entry k'' (entries d s)); [|reflexivity].
      destruct (fields_eqb k'' k) eqn:E; [|reflexivity].
      apply fields_eqb_eq in E. contradiction.
  - destruct (lookup_totals k htcl_totals) as [tot|]; [|discriminate].
    cbn [bind] in Hrec. injection Hrec as <-. split.
    + intros yr. unfold recorded_affected, recorded_savings.
      rewrite Hfind.
      assert (E : forall l, entries (set_entries d s l) s = l)
        by (intros l; destruct s; reflexivity).
      rewrite E, find_entry_app_new, Hfind, fields_eqb_refl.
      cbn [total_affected affected_savings]. split; ring.
    + intros s' k' Hneq. apply Hother; [exact Hneq|].
      intros k'' Hk''. rewrite find_entry_app_new.
      destruct (find_entry k'' (entries d s)); [reflexivity|].
      destruct (fields_eqb k'' k) eqn:E; [|reflexivity].
      apply fields_eqb_eq in E. contradiction.
Qed.

Lemma htcl_adj_rec_accumulates_witness :
  exists d',
    htcl_adj_rec Cases.no_overlaps Cases.heating_supply_key
      [Samples.flat_mseg 4 40; Samples.flat_mseg 2 20] Cases.heating_totals
    = Ok d' /\
    exists s k tech_typ,
      msu_split Cases.heating_supply_key = Ok k /\
      py_index Cases.heating_supply_key (-3) = Ok tech_typ /\
      side_of_field tech_typ = Ok s /\
      (forall yr,
          recorded_affected d' s k yr
          == recorded_affected Cases.no_overlaps s k yr
             + affected [Samples.flat_mseg 4 40; Samples.flat_mseg 2 20] yr /\
          recorded_savings d' s k yr
          == recorded_savings Cases.no_overlaps s k yr
             + savings [Samples.flat_mseg 4 40; Samples.flat_mseg 2 20] yr) /\
      (forall s' k', s' <> s \/ k' <> k ->
          find_entry k' (entries d' s')
          = find_entry k' (entries Cases.no_overlaps s')).
Proof.
  eexists. split; [reflexivity|].
  apply (htcl_adj_rec_accumulates Cases.no_overlaps _
           Cases.heating_supply_key
           [Samples.flat_mseg 4 40; Samples.flat_mseg 2 20]
           Cases.heating_totals).
  reflexivity.
Defined.

(** *** The adjustment fractions *)

Lemma Qeq_bool_comm_sum (a b : Q) :
  Qeq_bool (a + b) 0 = Qeq_bool (b + a) 0.
Proof.
  apply eq_true_iff_eq. rewrite !Qeq_bool_iff.
  split; intros H; rewrite <- H; ring.
Qed.

Lemma save_ratio_bounds (rel_perf_tech rel_perf_tech_overlp : Q) :
  0 <= save_ratio rel_perf_tech rel_perf_tech_overlp <= 1.
Proof.
  unfold save_ratio.
  pose proof (Qabs_nonneg (1 - rel_perf_tech)) as Ha.
  pose proof (Qabs_nonneg (1 - rel_perf_tech_overlp)) as Hb.
  set (a := Qabs (1 - rel_perf_tech)) in *.
  set (b := Qabs (1 - rel_perf_tech_overlp)) in *.
  destruct (Qeq_bool (a + b) 0) eqn:E; cbn [negb]; [split; discriminate|].
  assert (Hpos : 0 < a + b).
  { destruct (Qlt_le_dec 0 (a + b)) as [H|H]; [exact H|].
    exfalso. assert (Hz : a + b == 0) by lra.
    apply Qeq_bool_iff in Hz. congruence. }
  split.
  - apply Qle_shift_div_l; [exact Hpos | lra].
  - apply Qle_shift_div_r; [exact Hpos | lra].
Qed.

(** The two technology types split the overlapping savings between them:
    the save ratio of the supply side against the demand side and that of
    the demand side against the supply side sum to 1, each lies between 0
    and 1, and each is one half when neither side saves anything. *)
Theorem save_ratio_split (rel_perf_tech rel_perf_tech_overlp : Q) :
  save_ratio rel_perf_tech rel_perf_tech_overlp
  + save_ratio rel_perf_tech_overlp rel_perf_tech == 1 /\
  0 <= save_ratio rel_perf_tech rel_perf_tech_overlp <= 1 /\
  (rel_perf_tech == 1 -> rel_perf_tech_overlp == 1 ->
   save_ratio rel_perf_tech rel_perf_tech_overlp == 1 # 2).
Proof.
  split; [|split; [apply save_ratio_bounds|]].
  - unfold save_ratio.
    rewrite (Qeq_bool_comm_sum (Qabs (1 - rel_perf_tech_overlp))).
    set (a := Qabs (1 - rel_perf_tech)) in *.
    set (b := Qabs (1 - rel_perf_tech_overlp)) in *.
    destruct (Qeq_bool (a + b) 0) eqn:E; cbn [negb]; [reflexivity|].
    assert (Hnz : ~ a + b == 0).
    { intros Hz. apply Qeq_bool_iff in Hz. congruence. }
    field; repeat split; intros Hz; apply Hnz; lra.
  - intros H1 H2. unfold save_ratio.
    assert (E : Qeq_bool (Qabs (1 - rel_perf_tech)
                          + Qabs (1 - rel_perf_tech_overlp)) 0 = true).
    { apply Qeq_bool_iff.
      assert (E1 : 1 - rel_perf_tech == 0) by lra.
      assert (E2 : 1 - rel_perf_tech_overlp == 0) by lra.
      rewrite E1, E2. reflexivity. }
    rewrite E. reflexivity.
Qed.

Lemma ratio_bounds (a b : Q) :
  0 <= a <= b -> ~ b == 0 -> 0 <= a / b <= 1.
Proof.
  intros [Ha Hab] Hb.
  assert (Hpos : 0 < b).
  { destruct (Qlt_le_dec 0 b) as [H|H]; [exact H|]. exfalso. apply Hb. lra. }
  split.
  - apply Qle_shift_div_l; [exact Hpos | lra].
  - apply Qle_shift_div_r; [exact Hpos | lra].
Qed.

Lemma affected_frac_bounds (overlp_data : overlap) (yr : year) :
  0 <= total_affected overlp_data yr <= total overlp_data yr ->
  0 <= affected_frac overlp_data yr <= 1.
Proof.
  intros H. unfold affected_frac.
  destruct (Qeq_bool (total overlp_data yr) 0) eqn:E; cbn [negb];
    [split; discriminate|].
  apply ratio_bounds; [exact H|].
  intros Hz. apply Qeq_bool_iff in Hz. congruence.
Qed.

Lemma rel_perf_bounds (data : overlap) (yr : year) :
  0 <= affected_savings data yr <= total_affected data yr ->
  0 <= rel_perf data yr <= 1.
Proof.
  intros H. unfold rel_perf.
  destruct (Qeq_bool (total_affected data yr) 0) eqn:E; cbn [negb];
    [split; discriminate|].
  assert (0 <= affected_savings data yr / total_affected data yr <= 1).
  { apply ratio_bounds; [exact H|].
    intros Hz. apply Qeq_bool_iff in Hz. congruence. }
  lra.
Qed.

(** When the overlapping technology type affects no more energy than
    could overlap, and saves no more than it affects, the adjustment
    fractions of [htcl_adj] lie between 0 and 1, the efficient fraction
    being at most the baseline one. *)
Lemma htcl_adj_fracs_bounded (tech_data overlp_data : overlap)
    (yr : year) :
  0 <= total_affected overlp_data yr <= total overlp_data yr ->
  0 <= affected_savings overlp_data yr <= total_affected overlp_data yr ->
  0 <= adj_frac_eff tech_data overlp_data yr /\
  adj_frac_eff tech_data overlp_data yr
  <= adj_frac_base tech_data overlp_data yr /\
  adj_frac_base tech_data overlp_data yr <= 1.
Proof.
  intros Haff Hsave.
  pose proof (affected_frac_bounds overlp_data yr Haff) as Haf.
  pose proof (rel_perf_bounds overlp_data yr Hsave) as Hrp.
  pose proof (save_ratio_bounds (rel_perf tech_data yr)
                (rel_perf overlp_data yr)) as Hsr.
  unfold adj_frac_eff, adj_frac_base. cbv zeta.
  set (af := affected_frac overlp_data yr) in *.
  set (sr := save_ratio (rel_perf tech_data yr) (rel_perf overlp_data yr))
    in *.
  set (rp := rel_perf overlp_data yr) in *.
  assert (0 <= af * sr <= af) by nra.
  assert (0 <= af * sr * rp <= af * sr) by nra.
  lra.
Qed.

(** *** What [htcl_adj] does to a measure *)

(** One year of the adjustment: the contributing microsegment is not
    written; of the master microsegment the energy, carbon and their costs
    of that year are reduced, the baseline values by the baseline fraction
    and the efficient values by the efficient one. *)
Lemma htcl_adj_yr_spec (tech_data overlp_data : overlap) (st : adj_state)
    (yr : year) :
  let st' := htcl_adj_yr tech_data overlp_data st yr in
  let frac (x : case) :=
    match x with
    | Baseline => adj_frac_base tech_data overlp_data yr
    | Efficient => adj_frac_eff tech_data overlp_data yr
    end in
  adj st' = adj st /\
  (forall s y, stock_measure (mast st') s y = stock_measure (mast st) s y) /\
  (forall s x y,
      vals (mast st') CostStock s x y = vals (mast st) CostStock s x y) /\
  (forall r s x, r <> CostStock ->
      vals (mast st') r s x yr
      = vals (mast st) r s x yr - vals (adj st) r s x yr * (1 - frac x)) /\
  (forall r s x y, y <> yr ->
      vals (mast st') r s x y = vals (mast st) r s x y).
Proof.
  cbv zeta. split; [reflexivity|]. split; [reflexivity|].
  split; [intros s x y; destruct s, x; reflexivity|]. split.
  - intros r s x Hr.
    destruct r, s, x; try congruence; cbn; unfold upd;
      rewrite !Z.eqb_refl; reflexivity.
  - intros r s x y Hy.
    assert (E : (y =? yr)%Z = false) by (apply Z.eqb_neq; exact Hy).
    destruct r, s, x; cbn; unfold upd; rewrite ?E; reflexivity.
Qed.

Lemma htcl_adj_years_spec (tech_data overlp_data : overlap)
    (aeo_years : list year) :
  NoDup aeo_years ->
  forall st,
    let st' := fold_left (htcl_adj_yr tech_data overlp_data) aeo_years st in
    adj st' = adj st /\
    (forall s y,
        stock_measure (mast st') s y = stock_measure (mast st) s y) /\
    (forall s x y,
        vals (mast st') CostStock s x y = vals (mast st) CostStock s x y) /\
    (forall r s x y, In y aeo_years -> r <> CostStock ->
        vals (mast st') r s x y
        = vals (mast st) r s x y
          - vals (adj st) r s x y
            * (1 - match x with
                   | Baseline => adj_frac_base tech_data overlp_data y
                   | Efficient => adj_frac_eff tech_data overlp_data y
                   end)) /\
    (forall r s x y, ~ In y aeo_years ->
        vals (mast st') r s x y = vals (mast st) r s x y).
Proof.
  induction 1 as [|yr rest Hnotin Hnodup IH]; intros st; cbn [fold_left].
  - cbv zeta. repeat split; auto. intros r s x y [].
  - destruct (htcl_adj_yr_spec tech_data overlp_data st yr)
      as (A1 & A2 & A3 & A4 & A5).
    destruct (IH (htcl_adj_yr tech_data overlp_data st yr))
      as (B1 & B2 & B3 & B4 & B5).
    cbv zeta. split; [congruence|]. split; [intros; congruence|].
    split; [intros; congruence|]. split.
    + intros r s x y [<-|Hy] Hr.
      * rewrite (B5 r s x yr Hnotin). now apply A4.
      * assert (Hneq : y <> yr) by (intros ->; contradiction).
        rewrite (B4 r s x y Hy Hr), A1, (A5 r s x y Hneq). reflexivity.
    + intros r s x y Hy.
      assert (Hneq : y <> yr) by (intros ->; apply Hy; now left).
      rewrite B5 by (intros H'; apply Hy; now right).
      now apply A5.
Qed.

(** [htcl_adj] on one contributing microsegment of a measure, over a
    horizon of distinct years.  Let every entry of the overlap data affect
    no more energy than could overlap and save no more than it affects,
    and let the contributing values not be negative.  Then the removal of
    overlaps never adds to a master value and never takes more off it than
    the contributing microsegment holds; it writes neither the contributing
    microsegment nor the captured stock, and the microsegment is skipped
    when either technology type has no entry for it. *)
Theorem htcl_adj_mseg_reduces (d : htcl_data) (aeo_years : list year)
    (mseg : string) (keys : list string) (st st' : adj_state) :
  NoDup aeo_years ->
  (forall s k o yr, find_entry k (entries d s) = Some o ->
     0 <= total_affected o yr <= total o yr /\
     0 <= affected_savings o yr <= total_affected o yr) ->
  (forall r s x y, 0 <= vals (adj st) r s x y) ->
  htcl_adj_mseg d aeo_years mseg keys st = Ok st' ->
  adj st' = adj st /\
  (forall s y, stock_measure (mast st') s y = stock_measure (mast st) s y) /\
  (forall r s x y,
      vals (mast st) r s x y - vals (adj st) r s x y
      <= vals (mast st') r s x y /\
      vals (mast st') r s x y <= vals (mast st) r s x y).
Proof.
  intros Hnodup Hdata Hpos. unfold htcl_adj_mseg.
  destruct (msu_split keys) as [split|]; [|discriminate]. cbn [bind].
  assert (Hsame : adj st = adj st /\
    (forall s y, stock_measure (mast st) s y = stock_measure (mast st) s y) /\
    (forall r s x y,
        vals (mast st) r s x y - vals (adj st) r s x y
        <= vals (mast st) r s x y /\
        vals (mast st) r s x y <= vals (mast st) r s x y)).
  { split; [reflexivity|]. split; [reflexivity|].
    intros r s x y. specialize (Hpos r s x y). lra. }
  destruct (if contains "supply" mseg then (Supply, Demand)
            else (Demand, Supply)) as [tech_typ tech_typ_overlp].
  destruct (find_entry split (entries d tech_typ)) as [tech_data|];
    [|intros [= <-]; exact Hsame].
  destruct (find_entry split (entries d tech_typ_overlp))
    as [overlp_data|] eqn:Hoverlp; [|intros [= <-]; exact Hsame].
  intros [= <-].
  destruct (htcl_adj_years_spec tech_data overlp_data aeo_years Hnodup st)
    as (A1 & A2 & A3 & A4 & A5).
  split; [exact A1|]. split; [exact A2|].
  intros r s x y. specialize (Hpos r s x y).
  destruct (in_dec Z.eq_dec y aeo_years) as [Hy|Hy].
  - destruct r.
    + rewrite A3. lra.
    + rewrite (A4 CostEnergy s x y Hy) by discriminate.
      destruct (Hdata _ _ _ y Hoverlp) as [H1 H2].
      pose proof (htcl_adj_fracs_bounded tech_data overlp_data y H1 H2).
      destruct x; nra.
    + rewrite (A4 CostCarbon s x y Hy) by discriminate.
      destruct (Hdata _ _ _ y Hoverlp) as [H1 H2].
      pose proof (htcl_adj_fracs_bounded tech_data overlp_data y H1 H2).
      destruct x; nra.
    + rewrite (A4 Energy s x y Hy) by discriminate.
      destruct (Hdata _ _ _ y Hoverlp) as [H1 H2].
      pose proof (htcl_adj_fracs_bounded tech_data overlp_data y H1 H2).
      destruct x; nra.
    + rewrite (A4 Carbon s x y Hy) by discriminate.
      destruct (Hdata _ _ _ y Hoverlp) as [H1 H2].
      pose proof (htcl_adj_fracs_bounded tech_data overlp_data y H1 H2).
      destruct x; nra.
  - rewrite (A5 r s x y Hy). lra.
Qed.

Lemma overlaps_bounded :
  forall s k o yr, find_entry k (entries Cases.overlaps s) = Some o ->
    0 <= total_affected o yr <= total o yr /\
    0 <= affected_savings o yr <= total_affected o yr.
Proof.
  intros s k o yr. destruct s; cbn [entries Cases.overlaps supply demand];
    cbn [find_entry];
    destruct (fields_eqb k Cases.heating_split); try discriminate;
    intros [= <-]; repeat split; vm_compute; discriminate.
Qed.

Lemma htcl_adj_mseg_reduces_witness :
  exists st',
    htcl_adj_mseg Cases.overlaps Samples.aeo_years Cases.heating_supply_text
      Cases.heating_supply_key Samples.adj_state0 = Ok st' /\
    adj st' = adj Samples.adj_state0 /\
    (forall s y, stock_measure (mast st') s y
                 = stock_measure (mast Samples.adj_state0) s y) /\
    (forall r s x y,
        vals (mast Samples.adj_state0) r s x y
        - vals (adj Samples.adj_state0) r s x y
        <= vals (mast st') r s x y /\
        vals (mast st') r s x y <= vals (mast Samples.adj_state0) r s x y).
Proof.
  eexists. split; [reflexivity|].
  apply (htcl_adj_mseg_reduces Cases.overlaps Samples.aeo_years
           Cases.heating_supply_text Cases.heating_supply_key
           Samples.adj_state0).
  - exact SecondaryFacts.aeo_years_nodup.
  - exact overlaps_bounded.
  - intros r s x y. vm_compute. discriminate.
  - reflexivity.
Defined.

End OverlapFacts.

(** ** The yearly loop of [calc_savings_metrics] *)

Module SavingsFacts.

Import Finance FinanceFacts Savings.

Local Open Scope Q_scope.

Lemma py_range_nil (lo hi : Z) : (hi <= lo)%Z -> py_range lo hi = [].
Proof.
  intros H. unfold py_range.
  replace (Z.to_nat (hi - lo)) with 0%nat by lia. reflexivity.
Qed.

Lemma py_range_cons (lo hi : Z) :
  (lo < hi)%Z -> py_range lo hi = lo :: py_range (lo + 1) hi.
Proof.
  intros H. unfold py_range.
  replace (Z.to_nat (hi - lo)) with (S (Z.to_nat (hi - (lo + 1)))) by lia.
  cbn [seq map]. f_equal; [lia|].
  rewrite <- seq_shift, map_map. apply map_ext. intros k. lia.
Qed.

Lemma py_range_Z_in (lo hi y : Z) :
  Z_in y (py_range lo hi) = true <-> (lo <= y < hi)%Z.
Proof.
  rewrite CompetitionFacts.Z_in_In. apply MetricFacts.py_range_In.
Qed.

Section LoopFacts.

Variable hv : handyvars (A := Q).
Variable np : numpy_lib (A := Q).
Variable m : measure.
Variable uncomp markets : master.

Lemma no_units_false (yr : year) :
  no_units uncomp markets yr = false ->
  Qeq_bool (stock_total_all uncomp yr) 0 = false.
Proof.
  unfold no_units. intros H. now apply orb_false_iff in H.
Qed.

(** A year with stock and a captured unit. *)
Lemma calc_year_units (aeo_years : list year) (results : yearly)
    (delt : option Q) (yr : year) :
  no_units uncomp markets yr = false ->
  exists delt',
    calc_year hv np m uncomp markets aeo_years (results, delt) yr
    = (r <- unit_metrics hv np m uncomp markets yr ;;
       Ok (set_year results yr (Some r), delt')).
Proof.
  intros Hunits. pose proof (no_units_false yr Hunits) as Hn.
  unfold calc_year. rewrite Hunits, Hn. cbn [negb].
  rewrite !(py_div_nonzero _ _ Hn). cbn [bind].
  eexists. unfold unit_metrics. reflexivity.
Qed.

(** A year without stock or without a captured unit. *)
Lemma calc_year_no_units (first : year) (rest : list year)
    (results : yearly) (delt : option Q) (yr : year) :
  no_units uncomp markets yr = true ->
  (yr <> first -> Z_in (yr - 1)%Z (first :: rest) = true) ->
  exists delt',
    calc_year hv np m uncomp markets (first :: rest) (results, delt) yr
    = Ok (set_year results yr
            (if (yr =? first)%Z then Some all_999
             else results (yr - 1)%Z), delt').
Proof.
  intros Hunits Hprev. unfold calc_year. rewrite Hunits.
  destruct (Qeq_bool (stock_total_all uncomp yr) 0) eqn:Hn; cbn [negb].
  - cbn [bind]. destruct (Z.eqb_spec yr first) as [|Hneq]; [eauto|].
    rewrite (Hprev Hneq). eauto.
  - rewrite !(py_div_nonzero _ _ Hn). cbn [bind].
    destruct (Z.eqb_spec yr first) as [|Hneq]; [eauto|].
    rewrite (Hprev Hneq). eauto.
Qed.

Lemma set_year_same (results : yearly) (yr : year)
    (v : option (metrics (A := Q))) :
  set_year results yr v yr = v.
Proof. unfold set_year. now rewrite Z.eqb_refl. Qed.

Lemma set_year_other (results : yearly) (yr y : year)
    (v : option (metrics (A := Q))) :
  y <> yr -> set_year results yr v y = results y.
Proof.
  intros H. unfold set_year.
  destruct (Z.eqb_spec y yr); [contradiction | reflexivity].
Qed.

(** The loop from the year [lo] on, entered with every earlier year of
    the horizon assigned. *)
Lemma calc_years_spec (aeo_min aeo_max : Z) (n : nat) :
  forall (lo : Z) (results : yearly) (delt : option Q),
    (aeo_min <= lo)%Z -> (lo + Z.of_nat n = aeo_max + 1)%Z ->
    (forall y, (aeo_min <= y < lo)%Z -> results y <> None) ->
    match calc_years hv np m uncomp markets
            (py_range aeo_min (aeo_max + 1)) (py_range lo (aeo_max + 1))
            (results, delt) with
    | Ok (results', _) =>
        (forall y, (y < lo)%Z -> results' y = results y) /\
        (forall yr, (lo <= yr <= aeo_max)%Z ->
           year_rule hv np m uncomp markets aeo_min results' yr /\
           results' yr <> None)
    | Raise e =>
        exists yr, (lo <= yr <= aeo_max)%Z /\
                   no_units uncomp markets yr = false /\
                   unit_metrics hv np m uncomp markets yr = Raise e
    end.
Proof.
  induction n as [|n IH]; intros lo results delt Hlo Hhi Hdone.
  - rewrite (py_range_nil lo) by lia. cbn [calc_years].
    split; [reflexivity | intros yr Hyr; lia].
  - rewrite (py_range_cons lo) by lia. cbn [calc_years].
    assert (Hyears : py_range aeo_min (aeo_max + 1)
                     = aeo_min :: py_range (aeo_min + 1) (aeo_max + 1))
      by (apply py_range_cons; lia).
    assert (Hstep :
      (no_units uncomp markets lo = true /\
       exists delt',
         calc_year hv np m uncomp markets (py_range aeo_min (aeo_max + 1))
           (results, delt) lo
         = Ok (set_year results lo
                 (if (lo =? aeo_min)%Z then Some all_999
                  else results (lo - 1)%Z), delt')) \/
      (no_units uncomp markets lo = false /\
       exists delt',
         calc_year hv np m uncomp markets (py_range aeo_min (aeo_max + 1))
           (results, delt) lo
         = (r <- unit_metrics hv np m uncomp markets lo ;;
            Ok (set_year results lo (Some r), delt')))).
    { destruct (no_units uncomp markets lo) eqn:Hunits.
      - left. split; [reflexivity|]. rewrite Hyears.
        apply calc_year_no_units; [exact Hunits|].
        intros Hneq.
        pose proof (proj2 (py_range_Z_in aeo_min (aeo_max + 1) (lo - 1)))
          as Hin.
        rewrite Hyears in Hin. apply Hin. lia.
      - right. split; [reflexivity|]. now apply calc_year_units. }
    destruct Hstep as [[Hunits [delt' Hstep]] | [Hunits [delt' Hstep]]].
    + rewrite Hstep. cbn [bind].
      set (v := if (lo =? aeo_min)%Z then Some all_999
                else results (lo - 1)%Z) in *.
      assert (Hv : v <> None).
      { unfold v. destruct (Z.eqb_spec lo aeo_min); [discriminate|].
        apply Hdone. lia. }
      specialize (IH (lo + 1)%Z (set_year results lo v) delt').
      destruct (calc_years _ _ _ _ _ _ _ _) as [[results' delt'']|e].
      * destruct IH as [Hkept Hrule]; [lia | lia | |].
        { intros y Hy. destruct (Z.eq_dec y lo) as [->|Hneq].
          - now rewrite set_year_same.
          - rewrite set_year_other by exact Hneq. apply Hdone. lia. }
        split.
        { intros y Hy. rewrite Hkept by lia. apply set_year_other. lia. }
        intros yr Hyr. destruct (Z.eq_dec yr lo) as [->|Hneq].
        -- assert (Hlo' : results' lo = v)
             by (rewrite Hkept by lia; apply set_year_same).
           split; [|now rewrite Hlo'].
           unfold year_rule. rewrite Hunits, Hlo'. unfold v.
           destruct (Z.eqb_spec lo aeo_min); [reflexivity|].
           rewrite Hkept by lia. now rewrite set_year_other by lia.
        -- apply Hrule. lia.
      * destruct IH as [yr [Hyr Hraise]]; [lia | lia | |].
        { intros y Hy. destruct (Z.eq_dec y lo) as [->|Hneq].
          - now rewrite set_year_same.
          - rewrite set_year_other by exact Hneq. apply Hdone. lia. }
        exists yr. split; [lia | exact Hraise].
    + rewrite Hstep.
      destruct (unit_metrics hv np m uncomp markets lo) as [r|e] eqn:Hr;
        cbn [bind].
      * specialize (IH (lo + 1)%Z (set_year results lo (Some r)) delt').
        destruct (calc_years _ _ _ _ _ _ _ _) as [[results' delt'']|e].
        -- destruct IH as [Hkept Hrule]; [lia | lia | |].
           { intros y Hy. destruct (Z.eq_dec y lo) as [->|Hneq].
             - now rewrite set_year_same.
             - rewrite set_year_other by exact Hneq. apply Hdone. lia. }
           split.
           { intros y Hy. rewrite Hkept by lia. apply set_year_other. lia. }
           intros yr Hyr. destruct (Z.eq_dec yr lo) as [->|Hneq].
           ++ assert (Hlo' : results' lo = Some r)
                by (rewrite Hkept by lia; apply set_year_same).
              split; [|now rewrite Hlo'].
              unfold year_rule. rewrite Hunits. eauto.
           ++ apply Hrule. lia.
        -- destruct IH as [yr [Hyr Hraise]]; [lia | lia | |].
           { intros y Hy. destruct (Z.eq_dec y lo) as [->|Hneq].
             - now rewrite set_year_same.
             - rewrite set_year_other by exact Hneq. apply Hdone. lia. }
           exists yr. split; [lia | exact Hraise].
      * exists lo. split; [lia|]. split; [exact Hunits | exact Hr].
Qed.

(** The yearly loop of [calc_savings_metrics] over the horizon
    [range(aeo_min, aeo_max + 1)], for point values.  The loop itself
    raises nothing: no [KeyError] from the entry of the year before, no
    unbound [scostmeas_delt], no division by a stock of zero; if it raises,
    [metric_update] has raised in a year with stock and a captured unit.
    When it returns, every year of the horizon has an entry: a year with
    stock and a captured unit has what [metric_update] returns at the
    per-unit values of the year; a year without has 999 throughout when it
    is the first year, and otherwise repeats the entry of the year before.
    So the metrics are 999 up to the first year with a captured unit. *)
Theorem calc_savings_metrics_years (aeo_min aeo_max : Z) :
  match calc_savings_metrics hv np m uncomp markets aeo_min aeo_max with
  | Ok results =>
      forall yr, (aeo_min <= yr <= aeo_max)%Z ->
        year_rule hv np m uncomp markets aeo_min results yr /\
        results yr <> None /\
        ((forall y, (aeo_min <= y <= yr)%Z ->
                    no_units uncomp markets y = true) ->
         results yr = Some all_999)
  | Raise e =>
      exists yr, (aeo_min <= yr <= aeo_max)%Z /\
                 no_units uncomp markets yr = false /\
                 unit_metrics hv np m uncomp markets yr = Raise e
  end.
Proof.
  unfold calc_savings_metrics. cbv zeta.
  destruct (Z.le_gt_cases aeo_min (aeo_max + 1)) as [Hle|Hgt].
  - pose proof (calc_years_spec aeo_min aeo_max
                  (Z.to_nat (aeo_max + 1 - aeo_min)) aeo_min
                  (fun _ => None) None) as Hloop.
    destruct (calc_years _ _ _ _ _ _ _ _) as [[results delt]|e];
      cbn [bind fst].
    + destruct Hloop as [_ Hrule]; [lia | lia | intros y Hy; lia |].
      intros yr Hyr. destruct (Hrule yr Hyr) as [Hyear Hsome].
      split; [exact Hyear|]. split; [exact Hsome|].
      intros Hnone.
      assert (Hind : forall k : nat,
                 (aeo_min + Z.of_nat k <= yr)%Z ->
                 results (aeo_min + Z.of_nat k)%Z = Some all_999).
      { induction k as [|k IHk]; intros Hk.
        - destruct (Hrule (aeo_min + Z.of_nat 0)%Z) as [Hr _]; [lia|].
          unfold year_rule in Hr. rewrite Hnone in Hr by lia.
          rewrite Hr.
          destruct (Z.eqb_spec (aeo_min + Z.of_nat 0) aeo_min);
            [reflexivity | lia].
        - destruct (Hrule (aeo_min + Z.of_nat (S k))%Z) as [Hr _]; [lia|].
          unfold year_rule in Hr. rewrite Hnone in Hr by lia.
          rewrite Hr.
          destruct (Z.eqb_spec (aeo_min + Z.of_nat (S k)) aeo_min); [lia|].
          replace (aeo_min + Z.of_nat (S k) - 1)%Z
            with (aeo_min + Z.of_nat k)%Z by lia.
          apply IHk. lia. }
      replace yr with (aeo_min + Z.of_nat (Z.to_nat (yr - aeo_min)))%Z
        by lia.
      apply Hind. lia.
    + destruct Hloop as [yr [Hyr Hraise]];
        [lia | lia | intros y Hy; lia |].
      exists yr. split; [lia | exact Hraise].
  - rewrite py_range_nil by lia. cbn [calc_years bind fst].
    intros yr Hyr. lia.
Qed.

End LoopFacts.

End SavingsFacts.

(** * Stock turnover rates *)

Module TurnoverFacts.

Import Finance Competition Turnover.

Local Open Scope Q_scope.

(** ** Indexing *)

Lemma py_index_nat {X : Type} (l : list X) (i : nat) :
  Overlap.py_index l (Z.of_nat i) = index l i.
Proof.
  unfold Overlap.py_index. cbv zeta.
  assert (Hneg : (Z.of_nat i <? 0)%Z = false) by (apply Z.ltb_ge; lia).
  rewrite !Hneg. cbn [orb]. rewrite Nat2Z.id.
  destruct (Z.leb_spec (Z.of_nat (length l)) (Z.of_nat i)) as [Hout|_];
    [|reflexivity].
  unfold index.
  destruct (nth_error l i) eqn:E; [|reflexivity].
  assert (i < length l)%nat
    by (apply nth_error_Some; rewrite E; discriminate).
  lia.
Qed.

Lemma py_int_nonneg (x : Q) : 0 < x -> (0 <= py_int x)%Z.
Proof.
  intros Hx. unfold py_int. apply Z.quot_pos; [|lia].
  unfold Qlt in Hx. cbn in Hx. lia.
Qed.

Lemma enumerate_In {X : Type} (l : list X) :
  forall (k i : nat) (x : X),
    In (i, x) (enumerate k l) ->
    (k <= i)%nat /\ nth_error l (i - k) = Some x.
Proof.
  induction l as [|a l IH]; intros k i x Hin; [contradiction|].
  cbn [enumerate] in Hin. destruct Hin as [Heq|Hin].
  - injection Heq as <- <-. split; [lia|]. now rewrite Nat.sub_diag.
  - apply IH in Hin. destruct Hin as [Hle Hnth]. split; [lia|].
    replace (i - k)%nat with (S (i - S k)) by lia. exact Hnth.
Qed.

(** ** The weighted lifetime *)

Section WeightedLifetime.

Variable aeo_years : list year.

Lemma eff_life_years (mkt_fracs : list (year -> Q)) (ind2 : nat)
    (lifetime : Q) (fracs : year -> Q) :
  index mkt_fracs ind2 = Ok fracs ->
  forall (years : list year) (d : year -> Q),
    for_each (eff_life_year mkt_fracs ind2 lifetime) years d
    = Ok (fold_left (fun d yr => upd d yr (d yr + lifetime * fracs yr))
                    years d).
Proof.
  intros Hidx years. induction years as [|yr years IH]; intros d.
  - reflexivity.
  - cbn [for_each fold_left]. unfold eff_life_year at 1.
    rewrite Hidx. cbn [bind]. apply IH.
Qed.

Lemma add_years_other (lifetime : Q) (fracs : year -> Q) (y : year) :
  forall (years : list year) (d : year -> Q),
    ~ In y years ->
    fold_left (fun d yr => upd d yr (d yr + lifetime * fracs yr)) years d y
    = d y.
Proof.
  induction years as [|yr years IH]; intros d Hnot; [reflexivity|].
  cbn [fold_left]. rewrite IH by (intros Hin; apply Hnot; now right).
  unfold upd. destruct (Z.eqb_spec y yr) as [->|_]; [|reflexivity].
  exfalso. apply Hnot. now left.
Qed.

Lemma add_years_member (lifetime : Q) (fracs : year -> Q) (y : year) :
  forall (years : list year) (d : year -> Q),
    NoDup years -> In y years ->
    fold_left (fun d yr => upd d yr (d yr + lifetime * fracs yr)) years d y
    = d y + lifetime * fracs y.
Proof.
  induction years as [|yr years IH]; intros d Hnodup Hin; [contradiction|].
  inversion Hnodup as [|? ? Hfresh Hrest]; subst. cbn [fold_left].
  destruct (Z.eq_dec y yr) as [->|Hneq].
  - rewrite add_years_other by exact Hfresh.
    unfold upd. now rewrite Z.eqb_refl.
  - destruct Hin as [Heq|Hin]; [congruence|].
    rewrite IH by assumption. unfold upd.
    destruct (Z.eqb_spec y yr); [contradiction | reflexivity].
Qed.

(** The loop over the measures, from the measure of position
    [length pre] on. *)
Lemma eff_life_measures (y : year) :
  NoDup aeo_years -> In y aeo_years ->
  forall (lifetimes : list Q) (fs pre : list (year -> Q)) (d : year -> Q),
    length fs = length lifetimes ->
    exists d',
      for_each
        (fun eff_life im =>
           for_each (eff_life_year (pre ++ fs) (fst im) (snd im))
                    aeo_years eff_life)
        (enumerate (length pre) lifetimes) d = Ok d' /\
      d' y == d y + Qsum (map (fun lf => fst lf * snd lf y)
                              (combine lifetimes fs)).
Proof.
  intros Hnodup Hin.
  induction lifetimes as [|l lifetimes IH]; intros fs pre d Hlen.
  - exists d. split; [reflexivity|]. cbn. unfold Qsum. cbn. ring.
  - destruct fs as [|f fs]; [discriminate|].
    cbn [enumerate for_each fst snd].
    rewrite (eff_life_years (pre ++ f :: fs) (length pre) l f).
    2:{ unfold index. rewrite nth_error_app2 by lia.
        now rewrite Nat.sub_diag. }
    cbn [bind].
    destruct (IH fs (pre ++ [f])
                (fold_left (fun d yr => upd d yr (d yr + l * f yr))
                           aeo_years d))
      as [d' [Hrun Hval]]; [now injection Hlen|].
    rewrite <- app_assoc in Hrun. cbn [app] in Hrun.
    rewrite length_app in Hrun. cbn [length] in Hrun.
    rewrite Nat.add_1_r in Hrun.
    exists d'. split; [exact Hrun|].
    rewrite Hval, add_years_member by assumption.
    cbn [combine map fst snd]. rewrite CompetitionFacts.Qsum_cons. ring.
Qed.

Lemma weighted_between (y : year) (lo hi : Q) :
  forall (lifetimes : list Q) (fs : list (year -> Q)),
    length fs = length lifetimes ->
    (forall l, In l lifetimes -> lo <= l <= hi) ->
    (forall f, In f fs -> 0 <= f y) ->
    lo * Qsum (map (fun f => f y) fs)
    <= Qsum (map (fun lf => fst lf * snd lf y) (combine lifetimes fs))
    <= hi * Qsum (map (fun f => f y) fs).
Proof.
  induction lifetimes as [|l lifetimes IH]; intros fs Hlen Hl Hf.
  - destruct fs; [|discriminate]. cbn. unfold Qsum. cbn. lra.
  - destruct fs as [|f fs]; [discriminate|].
    cbn [combine map fst snd]. rewrite !CompetitionFacts.Qsum_cons.
    assert (Hl0 : lo <= l <= hi) by (apply Hl; now left).
    assert (Hf0 : 0 <= f y) by (apply Hf; now left).
    destruct (IH fs) as [IHlo IHhi].
    + now injection Hlen.
    + intros l' Hl'. apply Hl. now right.
    + intros f' Hf'. apply Hf. now right.
    + split; nra.
Qed.

(** The lifetime [eff_life[yr]] that the competing measures have on
    average lies between the shortest and the longest of their lifetimes
    in every year in which their market shares are not negative and sum
    to 1. *)
Theorem eff_life_between (lifetimes : list Q)
    (mkt_fracs : list (year -> Q)) (yr : year) (lo hi : Q) :
  NoDup aeo_years -> In yr aeo_years ->
  length mkt_fracs = length lifetimes ->
  (forall l, In l lifetimes -> lo <= l <= hi) ->
  (forall f, In f mkt_fracs -> 0 <= f yr) ->
  Qsum (map (fun f => f yr) mkt_fracs) == 1 ->
  exists d, eff_life aeo_years lifetimes mkt_fracs = Ok d /\
            lo <= d yr <= hi.
Proof.
  intros Hnodup Hin Hlen Hl Hf Hone.
  destruct (eff_life_measures yr Hnodup Hin lifetimes mkt_fracs []
              (fun _ => 0) Hlen) as [d [Hrun Hval]].
  exists d. split; [exact Hrun|].
  pose proof (weighted_between yr lo hi lifetimes mkt_fracs Hlen Hl Hf)
    as Hbetween.
  rewrite Hone in Hbetween. rewrite Hval. lra.
Qed.

End WeightedLifetime.

Lemma eff_life_between_witness :
  exists d,
    eff_life [2015; 2016]%Z [10; 20]
      [(fun _ => 1 # 4); (fun _ => 3 # 4)] = Ok d /\
    10 <= d 2016%Z <= 20.
Proof.
  apply (eff_life_between [2015; 2016]%Z [10; 20]
           [(fun _ => 1 # 4); (fun _ => 3 # 4)] 2016%Z 10 20).
  - repeat constructor; cbn; intuition lia.
  - cbn. auto.
  - reflexivity.
  - intros l [<-|[<-|[]]]; lra.
  - intros f [<-|[<-|[]]]; lra.
  - reflexivity.
Defined.

Lemma enumerate_nth {X : Type} (l : list X) :
  forall (k i : nat) (x : X),
    nth_error l i = Some x -> In ((k + i)%nat, x) (enumerate k l).
Proof.
  induction l as [|a l IH]; intros k i x Hnth.
  - destruct i; discriminate.
  - destruct i as [|i]; cbn [enumerate].
    + injection Hnth as ->. left. now rewrite Nat.add_0_r.
    + right. rewrite Nat.add_succ_r. apply (IH (S k) i x Hnth).
Qed.

Lemma Qeq_bool_pos (x : Q) : 0 < x -> Qeq_bool x 0 = false.
Proof.
  intros Hx. destruct (Qeq_bool x 0) eqn:E; [|reflexivity].
  apply Qeq_bool_iff in E. lra.
Qed.

Lemma inv_antitone (L l : Q) : 0 < L -> L <= l -> 0 < 1 / l <= 1 / L.
Proof.
  intros HL Hl.
  assert (Hl1 : 1 / l * l == 1) by (field; lra).
  assert (HL1 : 1 / L * L == 1) by (field; lra).
  assert (Hpos : 0 < 1 / l) by (apply Qlt_shift_div_l; lra).
  assert (HposL : 0 < 1 / L) by (apply Qlt_shift_div_l; lra).
  split; [exact Hpos|]. apply Qle_shift_div_l; [exact HL|]. nra.
Qed.

(** ** Rounding a lifetime *)

Lemma Qfloor_nonneg (x : Q) : 0 <= x -> (0 <= Qfloor x)%Z.
Proof.
  intros Hx. pose proof (Qlt_floor x) as Hlt.
  assert (H0 : inject_Z 0 < inject_Z (Qfloor x + 1))
    by (apply Qle_lt_trans with x; assumption).
  rewrite <- Zlt_Qlt in H0. lia.
Qed.

Lemma py_round_nonneg (x : Q) : 0 <= x -> (0 <= Lifetime.py_round x)%Z.
Proof.
  intros Hx. pose proof (Qfloor_nonneg x Hx) as Hf.
  unfold Lifetime.py_round. cbv zeta.
  destruct (Qltb _ _); [lia|].
  destruct (Qltb _ _); [lia|].
  destruct (Z.even _); lia.
Qed.

Lemma py_round_half (x : Q) : 0 <= x <= 1 # 2 -> Lifetime.py_round x = 0%Z.
Proof.
  intros [Hlo Hhi].
  assert (Hfloor : Qfloor x = 0%Z).
  { pose proof (Qfloor_nonneg x Hlo) as Hf.
    pose proof (Qfloor_le x) as Hle.
    assert (H1 : inject_Z (Qfloor x) < inject_Z 1)
      by (apply Qle_lt_trans with x; [exact Hle|]; change (inject_Z 1) with 1;
          lra).
    rewrite <- Zlt_Qlt in H1. lia. }
  unfold Lifetime.py_round. cbv zeta. rewrite Hfloor.
  destruct (Qltb (x - inject_Z 0) (1 # 2)) eqn:Hbelow; [reflexivity|].
  destruct (Qltb (1 # 2) (x - inject_Z 0)) eqn:Habove; [|reflexivity].
  apply FinanceFacts.Qltb_true in Habove. unfold inject_Z in Habove. lra.
Qed.

Lemma py_round_positive (x : Q) : 1 # 2 < x -> (1 <= Lifetime.py_round x)%Z.
Proof.
  intros Hx.
  assert (Hf : (0 <= Qfloor x)%Z) by (apply Qfloor_nonneg; lra).
  unfold Lifetime.py_round. cbv zeta.
  destruct (Z.eq_dec (Qfloor x) 0) as [Hzero|Hpos].
  - rewrite Hzero.
    destruct (Qltb (x - inject_Z 0) (1 # 2)) eqn:Hbelow.
    + apply FinanceFacts.Qltb_true in Hbelow. unfold inject_Z in Hbelow. lra.
    + destruct (Qltb (1 # 2) (x - inject_Z 0)) eqn:Habove; [lia|].
      apply FinanceFacts.Qltb_false in Habove. unfold inject_Z in Habove. lra.
  - destruct (Qltb _ _); [lia|].
    destruct (Qltb _ _); [lia|].
    destruct (Z.even _); lia.
Qed.

(** ** Turnover loops *)

Section TurnoverLoop.

Variable body : (year -> Q) -> nat * year -> result (year -> Q).
Variable years : list year.
Variable wait : year -> option Z.
Variable rate : year -> Q.

Hypothesis body_step :
  forall (i : nat) (yr : year) (rt : year -> Q),
    nth_error years i = Some yr ->
    exists n,
      wait yr = Some n /\
      body rt (i, yr)
      = Ok (match nth_error years (i + Z.to_nat n) with
            | Some y => upd rt y (rate yr)
            | None => rt
            end).

Lemma turnover_upto_skip (rt0 rt rt' : year -> Q) (k : nat) (y : year) :
  rt' y = rt y -> ~ turns_over wait years k y ->
  turnover_upto wait years rate k rt0 rt y ->
  turnover_upto wait years rate (S k) rt0 rt' y.
Proof.
  intros Hsame Hno
    [[Hnone Hval]|[i [yr [n [Hi [Hyr [Hn [Hy [Hval Hlater]]]]]]]]].
  - left. split; [|congruence]. intros i Hi.
    destruct (Nat.eq_dec i k) as [->|Hneq]; [exact Hno|].
    apply Hnone. lia.
  - right. exists i, yr, n.
    split; [lia|]. split; [exact Hyr|]. split; [exact Hn|].
    split; [exact Hy|]. split; [congruence|].
    intros j Hj. destruct (Nat.eq_dec j k) as [->|Hneq]; [exact Hno|].
    apply Hlater. lia.
Qed.

Lemma turnover_step (rt0 rt : year -> Q) (k : nat) (yr : year) :
  nth_error years k = Some yr ->
  (forall y, turnover_upto wait years rate k rt0 rt y) ->
  exists rt',
    body rt (k, yr) = Ok rt' /\
    forall y, turnover_upto wait years rate (S k) rt0 rt' y.
Proof.
  intros Hk Hinv. destruct (body_step k yr rt Hk) as [n [Hwait Hbody]].
  eexists. split; [exact Hbody|]. intros y.
  assert (Hturn : turns_over wait years k y ->
                  nth_error years (k + Z.to_nat n) = Some y).
  { intros [yr' [n' [Hyr' [Hn' Hy]]]].
    rewrite Hk in Hyr'. injection Hyr' as <-.
    rewrite Hwait in Hn'. injection Hn' as <-. exact Hy. }
  destruct (nth_error years (k + Z.to_nat n)) as [y0|] eqn:Htarget.
  - destruct (Z.eq_dec y y0) as [->|Hneq].
    + right. exists k, yr, n.
      split; [lia|]. split; [exact Hk|]. split; [exact Hwait|].
      split; [exact Htarget|].
      split; [unfold upd; now rewrite Z.eqb_refl|].
      intros j Hj. lia.
    + apply (turnover_upto_skip rt0 rt); [| |apply Hinv].
      * unfold upd.
        destruct (Z.eqb_spec y y0); [contradiction | reflexivity].
      * intros Hy. apply Hturn in Hy. congruence.
  - apply (turnover_upto_skip rt0 rt); [reflexivity| |apply Hinv].
    intros Hy. apply Hturn in Hy. discriminate.
Qed.

Lemma turnover_loop_from (rt0 : year -> Q) (suffix : list year) :
  forall (k : nat) (rt : year -> Q),
    (forall j yr,
        nth_error suffix j = Some yr ->
        nth_error years (k + j) = Some yr) ->
    (forall y, turnover_upto wait years rate k rt0 rt y) ->
    exists rt',
      for_each body (enumerate k suffix) rt = Ok rt' /\
      forall y,
        turnover_upto wait years rate (k + length suffix) rt0 rt' y.
Proof.
  induction suffix as [|yr suffix IH]; intros k rt Hpos Hinv.
  - exists rt. split; [reflexivity|]. cbn [length].
    rewrite Nat.add_0_r. exact Hinv.
  - cbn [enumerate for_each].
    destruct (turnover_step rt0 rt k yr) as [rt1 [Hbody Hinv1]].
    + specialize (Hpos 0%nat yr eq_refl).
      now rewrite Nat.add_0_r in Hpos.
    + exact Hinv.
    + rewrite Hbody. cbn [bind].
      destruct (IH (S k) rt1) as [rt' [Hrun Hfinal]].
      * intros j y Hj. specialize (Hpos (S j) y Hj).
        now rewrite Nat.add_succ_r in Hpos.
      * exact Hinv1.
      * exists rt'. split; [exact Hrun|]. cbn [length].
        rewrite Nat.add_succ_r. exact Hfinal.
Qed.

Lemma turnover_loop (rt0 : year -> Q) :
  exists rt,
    for_each body (enumerate 0 years) rt0 = Ok rt /\
    forall y, turnover_upto wait years rate (length years) rt0 rt y.
Proof.
  destruct (turnover_loop_from rt0 years 0 rt0) as [rt [Hrun Hfinal]].
  - intros j yr Hj. exact Hj.
  - intros y. left. split; [intros i Hi; lia | reflexivity].
  - exists rt. split; [exact Hrun | exact Hfinal].
Qed.

End TurnoverLoop.

(** ** The turnover of the competed stock *)

Section CompetedStock.

Variable retro_rate : Q.
Variable aeo_years : list year.

Lemma eff_turnover_year_step (eff_life : year -> Q) (ys : list year) :
  (forall yr, In yr ys -> In yr aeo_years /\ 0 < eff_life yr) ->
  forall (i : nat) (yr : year) (rt : year -> Q),
    nth_error ys i = Some yr ->
    exists n,
      Some (py_int (eff_life yr)) = Some n /\
      eff_turnover_year retro_rate aeo_years eff_life ys rt (i, yr)
      = Ok (match nth_error ys (i + Z.to_nat n) with
            | Some y => upd rt y (1 / eff_life yr + retro_rate)
            | None => rt
            end).
Proof.
  intros Hok i yr rt Hi.
  destruct (Hok yr (nth_error_In _ _ Hi)) as [Hkey Hpos].
  exists (py_int (eff_life yr)). split; [reflexivity|].
  apply CompetitionFacts.Z_in_In in Hkey.
  unfold eff_turnover_year, at_year. rewrite Hkey. cbn [bind]. cbv zeta.
  pose proof (py_int_nonneg _ Hpos) as Hn.
  replace (Z.of_nat i + py_int (eff_life yr))%Z
    with (Z.of_nat (i + Z.to_nat (py_int (eff_life yr)))) by lia.
  destruct (Z.ltb_spec
              (Z.of_nat (i + Z.to_nat (py_int (eff_life yr))))
              (Z.of_nat (length ys))) as [Hin|Hout].
  - rewrite (FinanceFacts.py_div_nonzero _ _ (Qeq_bool_pos _ Hpos)).
    cbn [bind]. rewrite py_index_nat. unfold index.
    destruct (nth_error ys (i + Z.to_nat (py_int (eff_life yr)))) eqn:E;
      [reflexivity|].
    apply nth_error_None in E. lia.
  - destruct (nth_error ys (i + Z.to_nat (py_int (eff_life yr)))) eqn:E;
      [|reflexivity].
    assert (i + Z.to_nat (py_int (eff_life yr)) < length ys)%nat
      by (apply nth_error_Some; rewrite E; discriminate).
    lia.
Qed.

(** The turnover rate of the competed stock, when the weighted lifetime
    is positive in every year a measure is on the market and those years
    belong to the horizon.  The loop raises nothing.  The stock of the
    year at position [i] of the years on the market turns over
    [int(eff_life)] positions later; the rate of a year is
    [1 / eff_life + retro_rate] for the last year whose stock turns over
    in it and 0 when no stock does.  With lifetimes of at least [L] no
    rate exceeds [1 / L + retro_rate]. *)
Theorem eff_turnover_rt_last (eff_life : year -> Q)
    (years_on_mkt_all : list year) :
  (forall yr, In yr years_on_mkt_all ->
              In yr aeo_years /\ 0 < eff_life yr) ->
  exists rt,
    eff_turnover_rt retro_rate aeo_years eff_life years_on_mkt_all = Ok rt /\
    (forall y,
        turnover_upto (fun yr => Some (py_int (eff_life yr)))
          years_on_mkt_all (fun yr => 1 / eff_life yr + retro_rate)
          (length years_on_mkt_all) (fun _ => 0) rt y) /\
    (forall (L : Q) (y : year),
        0 < L -> 0 <= retro_rate ->
        (forall yr, In yr years_on_mkt_all -> L <= eff_life yr) ->
        0 <= rt y <= 1 / L + retro_rate).
Proof.
  intros Hok.
  destruct (turnover_loop
              (eff_turnover_year retro_rate aeo_years eff_life
                 years_on_mkt_all)
              years_on_mkt_all
              (fun yr => Some (py_int (eff_life yr)))
              (fun yr => 1 / eff_life yr + retro_rate)
              (eff_turnover_year_step eff_life years_on_mkt_all Hok)
              (fun _ => 0)) as [rt [Hrun Hlast]].
  exists rt. split; [exact Hrun|]. split; [exact Hlast|].
  intros L y HL Hretro Hlong.
  assert (HinvL : 0 < 1 / L) by (apply Qlt_shift_div_l; lra).
  destruct (Hlast y)
    as [[_ Hzero]|[i [yr [n [_ [Hyr [_ [_ [Hval _]]]]]]]]].
  - rewrite Hzero. lra.
  - rewrite Hval.
    pose proof (inv_antitone L (eff_life yr) HL
                  (Hlong yr (nth_error_In _ _ Hyr))).
    lra.
Qed.

End CompetedStock.

Lemma eff_turnover_rt_last_witness :
  exists rt,
    eff_turnover_rt (1 # 100) [2015; 2016; 2017]%Z (fun _ => 3 # 2)
      [2015; 2016; 2017]%Z = Ok rt /\
    (forall y,
        turnover_upto (fun yr => Some (py_int ((fun _ => 3 # 2) yr)))
          [2015; 2016; 2017]%Z
          (fun yr => 1 / (fun _ => 3 # 2) yr + (1 # 100))
          (length [2015; 2016; 2017]%Z) (fun _ => 0) rt y) /\
    (forall (L : Q) (y : year),
        0 < L -> 0 <= 1 # 100 ->
        (forall yr, In yr [2015; 2016; 2017]%Z ->
                    L <= (fun _ : year => 3 # 2) yr) ->
        0 <= rt y <= 1 / L + (1 # 100)).
Proof.
  apply (eff_turnover_rt_last (1 # 100) [2015; 2016; 2017]%Z
           (fun _ => 3 # 2) [2015; 2016; 2017]%Z).
  intros yr Hin. split; [exact Hin | lra].
Defined.

(** ** The turnover of the baseline stock *)

Lemma for_each_raises {X S : Type} (body : S -> X -> result S) (e : exn) :
  forall (l : list X) (s : S),
    (forall x s, In x l ->
                 body s x = Raise e \/ exists s', body s x = Ok s') ->
    (exists x, In x l /\ forall s, body s x = Raise e) ->
    for_each body l s = Raise e.
Proof.
  induction l as [|x l IH]; intros s Hstep [x0 [Hin Hraise]];
    [contradiction|].
  cbn [for_each].
  destruct (Hstep x s (or_introl eq_refl)) as [Hr|[s' Hs']].
  - now rewrite Hr.
  - rewrite Hs'. cbn [bind]. apply IH.
    + intros y t Hy. apply Hstep. now right.
    + destruct Hin as [Heq|Hin].
      * subst x0. rewrite Hraise in Hs'. discriminate.
      * exists x0. auto.
Qed.

Section BaselineStock.

Variable retro_rate : Q.
Variable aeo_years : list year.

Lemma base_turnover_init_existing (lifetime_baseline : year -> option Q) :
  forall (years : list year) (d : year -> Q),
    (forall yr, In yr years ->
                exists l, lifetime_baseline yr = Some l /\ 0 < l) ->
    exists d',
      for_each (base_turnover_init_year retro_rate lifetime_baseline)
               years d = Ok d' /\
      (forall y l, In y years -> lifetime_baseline y = Some l ->
                   d' y = 1 / l + retro_rate) /\
      (forall y, ~ In y years -> d' y = d y).
Proof.
  induction years as [|yr years IH]; intros d Hok.
  - exists d. split; [reflexivity|]. split; [|reflexivity].
    intros y l Hin. contradiction.
  - destruct (Hok yr (or_introl eq_refl)) as [l [Hl Hpos]].
    cbn [for_each]. unfold base_turnover_init_year at 1, get.
    rewrite Hl. cbn [bind].
    rewrite (FinanceFacts.py_div_nonzero _ _ (Qeq_bool_pos _ Hpos)).
    cbn [bind].
    destruct (IH (upd d yr (1 / l + retro_rate)))
      as [d' [Hrun [Hin Hout]]].
    { intros y Hy. apply Hok. now right. }
    exists d'. split; [exact Hrun|]. split.
    + intros y l' Hy Hl'.
      destruct (in_dec Z.eq_dec y years) as [Hrest|Hfresh].
      * now apply Hin.
      * destruct Hy as [Heq|Hy]; [|contradiction]. subst y.
        rewrite Hout by exact Hfresh.
        unfold upd. rewrite Z.eqb_refl. congruence.
    + intros y Hnot. rewrite Hout by (intros Hy; apply Hnot; now right).
      unfold upd. destruct (Z.eqb_spec y yr) as [->|_]; [|reflexivity].
      exfalso. apply Hnot. now left.
Qed.

(** What one year does to the rates: it raises when the lifetime rounds
    to zero and returns otherwise. *)
Lemma base_turnover_year_cases (new_segment : bool)
    (lifetime_baseline : year -> option Q) (new_stock_base_frac : year -> Q)
    (i : nat) (yr : year) (l : Q) (rt : year -> Q) :
  nth_error aeo_years i = Some yr ->
  lifetime_baseline yr = Some l ->
  (0 < l <= 1 # 2 ->
   base_turnover_year retro_rate aeo_years new_segment lifetime_baseline
     new_stock_base_frac rt (i, yr) = Raise ZeroDivisionError) /\
  (1 # 2 < l ->
   exists rt',
     base_turnover_year retro_rate aeo_years new_segment lifetime_baseline
       new_stock_base_frac rt (i, yr) = Ok rt').
Proof.
  intros Hi Hl.
  assert (Hlen : (i < length aeo_years)%nat)
    by (apply nth_error_Some; rewrite Hi; discriminate).
  unfold base_turnover_year, get. rewrite Hl. cbn [bind]. cbv zeta.
  split.
  - intros [Hpos Hhalf].
    rewrite (py_round_half l) by (split; lra).
    rewrite Z.add_0_r.
    destruct (Z.ltb_spec (Z.of_nat i) (Z.of_nat (length aeo_years)));
      [|lia].
    destruct new_segment; [|reflexivity].
    rewrite py_index_nat. unfold index. rewrite Hi. reflexivity.
  - intros Hlong. pose proof (py_round_positive l Hlong) as Hn.
    assert (Hnz : Qeq_bool (inject_Z (Lifetime.py_round l)) 0 = false).
    { apply Qeq_bool_pos. change 0 with (inject_Z 0).
      rewrite <- Zlt_Qlt. lia. }
    replace (Z.of_nat i + Lifetime.py_round l)%Z
      with (Z.of_nat (i + Z.to_nat (Lifetime.py_round l))) by lia.
    destruct (Z.ltb_spec
                (Z.of_nat (i + Z.to_nat (Lifetime.py_round l)))
                (Z.of_nat (length aeo_years))) as [Hin|Hout];
      [|eauto].
    rewrite py_index_nat, (FinanceFacts.py_div_nonzero _ _ Hnz).
    unfold index.
    destruct (nth_error aeo_years (i + Z.to_nat (Lifetime.py_round l)))
      eqn:E.
    + destruct new_segment; cbn [bind]; eauto.
    + apply nth_error_None in E. lia.
Qed.

Lemma base_turnover_year_existing (lifetime_baseline : year -> option Q)
    (new_stock_base_frac : year -> Q) :
  (forall yr, In yr aeo_years ->
              exists l, lifetime_baseline yr = Some l /\ 1 <= l) ->
  forall (i : nat) (yr : year) (rt : year -> Q),
    nth_error aeo_years i = Some yr ->
    exists n,
      option_map Lifetime.py_round (lifetime_baseline yr) = Some n /\
      base_turnover_year retro_rate aeo_years false lifetime_baseline
        new_stock_base_frac rt (i, yr)
      = Ok (match nth_error aeo_years (i + Z.to_nat n) with
            | Some y =>
                upd rt y
                  (match lifetime_baseline yr with
                   | Some l => 1 / inject_Z (Lifetime.py_round l) + retro_rate
                   | None => 0
                   end)
            | None => rt
            end).
Proof.
  intros Hok i yr rt Hi.
  destruct (Hok yr (nth_error_In _ _ Hi)) as [l [Hl Hlong]].
  exists (Lifetime.py_round l). rewrite Hl. split; [reflexivity|].
  assert (Hn : (1 <= Lifetime.py_round l)%Z)
    by (apply py_round_positive; lra).
  assert (Hnz : Qeq_bool (inject_Z (Lifetime.py_round l)) 0 = false).
  { apply Qeq_bool_pos. change 0 with (inject_Z 0).
    rewrite <- Zlt_Qlt. lia. }
  unfold base_turnover_year, get. rewrite Hl. cbn [bind]. cbv zeta.
  replace (Z.of_nat i + Lifetime.py_round l)%Z
    with (Z.of_nat (i + Z.to_nat (Lifetime.py_round l))) by lia.
  destruct (Z.ltb_spec
              (Z.of_nat (i + Z.to_nat (Lifetime.py_round l)))
              (Z.of_nat (length aeo_years))) as [Hin|Hout].
  - rewrite py_index_nat, (FinanceFacts.py_div_nonzero _ _ Hnz).
    cbn [bind]. unfold index.
    destruct (nth_error aeo_years (i + Z.to_nat (Lifetime.py_round l)))
      eqn:E; [reflexivity|].
    apply nth_error_None in E. lia.
  - destruct (nth_error aeo_years (i + Z.to_nat (Lifetime.py_round l)))
      eqn:E; [|reflexivity].
    assert (i + Z.to_nat (Lifetime.py_round l) < length aeo_years)%nat
      by (apply nth_error_Some; rewrite E; discriminate).
    lia.
Qed.

(** The turnover rate of the baseline stock of an existing stock segment,
    when the baseline lifetime is at least one year in every year of the
    horizon.  Nothing is raised.  The rate of a year of the horizon is
    [1 / round(lifetime) + retro_rate] for the last year whose stock,
    [round(lifetime)] positions later, turns over in it, and
    [1 / lifetime + retro_rate] at its own lifetime when no stock turns
    over in it; it is above the retrofit rate and at most
    [1 + retro_rate]. *)
Theorem base_turnover_rt_existing (lifetime_baseline : year -> option Q)
    (new_stock_add_frac new_stock_base_frac : year -> Q) :
  (forall yr, In yr aeo_years ->
              exists l, lifetime_baseline yr = Some l /\ 1 <= l) ->
  exists rt,
    base_turnover_rt retro_rate aeo_years false lifetime_baseline
      new_stock_add_frac new_stock_base_frac = Ok rt /\
    forall y, In y aeo_years ->
      turnover_upto
        (fun yr => option_map Lifetime.py_round (lifetime_baseline yr))
        aeo_years
        (fun yr => match lifetime_baseline yr with
                   | Some l => 1 / inject_Z (Lifetime.py_round l) + retro_rate
                   | None => 0
                   end)
        (length aeo_years)
        (fun yr => match lifetime_baseline yr with
                   | Some l => 1 / l + retro_rate
                   | None => 0
                   end)
        rt y /\
      retro_rate < rt y <= 1 + retro_rate.
Proof.
  intros Hok. unfold base_turnover_rt, base_turnover_init.
  destruct (base_turnover_init_existing lifetime_baseline aeo_years
              (fun _ => 0)) as [rt0 [Hinit [Hrt0 _]]].
  { intros yr Hin. destruct (Hok yr Hin) as [l [Hl Hlong]].
    exists l. split; [exact Hl | lra]. }
  rewrite Hinit. cbn [bind].
  destruct (turnover_loop
              (base_turnover_year retro_rate aeo_years false
                 lifetime_baseline new_stock_base_frac)
              aeo_years
              (fun yr => option_map Lifetime.py_round (lifetime_baseline yr))
              (fun yr => match lifetime_baseline yr with
                         | Some l =>
                             1 / inject_Z (Lifetime.py_round l) + retro_rate
                         | None => 0
                         end)
              (base_turnover_year_existing lifetime_baseline
                 new_stock_base_frac Hok)
              rt0) as [rt [Hrun Hlast]].
  exists rt. split; [exact Hrun|]. intros y Hy.
  destruct (Hok y Hy) as [l [Hl Hlong]].
  assert (Hone : 1 / 1 == 1) by reflexivity.
  destruct (Hlast y)
    as [[Hnone Hval]|[i [yr [n [Hi [Hyr [Hn [Htarget [Hval Hlater]]]]]]]]].
  - rewrite (Hrt0 y l Hy Hl) in Hval. split.
    + left. split; [exact Hnone|]. now rewrite Hl.
    + rewrite Hval.
      pose proof (inv_antitone 1 l ltac:(lra) Hlong). lra.
  - split.
    + right. exists i, yr, n. repeat (split; [assumption|]). assumption.
    + rewrite Hval.
      destruct (Hok yr (nth_error_In _ _ Hyr)) as [l' [Hl' Hlong']].
      rewrite Hl'.
      assert (Hround : 1 <= inject_Z (Lifetime.py_round l')).
      { change 1 with (inject_Z 1). rewrite <- Zle_Qle.
        apply py_round_positive. lra. }
      pose proof (inv_antitone 1 (inject_Z (Lifetime.py_round l'))
                    ltac:(lra) Hround).
      lra.
Qed.

(** A baseline lifetime of at most half a year rounds to zero, and the
    rate [1 / base_life] of the year then raises [ZeroDivisionError], for
    new and for existing stock: the floor of one year that
    [calc_savings_metrics] puts under a lifetime is not applied here. *)
Theorem base_turnover_rt_short_life (new_segment : bool)
    (lifetime_baseline : year -> option Q)
    (new_stock_add_frac new_stock_base_frac : year -> Q) :
  (forall yr, In yr aeo_years ->
              exists l, lifetime_baseline yr = Some l /\ 0 < l) ->
  (exists yr l, In yr aeo_years /\ lifetime_baseline yr = Some l /\
                l <= 1 # 2) ->
  base_turnover_rt retro_rate aeo_years new_segment lifetime_baseline
    new_stock_add_frac new_stock_base_frac = Raise ZeroDivisionError.
Proof.
  intros Hok [yr0 [l0 [Hin0 [Hl0 Hshort]]]]. unfold base_turnover_rt.
  assert (Hinit : exists rt0,
             base_turnover_init retro_rate aeo_years new_segment
               lifetime_baseline new_stock_add_frac = Ok rt0).
  { unfold base_turnover_init. destruct new_segment; [eauto|].
    destruct (base_turnover_init_existing lifetime_baseline aeo_years
                (fun _ => 0) Hok) as [rt0 [Hinit _]].
    eauto. }
  destruct Hinit as [rt0 Hinit]. rewrite Hinit. cbn [bind].
  apply for_each_raises.
  - intros [i yr] rt Hin. apply enumerate_In in Hin.
    destruct Hin as [_ Hi]. rewrite Nat.sub_0_r in Hi.
    destruct (Hok yr (nth_error_In _ _ Hi)) as [l [Hl Hpos]].
    destruct (base_turnover_year_cases new_segment lifetime_baseline
                new_stock_base_frac i yr l rt Hi Hl) as [Hzero Hsome].
    destruct (Qlt_le_dec (1 # 2) l) as [Hlong|Hhalf].
    + right. now apply Hsome.
    + left. apply Hzero. split; assumption.
  - destruct (In_nth_error _ _ Hin0) as [i Hi].
    exists (i, yr0). split.
    + apply (enumerate_nth aeo_years 0 i yr0 Hi).
    + intros rt.
      destruct (Hok yr0 Hin0) as [l [Hl Hpos]].
      assert (l = l0) by congruence. subst l.
      apply (base_turnover_year_cases new_segment lifetime_baseline
               new_stock_base_frac i yr0 l0 rt Hi Hl0).
      split; assumption.
Qed.

End BaselineStock.

Lemma base_turnover_rt_existing_witness :
  exists rt,
    base_turnover_rt (1 # 100) [2015; 2016; 2017]%Z false
      (fun _ => Some 2) (fun _ => 0) (fun _ => 0) = Ok rt /\
    forall y, In y [2015; 2016; 2017]%Z ->
      turnover_upto
        (fun yr => option_map Lifetime.py_round ((fun _ => Some 2) yr))
        [2015; 2016; 2017]%Z
        (fun yr => match (fun _ : year => Some 2) yr with
                   | Some l =>
                       1 / inject_Z (Lifetime.py_round l) + (1 # 100)
                   | None => 0
                   end)
        (length [2015; 2016; 2017]%Z)
        (fun yr => match (fun _ : year => Some 2) yr with
                   | Some l => 1 / l + (1 # 100)
                   | None => 0
                   end)
        rt y /\
      1 # 100 < rt y <= 1 + (1 # 100).
Proof.
  apply (base_turnover_rt_existing (1 # 100) [2015; 2016; 2017]%Z
           (fun _ => Some 2) (fun _ => 0) (fun _ => 0)).
  intros yr Hin. exists 2. split; [reflexivity | lra].
Defined.

Lemma base_turnover_rt_short_life_witness :
  base_turnover_rt (1 # 100) [2015; 2016; 2017]%Z true
    (fun yr => if (yr =? 2016)%Z then Some (2 # 5) else Some 12)
    (fun _ => 0) (fun _ => 0) = Raise ZeroDivisionError.
Proof.
  apply (base_turnover_rt_short_life (1 # 100) [2015; 2016; 2017]%Z true
           (fun yr => if (yr =? 2016)%Z then Some (2 # 5) else Some 12)
           (fun _ => 0) (fun _ => 0)).
  - intros yr Hin. destruct (yr =? 2016)%Z; eexists; split;
      try reflexivity; lra.
  - exists 2016%Z, (2 # 5). split; [cbn; auto|].
    split; [reflexivity | lra].
Defined.

(** ** The fractions of a new stock segment *)

Section NewStock.

Variable aeo_min aeo_max : Z.
Variable new_stock_tot : year -> option Q.
Variable tot : year -> Q.
Variable entry : Z.
Variable endyr : Q.

Hypothesis tot_keys :
  forall yr, (aeo_min <= yr <= aeo_max)%Z -> new_stock_tot yr = Some (tot yr).
Hypothesis entry_in : (aeo_min <= entry <= aeo_max)%Z.

(** One year of the horizon, at its position. *)
Lemma new_stock_year_step (add base : year -> Q) (k : nat) (y : Z) :
  (aeo_min <= y <= aeo_max)%Z -> Z.of_nat k = (y - aeo_min)%Z ->
  exists add' base',
    new_stock_year (py_range aeo_min (aeo_max + 1)) new_stock_tot entry
      endyr (add, base) (k, y) = Ok (add', base') /\
    (forall z, z <> y -> add' z = add z /\ base' z = base z) /\
    add' y = (if (y =? aeo_min)%Z then 1
              else if Qeq_bool (tot y) 0 then add y
              else (tot y - tot (y - 1)%Z) / tot y) /\
    base' y = (if (y =? aeo_min)%Z then base y
               else if Qeq_bool (tot y) 0 then base y
               else if Qltb (inject_Z y) endyr
                       && negb (entry =? aeo_min)%Z
                    then tot (entry - 1)%Z / tot y
                    else base y).
Proof.
  intros Hy Hk. unfold new_stock_year.
  assert (Hupd : forall (d : year -> Q) (v : Q) (z : year),
             z <> y -> upd d y v z = d z).
  { intros d v z Hz. unfold upd.
    destruct (Z.eqb_spec z y); [contradiction | reflexivity]. }
  assert (Hset : forall (d : year -> Q) (v : Q), upd d y v y = v).
  { intros d v. unfold upd. now rewrite Z.eqb_refl. }
  destruct (Z.eqb_spec y aeo_min) as [Hfirst|Hlater].
  - replace k with 0%nat by lia. cbn [Nat.eqb].
    eexists _, _. split; [reflexivity|].
    split; [intros z Hz; split; [now apply Hupd | reflexivity]|].
    split; [apply Hset | reflexivity].
  - destruct (Nat.eqb_spec k 0) as [Hzero|_]; [lia|].
    unfold get. rewrite (tot_keys y Hy). cbn [bind].
    destruct (Qeq_bool (tot y) 0) eqn:Hnone; cbn [negb].
    + eexists _, _. split; [reflexivity|].
      split; [intros z Hz; split; reflexivity|].
      split; reflexivity.
    + rewrite (tot_keys (y - 1)%Z) by lia. cbn [bind].
      destruct (Qltb (inject_Z y) endyr); cbn [andb].
      * rewrite (SavingsFacts.py_range_cons aeo_min (aeo_max + 1)) by lia.
        unfold index. cbn [nth_error bind].
        destruct (Z.eqb_spec entry aeo_min) as [Hat|Hafter]; cbn [negb].
        -- eexists _, _. split; [reflexivity|].
           split; [intros z Hz; split; [now apply Hupd | reflexivity]|].
           split; [apply Hset | reflexivity].
        -- rewrite (tot_keys (entry - 1)%Z) by lia. cbn [bind].
           eexists _, _. split; [reflexivity|].
           split; [intros z Hz; split; now apply Hupd|].
           split; apply Hset.
      * eexists _, _. split; [reflexivity|].
        split; [intros z Hz; split; [now apply Hupd | reflexivity]|].
        split; [apply Hset | reflexivity].
Qed.

(** The loop from the year [lo] on. *)
Lemma new_stock_years (n : nat) :
  forall (lo : Z) (k : nat) (add base : year -> Q),
    (aeo_min <= lo)%Z -> (lo + Z.of_nat n = aeo_max + 1)%Z ->
    Z.of_nat k = (lo - aeo_min)%Z ->
    exists add' base',
      for_each
        (new_stock_year (py_range aeo_min (aeo_max + 1)) new_stock_tot
           entry endyr)
        (enumerate k (py_range lo (aeo_max + 1))) (add, base)
      = Ok (add', base') /\
      (forall y, (y < lo)%Z \/ (aeo_max < y)%Z ->
                 add' y = add y /\ base' y = base y) /\
      (forall y, (lo <= y <= aeo_max)%Z ->
         add' y = (if (y =? aeo_min)%Z then 1
                   else if Qeq_bool (tot y) 0 then add y
                   else (tot y - tot (y - 1)%Z) / tot y) /\
         base' y = (if (y =? aeo_min)%Z then base y
                    else if Qeq_bool (tot y) 0 then base y
                    else if Qltb (inject_Z y) endyr
                            && negb (entry =? aeo_min)%Z
                         then tot (entry - 1)%Z / tot y
                         else base y)).
Proof.
  induction n as [|n IH]; intros lo k add base Hlo Hhi Hk.
  - rewrite (SavingsFacts.py_range_nil lo) by lia. cbn [enumerate for_each].
    exists add, base. split; [reflexivity|].
    split; [intros y Hy; split; reflexivity | intros y Hy; lia].
  - rewrite (SavingsFacts.py_range_cons lo) by lia. cbn [enumerate for_each].
    destruct (new_stock_year_step add base k lo)
      as [add1 [base1 [Hstep [Hother [Hadd Hbase]]]]]; [lia | exact Hk |].
    rewrite Hstep. cbn [bind].
    destruct (IH (lo + 1)%Z (S k) add1 base1)
      as [add' [base' [Hrun [Hkept Hvals]]]]; [lia | lia | lia |].
    exists add', base'. split; [exact Hrun|]. split.
    + intros y Hy.
      destruct (Hkept y) as [Ha Hb]; [lia|].
      destruct (Hother y) as [Ha1 Hb1]; [lia|].
      split; congruence.
    + intros y Hy. destruct (Z.eq_dec y lo) as [->|Hneq].
      * destruct (Hkept lo) as [Ha Hb]; [lia|].
        rewrite Ha, Hb. split; assumption.
      * destruct (Hvals y) as [Ha Hb]; [lia|].
        destruct (Hother y Hneq) as [Ha1 Hb1].
        rewrite Ha, Hb, Ha1, Hb1. split; reflexivity.
Qed.

End NewStock.

Lemma stock_chain (aeo_min aeo_max : Z) (tot : year -> Q) :
  (forall yr, (aeo_min < yr <= aeo_max)%Z -> 0 <= tot (yr - 1)%Z <= tot yr) ->
  forall (n : nat) (a : Z),
    (aeo_min <= a)%Z -> (a + Z.of_nat n <= aeo_max)%Z ->
    tot a <= tot (a + Z.of_nat n)%Z.
Proof.
  intros Hgrow. induction n as [|n IH]; intros a Ha Hb.
  - rewrite Z.add_0_r. lra.
  - specialize (IH a Ha ltac:(lia)).
    destruct (Hgrow (a + Z.of_nat (S n))%Z ltac:(lia)) as [_ Hstep].
    replace (a + Z.of_nat (S n) - 1)%Z with (a + Z.of_nat n)%Z in Hstep
      by lia.
    lra.
Qed.

(** The fractions of a new stock segment over the horizon
    [range(aeo_min, aeo_max + 1)], when the first measure enters the
    market within the horizon, the total new stock has every year of the
    horizon and the baseline lifetime the entry year, and the total new
    stock is not negative and never shrinks.  Nothing is raised.  The
    fraction added is 1 in the first year, lies between 0 and 1, and times
    the stock of a later year it is the growth of the stock over the year
    before.  The fraction captured by the baseline technology lies between
    0 and 1 from the year before market entry on, and is 0 from two
    baseline lifetimes after market entry on and throughout when the
    measure is on the market in the first year. *)
Theorem new_stock_fracs_bounded (aeo_min aeo_max : Z)
    (new_stock_tot lifetime_baseline : year -> option Q)
    (mkt_entry_yrs : list Z) (tot : year -> Q) (entry : Z) (life : Q) :
  py_min mkt_entry_yrs = Ok entry ->
  (aeo_min <= entry <= aeo_max)%Z ->
  lifetime_baseline entry = Some life ->
  (forall yr, (aeo_min <= yr <= aeo_max)%Z ->
              new_stock_tot yr = Some (tot yr)) ->
  (forall yr, (aeo_min < yr <= aeo_max)%Z -> 0 <= tot (yr - 1)%Z <= tot yr) ->
  exists add base,
    new_stock_fracs (py_range aeo_min (aeo_max + 1)) new_stock_tot
      lifetime_baseline mkt_entry_yrs = Ok (add, base) /\
    add aeo_min = 1 /\
    forall yr,
      0 <= add yr <= 1 /\
      ((aeo_min < yr <= aeo_max)%Z ->
       add yr * tot yr == tot yr - tot (yr - 1)%Z) /\
      ((entry - 1 <= yr)%Z -> 0 <= base yr <= 1) /\
      (inject_Z entry + 2 * life <= inject_Z yr -> base yr = 0) /\
      (entry = aeo_min -> base yr = 0).
Proof.
  intros Hmin Hentry Hlife Hkeys Hgrow.
  unfold new_stock_fracs, get. rewrite Hmin. cbn [bind].
  rewrite Hlife. cbn [bind].
  destruct (new_stock_years aeo_min aeo_max new_stock_tot tot entry
              (inject_Z entry + 2 * life) Hkeys Hentry
              (Z.to_nat (aeo_max + 1 - aeo_min)) aeo_min 0
              (fun _ => 0) (fun _ => 0))
    as [add [base [Hrun [Hout Hvals]]]]; [lia | lia | lia |].
  exists add, base. split; [exact Hrun|]. split.
  { destruct (Hvals aeo_min) as [Ha _]; [lia|].
    now rewrite Z.eqb_refl in Ha. }
  intros yr.
  destruct (Z_lt_le_dec yr aeo_min) as [Hbefore|Hfrom].
  { destruct (Hout yr) as [Ha Hb]; [lia|]. rewrite Ha, Hb.
    split; [lra|]. split; [lia|]. split; [lra|]. split; reflexivity. }
  destruct (Z_lt_le_dec aeo_max yr) as [Hafter|Hupto].
  { destruct (Hout yr) as [Ha Hb]; [lia|]. rewrite Ha, Hb.
    split; [lra|]. split; [lia|]. split; [lra|]. split; reflexivity. }
  destruct (Hvals yr) as [Ha Hb]; [lia|]. rewrite Ha, Hb.
  destruct (Z.eqb_spec yr aeo_min) as [Hfirst|Hlater].
  { split; [lra|]. split; [lia|]. split; [lra|]. split; reflexivity. }
  destruct (Hgrow yr ltac:(lia)) as [Hprev Hstep].
  destruct (Qeq_bool (tot yr) 0) eqn:Hzero.
  { apply Qeq_bool_iff in Hzero.
    split; [lra|]. split; [intros _; lra|]. split; [lra|].
    split; reflexivity. }
  assert (Hpos : 0 < tot yr).
  { destruct (Qlt_le_dec 0 (tot yr)) as [Hp|Hn]; [exact Hp|].
    assert (Heq : tot yr == 0) by lra.
    apply Qeq_bool_iff in Heq. congruence. }
  split.
  { split.
    - apply Qle_shift_div_l; [exact Hpos | lra].
    - apply Qle_shift_div_r; [exact Hpos | lra]. }
  split; [intros _; field; lra|].
  destruct (Qltb (inject_Z yr) (inject_Z entry + 2 * life)) eqn:Hend;
    cbn [andb].
  - destruct (Z.eqb_spec entry aeo_min) as [Hat|Hafter]; cbn [negb].
    + split; [lra|]. split; reflexivity.
    + split.
      * intros Hyr.
        destruct (Hgrow entry ltac:(lia)) as [Hbefore _].
        pose proof (stock_chain aeo_min aeo_max tot Hgrow
                      (Z.to_nat (yr - (entry - 1))) (entry - 1)%Z
                      ltac:(lia) ltac:(lia)) as Hchain.
        replace (entry - 1 + Z.of_nat (Z.to_nat (yr - (entry - 1))))%Z
          with yr in Hchain by lia.
        split.
        -- apply Qle_shift_div_l; [exact Hpos | lra].
        -- apply Qle_shift_div_r; [exact Hpos | lra].
      * split; [|intros Hat; contradiction].
        intros Hlate. apply FinanceFacts.Qltb_true in Hend. lra.
  - split; [lra|]. split; reflexivity.
Qed.

Lemma new_stock_fracs_bounded_witness :
  exists add base,
    new_stock_fracs (py_range 2015 (2017 + 1))
      (fun yr => Some (inject_Z (yr - 2000)))
      (fun _ => Some 12) [2016; 2017]%Z = Ok (add, base) /\
    add 2015%Z = 1 /\
    forall yr,
      0 <= add yr <= 1 /\
      ((2015 < yr <= 2017)%Z ->
       add yr * inject_Z (yr - 2000)
       == inject_Z (yr - 2000) - inject_Z (yr - 1 - 2000)) /\
      ((2016 - 1 <= yr)%Z -> 0 <= base yr <= 1) /\
      (inject_Z 2016 + 2 * 12 <= inject_Z yr -> base yr = 0) /\
      (2016%Z = 2015%Z -> base yr = 0).
Proof.
  apply (new_stock_fracs_bounded 2015 2017
           (fun yr => Some (inject_Z (yr - 2000)))
           (fun _ => Some 12) [2016; 2017]%Z
           (fun yr => inject_Z (yr - 2000)) 2016 12).
  - reflexivity.
  - lia.
  - reflexivity.
  - reflexivity.
  - intros yr Hyr. split.
    + change 0 with (inject_Z 0). rewrite <- Zle_Qle. lia.
    + rewrite <- Zle_Qle. lia.
Defined.

End TurnoverFacts.

(** * Totals across all measures *)

Module SummaryFacts.

Import Competition Summary.

Local Open Scope Q_scope.

Lemma Qsum_map_sub {X : Type} (f g : X -> Q) (l : list X) :
  Qsum (map (fun x => f x - g x) l) == Qsum (map f l) - Qsum (map g l).
Proof.
  induction l as [|x l IH]; cbn [map].
  - unfold Qsum. cbn. ring.
  - rewrite !CompetitionFacts.Qsum_cons, IH. ring.
Qed.

Lemma add_summary_spec (all vals : list (year -> Q)) :
  length all = 12%nat -> length vals = 12%nat ->
  exists all',
    add_summary all vals = Ok all' /\ length all' = 12%nat /\
    forall (v : nat) (yr : year), (v < 12)%nat ->
      nth v all' (fun _ => 0) yr
      = nth v all (fun _ => 0) yr + nth v vals (fun _ => 0) yr.
Proof.
  intros Hall Hvals.
  do 12 (destruct all as [|? all]; [discriminate|]).
  destruct all; [|discriminate].
  do 12 (destruct vals as [|? vals]; [discriminate|]).
  destruct vals; [|discriminate].
  eexists. split; [reflexivity|]. split; [reflexivity|].
  intros v yr Hv.
  do 12 (destruct v as [|v]; [reflexivity|]). lia.
Qed.

Lemma summary_vals_length (m : ecm) : length (summary_vals m) = 12%nat.
Proof. reflexivity. Qed.

(** The loop over the measures adds, entry by entry, what the measures
    have. *)
Lemma summary_loop (measures : list ecm) :
  forall all : list (year -> Q),
    length all = 12%nat ->
    exists all',
      Turnover.for_each (fun all m => add_summary all (summary_vals m))
        measures all = Ok all' /\
      length all' = 12%nat /\
      forall (v : nat) (yr : year), (v < 12)%nat ->
        nth v all' (fun _ => 0) yr
        == nth v all (fun _ => 0) yr
           + Qsum (map (fun m => nth v (summary_vals m) (fun _ => 0) yr)
                       measures).
Proof.
  induction measures as [|m measures IH]; intros all Hall.
  - exists all. split; [reflexivity|]. split; [exact Hall|].
    intros v yr Hv. cbn [map]. unfold Qsum. cbn [fold_left]. ring.
  - cbn [Turnover.for_each].
    destruct (add_summary_spec all (summary_vals m) Hall
                (summary_vals_length m)) as [all1 [Hadd [Hlen1 Hval1]]].
    rewrite Hadd. cbn [bind].
    destruct (IH all1 Hlen1) as [all' [Hrun [Hlen' Hval']]].
    exists all'. split; [exact Hrun|]. split; [exact Hlen'|].
    intros v yr Hv. rewrite (Hval' v yr Hv), (Hval1 v yr Hv).
    cbn [map]. rewrite CompetitionFacts.Qsum_cons. ring.
Qed.

(** The totals across all measures that [finalize_outputs] reports after
    [calc_savings_metrics] has recorded the competed savings of every
    measure: each of the eight baseline and efficient totals (energy,
    carbon, energy cost, carbon cost) is the sum over the measures of the
    master value, and the total savings of energy, energy cost, carbon and
    carbon cost are the baseline total minus the efficient total, in every
    year.  The totals are computed without an
    error for every list of measures. *)
Theorem finalize_totals_consistent (markets : list mseg) :
  exists t,
    finalize_totals (map competed markets) = Ok t /\
    forall yr,
      energy_base_all t yr
      == Qsum (map (fun mk => vals mk Energy Total Baseline yr) markets) /\
      carb_base_all t yr
      == Qsum (map (fun mk => vals mk Carbon Total Baseline yr) markets) /\
      energy_cost_base_all t yr
      == Qsum (map (fun mk => vals mk CostEnergy Total Baseline yr)
                   markets) /\
      carb_cost_base_all t yr
      == Qsum (map (fun mk => vals mk CostCarbon Total Baseline yr)
                   markets) /\
      energy_eff_all t yr
      == Qsum (map (fun mk => vals mk Energy Total Efficient yr) markets) /\
      carb_eff_all t yr
      == Qsum (map (fun mk => vals mk Carbon Total Efficient yr) markets) /\
      energy_cost_eff_all t yr
      == Qsum (map (fun mk => vals mk CostEnergy Total Efficient yr)
                   markets) /\
      carb_cost_eff_all t yr
      == Qsum (map (fun mk => vals mk CostCarbon Total Efficient yr)
                   markets) /\
      energy_save_all t yr == energy_base_all t yr - energy_eff_all t yr /\
      energy_costsave_all t yr
      == energy_cost_base_all t yr - energy_cost_eff_all t yr /\
      carb_save_all t yr == carb_base_all t yr - carb_eff_all t yr /\
      carb_costsave_all t yr
      == carb_cost_base_all t yr - carb_cost_eff_all t yr.
Proof.
  unfold finalize_totals, summary_vals_all_ecms.
  destruct (summary_loop (map competed markets) (repeat (fun _ => 0) 12)
              eq_refl) as [all [Hrun [Hlen Hval]]].
  rewrite Hrun. cbn [bind].
  do 12 (destruct all as [|? all]; [discriminate|]).
  destruct all; [|discriminate].
  eexists. split; [reflexivity|]. intros yr.
  cbn [energy_base_all carb_base_all energy_cost_base_all
       carb_cost_base_all energy_eff_all carb_eff_all energy_cost_eff_all
       carb_cost_eff_all energy_save_all energy_costsave_all carb_save_all
       carb_costsave_all].
  assert (Hentry : forall v, (v < 12)%nat ->
            nth v [q; q0; q1; q2; q3; q4; q5; q6; q7; q8; q9; q10]
              (fun _ => 0) yr
            == Qsum (map (fun mk =>
                            nth v (summary_vals (competed mk)) (fun _ => 0)
                              yr) markets)).
  { intros v Hv. rewrite (Hval v yr Hv), map_map.
    replace (nth v (repeat (fun _ : year => 0) 12) (fun _ => 0) yr)
      with 0.
    - ring.
    - do 12 (destruct v as [|v]; [reflexivity|]). lia. }
  pose proof (Hentry 0%nat ltac:(lia)) as H0.
  pose proof (Hentry 1%nat ltac:(lia)) as H1.
  pose proof (Hentry 2%nat ltac:(lia)) as H2.
  pose proof (Hentry 3%nat ltac:(lia)) as H3.
  pose proof (Hentry 4%nat ltac:(lia)) as H4.
  pose proof (Hentry 5%nat ltac:(lia)) as H5.
  pose proof (Hentry 6%nat ltac:(lia)) as H6.
  pose proof (Hentry 7%nat ltac:(lia)) as H7.
  pose proof (Hentry 8%nat ltac:(lia)) as H8.
  pose proof (Hentry 9%nat ltac:(lia)) as H9.
  pose proof (Hentry 10%nat ltac:(lia)) as H10.
  pose proof (Hentry 11%nat ltac:(lia)) as H11.
  cbn [nth summary_vals competed mkts save recorded_savings
       energy_savings_total energy_cost_savings_total carbon_savings_total
       carbon_cost_savings_total] in H0, H1, H2, H3, H4, H5, H6, H7, H8, H9,
       H10, H11.
  rewrite Qsum_map_sub in H8, H9, H10, H11.
  split; [exact H0|]. split; [exact H1|]. split; [exact H2|].
  split; [exact H3|]. split; [exact H4|]. split; [exact H5|].
  split; [exact H6|]. split; [exact H7|].
  split; [rewrite H8, H0, H4; reflexivity|].
  split; [rewrite H9, H2, H6; reflexivity|].
  split; [rewrite H10, H1, H5; reflexivity|].
  rewrite H11, H3, H7. reflexivity.
Qed.

End SummaryFacts.

(** * The active measures and the energy output *)

Module SetupFacts.

Import Setup.

Local Open Scope string_scope.

Lemma str_in_In (x : string) (l : list string) :
  Finance.str_in x l = true <-> In x l.
Proof.
  unfold Finance.str_in. rewrite existsb_exists. split.
  - intros [y [Hin Heq]]. apply String.eqb_eq in Heq. now subst.
  - intros Hin. exists x. split; [exact Hin | apply String.eqb_refl].
Qed.

Lemma site_energy_returns (m : meas) (v : pyval) :
  site_energy m = Returns v ->
  exists captured, energy_outputs m = Some (v, captured).
Proof.
  unfold site_energy. destruct (energy_outputs m) as [[site captured]|];
    [|discriminate].
  intros [= <-]. now exists captured.
Qed.

Lemma captured_energy_ss_returns (m : meas) (v : pyval) :
  captured_energy_ss m = Returns v ->
  exists site, energy_outputs m = Some (site, v).
Proof.
  unfold captured_energy_ss.
  destruct (energy_outputs m) as [[site captured]|]; [|discriminate].
  intros [= <-]. now exists site.
Qed.

(** When [all] of a comprehension over an attribute returns [True], every
    measure has the attribute, with the wanted value. *)
Lemma all_are_true (attr : meas -> outcome pyval) (want : pyval -> bool)
    (l : list meas) :
  all_are attr want l = Returns true ->
  forall m, In m l -> exists v, attr m = Returns v /\ want v = true.
Proof.
  unfold all_are. induction l as [|x l IH]; intros Hall m Hin;
    [contradiction|].
  cbn [comprehension and_then] in Hall.
  destruct (attr x) as [v|e] eqn:Hx; cbn [and_then] in Hall;
    [|discriminate].
  destruct (comprehension _ l) as [vs|e] eqn:Hrest; cbn [and_then] in Hall;
    [|discriminate].
  injection Hall as Hall. cbn [forallb] in Hall.
  apply andb_true_iff in Hall. destruct Hall as [Hv Hvs].
  destruct Hin as [<-|Hin].
  - exists v. split; [exact Hx | exact Hv].
  - apply IH; [|exact Hin]. cbn [and_then]. now rewrite Hvs.
Qed.

Lemma consistent_returns (attr : meas -> outcome pyval) (l : list meas) :
  consistent attr l = Returns tt ->
  (forall m, In m l -> exists v, attr m = Returns v /\ is_True v = true) \/
  (forall m, In m l -> exists v, attr m = Returns v /\ is_False v = true).
Proof.
  unfold consistent.
  destruct (all_are attr is_True l) as [[|]|e] eqn:Htrue;
    cbn [and_then]; [| |discriminate].
  - intros _. left. now apply all_are_true.
  - destruct (all_are attr is_False l) as [[|]|e] eqn:Hfalse;
      cbn [and_then]; [|discriminate|discriminate].
    intros _. right. now apply all_are_true.
Qed.

Lemma check_units_returns (l : list meas) :
  check_units l = Returns tt ->
  consistent site_energy l = Returns tt /\
  consistent captured_energy_ss l = Returns tt.
Proof.
  unfold check_units.
  destruct (consistent site_energy l) as [[]|e]; cbn [and_then].
  - destruct (consistent captured_energy_ss l) as [[]|e].
    + auto.
    + destruct e as [e|]; discriminate.
  - destruct e as [e|]; discriminate.
Qed.

Lemma is_True_eq (v : pyval) : is_True v = true -> v = PyTrue.
Proof. destruct v; [reflexivity | discriminate | discriminate]. Qed.

Lemma is_False_eq (v : pyval) : is_False v = true -> v = PyFalse.
Proof. destruct v; [discriminate | reflexivity | discriminate]. Qed.

(** When [main] gets past its checks, the energy output it read off the
    first measure holds for every measure it simulates: there is at least
    one, and either all of them were prepared with site energy and the
    output is "site", or none was and all use the captured energy
    site-source conversion and the output is "captured", or none was and
    none does and the output is "fossil_equivalent". *)
Theorem select_energy_output (active_ecms_w_jsons : nat)
    (active_meas_all : list string) (meas_summary measures : list meas)
    (energy_out : string) :
  select active_ecms_w_jsons active_meas_all meas_summary
  = Returns (measures, energy_out) ->
  measures <> [] /\
  ((energy_out = "site" /\
    forall m, In m measures ->
      exists captured, energy_outputs m = Some (PyTrue, captured)) \/
   (energy_out = "captured" /\
    forall m, In m measures -> energy_outputs m = Some (PyFalse, PyTrue)) \/
   (energy_out = "fossil_equivalent" /\
    forall m, In m measures -> energy_outputs m = Some (PyFalse, PyFalse))).
Proof.
  unfold select. destruct (active_ecms_w_jsons =? 0)%nat; [discriminate|].
  cbv zeta.
  set (l := filter _ meas_summary).
  destruct (check_units l) as [[]|e] eqn:Hcheck; cbn [and_then];
    [|discriminate].
  destruct (energy_output l) as [out|e] eqn:Hout; cbn [and_then];
    [|discriminate].
  intros Heq. injection Heq as Hl Hout'. subst measures energy_out.
  apply check_units_returns in Hcheck. destruct Hcheck as [Hsite Hcapt].
  apply consistent_returns in Hsite. apply consistent_returns in Hcapt.
  destruct l as [|first rest]; [discriminate|].
  split; [discriminate|].
  assert (Hfirst : In first (first :: rest)) by now left.
  assert (Hall_site :
            forall want : pyval,
              (forall m, In m (first :: rest) ->
                 exists v, site_energy m = Returns v /\ v = want) ->
              forall m, In m (first :: rest) ->
                exists captured, energy_outputs m = Some (want, captured)).
  { intros want Hall m Hm. destruct (Hall m Hm) as [v [Hv ->]].
    now apply site_energy_returns. }
  assert (Hall_capt :
            forall want : pyval,
              (forall m, In m (first :: rest) ->
                 exists v, captured_energy_ss m = Returns v /\ v = want) ->
              forall m, In m (first :: rest) ->
                exists site, energy_outputs m = Some (site, want)).
  { intros want Hall m Hm. destruct (Hall m Hm) as [v [Hv ->]].
    now apply captured_energy_ss_returns. }
  assert (Hsite' :
            (forall m, In m (first :: rest) ->
               exists c, energy_outputs m = Some (PyTrue, c)) \/
            (forall m, In m (first :: rest) ->
               exists c, energy_outputs m = Some (PyFalse, c))).
  { destruct Hsite as [Ht|Hf]; [left|right]; apply Hall_site;
      intros m Hm.
    - destruct (Ht m Hm) as [v [Hv Hw]]. exists v.
      split; [exact Hv | now apply is_True_eq].
    - destruct (Hf m Hm) as [v [Hv Hw]]. exists v.
      split; [exact Hv | now apply is_False_eq]. }
  assert (Hcapt' :
            (forall m, In m (first :: rest) ->
               exists s, energy_outputs m = Some (s, PyTrue)) \/
            (forall m, In m (first :: rest) ->
               exists s, energy_outputs m = Some (s, PyFalse))).
  { destruct Hcapt as [Ht|Hf]; [left|right]; apply Hall_capt;
      intros m Hm.
    - destruct (Ht m Hm) as [v [Hv Hw]]. exists v.
      split; [exact Hv | now apply is_True_eq].
    - destruct (Hf m Hm) as [v [Hv Hw]]. exists v.
      split; [exact Hv | now apply is_False_eq]. }
  clear Hsite Hcapt Hall_site Hall_capt.
  cbn [energy_output] in Hout. unfold site_energy, captured_energy_ss in Hout.
  destruct Hsite' as [Hs|Hs].
  - destruct (Hs first Hfirst) as [c Hc]. rewrite Hc in Hout.
    cbn [and_then is_True] in Hout. injection Hout as <-.
    left. split; [reflexivity | exact Hs].
  - destruct (Hs first Hfirst) as [c Hc]. rewrite Hc in Hout.
    cbn [and_then is_True] in Hout.
    destruct Hcapt' as [Hk|Hk].
    + destruct (Hk first Hfirst) as [s Hs0].
      assert (c = PyTrue) by congruence. subst c.
      cbn [is_True] in Hout. injection Hout as <-.
      right. left. split; [reflexivity|]. intros m Hm.
      destruct (Hs m Hm) as [c Hc']. destruct (Hk m Hm) as [s' Hs'].
      congruence.
    + destruct (Hk first Hfirst) as [s Hs0].
      assert (c = PyFalse) by congruence. subst c.
      cbn [is_True] in Hout. injection Hout as <-.
      right. right. split; [reflexivity|]. intros m Hm.
      destruct (Hs m Hm) as [c Hc']. destruct (Hk m Hm) as [s' Hs'].
      congruence.
Qed.

Lemma select_energy_output_witness :
  [ {| name := "a"; remove := PyFalse;
       energy_outputs := Some (PyFalse, PyTrue) |};
    {| name := "b"; remove := PyFalse;
       energy_outputs := Some (PyFalse, PyTrue) |} ] <> [] /\
  (("captured" = "site" /\
    forall m,
      In m [ {| name := "a"; remove := PyFalse;
                energy_outputs := Some (PyFalse, PyTrue) |};
             {| name := "b"; remove := PyFalse;
                energy_outputs := Some (PyFalse, PyTrue) |} ] ->
      exists captured, energy_outputs m = Some (PyTrue, captured)) \/
   ("captured" = "captured" /\
    forall m,
      In m [ {| name := "a"; remove := PyFalse;
                energy_outputs := Some (PyFalse, PyTrue) |};
             {| name := "b"; remove := PyFalse;
                energy_outputs := Some (PyFalse, PyTrue) |} ] ->
      energy_outputs m = Some (PyFalse, PyTrue)) \/
   ("captured" = "fossil_equivalent" /\
    forall m,
      In m [ {| name := "a"; remove := PyFalse;
                energy_outputs := Some (PyFalse, PyTrue) |};
             {| name := "b"; remove := PyFalse;
                energy_outputs := Some (PyFalse, PyTrue) |} ] ->
      energy_outputs m = Some (PyFalse, PyFalse))).
Proof.
  apply (select_energy_output 2 ["a"; "b"; "c"]
           [ {| name := "a"; remove := PyFalse;
                energy_outputs := Some (PyFalse, PyTrue) |};
             {| name := "d"; remove := PyFalse;
                energy_outputs := Some (PyTrue, PyTrue) |};
             {| name := "b"; remove := PyFalse;
                energy_outputs := Some (PyFalse, PyTrue) |};
             {| name := "c"; remove := PyTrue;
                energy_outputs := None |} ]).
  reflexivity.
Defined.

Lemma count_active_from (names : list string) (l : list string) :
  forall n : nat,
    fold_left
      (fun count mn =>
         if negb (Finance.str_in mn names) then count else S count)
      l n
    = (n + length (filter (fun mn => Finance.str_in mn names) l))%nat.
Proof.
  induction l as [|mn l IH]; intros n; cbn [fold_left filter].
  - cbn [length]. lia.
  - rewrite IH. destruct (Finance.str_in mn names); cbn [negb length]; lia.
Qed.

(** When some active name has a definition but every active definition
    is marked for removal, [main] does not raise its [ValueError] for a
    run without active measures: it builds an empty list of measures,
    which passes the checks of the energy units, and raises [IndexError]
    at [measures_objlist[0]]. *)
Theorem main_select_all_removed (active_meas_all : list string)
    (meas_summary : list meas) :
  (exists mn, In mn active_meas_all /\ In mn (map name meas_summary)) ->
  (forall m, In m meas_summary -> In (name m) active_meas_all ->
             remove m <> PyFalse) ->
  main_select active_meas_all meas_summary = Raises (Builtin IndexError).
Proof.
  intros [mn [Hactive Hdefined]] Hremoved.
  unfold main_select, select, count_active.
  rewrite count_active_from. cbn [Nat.add].
  assert (Hcount :
            filter (fun mn => Finance.str_in mn (map name meas_summary))
                   active_meas_all <> []).
  { intros Hnil.
    assert (Hin : In mn (filter
                           (fun mn =>
                              Finance.str_in mn (map name meas_summary))
                           active_meas_all)).
    { apply filter_In. split; [exact Hactive|]. now apply str_in_In. }
    rewrite Hnil in Hin. contradiction. }
  destruct (filter (fun mn => Finance.str_in mn (map name meas_summary))
                   active_meas_all) as [|x rest]; [congruence|].
  cbn [length Nat.eqb]. cbv zeta.
  assert (Hnone :
            filter (fun m => Finance.str_in (name m) active_meas_all
                             && is_False (remove m)) meas_summary = []).
  { clear Hdefined. induction meas_summary as [|m l IH]; [reflexivity|].
    cbn [filter].
    assert (Hm : Finance.str_in (name m) active_meas_all
                 && is_False (remove m) = false).
    { destruct (Finance.str_in (name m) active_meas_all) eqn:Hin;
        [|reflexivity].
      apply str_in_In in Hin. cbn [andb].
      pose proof (Hremoved m (or_introl eq_refl) Hin) as Hrm.
      destruct (remove m); [reflexivity | congruence | reflexivity]. }
    rewrite Hm. apply IH. intros m' Hm' Hact. apply Hremoved; [|exact Hact].
    now right. }
  rewrite Hnone. reflexivity.
Qed.

Lemma main_select_all_removed_witness :
  main_select ["a"; "b"]
    [ {| name := "a"; remove := PyTrue;
         energy_outputs := Some (PyTrue, PyFalse) |};
      {| name := "c"; remove := PyFalse;
         energy_outputs := Some (PyTrue, PyFalse) |} ]
  = Raises (Builtin IndexError).
Proof.
  apply (main_select_all_removed ["a"; "b"]
           [ {| name := "a"; remove := PyTrue;
                energy_outputs := Some (PyTrue, PyFalse) |};
             {| name := "c"; remove := PyFalse;
                energy_outputs := Some (PyTrue, PyFalse) |} ]).
  - exists "a". split; cbn; auto.
  - intros m [<-|[<-|[]]] Hact; cbn in *.
    + discriminate.
    + destruct Hact as [H|[H|[]]]; discriminate.
Defined.

End SetupFacts.
